(** * evasive-button: a shallow embedding of [makeEvasive] and its properties

    The controller of the repository is one closure: a mutable [state]
    object, four stored handles, a taunt queue, and the event handlers and
    animation callbacks that mutate them.  Here every handler is a function
    from world to world, written in the order of the source statements.

    Numbers.  A JavaScript number is an IEEE-754 binary64 value.  The
    controller is written once over the interface [Number] and used at two
    instances: [FloatNumber], the kernel's binary64 floats, on which every
    definition evaluates; and [RealNumber], the real numbers, which only
    the exact-arithmetic conjuncts of the two statements about the
    detection radius use.  Every other statement is about binary64 or
    holds for every instance.

    Host.  The browser owns the clock, the timer and animation-frame queues,
    layout and randomness.  Timers and frames are kept as explicit pending
    lists; what the handlers read from the host ([getBoundingClientRect],
    [window.innerWidth], [Math.random], frame timestamps) arrives with the
    event.  Style writes that the controller never reads back (wrapper and
    shadow position, opacity, transitions) are left out; the timers that
    accompany them are kept. *)

From Stdlib Require Import ZArith Bool String List Lia Lra Psatz Reals Permutation.
From Stdlib Require Import Floats.
From Stdlib Require Uint63.
Import ListNotations.

Set Implicit Arguments.

(** ** Numbers *)

Declare Scope js_scope.
Delimit Scope js_scope with js.

Class Number (num : Type) : Type := {
  ofZ : Z -> num;               (* an integer literal *)
  add : num -> num -> num;
  sub : num -> num -> num;
  mul : num -> num -> num;
  div : num -> num -> num;
  neg : num -> num;             (* unary minus *)
  ltb : num -> num -> bool;     (* a < b *)
  leb : num -> num -> bool;     (* a <= b *)
  Math_sqrt : num -> num;
  Math_cos : num -> num;
  Math_sin : num -> num;
  Math_PI : num;
  Math_max : num -> num -> num;
  Math_min : num -> num -> num;
  truthy : num -> bool          (* ToBoolean: false on 0, -0 and NaN *)
}.

Notation "x + y" := (add x y) : js_scope.
Notation "x - y" := (sub x y) : js_scope.
Notation "x * y" := (mul x y) : js_scope.
Notation "x / y" := (div x y) : js_scope.
Notation "- x" := (neg x) : js_scope.
Notation "x <? y" := (ltb x y) (at level 70, no associativity) : js_scope.
Notation "x <=? y" := (leb x y) (at level 70, no associativity) : js_scope.
Notation "x >? y" := (ltb y x) (at level 70, no associativity) : js_scope.

(** A decimal literal [n/d] with both parts small integers: [0.18] is
    [dec 18 100].  On binary64 the correctly rounded quotient of two exactly
    represented integers is the double nearest to the decimal, which is what
    the literal denotes. *)
Definition dec {num} `{Number num} (n d : Z) : num := (ofZ n / ofZ d)%js.

(** Timer and animation-frame handles are positive integers. *)
Abbreviation handle := nat (only parsing).

(** ** The state object and the options *)

Section Controller.

Context {num : Type} `{Number num}.
Local Open Scope js_scope.

#[projections(primitive)]
Record State : Type := {
  currentX : num;
  currentY : num;
  velocityX : num;
  velocityY : num;
  targetX : num;
  targetY : num;
  isReturning : bool;
  isJumping : bool;
  isCaught : bool;
  z : num;
  zVelocity : num;
  jumpStartX : num;
  jumpStartY : num;
  jumpTargetX : num;
  jumpTargetY : num;
  lastJumpTime : num;
  lastTauntTime : num
}.

Record Options : Type := {
  detectionRadius : num;
  escapeDistance : num;
  edgePadding : num;
  taunts : list string;
  tauntProbability : num;
  showShadow : bool;
  screenShake : bool;
  onEscape : bool;              (* is the callback given? *)
  onCatch : bool;
  caughtText : string;
  caughtDuration : Z            (* milliseconds, as [setTimeout] takes them *)
}.

(** Physics constants *)
Definition GRAVITY : num := ofZ 3200.
Definition JUMP_VELOCITY : num := ofZ 850.
Definition HORIZONTAL_LERP : num := dec 18 100.
Definition SPRING_TENSION : num := ofZ 120.
Definition SPRING_FRICTION : num := ofZ 28.

(** ** The host: handles, pending timers and frames *)


Inductive TimerCallback : Type :=
| HideTaunt          (* showTaunt: remove 'visible' after 1200 *)
| ReturnTimer        (* () => returnToCenter(), stored in returnTimeout *)
| ShadowFade         (* landing: fade the shadow after 200 *)
| LandingDone        (* landing: remove 'landing' after 200 *)
| CaughtReturn       (* click: returnToCenter and fade after 600 *)
| CaughtRestore.     (* click: restore the content after caughtDuration *)

Inductive FrameCallback : Type :=
| SpringFrame        (* requestAnimationFrame(springAnimate) *)
| JumpFrame.         (* requestAnimationFrame(jumpAnimate) *)

#[projections(primitive)]
Record World : Type := {
  (* the closure of makeEvasive *)
  state : State;
  animationFrame : option handle;
  jumpAnimFrame : option handle;
  returnTimeout : option handle;
  tauntTimeout : option handle;
  tauntQueue : list Z;
  lastTauntIndex : option Z;
  originalContent : string;
  (* the host's scheduler *)
  clock : Z;
  nextHandle : handle;
  timers : list (handle * (Z * TimerCallback));   (* id, due time, callback *)
  frames : list (handle * FrameCallback);
  (* the document *)
  listening : bool;             (* the three listeners are registered *)
  innerHTML : string;           (* element.innerHTML *)
  evasiveCaught : bool;         (* element has class 'evasive-caught' *)
  caughtShake : bool;           (* wrapper has class 'caught-shake' *)
  landing : bool;               (* wrapper has class 'landing' *)
  tauntText : option string;    (* tauntEl.textContent *)
  tauntVisible : bool;          (* tauntEl has class 'visible' *)
  (* invocations of the user's callbacks *)
  escapeCalls : nat;
  catchCalls : nat
}.

(** Field updates: [set_f v r] is [r] after the assignment [r.f = v]. *)

Definition set_currentX v (s : State) : State :=
  let '(Build_State _ a1 a2 a3 a4 a5 a6 a7 a8 a9 a10 a11 a12 a13 a14 a15 a16) := s in
  Build_State v a1 a2 a3 a4 a5 a6 a7 a8 a9 a10 a11 a12 a13 a14 a15 a16.
Definition set_currentY v (s : State) : State :=
  let '(Build_State a0 _ a2 a3 a4 a5 a6 a7 a8 a9 a10 a11 a12 a13 a14 a15 a16) := s in
  Build_State a0 v a2 a3 a4 a5 a6 a7 a8 a9 a10 a11 a12 a13 a14 a15 a16.
Definition set_velocityX v (s : State) : State :=
  let '(Build_State a0 a1 _ a3 a4 a5 a6 a7 a8 a9 a10 a11 a12 a13 a14 a15 a16) := s in
  Build_State a0 a1 v a3 a4 a5 a6 a7 a8 a9 a10 a11 a12 a13 a14 a15 a16.
Definition set_velocityY v (s : State) : State :=
  let '(Build_State a0 a1 a2 _ a4 a5 a6 a7 a8 a9 a10 a11 a12 a13 a14 a15 a16) := s in
  Build_State a0 a1 a2 v a4 a5 a6 a7 a8 a9 a10 a11 a12 a13 a14 a15 a16.
Definition set_targetX v (s : State) : State :=
  let '(Build_State a0 a1 a2 a3 _ a5 a6 a7 a8 a9 a10 a11 a12 a13 a14 a15 a16) := s in
  Build_State a0 a1 a2 a3 v a5 a6 a7 a8 a9 a10 a11 a12 a13 a14 a15 a16.
Definition set_targetY v (s : State) : State :=
  let '(Build_State a0 a1 a2 a3 a4 _ a6 a7 a8 a9 a10 a11 a12 a13 a14 a15 a16) := s in
  Build_State a0 a1 a2 a3 a4 v a6 a7 a8 a9 a10 a11 a12 a13 a14 a15 a16.
Definition set_isReturning v (s : State) : State :=
  let '(Build_State a0 a1 a2 a3 a4 a5 _ a7 a8 a9 a10 a11 a12 a13 a14 a15 a16) := s in
  Build_State a0 a1 a2 a3 a4 a5 v a7 a8 a9 a10 a11 a12 a13 a14 a15 a16.
Definition set_isJumping v (s : State) : State :=
  let '(Build_State a0 a1 a2 a3 a4 a5 a6 _ a8 a9 a10 a11 a12 a13 a14 a15 a16) := s in
  Build_State a0 a1 a2 a3 a4 a5 a6 v a8 a9 a10 a11 a12 a13 a14 a15 a16.
Definition set_isCaught v (s : State) : State :=
  let '(Build_State a0 a1 a2 a3 a4 a5 a6 a7 _ a9 a10 a11 a12 a13 a14 a15 a16) := s in
  Build_State a0 a1 a2 a3 a4 a5 a6 a7 v a9 a10 a11 a12 a13 a14 a15 a16.
Definition set_z v (s : State) : State :=
  let '(Build_State a0 a1 a2 a3 a4 a5 a6 a7 a8 _ a10 a11 a12 a13 a14 a15 a16) := s in
  Build_State a0 a1 a2 a3 a4 a5 a6 a7 a8 v a10 a11 a12 a13 a14 a15 a16.
Definition set_zVelocity v (s : State) : State :=
  let '(Build_State a0 a1 a2 a3 a4 a5 a6 a7 a8 a9 _ a11 a12 a13 a14 a15 a16) := s in
  Build_State a0 a1 a2 a3 a4 a5 a6 a7 a8 a9 v a11 a12 a13 a14 a15 a16.
Definition set_jumpStartX v (s : State) : State :=
  let '(Build_State a0 a1 a2 a3 a4 a5 a6 a7 a8 a9 a10 _ a12 a13 a14 a15 a16) := s in
  Build_State a0 a1 a2 a3 a4 a5 a6 a7 a8 a9 a10 v a12 a13 a14 a15 a16.
Definition set_jumpStartY v (s : State) : State :=
  let '(Build_State a0 a1 a2 a3 a4 a5 a6 a7 a8 a9 a10 a11 _ a13 a14 a15 a16) := s in
  Build_State a0 a1 a2 a3 a4 a5 a6 a7 a8 a9 a10 a11 v a13 a14 a15 a16.
Definition set_jumpTargetX v (s : State) : State :=
  let '(Build_State a0 a1 a2 a3 a4 a5 a6 a7 a8 a9 a10 a11 a12 _ a14 a15 a16) := s in
  Build_State a0 a1 a2 a3 a4 a5 a6 a7 a8 a9 a10 a11 a12 v a14 a15 a16.
Definition set_jumpTargetY v (s : State) : State :=
  let '(Build_State a0 a1 a2 a3 a4 a5 a6 a7 a8 a9 a10 a11 a12 a13 _ a15 a16) := s in
  Build_State a0 a1 a2 a3 a4 a5 a6 a7 a8 a9 a10 a11 a12 a13 v a15 a16.
Definition set_lastJumpTime v (s : State) : State :=
  let '(Build_State a0 a1 a2 a3 a4 a5 a6 a7 a8 a9 a10 a11 a12 a13 a14 _ a16) := s in
  Build_State a0 a1 a2 a3 a4 a5 a6 a7 a8 a9 a10 a11 a12 a13 a14 v a16.
Definition set_lastTauntTime v (s : State) : State :=
  let '(Build_State a0 a1 a2 a3 a4 a5 a6 a7 a8 a9 a10 a11 a12 a13 a14 a15 _) := s in
  Build_State a0 a1 a2 a3 a4 a5 a6 a7 a8 a9 a10 a11 a12 a13 a14 a15 v.

Definition set_state v (w : World) : World :=
  let '(Build_World _ a1 a2 a3 a4 a5 a6 a7 a8 a9 a10 a11 a12 a13 a14 a15 a16 a17 a18 a19 a20) := w in
  Build_World v a1 a2 a3 a4 a5 a6 a7 a8 a9 a10 a11 a12 a13 a14 a15 a16 a17 a18 a19 a20.
Definition set_animationFrame v (w : World) : World :=
  let '(Build_World a0 _ a2 a3 a4 a5 a6 a7 a8 a9 a10 a11 a12 a13 a14 a15 a16 a17 a18 a19 a20) := w in
  Build_World a0 v a2 a3 a4 a5 a6 a7 a8 a9 a10 a11 a12 a13 a14 a15 a16 a17 a18 a19 a20.
Definition set_jumpAnimFrame v (w : World) : World :=
  let '(Build_World a0 a1 _ a3 a4 a5 a6 a7 a8 a9 a10 a11 a12 a13 a14 a15 a16 a17 a18 a19 a20) := w in
  Build_World a0 a1 v a3 a4 a5 a6 a7 a8 a9 a10 a11 a12 a13 a14 a15 a16 a17 a18 a19 a20.
Definition set_returnTimeout v (w : World) : World :=
  let '(Build_World a0 a1 a2 _ a4 a5 a6 a7 a8 a9 a10 a11 a12 a13 a14 a15 a16 a17 a18 a19 a20) := w in
  Build_World a0 a1 a2 v a4 a5 a6 a7 a8 a9 a10 a11 a12 a13 a14 a15 a16 a17 a18 a19 a20.
Definition set_tauntTimeout v (w : World) : World :=
  let '(Build_World a0 a1 a2 a3 _ a5 a6 a7 a8 a9 a10 a11 a12 a13 a14 a15 a16 a17 a18 a19 a20) := w in
  Build_World a0 a1 a2 a3 v a5 a6 a7 a8 a9 a10 a11 a12 a13 a14 a15 a16 a17 a18 a19 a20.
Definition set_tauntQueue v (w : World) : World :=
  let '(Build_World a0 a1 a2 a3 a4 _ a6 a7 a8 a9 a10 a11 a12 a13 a14 a15 a16 a17 a18 a19 a20) := w in
  Build_World a0 a1 a2 a3 a4 v a6 a7 a8 a9 a10 a11 a12 a13 a14 a15 a16 a17 a18 a19 a20.
Definition set_lastTauntIndex v (w : World) : World :=
  let '(Build_World a0 a1 a2 a3 a4 a5 _ a7 a8 a9 a10 a11 a12 a13 a14 a15 a16 a17 a18 a19 a20) := w in
  Build_World a0 a1 a2 a3 a4 a5 v a7 a8 a9 a10 a11 a12 a13 a14 a15 a16 a17 a18 a19 a20.
Definition set_clock v (w : World) : World :=
  let '(Build_World a0 a1 a2 a3 a4 a5 a6 a7 _ a9 a10 a11 a12 a13 a14 a15 a16 a17 a18 a19 a20) := w in
  Build_World a0 a1 a2 a3 a4 a5 a6 a7 v a9 a10 a11 a12 a13 a14 a15 a16 a17 a18 a19 a20.
Definition set_nextHandle v (w : World) : World :=
  let '(Build_World a0 a1 a2 a3 a4 a5 a6 a7 a8 _ a10 a11 a12 a13 a14 a15 a16 a17 a18 a19 a20) := w in
  Build_World a0 a1 a2 a3 a4 a5 a6 a7 a8 v a10 a11 a12 a13 a14 a15 a16 a17 a18 a19 a20.
Definition set_timers v (w : World) : World :=
  let '(Build_World a0 a1 a2 a3 a4 a5 a6 a7 a8 a9 _ a11 a12 a13 a14 a15 a16 a17 a18 a19 a20) := w in
  Build_World a0 a1 a2 a3 a4 a5 a6 a7 a8 a9 v a11 a12 a13 a14 a15 a16 a17 a18 a19 a20.
Definition set_frames v (w : World) : World :=
  let '(Build_World a0 a1 a2 a3 a4 a5 a6 a7 a8 a9 a10 _ a12 a13 a14 a15 a16 a17 a18 a19 a20) := w in
  Build_World a0 a1 a2 a3 a4 a5 a6 a7 a8 a9 a10 v a12 a13 a14 a15 a16 a17 a18 a19 a20.
Definition set_listening v (w : World) : World :=
  let '(Build_World a0 a1 a2 a3 a4 a5 a6 a7 a8 a9 a10 a11 _ a13 a14 a15 a16 a17 a18 a19 a20) := w in
  Build_World a0 a1 a2 a3 a4 a5 a6 a7 a8 a9 a10 a11 v a13 a14 a15 a16 a17 a18 a19 a20.
Definition set_innerHTML v (w : World) : World :=
  let '(Build_World a0 a1 a2 a3 a4 a5 a6 a7 a8 a9 a10 a11 a12 _ a14 a15 a16 a17 a18 a19 a20) := w in
  Build_World a0 a1 a2 a3 a4 a5 a6 a7 a8 a9 a10 a11 a12 v a14 a15 a16 a17 a18 a19 a20.
Definition set_evasiveCaught v (w : World) : World :=
  let '(Build_World a0 a1 a2 a3 a4 a5 a6 a7 a8 a9 a10 a11 a12 a13 _ a15 a16 a17 a18 a19 a20) := w in
  Build_World a0 a1 a2 a3 a4 a5 a6 a7 a8 a9 a10 a11 a12 a13 v a15 a16 a17 a18 a19 a20.
Definition set_caughtShake v (w : World) : World :=
  let '(Build_World a0 a1 a2 a3 a4 a5 a6 a7 a8 a9 a10 a11 a12 a13 a14 _ a16 a17 a18 a19 a20) := w in
  Build_World a0 a1 a2 a3 a4 a5 a6 a7 a8 a9 a10 a11 a12 a13 a14 v a16 a17 a18 a19 a20.
Definition set_landing v (w : World) : World :=
  let '(Build_World a0 a1 a2 a3 a4 a5 a6 a7 a8 a9 a10 a11 a12 a13 a14 a15 _ a17 a18 a19 a20) := w in
  Build_World a0 a1 a2 a3 a4 a5 a6 a7 a8 a9 a10 a11 a12 a13 a14 a15 v a17 a18 a19 a20.
Definition set_tauntText v (w : World) : World :=
  let '(Build_World a0 a1 a2 a3 a4 a5 a6 a7 a8 a9 a10 a11 a12 a13 a14 a15 a16 _ a18 a19 a20) := w in
  Build_World a0 a1 a2 a3 a4 a5 a6 a7 a8 a9 a10 a11 a12 a13 a14 a15 a16 v a18 a19 a20.
Definition set_tauntVisible v (w : World) : World :=
  let '(Build_World a0 a1 a2 a3 a4 a5 a6 a7 a8 a9 a10 a11 a12 a13 a14 a15 a16 a17 _ a19 a20) := w in
  Build_World a0 a1 a2 a3 a4 a5 a6 a7 a8 a9 a10 a11 a12 a13 a14 a15 a16 a17 v a19 a20.
Definition set_escapeCalls v (w : World) : World :=
  let '(Build_World a0 a1 a2 a3 a4 a5 a6 a7 a8 a9 a10 a11 a12 a13 a14 a15 a16 a17 a18 _ a20) := w in
  Build_World a0 a1 a2 a3 a4 a5 a6 a7 a8 a9 a10 a11 a12 a13 a14 a15 a16 a17 a18 v a20.
Definition set_catchCalls v (w : World) : World :=
  let '(Build_World a0 a1 a2 a3 a4 a5 a6 a7 a8 a9 a10 a11 a12 a13 a14 a15 a16 a17 a18 a19 _) := w in
  Build_World a0 a1 a2 a3 a4 a5 a6 a7 a8 a9 a10 a11 a12 a13 a14 a15 a16 a17 a18 a19 v.

Definition upd (f : State -> State) (w : World) : World :=
  set_state (f (state w)) w.

(** [setTimeout] and [requestAnimationFrame] hand out fresh non-zero
    handles, so a stored handle is truthy exactly when it is [Some]; the
    handle returned is [nextHandle] of the world before the call.  A
    negative delay counts as zero. *)
Definition setTimeout (cb : TimerCallback) (delay : Z) (w : World) : handle * World :=
  (nextHandle w,
   set_timers (timers w ++ [(nextHandle w, (clock w + Z.max 0 delay, cb)%Z)])
     (set_nextHandle (S (nextHandle w)) w)).

Definition requestAnimationFrame (cb : FrameCallback) (w : World) : handle * World :=
  (nextHandle w,
   set_frames (frames w ++ [(nextHandle w, cb)])
     (set_nextHandle (S (nextHandle w)) w)).

Definition remove_handle {A} (id : handle) (l : list (handle * A)) : list (handle * A) :=
  filter (fun e => negb (Nat.eqb (fst e) id)) l.

(** [clearTimeout(h)] and [cancelAnimationFrame(h)] on a stored handle; on
    [null] both do nothing, so [if (h) clearTimeout(h)] is [clearTimeout h]. *)
Definition clearTimeout (h : option handle) (w : World) : World :=
  set_timers (match h with
              | Some id => remove_handle id (timers w)
              | None => timers w
              end) w.

Definition cancelAnimationFrame (h : option handle) (w : World) : World :=
  set_frames (match h with
              | Some id => remove_handle id (frames w)
              | None => frames w
              end) w.

Fixpoint lookup_handle {A} (id : handle) (l : list (handle * A)) : option A :=
  match l with
  | [] => None
  | (k, v) :: r => if Nat.eqb k id then Some v else lookup_handle id r
  end.

(** ** The taunt queue *)

(** [[...Array(n).keys()]] *)
Definition keys (n : nat) : list Z := map Z.of_nat (seq 0 n).

(** [l[i] = v] for an index inside the list *)
Fixpoint list_set {A} (i : nat) (v : A) (l : list A) : list A :=
  match l, i with
  | [], _ => []
  | _ :: r, O => v :: r
  | x :: r, S i' => x :: list_set i' v r
  end.

(** [[q[i], q[j]] = [q[j], q[i]]] for indices inside the queue *)
Definition swap (i j : nat) (q : list Z) : list Z :=
  match nth_error q i, nth_error q j with
  | Some qi, Some qj => list_set j qi (list_set i qj q)
  | _, _ => q
  end.

(** The loop of [shuffleTauntQueue] from index [i] down to 1.
    [Math.random()] lies in [0,1), so [Math.floor(Math.random() * (i + 1))]
    is some integer in [0..i]; [picks i] is the host's entropy at that
    step, reduced modulo [i + 1]. *)
Fixpoint shuffle_loop (picks : nat -> nat) (i : nat) (q : list Z) : list Z :=
  match i with
  | O => q
  | S i' => let j := (picks i mod (i + 1))%nat in
            shuffle_loop picks i' (swap i j q)
  end.

Definition shuffleTauntQueue (picks : nat -> nat) (q : list Z) : list Z :=
  shuffle_loop picks (length q - 1) q.

(** [a === b] on queue entries; [None] is [undefined] *)
Definition same_index (a b : option Z) : bool :=
  match a, b with
  | Some x, Some y => Z.eqb x y
  | None, None => true
  | _, _ => false
  end.

(** The first index [i >= from] of [rest] (which starts at index [from])
    with [tauntQueue[i] !== lastTauntIndex] *)
Fixpoint first_other (last : option Z) (from : nat) (rest : list Z) : option nat :=
  match rest with
  | [] => None
  | x :: r => if same_index (Some x) last then first_other last (S from) r
              else Some from
  end.

(** [getNextTaunt] on the queue and the last index alone: the index drawn
    and the queue left. *)
Definition nextTaunt (picks : nat -> nat) (n : nat) (q : list Z) (last : option Z)
  : option Z * list Z :=
  let q := if (length q =? 0)%nat then shuffleTauntQueue picks (keys n) else q in
  let idx := hd_error q in
  let '(q, idx) :=
    if same_index idx last && (1 <? length q)%nat then
      match first_other last 1 (tl q) with
      | Some i => let q' := swap 0 i q in (q', hd_error q')
      | None => (q, idx)
      end
    else (q, idx) in
  (idx, tl q).

Variable opts : Options.

(** [opts.taunts[idx]] *)
Definition taunt_at (idx : option Z) : option string :=
  match idx with
  | Some i => if (i <? 0)%Z then None else nth_error (taunts opts) (Z.to_nat i)
  | None => None
  end.

Definition getNextTaunt (picks : nat -> nat) (w : World) : option string * World :=
  let r := nextTaunt picks (length (taunts opts)) (tauntQueue w) (lastTauntIndex w) in
  (taunt_at (fst r), set_lastTauntIndex (fst r) (set_tauntQueue (snd r) w)).

Definition showTaunt (picks : nat -> nat) (w : World) : World :=
  let now := ofZ (clock w) in
  if (now - lastTauntTime (state w)) >? ofZ 600 then
    let w := upd (set_lastTauntTime now) w in
    let '(text, w) := getNextTaunt picks w in
    let w := set_tauntText text w in
    let w := set_tauntVisible true w in
    let w := clearTimeout (tauntTimeout w) w in
    let '(id, w) := setTimeout HideTaunt 1200 w in
    set_tauntTimeout (Some id) w
  else w.

(** ** Geometry *)

Definition distance (x1 y1 x2 y2 : num) : num :=
  Math_sqrt ((x2 - x1) * (x2 - x1) + (y2 - y1) * (y2 - y1)).

Definition clamp (val lo hi : num) : num :=
  Math_min (Math_max val lo) hi.

Record Rect : Type := {
  rect_left : num;
  rect_top : num;
  rect_width : num;
  rect_height : num
}.

(** What a mousemove handler reads from the host while it runs. *)
Record Host : Type := {
  boundingClientRect : Rect;    (* element.getBoundingClientRect() *)
  innerWidth : num;             (* window.innerWidth *)
  innerHeight : num;            (* window.innerHeight *)
  random : num;                 (* Math.random() of the taunt draw *)
  shufflePicks : nat -> nat     (* entropy of a reshuffle *)
}.

Definition getButtonCenter (h : Host) : num * num :=
  let r := boundingClientRect h in
  (rect_left r + rect_width r / ofZ 2, rect_top r + rect_height r / ofZ 2).

(** ** The spring *)

(** The arithmetic of one [springAnimate] frame: velocity and position
    after the update. *)
Definition springStep (s : State) : State :=
  let dx := targetX s - currentX s in
  let dy := targetY s - currentY s in
  let s := set_velocityX (velocityX s + (dx * SPRING_TENSION) / ofZ 1000) s in
  let s := set_velocityY (velocityY s + (dy * SPRING_TENSION) / ofZ 1000) s in
  let s := set_velocityX (velocityX s * (ofZ 1 - SPRING_FRICTION / ofZ 100)) s in
  let s := set_velocityY (velocityY s * (ofZ 1 - SPRING_FRICTION / ofZ 100)) s in
  let s := set_currentX (currentX s + velocityX s) s in
  set_currentY (currentY s + velocityY s) s.

(** [speed < 0.1 && distToTarget < 0.5]: the speed is taken after the
    update, the distance ([dx], [dy]) before it. *)
Definition springSettled (before after : State) : bool :=
  let dx := targetX before - currentX before in
  let dy := targetY before - currentY before in
  let speed := Math_sqrt (velocityX after * velocityX after
                          + velocityY after * velocityY after) in
  let distToTarget := Math_sqrt (dx * dx + dy * dy) in
  (speed <? dec 1 10) && (distToTarget <? dec 5 10).

Definition springSnap (s : State) : State :=
  let s := set_currentX (targetX s) s in
  let s := set_currentY (targetY s) s in
  let s := set_velocityX (ofZ 0) s in
  let s := set_velocityY (ofZ 0) s in
  set_isReturning false s.

Definition springAnimate (w : World) : World :=
  let s := springStep (state w) in
  if isReturning s && springSettled (state w) s then
    set_animationFrame None (set_state (springSnap s) w)
  else if isReturning s then
    let '(id, w) := requestAnimationFrame SpringFrame (set_state s w) in
    set_animationFrame (Some id) w
  else set_state s w.

Definition returnToCenter (w : World) : World :=
  let w := upd (set_targetX (ofZ 0)) w in
  let w := upd (set_targetY (ofZ 0)) w in
  let w := upd (set_isReturning true) w in
  match animationFrame w with
  | Some _ => w
  | None =>
      let '(id, w) := requestAnimationFrame SpringFrame w in
      set_animationFrame (Some id) w
  end.

(** ** The jump *)

(** Gravity: [lastJumpTime], [delta], [zVelocity] and [z] of one
    [jumpAnimate] frame. *)
Definition jumpFall (timestamp : num) (s : State) : State :=
  let last := if truthy (lastJumpTime s) then lastJumpTime s else timestamp in
  let delta := Math_min ((timestamp - last) / ofZ 1000) (dec 5 100) in
  let s := set_lastJumpTime timestamp s in
  let s := set_zVelocity (zVelocity s - GRAVITY * delta) s in
  set_z (z s + zVelocity s * delta) s.

(** The easing of the position: the [if (dist > 1) ... else ...] of
    [jumpAnimate]. *)
Definition jumpEase (s : State) : State :=
  let dx := jumpTargetX s - currentX s in
  let dy := jumpTargetY s - currentY s in
  let dist := Math_sqrt (dx * dx + dy * dy) in
  let lerpMove := dist * HORIZONTAL_LERP in
  let minMove := ofZ 15 in
  let moveAmount := Math_max lerpMove (Math_min minMove dist) in
  if dist >? ofZ 1 then
    let ratio := moveAmount / dist in
    let s := set_currentX (currentX s + dx * ratio) s in
    set_currentY (currentY s + dy * ratio) s
  else
    let s := set_currentX (jumpTargetX s) s in
    set_currentY (jumpTargetY s) s.

(** [state.z <= 0 && state.zVelocity < 0] *)
Definition landed (s : State) : bool :=
  (z s <=? ofZ 0) && (zVelocity s <? ofZ 0).

Definition jumpLand (s : State) : State :=
  let s := set_z (ofZ 0) s in
  let s := set_zVelocity (ofZ 0) s in
  let s := set_currentX (jumpTargetX s) s in
  let s := set_currentY (jumpTargetY s) s in
  let s := set_targetX (jumpTargetX s) s in
  set_targetY (jumpTargetY s) s.

Definition jumpAnimate (timestamp : num) (w : World) : World :=
  let s := jumpEase (jumpFall timestamp (state w)) in
  if landed s then
    let w := set_state (jumpLand s) w in
    let w := if showShadow opts then snd (setTimeout ShadowFade 200 w) else w in
    let w := if screenShake opts
             then snd (setTimeout LandingDone 200 (set_landing true w))
             else w in
    let w := upd (set_isJumping false) w in
    let w := upd (set_lastJumpTime (ofZ 0)) w in
    let w := set_jumpAnimFrame None w in
    let w := clearTimeout (returnTimeout w) w in
    let '(id, w) := setTimeout ReturnTimer 450 w in
    set_returnTimeout (Some id) w
  else
    let '(id, w) := requestAnimationFrame JumpFrame (set_state s w) in
    set_jumpAnimFrame (Some id) w.

Definition startJump (destX destY : num) (w : World) : World :=
  let w := upd (fun s => set_jumpStartX (currentX s) s) w in
  let w := upd (fun s => set_jumpStartY (currentY s) s) w in
  let w := upd (set_jumpTargetX destX) w in
  let w := upd (set_jumpTargetY destY) w in
  let w := upd (set_z (ofZ 0)) w in
  let w := upd (set_zVelocity JUMP_VELOCITY) w in
  let w := upd (set_lastJumpTime (ofZ 0)) w in
  let w := cancelAnimationFrame (jumpAnimFrame w) w in
  let '(id, w) := requestAnimationFrame JumpFrame w in
  set_jumpAnimFrame (Some id) w.

(** ** Escape *)

Definition angles : list num :=
  [ofZ 0; dec 3 10; - dec 3 10; dec 6 10; - dec 6 10;
   dec 9 10; - dec 9 10; dec 12 10; - dec 12 10; Math_PI].

(** The movement envelope of [escapeFrom]: [maxX], [minY], [maxY]. *)
Definition envelope (h : Host) : num * num * num :=
  let vw := innerWidth h in
  let vh := innerHeight h in
  let btnRect := boundingClientRect h in
  let maxX := vw / ofZ 2 - rect_width btnRect / ofZ 2 - edgePadding opts in
  let maxY := vh * dec 25 100 in
  let minY := (- vh) * dec 55 100 in
  (maxX, minY, maxY).

(** The escape direction: from the pointer to the button centre, divided by
    its length, the length defaulting to 1. *)
Definition escapeDirection (mouseX mouseY : num) (h : Host) : num * num :=
  let dx := fst (getButtonCenter h) - mouseX in
  let dy := snd (getButtonCenter h) - mouseY in
  let len0 := Math_sqrt (dx * dx + dy * dy) in
  let len := if truthy len0 then len0 else ofZ 1 in
  (dx / len, dy / len).

(** The clamped destination tried for one angle. *)
Definition candidate (x y dx dy maxX minY maxY angle : num) : num * num :=
  let cos := Math_cos angle in
  let sin := Math_sin angle in
  let rdx := dx * cos - dy * sin in
  let rdy := dx * sin + dy * cos in
  let newX := x + rdx * escapeDistance opts in
  let newY := y + rdy * escapeDistance opts in
  (clamp newX (- maxX) maxX, clamp newY minY maxY).

(** One turn of the loop over the angles, on [(bestX, bestY, bestDistance)]. *)
Definition tryAngle (x y dx dy maxX minY maxY : num) (best : num * num * num)
  (angle : num) : num * num * num :=
  let c := candidate x y dx dy maxX minY maxY angle in
  let moveDist := distance x y (fst c) (snd c) in
  if moveDist >? snd best then (fst c, snd c, moveDist) else best.

(** [(bestX, bestY, bestDistance)] after the loop, from position [(x, y)]. *)
Definition bestDestination (x y : num) (mouseX mouseY : num) (h : Host)
  : num * num * num :=
  let '(maxX, minY, maxY) := envelope h in
  let '(dx, dy) := escapeDirection mouseX mouseY h in
  fold_left (tryAngle x y dx dy maxX minY maxY) angles (x, y, ofZ 0).

(** The guard of [escapeFrom]: not caught, not jumping, and the pointer
    closer than [detectionRadius] to the centre. *)
Definition escapes (mouseX mouseY : num) (h : Host) (w : World) : bool :=
  negb (isCaught (state w) || isJumping (state w)) &&
  (distance mouseX mouseY (fst (getButtonCenter h)) (snd (getButtonCenter h))
   <? detectionRadius opts).

Definition escapeFrom (mouseX mouseY : num) (h : Host) (w : World) : World :=
  if isCaught (state w) || isJumping (state w) then w else
  let buttonCenter := getButtonCenter h in
  let dist := distance mouseX mouseY (fst buttonCenter) (snd buttonCenter) in
  if dist <? detectionRadius opts then
    let w := upd (set_isReturning false) w in
    let w := set_animationFrame None (cancelAnimationFrame (animationFrame w) w) in
    let w := set_returnTimeout None (clearTimeout (returnTimeout w) w) in
    let w := upd (set_isJumping true) w in
    let best := bestDestination (currentX (state w)) (currentY (state w))
                  mouseX mouseY h in
    let w := startJump (fst (fst best)) (snd (fst best)) w in
    let w := if onEscape opts then set_escapeCalls (S (escapeCalls w)) w else w in
    if random h <? tauntProbability opts then showTaunt (shufflePicks h) w else w
  else w.

(** ** Event handlers *)

Definition handleMouseMove (clientX clientY : num) (h : Host) (w : World) : World :=
  let w := escapeFrom clientX clientY h w in
  let w := clearTimeout (returnTimeout w) w in
  let buttonCenter := getButtonCenter h in
  let dist := distance clientX clientY (fst buttonCenter) (snd buttonCenter) in
  if dist >? detectionRadius opts * dec 25 10 then
    let '(id, w) := setTimeout ReturnTimer 400 w in
    set_returnTimeout (Some id) w
  else w.

Definition handleMouseLeave (w : World) : World :=
  let w := clearTimeout (returnTimeout w) w in
  let '(id, w) := setTimeout ReturnTimer 200 w in
  set_returnTimeout (Some id) w.

Definition handleClick (w : World) : World :=
  if isCaught (state w) then w else
  let w := upd (set_isCaught true) w in
  let w := if onCatch opts then set_catchCalls (S (catchCalls w)) w else w in
  let w := set_jumpAnimFrame None (cancelAnimationFrame (jumpAnimFrame w) w) in
  let w := set_animationFrame None (cancelAnimationFrame (animationFrame w) w) in
  let w := set_returnTimeout None (clearTimeout (returnTimeout w) w) in
  let w := set_tauntVisible false w in
  let w := upd (set_z (ofZ 0)) w in
  let w := upd (set_zVelocity (ofZ 0)) w in
  let w := upd (set_isJumping false) w in
  let w := set_innerHTML (caughtText opts) w in
  let w := set_evasiveCaught true w in
  let w := set_caughtShake true w in
  let w := snd (setTimeout CaughtReturn 600 w) in
  snd (setTimeout CaughtRestore (caughtDuration opts) w).

(** The teardown function returned by [makeEvasive]. *)
Definition destroy (w : World) : World :=
  let w := set_listening false w in
  let w := cancelAnimationFrame (animationFrame w) w in
  let w := cancelAnimationFrame (jumpAnimFrame w) w in
  let w := clearTimeout (returnTimeout w) w in
  let w := clearTimeout (tauntTimeout w) w in
  let w := set_innerHTML (originalContent w) w in
  set_evasiveCaught false w.

(** ** Attaching *)

Definition initialState : State :=
  {| currentX := ofZ 0; currentY := ofZ 0;
     velocityX := ofZ 0; velocityY := ofZ 0;
     targetX := ofZ 0; targetY := ofZ 0;
     isReturning := false; isJumping := false; isCaught := false;
     z := ofZ 0; zVelocity := ofZ 0;
     jumpStartX := ofZ 0; jumpStartY := ofZ 0;
     jumpTargetX := ofZ 0; jumpTargetY := ofZ 0;
     lastJumpTime := ofZ 0; lastTauntTime := ofZ 0 |}.

(** [makeEvasive(element, options)] called at time [t0] on an element whose
    [innerHTML] is [content]; [picks] is the entropy of the first shuffle. *)
Definition makeEvasive (content : string) (t0 : Z) (picks : nat -> nat) : World :=
  {| state := initialState;
     animationFrame := None; jumpAnimFrame := None;
     returnTimeout := None; tauntTimeout := None;
     tauntQueue := shuffleTauntQueue picks (keys (length (taunts opts)));
     lastTauntIndex := Some (-1)%Z;
     originalContent := content;
     clock := t0; nextHandle := 1; timers := []; frames := [];
     listening := true;
     innerHTML := content;
     evasiveCaught := false; caughtShake := false; landing := false;
     tauntText := None; tauntVisible := false;
     escapeCalls := 0; catchCalls := 0 |}.

(** ** The event loop *)

Inductive Event : Type :=
| MouseMove (clientX clientY : num) (h : Host)
| MouseLeave
| Click
| AnimationFrame (id : handle) (timestamp : num)
| Timeout (id : handle)
| Destroy.

Definition runTimer (cb : TimerCallback) (w : World) : World :=
  match cb with
  | HideTaunt => set_tauntVisible false w
  | ReturnTimer => returnToCenter w
  | ShadowFade => w
  | LandingDone => set_landing false w
  | CaughtReturn => returnToCenter w
  | CaughtRestore =>
      let w := set_innerHTML (originalContent w) w in
      let w := set_evasiveCaught false w in
      let w := set_caughtShake false w in
      upd (set_isCaught false) w
  end.

Definition runFrame (cb : FrameCallback) (timestamp : num) (w : World) : World :=
  match cb with
  | SpringFrame => springAnimate w
  | JumpFrame => jumpAnimate timestamp w
  end.

(** The host dispatches event [e] at time [t].  Time does not go back; a
    timer fires only when pending and due, a frame only when pending; a
    fired callback leaves its queue before it runs.  Mouse and click events
    reach the handlers only while the listeners are registered. *)
Definition dispatch (t : Z) (e : Event) (w : World) : option World :=
  if (t <? clock w)%Z then None else
  let w := set_clock t w in
  match e with
  | MouseMove x y h => Some (if listening w then handleMouseMove x y h w else w)
  | MouseLeave => Some (if listening w then handleMouseLeave w else w)
  | Click => Some (if listening w then handleClick w else w)
  | AnimationFrame id timestamp =>
      match lookup_handle id (frames w) with
      | Some cb =>
          Some (runFrame cb timestamp (set_frames (remove_handle id (frames w)) w))
      | None => None
      end
  | Timeout id =>
      match lookup_handle id (timers w) with
      | Some (due, cb) =>
          if (due <=? t)%Z
          then Some (runTimer cb (set_timers (remove_handle id (timers w)) w))
          else None
      | None => None
      end
  | Destroy => Some (destroy w)
  end.

Fixpoint run (trace : list (Z * Event)) (w : World) : option World :=
  match trace with
  | [] => Some w
  | (t, e) :: rest =>
      match dispatch t e w with
      | Some w' => run rest w'
      | None => None
      end
  end.

(** The indices shown by consecutive calls of [getNextTaunt]. *)
Fixpoint drawTaunts (ps : list (nat -> nat)) (w : World) : list (option Z) :=
  match ps with
  | [] => []
  | p :: r => let w' := snd (getNextTaunt p w) in
              lastTauntIndex w' :: drawTaunts r w'
  end.

End Controller.

Arguments State num : clear implicits.
Arguments Options num : clear implicits.
Arguments World num : clear implicits.
Arguments Rect num : clear implicits.
Arguments Host num : clear implicits.
Arguments Event num : clear implicits.

(** ** The two number instances *)

(** *** binary64 *)

Module F.

Local Open Scope float_scope.

Definition ofZ (n : Z) : float :=
  match n with
  | Z0 => PrimFloat.zero
  | Zpos _ => PrimFloat.of_uint63 (Uint63.of_Z n)
  | Zneg p => - PrimFloat.of_uint63 (Uint63.of_Z (Zpos p))
  end.

(** [Math.max] and [Math.min]: NaN if either argument is; of two zeros
    [max] prefers +0 and [min] prefers -0. *)
Definition max (a b : float) : float :=
  if PrimFloat.is_nan a || PrimFloat.is_nan b then PrimFloat.nan
  else if a <? b then b
  else if b <? a then a
  else if PrimFloat.get_sign a then b else a.

Definition min (a b : float) : float :=
  if PrimFloat.is_nan a || PrimFloat.is_nan b then PrimFloat.nan
  else if a <? b then a
  else if b <? a then b
  else if PrimFloat.get_sign a then a else b.

Definition truthy (x : float) : bool := negb (PrimFloat.is_zero x || PrimFloat.is_nan x).

(** [Math.PI] *)
Definition PI : float := 0x1.921fb54442d18p+1.

(** [Math.cos] and [Math.sin] are left to the engine by the language
    standard.  The controller evaluates them at its ten angles only; these
    are the binary64 values nearest to the exact ones there. *)
Definition cos_table (a : float) : float :=
  let m := PrimFloat.abs a in
  if m =? 0 then 1
  else if m =? 0x1.3333333333333p-2 (* 0.3 *) then 0x1.e921dd42f09bap-1
  else if m =? 0x1.3333333333333p-1 (* 0.6 *) then 0x1.a69263c485b15p-1
  else if m =? 0x1.ccccccccccccdp-1 (* 0.9 *) then 0x1.3e43a9692e21cp-1
  else if m =? 0x1.3333333333333p+0 (* 1.2 *) then 0x1.730de943b79d4p-2
  else if m =? PI then -1
  else PrimFloat.nan.

Definition sin_table (a : float) : float :=
  let m := PrimFloat.abs a in
  let v := if m =? 0 then 0
           else if m =? 0x1.3333333333333p-2 then 0x1.2e9cd95baba33p-2
           else if m =? 0x1.3333333333333p-1 then 0x1.2118d17a54159p-1
           else if m =? 0x1.ccccccccccccdp-1 then 0x1.91103985da841p-1
           else if m =? 0x1.3333333333333p+0 then 0x1.dd343a21a55c4p-1
           else if m =? PI then 0x1.1a62633145c07p-53
           else PrimFloat.nan in
  if a <? 0 then - v else v.

End F.

(** binary64 with the engine's [Math.cos] and [Math.sin] as parameters *)
Definition FloatNumberWith (cos sin : float -> float) : Number float :=
  {| ofZ := F.ofZ;
     add := PrimFloat.add; sub := PrimFloat.sub;
     mul := PrimFloat.mul; div := PrimFloat.div;
     neg := PrimFloat.opp;
     ltb := PrimFloat.ltb; leb := PrimFloat.leb;
     Math_sqrt := PrimFloat.sqrt;
     Math_cos := cos; Math_sin := sin; Math_PI := F.PI;
     Math_max := F.max; Math_min := F.min;
     truthy := F.truthy |}.

#[export] Instance FloatNumber : Number float :=
  FloatNumberWith F.cos_table F.sin_table.

(** *** real numbers *)

Definition Rltb (a b : R) : bool := if Rlt_dec a b then true else false.
Definition Rleb (a b : R) : bool := if Rle_dec a b then true else false.
Definition Rtruthy (a : R) : bool := if Req_dec_T a 0 then false else true.

#[export] Instance RealNumber : Number R :=
  {| ofZ := IZR;
     add := Rplus; sub := Rminus; mul := Rmult; div := Rdiv;
     neg := Ropp;
     ltb := Rltb; leb := Rleb;
     Math_sqrt := R_sqrt.sqrt;
     Math_cos := cos; Math_sin := sin; Math_PI := Rtrigo1.PI;
     Math_max := Rmax; Math_min := Rmin;
     truthy := Rtruthy |}.

(** ** Invariants of the reachable worlds *)

Section Invariants.

Context {num : Type} `{Number num}.
Variable opts : Options num.

(** The queue holds distinct valid indices, none of them the index shown
    last. *)
Definition queueOk (n : nat) (q : list Z) (last : option Z) : Prop :=
  NoDup q /\ (forall x, In x q -> In x (keys n)) /\
  (forall x, last = Some x -> ~ In x q).

Definition isRestore (e : handle * (Z * TimerCallback)) : bool :=
  match snd (snd e) with
  | CaughtRestore => true
  | _ => false
  end.

(** The pending timers that will end the caught state. *)
Definition restoreTimers (w : World num) : list (handle * (Z * TimerCallback)) :=
  filter isRestore (timers w).

(** Handles are fresh and distinct; a stored timer handle, while pending,
    names a timer of its own kind; every pending frame is the stored one of
    its kind; the caught state has exactly one timer that ends it. *)
Record Consistent (content : string) (w : World num) : Prop := {
  timers_fresh : forall e, In e (timers w) -> fst e < nextHandle w;
  timers_distinct : NoDup (map fst (timers w));
  return_fresh : forall id, returnTimeout w = Some id -> id < nextHandle w;
  return_kind : forall id due cb, returnTimeout w = Some id ->
      In (id, (due, cb)) (timers w) -> cb = ReturnTimer;
  taunt_fresh : forall id, tauntTimeout w = Some id -> id < nextHandle w;
  taunt_kind : forall id due cb, tauntTimeout w = Some id ->
      In (id, (due, cb)) (timers w) -> cb = HideTaunt;
  spring_tracked : forall id, In (id, SpringFrame) (frames w) ->
      animationFrame w = Some id;
  jump_tracked : forall id, In (id, JumpFrame) (frames w) ->
      jumpAnimFrame w = Some id;
  restore_pending :
      length (restoreTimers w) = if isCaught (state w) then 1 else 0;
  original_kept : originalContent w = content;
  queue_ok : queueOk (length (taunts opts)) (tauntQueue w) (lastTauntIndex w);
  caught_content : isCaught (state w) = true -> listening w = true ->
      innerHTML w = caughtText opts
}.

(** The worlds the host can produce from an attach. *)
Definition Reachable (content : string) (w : World num) : Prop :=
  exists t0 picks trace, run opts trace (makeEvasive opts content t0 picks) = Some w.

End Invariants.

(** ** Statements about the taunt draws *)

Section TauntDraws.

Context {num : Type} `{Number num}.
Variable opts : Options num.

(** The world after the draws of [drawTaunts]. *)
Fixpoint afterTaunts (ps : list (nat -> nat)) (w : World num) : World num :=
  match ps with
  | [] => w
  | p :: r => afterTaunts r (snd (getNextTaunt opts p w))
  end.

Definition queueOkW (w : World num) : Prop :=
  queueOk (length (taunts opts)) (tauntQueue w) (lastTauntIndex w).

End TauntDraws.

(** No entry equals the one just before it. *)
Definition noImmediateRepeat (l : list (option Z)) : Prop :=
  forall k a b, nth_error l k = Some a -> nth_error l (S k) = Some b -> a <> b.

(** No entry occurs twice within any [n] consecutive ones. *)
Definition windowsDistinct (n : nat) (l : list (option Z)) : Prop :=
  forall k, k + n <= length l -> NoDup (firstn n (skipn k l)).

(** ** The options of the source's defaults *)

Definition DEFAULT_TAUNTS : list string :=
  ["LMAOOOOOO";
   "BRO THOUGHT HE HAD ME";
   "I'M FAST AS FUCK BOI";
   "L + RATIO + TOO SLOW";
   "UR SO MADDDD";
   "SKILL ISSUE";
   "NICE TRY LIL BRO";
   "I'M CRYINGGG";
   "NOPE";
   "TOO SLOW"]%string.

Definition defaultOptions {num} `{Number num} : Options num :=
  {| detectionRadius := ofZ 140;
     escapeDistance := ofZ 280;
     edgePadding := ofZ 60;
     taunts := DEFAULT_TAUNTS;
     tauntProbability := dec 75 100;
     showShadow := true;
     screenShake := true;
     onEscape := true;
     onCatch := true;
     caughtText := "Wait... HOW?!";
     caughtDuration := 1100 |}.

(** The defaults with the three taunts of the README's example. *)
Definition readmeOptions {num} `{Number num} : Options num :=
  {| detectionRadius := ofZ 140;
     escapeDistance := ofZ 280;
     edgePadding := ofZ 60;
     taunts := ["NOPE"; "TOO SLOW"; "SKILL ISSUE"]%string;
     tauntProbability := dec 75 100;
     showShadow := true;
     screenShake := true;
     onEscape := true;
     onCatch := true;
     caughtText := "Wait... HOW?!";
     caughtDuration := 1100 |}.

(** The same on binary64. *)
Definition floatDefaults : Options float := defaultOptions.
Definition floatReadme : Options float := readmeOptions.

(** Entropy that leaves a shuffled queue in index order, and entropy that
    is zero throughout. *)
Definition picksIdentity : nat -> nat := fun i => i.
Definition picksZero : nat -> nat := fun _ => 0.

Section Quietness.

Context {num : Type} `{Number num}.
Variable opts : Options num.

(** A step that leaves the caught state as it is: the flag, the content,
    the calls of [onCatch] and the timer that will end the state. *)
Definition Quiet (w w' : World num) : Prop :=
  isCaught (state w') = isCaught (state w) /\
  innerHTML w' = innerHTML w /\
  catchCalls w' = catchCalls w /\
  restoreTimers w' = restoreTimers w.

(** A step to a consistent world that is quiet. *)
Definition Keeps (content : string) (w w' : World num) : Prop :=
  Consistent opts content w' /\ Quiet w w'.

(** Every event but a catching click, the end of the caught state and the
    teardown is quiet. *)
Definition quietEvent (e : Event num) (w : World num) : Prop :=
  match e with
  | Click => isCaught (state w) = true \/ listening w = false
  | Timeout id => forall due, lookup_handle id (timers w) <> Some (due, CaughtRestore)
  | Destroy => False
  | _ => True
  end.

End Quietness.

(** ** Concrete runs on binary64 *)

Local Open Scope float_scope.

(** A 120x40 button whose centre is at (460, 320) in a 1280x720 viewport;
    the taunt draw is 0.5. *)
Definition hostExample : Host float :=
  {| boundingClientRect :=
       {| rect_left := 400; rect_top := 300; rect_width := 120; rect_height := 40 |};
     innerWidth := 1280; innerHeight := 720;
     random := 0.5; shufflePicks := picksZero |}.

(** [Date.now()] at the attach of the examples. *)
Definition attachTime : Z := 1700000000000.

Definition attached : World float :=
  makeEvasive floatDefaults "Click me" attachTime picksIdentity.

(** The pointer comes within 10px of the centre, then leaves the document;
    frames follow at 60Hz; the timer set by the leave fires 200ms later,
    while the jump is still in the air. *)
Definition leaveDuringJump : list (Z * Event float) :=
  [ ((attachTime + 1000)%Z, MouseMove 470 320 hostExample);
    ((attachTime + 1005)%Z, MouseLeave);
    ((attachTime + 1016)%Z, AnimationFrame 1%nat 1016);
    ((attachTime + 1033)%Z, AnimationFrame 4%nat 1033);
    ((attachTime + 1050)%Z, AnimationFrame 5%nat 1050);
    ((attachTime + 1066)%Z, AnimationFrame 6%nat 1066);
    ((attachTime + 1083)%Z, AnimationFrame 7%nat 1083);
    ((attachTime + 1100)%Z, AnimationFrame 8%nat 1100);
    ((attachTime + 1116)%Z, AnimationFrame 9%nat 1116);
    ((attachTime + 1133)%Z, AnimationFrame 10%nat 1133);
    ((attachTime + 1150)%Z, AnimationFrame 11%nat 1150);
    ((attachTime + 1166)%Z, AnimationFrame 12%nat 1166);
    ((attachTime + 1183)%Z, AnimationFrame 13%nat 1183);
    ((attachTime + 1200)%Z, AnimationFrame 14%nat 1200);
    ((attachTime + 1205)%Z, Timeout 3%nat) ].

(** A click, then the teardown 90ms later. *)
Definition clickThenDestroy : list (Z * Event float) :=
  [ ((attachTime + 1000)%Z, Click);
    ((attachTime + 1090)%Z, Destroy) ].

(** What the host still delivers afterwards: the two timers of the click
    and the frame that the first of them requests. *)
Definition afterDestroy : list (Z * Event float) :=
  [ ((attachTime + 1600)%Z, Timeout 1%nat);
    ((attachTime + 1616)%Z, AnimationFrame 3%nat 1616);
    ((attachTime + 2100)%Z, Timeout 2%nat) ].

Close Scope float_scope.

(** A state in mid-jump at offset [(x, y)] with jump target [(tx, ty)]. *)
Definition midJump {num} `{Number num} (x y tx ty : num) : State num :=
  set_isJumping true
    (set_jumpTargetY ty (set_jumpTargetX tx
       (set_currentY y (set_currentX x initialState)))).

(** ** The movement envelope *)

(** [|x| <= maxX] and [minY <= y <= maxY] of a destination [(x, y)]. *)
Definition inEnvelope {num} `{Number num} (opts : Options num) (h : Host num)
  (p : num * num) : bool :=
  let '(maxX, minY, maxY) := envelope opts h in
  leb (neg maxX) (fst p) && leb (fst p) maxX && leb minY (snd p) && leb (snd p) maxY.

(** A 250px wide button on a 320px wide viewport: with the default padding
    of 60 the horizontal bound [maxX] is 160 - 125 - 60 = -25. *)
Definition narrowHost : Host float :=
  {| boundingClientRect :=
       {| rect_left := 35%float; rect_top := 300%float;
          rect_width := 250%float; rect_height := 40%float |};
     innerWidth := 320%float; innerHeight := 720%float;
     random := 0.5%float; shufflePicks := picksZero |}.

(** ** Finite numbers *)

(** [Number.isFinite]: neither NaN nor an infinity. *)
Definition Number_isFinite (v : float) : bool :=
  match Prim2SF v with
  | S754_zero _ | S754_finite _ _ _ => true
  | _ => false
  end.

(** +0 or -0 *)
Definition isZeroValue (v : float) : bool :=
  match Prim2SF v with
  | S754_zero _ => true
  | _ => false
  end.

(** ** Tactics *)

(** Reduce the accessors and setters of the state and of the world, and the
    host's scheduling calls, leaving the arithmetic folded. *)
Ltac wsimpl :=
  cbn [upd setTimeout requestAnimationFrame clearTimeout cancelAnimationFrame
       getNextTaunt fst snd
       state animationFrame jumpAnimFrame returnTimeout tauntTimeout tauntQueue
       lastTauntIndex originalContent clock nextHandle timers frames listening
       innerHTML evasiveCaught caughtShake landing tauntText tauntVisible
       escapeCalls catchCalls
       set_state set_animationFrame set_jumpAnimFrame set_returnTimeout
       set_tauntTimeout set_tauntQueue set_lastTauntIndex set_clock
       set_nextHandle set_timers set_frames set_listening set_innerHTML
       set_evasiveCaught set_caughtShake set_landing set_tauntText
       set_tauntVisible set_escapeCalls set_catchCalls
       currentX currentY velocityX velocityY targetX targetY
       isReturning isJumping isCaught z zVelocity jumpStartX jumpStartY
       jumpTargetX jumpTargetY lastJumpTime lastTauntTime
       set_currentX set_currentY set_velocityX set_velocityY set_targetX
       set_targetY set_isReturning set_isJumping set_isCaught set_z
       set_zVelocity set_jumpStartX set_jumpStartY set_jumpTargetX
       set_jumpTargetY set_lastJumpTime set_lastTauntTime
       springSnap jumpLand] in *.

(** Close a side condition of a step lemma. *)
Ltac side :=
  solve [ reflexivity | assumption | discriminate
        | left; reflexivity | left; repeat split; reflexivity
        | right; repeat split; reflexivity ].

(** Unfold the number operations at the reals. *)
Ltac on_reals :=
  cbn [ofZ add sub mul div neg ltb leb Math_sqrt Math_cos Math_sin Math_PI
       Math_max Math_min truthy RealNumber] in *.

(** ** Pending timers and frames by kind *)

Section Tracking.

Context {num : Type} `{Number num}.

Definition sameCallback (a b : TimerCallback) : bool :=
  match a, b with
  | HideTaunt, HideTaunt | ReturnTimer, ReturnTimer | ShadowFade, ShadowFade
  | LandingDone, LandingDone | CaughtReturn, CaughtReturn
  | CaughtRestore, CaughtRestore => true
  | _, _ => false
  end.

(** The pending timers that will run [cb]: handle and due time, oldest
    first. *)
Definition pending (cb : TimerCallback) (w : World num) : list (handle * Z) :=
  map (fun e => (fst e, fst (snd e)))
      (filter (fun e => sameCallback (snd (snd e)) cb) (timers w)).

(** Every pending return timer is the stored one, every pending timer that
    hides the taunt is the stored one, and frame handles are fresh and
    distinct. *)
Record Tracked (w : World num) : Prop := {
  return_tracked : forall id due,
      In (id, (due, ReturnTimer)) (timers w) -> returnTimeout w = Some id;
  taunt_tracked : forall id due,
      In (id, (due, HideTaunt)) (timers w) -> tauntTimeout w = Some id;
  frames_fresh : forall e, In e (frames w) -> fst e < nextHandle w;
  frames_distinct : NoDup (map fst (frames w))
}.

End Tracking.

Section PendingFrames.

Context {num : Type} `{Number num}.

Definition sameFrame (a b : FrameCallback) : bool :=
  match a, b with
  | SpringFrame, SpringFrame | JumpFrame, JumpFrame => true
  | _, _ => false
  end.

(** The handles of the pending frames that will run [cb]. *)
Definition pendingFrames (cb : FrameCallback) (w : World num) : list handle :=
  map fst (filter (fun e => sameFrame (snd e) cb) (frames w)).

(** The world a trace leads to from [w0] ([w0] itself when the host cannot
    deliver the trace). *)
Definition worldAfter (opts : Options num) (trace : list (Z * Event num))
  (w0 : World num) : World num :=
  match run opts trace w0 with
  | Some w => w
  | None => w0
  end.

(** [dist > opts.detectionRadius * 2.5] of [handleMouseMove] *)
Definition farAway (opts : Options num) (x y : num) (h : Host num) : bool :=
  ltb (mul (detectionRadius opts) (dec 25 10))
      (distance x y (fst (getButtonCenter h)) (snd (getButtonCenter h))).

End PendingFrames.

(** ** Flags and loops *)

Section Liveness.

Context {num : Type} `{Number num}.

(** While the listeners are registered a jump in progress has its frame
    pending under the stored handle; a pending jump frame belongs to a jump
    in progress. *)
Definition JumpLive (w : World num) : Prop :=
  (listening w = true -> isJumping (state w) = true ->
   exists id, jumpAnimFrame w = Some id /\ In (id, JumpFrame) (frames w)) /\
  (forall id, In (id, JumpFrame) (frames w) -> isJumping (state w) = true).

(** While the listeners are registered a stored spring handle names a
    pending frame; a pending spring frame belongs to a return in progress. *)
Definition SpringLive (w : World num) : Prop :=
  (listening w = true -> forall id, animationFrame w = Some id ->
   In (id, SpringFrame) (frames w)) /\
  (forall id, In (id, SpringFrame) (frames w) -> isReturning (state w) = true).

Definition Live (w : World num) : Prop := JumpLive w /\ SpringLive w.

End Liveness.

(** The button in mid-air with the return already requested: the world at
    the end of [leaveDuringJump]. *)
Definition midAir : World float := worldAfter floatDefaults leaveDuringJump attached.

(** The freshly attached button 10ms after the pointer left the document:
    the return timer is pending. *)
Definition afterLeave : World float :=
  worldAfter floatDefaults [((attachTime + 10)%Z, MouseLeave)] attached.

(** ** Signs on binary64 *)

(** Not below zero: NaN, a zero, a positive number or +infinity. *)
Definition notNegative (v : float) : bool :=
  match Prim2SF v with
  | S754_infinity true | S754_finite true _ _ => false
  | _ => true
  end.

(** The defaults with [detectionRadius: 0]. *)
Definition zeroRadius : Options float :=
  {| detectionRadius := 0%float;
     escapeDistance := escapeDistance floatDefaults;
     edgePadding := edgePadding floatDefaults;
     taunts := DEFAULT_TAUNTS;
     tauntProbability := tauntProbability floatDefaults;
     showShadow := true;
     screenShake := true;
     onEscape := true;
     onCatch := true;
     caughtText := "Wait... HOW?!";
     caughtDuration := 1100 |}.

(** The defaults with no taunts, and with a single one. *)
Definition noTaunts : Options float :=
  {| detectionRadius := detectionRadius floatDefaults;
     escapeDistance := escapeDistance floatDefaults;
     edgePadding := edgePadding floatDefaults;
     taunts := [];
     tauntProbability := tauntProbability floatDefaults;
     showShadow := true;
     screenShake := true;
     onEscape := true;
     onCatch := true;
     caughtText := "Wait... HOW?!";
     caughtDuration := 1100 |}.

Definition oneTaunt : Options float :=
  {| detectionRadius := detectionRadius floatDefaults;
     escapeDistance := escapeDistance floatDefaults;
     edgePadding := edgePadding floatDefaults;
     taunts := ["NOPE"%string];
     tauntProbability := tauntProbability floatDefaults;
     showShadow := true;
     screenShake := true;
     onEscape := true;
     onCatch := true;
     caughtText := "Wait... HOW?!";
     caughtDuration := 1100 |}.

(** ** The hide timer of a visible taunt *)

(** While the listeners are registered a visible taunt has its hide timer
    pending under the stored handle, due at most 1200ms from now. *)
Definition TauntShown {num} (w : World num) : Prop :=
  tauntVisible w = true -> listening w = true ->
  exists id due, tauntTimeout w = Some id /\
                 In (id, (due, HideTaunt)) (timers w) /\
                 (due <= clock w + 1200)%Z.

(** ** The frames of a return *)

Section SpringDelivery.

Context {num : Type} `{Number num}.
Variable opts : Options num.

(** The return is over: the button is on the anchor, at rest, and no spring
    frame is pending. *)
Definition atAnchor (w : World num) : Prop :=
  isReturning (state w) = false /\
  currentX (state w) = ofZ 0 /\ currentY (state w) = ofZ 0 /\
  velocityX (state w) = ofZ 0 /\ velocityY (state w) = ofZ 0 /\
  animationFrame w = None /\ pendingFrames SpringFrame w = [].

(** The host delivers the oldest pending spring frame, 16ms after the last
    event; nothing is delivered when no spring frame is pending.
    ([springAnimate] does not read the timestamp.) *)
Definition deliverSpringFrame (w : World num) : option (World num) :=
  match pendingFrames SpringFrame w with
  | id :: _ =>
      dispatch opts (clock w + 16) (AnimationFrame id (ofZ (clock w + 16))) w
  | [] => None
  end.

Fixpoint deliverSpringFrames (n : nat) (w : World num) : option (World num) :=
  match n with
  | O => Some w
  | S k => match deliverSpringFrame w with
           | Some w' => deliverSpringFrames k w'
           | None => None
           end
  end.

End SpringDelivery.

(** The defaults with [escapeDistance: 1e307] and [edgePadding: -1e308], so
    that the envelope does not clamp the jump. *)
Definition hugeOptions : Options float :=
  {| detectionRadius := detectionRadius floatDefaults;
     escapeDistance := 0x1.c7b1f3cac7433p+1019%float;
     edgePadding := (-0x1.1ccf385ebc8ap+1023)%float;
     taunts := DEFAULT_TAUNTS;
     tauntProbability := tauntProbability floatDefaults;
     showShadow := true;
     screenShake := true;
     onEscape := true;
     onCatch := true;
     caughtText := "Wait... HOW?!";
     caughtDuration := 1100 |}.

Local Open Scope float_scope.

(** The pointer comes within 10px of the centre; twelve frames follow 50ms
    apart, the last of which lands the jump; the return timer set by the
    landing fires 450ms later. *)
Definition jumpThenReturn : list (Z * Event float) :=
  [ ((attachTime + 1000)%Z, MouseMove 470 320 hostExample);
    ((attachTime + 1050)%Z, AnimationFrame 1%nat 1050);
    ((attachTime + 1100)%Z, AnimationFrame 3%nat 1100);
    ((attachTime + 1150)%Z, AnimationFrame 4%nat 1150);
    ((attachTime + 1200)%Z, AnimationFrame 5%nat 1200);
    ((attachTime + 1250)%Z, AnimationFrame 6%nat 1250);
    ((attachTime + 1300)%Z, AnimationFrame 7%nat 1300);
    ((attachTime + 1350)%Z, AnimationFrame 8%nat 1350);
    ((attachTime + 1400)%Z, AnimationFrame 9%nat 1400);
    ((attachTime + 1450)%Z, AnimationFrame 10%nat 1450);
    ((attachTime + 1500)%Z, AnimationFrame 11%nat 1500);
    ((attachTime + 1550)%Z, AnimationFrame 12%nat 1550);
    ((attachTime + 2000)%Z, Timeout 15%nat) ].

Close Scope float_scope.

(** The return as it starts after the default jump of 280px. *)
Definition returnStart : World float :=
  worldAfter floatDefaults jumpThenReturn attached.

(** The return as it starts after a jump of 1e307. *)
Definition overflowStart : World float :=
  worldAfter hugeOptions jumpThenReturn
    (makeEvasive hugeOptions "Click me" attachTime picksIdentity).

(** Two spring frames later. *)
Definition overflowNaN : World float :=
  match deliverSpringFrames hugeOptions 2 overflowStart with
  | Some w => w
  | None => overflowStart
  end.

(** ** The real number a binary64 value stands for *)

Definition pow2 (e : Z) : R := powerRZ 2 e.

Definition SF2R (x : spec_float) : R :=
  match x with
  | S754_finite s m e =>
      if s then (- (IZR (Zpos m) * pow2 e))%R else (IZR (Zpos m) * pow2 e)%R
  | _ => 0%R
  end.

Definition B2R (x : float) : R := SF2R (Prim2SF x).

Definition is_finite_SF (x : spec_float) : bool :=
  match x with
  | S754_finite _ _ _ | S754_zero _ => true
  | _ => false
  end.

Definition finite (x : float) : bool := is_finite_SF (Prim2SF x).

(** A zero or a finite value of the given sign. *)
Definition SFsigned (s : bool) (x : spec_float) : Prop :=
  match x with
  | S754_zero s' | S754_finite s' _ _ => s' = s
  | _ => False
  end.

(** Zero or positive, and finite (the zero is +0). *)
Definition nonneg (x : float) : Prop := SFsigned false (Prim2SF x).

(** The value is finite and within the rounding error of [v]. *)
Definition rounds_to (v : R) (x : float) : Prop :=
  finite x = true /\
  (Rabs (B2R x - v) <= pow2 (-51) * Rabs v + pow2 (-1073))%R.

(** The energy of the spring on one axis, [x^2 + 2xv + 5v^2]: a spring frame
    towards the anchor brings it down by a tenth. *)
Definition axisEnergy (x v : R) : R := (x * x + 2 * x * v + 5 * v * v)%R.

(** The real numbers [springStep] computes on one axis, towards the anchor. *)
Definition axisVelocity (x v : R) : R := ((v + (0 - x) * 120 / 1000) * (72 / 100))%R.
Definition axisPosition (x v : R) : R := (x + axisVelocity x v)%R.

(** The energy of the state of a binary64 spring, over both axes. *)
Definition floatEnergy (s : State float) : R :=
  (axisEnergy (B2R (currentX s)) (B2R (velocityX s))
   + axisEnergy (B2R (currentY s)) (B2R (velocityY s)))%R.

(** Offsets and velocities are finite numbers. *)
Definition finiteState (s : State float) : Prop :=
  finite (currentX s) = true /\ finite (currentY s) = true /\
  finite (velocityX s) = true /\ finite (velocityY s) = true.

(** * Properties *)

Unset Implicit Arguments.

(** ** Lists *)

Lemma list_set_length A i (v : A) l : length (list_set i v l) = length l.
Proof.
  revert i; induction l as [|x l IH]; intros [|i]; simpl; auto.
Qed.

Lemma nth_error_list_set_eq A i (v : A) l :
  i < length l -> nth_error (list_set i v l) i = Some v.
Proof.
  revert i; induction l as [|x l IH]; intros [|i]; simpl; intros Hi; try lia; auto.
  apply IH; lia.
Qed.

Lemma nth_error_list_set_neq A i j (v : A) l :
  i <> j -> nth_error (list_set i v l) j = nth_error l j.
Proof.
  revert i j; induction l as [|x l IH]; intros [|i] [|j]; simpl; intros Hij;
    try congruence; auto.
Qed.

Lemma count_occ_list_set i v x (l : list Z) (old : Z) :
  nth_error l i = Some old ->
  count_occ Z.eq_dec (list_set i v l) x + (if Z.eq_dec old x then 1 else 0)
  = count_occ Z.eq_dec l x + (if Z.eq_dec v x then 1 else 0).
Proof.
  revert i; induction l as [|y l IH]; intros [|i]; simpl; intros Hi; try discriminate.
  - injection Hi as ->. destruct (Z.eq_dec old x), (Z.eq_dec v x); lia.
  - specialize (IH _ Hi). destruct (Z.eq_dec y x); lia.
Qed.

(** ** The taunt queue *)

Lemma swap_Permutation i j q : Permutation (swap i j q) q.
Proof.
  unfold swap.
  destruct (nth_error q i) as [qi|] eqn:Hi; [|reflexivity].
  destruct (nth_error q j) as [qj|] eqn:Hj; [|reflexivity].
  apply (Permutation_count_occ Z.eq_dec). intros x.
  assert (Hj' : nth_error (list_set i qj q) j = Some qj).
  { destruct (Nat.eq_dec i j) as [->|Hne].
    - apply nth_error_list_set_eq. apply nth_error_Some. congruence.
    - rewrite nth_error_list_set_neq; auto. }
  pose proof (@count_occ_list_set j qi x _ _ Hj') as H1.
  pose proof (@count_occ_list_set i qj x _ _ Hi) as H2.
  lia.
Qed.

Lemma shuffle_loop_Permutation picks i q : Permutation (shuffle_loop picks i q) q.
Proof.
  revert q; induction i as [|i IH]; intros q; simpl; [reflexivity|].
  rewrite IH. apply swap_Permutation.
Qed.

Lemma shuffleTauntQueue_Permutation picks q : Permutation (shuffleTauntQueue picks q) q.
Proof. apply shuffle_loop_Permutation. Qed.

Lemma keys_NoDup n : NoDup (keys n).
Proof.
  unfold keys. generalize 0%nat. induction n as [|n IH]; intros k; simpl.
  - constructor.
  - constructor; [|apply IH].
    rewrite in_map_iff. intros (j & Hj & Hin). apply in_seq in Hin. lia.
Qed.

Lemma keys_length n : length (keys n) = n.
Proof. unfold keys. now rewrite length_map, length_seq. Qed.

Lemma keys_range n x : In x (keys n) <-> (0 <= x < Z.of_nat n)%Z.
Proof.
  unfold keys. rewrite in_map_iff. split.
  - intros (k & <- & Hk). apply in_seq in Hk. lia.
  - intros Hx. exists (Z.to_nat x). split; [lia|]. apply in_seq. lia.
Qed.

Lemma same_index_true a b : same_index a b = true <-> a = b.
Proof.
  destruct a, b; simpl; split; intros; try congruence.
  - f_equal. now apply Z.eqb_eq.
  - apply Z.eqb_eq. congruence.
Qed.

(** Inside a round the head is consumed as it stands. *)
Lemma nextTaunt_inside p n x q last :
  last <> Some x ->
  nextTaunt p n (x :: q) last = (Some x, q).
Proof.
  intros Hne. unfold nextTaunt. simpl length. cbn [Nat.eqb hd_error].
  destruct (same_index (Some x) last) eqn:E.
  - apply same_index_true in E. congruence.
  - reflexivity.
Qed.

(** What a draw gives on a non-empty queue with distinct entries. *)
Lemma nextTaunt_distinct p n x q last :
  NoDup (x :: q) ->
  exists y r, nextTaunt p n (x :: q) last = (Some y, r) /\
              Permutation (y :: r) (x :: q) /\
              (q <> [] -> last <> Some y).
Proof.
  intros Hnd. destruct (same_index (Some x) last) eqn:E.
  - apply same_index_true in E. subst last.
    destruct q as [|b r].
    + exists x, []. unfold nextTaunt; simpl. rewrite Z.eqb_refl. simpl.
      repeat split; auto; congruence.
    + assert (Hb : b <> x).
      { inversion Hnd as [|? ? Hx _]. intros ->. apply Hx. now left. }
      exists b, (x :: r). unfold nextTaunt. simpl length. cbn [Nat.eqb hd_error].
      cbn [same_index]. rewrite Z.eqb_refl.
      cbn [andb Nat.ltb Nat.leb tl first_other same_index].
      destruct (Z.eqb b x) eqn:Eb; [apply Z.eqb_eq in Eb; congruence|].
      cbn. repeat split; try congruence. apply perm_swap.
  - assert (last <> Some x).
    { intros ->. rewrite (proj2 (same_index_true _ _) eq_refl) in E. discriminate. }
    exists x, q. rewrite nextTaunt_inside by auto. repeat split; auto.
Qed.

(** A draw from the empty queue starts a round: the index drawn and the
    queue left are together a permutation of all the indices. *)
Lemma nextTaunt_regenerate p n last :
  0 < n ->
  exists y r, nextTaunt p n [] last = (Some y, r) /\
              Permutation (y :: r) (keys n) /\
              (1 < n -> last <> Some y).
Proof.
  intros Hn.
  set (q0 := shuffleTauntQueue p (keys n)).
  assert (Hp : Permutation q0 (keys n)) by apply shuffleTauntQueue_Permutation.
  assert (Hlen : length q0 = n).
  { apply Permutation_length in Hp. now rewrite keys_length in Hp. }
  assert (Hq0 : nextTaunt p n [] last = nextTaunt p n q0 last).
  { unfold nextTaunt at 1. simpl length. cbn [Nat.eqb]. fold q0.
    unfold nextTaunt.
    destruct (length q0 =? 0)%nat eqn:E; [|reflexivity].
    apply Nat.eqb_eq in E. lia. }
  rewrite Hq0.
  destruct q0 as [|x q] eqn:Eq0; [simpl in Hlen; lia|].
  assert (Hnd0 : NoDup (x :: q)).
  { eapply Permutation_NoDup; [symmetry; exact Hp|apply keys_NoDup]. }
  destruct (@nextTaunt_distinct p n _ _ last Hnd0) as (y & r & -> & Hperm & Hy).
  exists y, r. repeat split; auto.
  - now rewrite Hperm.
  - intros Hn1. apply Hy. intros ->. simpl in Hlen. lia.
Qed.

Lemma nextTaunt_ok p n q last :
  queueOk n q last ->
  queueOk n (snd (nextTaunt p n q last)) (fst (nextTaunt p n q last)) /\
  (1 < n -> fst (nextTaunt p n q last) <> last) /\
  (0 < n -> exists i, fst (nextTaunt p n q last) = Some i /\ In i (keys n)).
Proof.
  intros (Hnd & Hin & Hlast).
  destruct q as [|x q].
  - destruct n as [|n].
    + unfold nextTaunt, shuffleTauntQueue, keys; simpl.
      destruct last; simpl; repeat split; simpl; try lia; try constructor;
        try contradiction; intros; discriminate.
    + destruct (@nextTaunt_regenerate p (S n) last) as (y & r & -> & Hperm & Hy);
        [lia|].
      assert (Hnd1 : NoDup (y :: r)).
      { eapply Permutation_NoDup; [symmetry; exact Hperm|apply keys_NoDup]. }
      cbn [fst snd]. repeat split.
      * now inversion Hnd1.
      * intros z Hz. eapply Permutation_in; [exact Hperm|]. now right.
      * intros z [= <-]. now inversion Hnd1.
      * intros Hn Heq. apply Hy; auto.
      * intros _. exists y. split; auto.
        eapply Permutation_in; [exact Hperm|]. now left.
  - assert (Hne : last <> Some x).
    { intros ->. apply (Hlast x eq_refl). now left. }
    rewrite nextTaunt_inside by exact Hne. cbn [fst snd].
    repeat split.
    + now inversion Hnd.
    + intros z Hz. apply Hin. now right.
    + intros z [= <-]. now inversion Hnd.
    + intros _ Heq. congruence.
    + intros _. exists x. split; auto. apply Hin. now left.
Qed.

(** ** Pending lists *)

Lemma In_remove_handle A id (e : handle * A) l :
  In e (remove_handle id l) <-> In e l /\ fst e <> id.
Proof.
  unfold remove_handle. rewrite filter_In. split; intros [H1 H2]; split; auto.
  - intros Heq. cbv beta in H2. rewrite Heq, Nat.eqb_refl in H2. discriminate.
  - cbv beta. apply negb_true_iff. now apply Nat.eqb_neq.
Qed.

Lemma In_map_fst A (l : list (handle * A)) k :
  In k (map fst l) <-> exists v, In (k, v) l.
Proof.
  rewrite in_map_iff. split.
  - intros ([k' v] & <- & Hin). now exists v.
  - intros (v & Hin). now exists (k, v).
Qed.

Lemma remove_handle_distinct A id (l : list (handle * A)) :
  NoDup (map fst l) -> NoDup (map fst (remove_handle id l)).
Proof.
  induction l as [|[k v] l IH]; simpl; intros Hnd; [constructor|].
  inversion Hnd as [|? ? Hk Hl]; subst.
  destruct (Nat.eqb k id); simpl; auto.
  constructor; auto.
  rewrite In_map_fst. intros (v' & Hin). apply In_remove_handle in Hin.
  apply Hk. apply In_map_fst. exists v'. tauto.
Qed.

Lemma snoc_distinct A n (x : A) (l : list (handle * A)) :
  NoDup (map fst l) -> (forall e, In e l -> fst e < n) ->
  NoDup (map fst (l ++ [(n, x)])).
Proof.
  intros Hnd Hfresh. rewrite map_app. simpl.
  apply NoDup_app; auto.
  - repeat constructor. intros [].
  - intros k Hk [<-|[]]. apply In_map_fst in Hk as (v & Hin).
    apply Hfresh in Hin. simpl in Hin. lia.
Qed.

Lemma lookup_handle_In A id (l : list (handle * A)) v :
  lookup_handle id l = Some v -> In (id, v) l.
Proof.
  induction l as [|[k x] l IH]; simpl; [discriminate|].
  destruct (Nat.eqb k id) eqn:E.
  - apply Nat.eqb_eq in E. intros [= ->]. subst. now left.
  - intros Hl. right. auto.
Qed.

Lemma lookup_handle_distinct A id (l : list (handle * A)) v :
  NoDup (map fst l) -> In (id, v) l -> lookup_handle id l = Some v.
Proof.
  induction l as [|[k x] l IH]; simpl; intros Hnd Hin; [contradiction|].
  inversion Hnd as [|? ? Hk Hl]; subst.
  destruct Hin as [Heq|Hin].
  - injection Heq as -> ->. now rewrite Nat.eqb_refl.
  - destruct (Nat.eqb k id) eqn:E; auto.
    apply Nat.eqb_eq in E. subst. exfalso. apply Hk.
    apply In_map_fst. now exists v.
Qed.

Lemma restore_remove_other id (l : list (handle * (Z * TimerCallback))) :
  (forall e, In e l -> fst e = id -> isRestore e = false) ->
  filter isRestore (remove_handle id l) = filter isRestore l.
Proof.
  induction l as [|e l IH]; simpl; intros Hl; auto.
  destruct (Nat.eqb (fst e) id) eqn:E; simpl.
  - apply Nat.eqb_eq in E. rewrite (Hl e) by auto. apply IH. auto.
  - destruct (isRestore e); [f_equal|]; apply IH; auto.
Qed.

Lemma restore_remove_fired id due (l : list (handle * (Z * TimerCallback))) :
  NoDup (map fst l) -> In (id, (due, CaughtRestore)) l ->
  S (length (filter isRestore (remove_handle id l))) = length (filter isRestore l).
Proof.
  induction l as [|e l IH]; simpl; intros Hnd Hin; [contradiction|].
  inversion Hnd as [|? ? Hk Hl]; subst.
  destruct Hin as [->|Hin]; simpl.
  - rewrite Nat.eqb_refl. simpl. f_equal. f_equal.
    apply restore_remove_other. intros [k v] He Hid. simpl in Hid. subst.
    exfalso. apply Hk. apply In_map_fst. now exists v.
  - destruct (Nat.eqb (fst e) id) eqn:E.
    + apply Nat.eqb_eq in E. exfalso. apply Hk. rewrite E.
      apply In_map_fst. eauto.
    + simpl. destruct (isRestore e); simpl; rewrite <- IH; auto.
Qed.

Lemma restore_snoc e (l : list (handle * (Z * TimerCallback))) :
  filter isRestore (l ++ [e]) = filter isRestore l ++ (if isRestore e then [e] else []).
Proof. rewrite filter_app. simpl. now destruct (isRestore e). Qed.

(** ** Every handler keeps the world consistent *)

(** Split a membership in a pending list built by appending and removing. *)
Ltac in_cases H :=
  repeat match type of H with
  | In _ (_ ++ _) => apply in_app_or in H; destruct H as [H|H]
  | In _ (remove_handle _ _) =>
      let H' := fresh "Hne" in apply In_remove_handle in H; destruct H as [H H']
  | In _ (_ :: _) => destruct H as [H|H]
  | In _ [] => destruct H
  end.

Lemma TimerCallback_eq_dec (a b : TimerCallback) : {a = b} + {a <> b}.
Proof. decide equality. Qed.

Section Preservation.

Context {num : Type} `{Number num}.
Variable opts : Options num.
Variable content : string.

Local Abbreviation Consistent := (Consistent opts content).
Local Abbreviation Keeps := (Keeps opts content).

Lemma Keeps_refl (w : World num) : Consistent w -> Keeps w w.
Proof. intros Hc. split; [exact Hc|]. repeat split. Qed.

Lemma Keeps_trans (a b c : World num) : Keeps a b -> Keeps b c -> Keeps a c.
Proof.
  intros [_ (A1 & A2 & A3 & A4)] [Hc (B1 & B2 & B3 & B4)].
  split; [exact Hc|]. repeat split; congruence.
Qed.

(** The fields the invariant reads. *)
Lemma Keeps_ext (w w' : World num) :
  Consistent w ->
  timers w' = timers w -> frames w' = frames w ->
  nextHandle w' = nextHandle w ->
  returnTimeout w' = returnTimeout w -> tauntTimeout w' = tauntTimeout w ->
  animationFrame w' = animationFrame w -> jumpAnimFrame w' = jumpAnimFrame w ->
  isCaught (state w') = isCaught (state w) ->
  originalContent w' = originalContent w ->
  tauntQueue w' = tauntQueue w -> lastTauntIndex w' = lastTauntIndex w ->
  listening w' = listening w -> innerHTML w' = innerHTML w ->
  catchCalls w' = catchCalls w ->
  Keeps w w'.
Proof.
  intros [tf td rf rk cf ck st jt rp ok qo cc] E1 E2 E3 E4 E5 E6 E7 E8 E9 E10 E11 E12 E13 E14.
  split; [|unfold Quiet, restoreTimers; rewrite E1; auto].
  constructor; unfold restoreTimers;
    rewrite ?E1, ?E2, ?E3, ?E4, ?E5, ?E6, ?E7, ?E8, ?E9, ?E10, ?E11, ?E12, ?E13;
    assumption.
Qed.

(** Adding a timer that is not stored, or stored as the one of its kind. *)
Lemma Keeps_timer (w w' : World num) cb due :
  Consistent w ->
  cb <> CaughtRestore ->
  timers w' = timers w ++ [(nextHandle w, (due, cb))] ->
  nextHandle w' = S (nextHandle w) ->
  (returnTimeout w' = returnTimeout w \/
   cb = ReturnTimer /\ returnTimeout w' = Some (nextHandle w)) ->
  (tauntTimeout w' = tauntTimeout w \/
   cb = HideTaunt /\ tauntTimeout w' = Some (nextHandle w)) ->
  frames w' = frames w ->
  animationFrame w' = animationFrame w -> jumpAnimFrame w' = jumpAnimFrame w ->
  isCaught (state w') = isCaught (state w) ->
  originalContent w' = originalContent w ->
  tauntQueue w' = tauntQueue w -> lastTauntIndex w' = lastTauntIndex w ->
  listening w' = listening w -> innerHTML w' = innerHTML w ->
  catchCalls w' = catchCalls w ->
  Keeps w w'.
Proof.
  intros [tf td rf rk cf ck st jt rp ok qo cc] Hcb E1 E3 E4 E5 E2 E6 E7 E8 E9 E10 E11 E12 E13 E14.
  assert (Hr : restoreTimers w' = restoreTimers w).
  { unfold restoreTimers. rewrite E1, restore_snoc. unfold isRestore at 2. simpl.
    destruct cb; try congruence; apply app_nil_r. }
  split; [|unfold Quiet; auto].
  constructor; rewrite ?Hr;
    rewrite ?E1, ?E2, ?E3, ?E6, ?E7, ?E8, ?E9, ?E10, ?E11, ?E12, ?E13;
    try assumption.
  - intros e He. in_cases He; subst; simpl; [apply tf in He|]; lia.
  - apply snoc_distinct; auto.
  - intros id Hid. destruct E4 as [E4|[_ E4]]; rewrite E4 in Hid.
    + apply rf in Hid. lia.
    + injection Hid as <-. lia.
  - intros id due' cb' Hid Hin. in_cases Hin.
    + destruct E4 as [E4|[_ E4]]; rewrite E4 in Hid; eauto.
      injection Hid as <-. apply tf in Hin. simpl in Hin. lia.
    + injection Hin as <- <- <-.
      destruct E4 as [E4|[Hr' E4]]; rewrite E4 in Hid; auto.
      apply rf in Hid. lia.
  - intros id Hid. destruct E5 as [E5|[_ E5]]; rewrite E5 in Hid.
    + apply cf in Hid. lia.
    + injection Hid as <-. lia.
  - intros id due' cb' Hid Hin. in_cases Hin.
    + destruct E5 as [E5|[_ E5]]; rewrite E5 in Hid; eauto.
      injection Hid as <-. apply tf in Hin. simpl in Hin. lia.
    + injection Hin as <- <- <-.
      destruct E5 as [E5|[Hr' E5]]; rewrite E5 in Hid; auto.
      apply cf in Hid. lia.
Qed.

(** Clearing a stored timer handle, keeping or forgetting the handle. *)
Lemma Keeps_clear (w w' : World num) (h : option handle) :
  Consistent w ->
  h = returnTimeout w \/ h = tauntTimeout w ->
  timers w' = match h with
              | Some id => remove_handle id (timers w)
              | None => timers w
              end ->
  nextHandle w' = nextHandle w ->
  (returnTimeout w' = returnTimeout w \/ returnTimeout w' = None) ->
  (tauntTimeout w' = tauntTimeout w \/ tauntTimeout w' = None) ->
  frames w' = frames w ->
  animationFrame w' = animationFrame w -> jumpAnimFrame w' = jumpAnimFrame w ->
  isCaught (state w') = isCaught (state w) ->
  originalContent w' = originalContent w ->
  tauntQueue w' = tauntQueue w -> lastTauntIndex w' = lastTauntIndex w ->
  listening w' = listening w -> innerHTML w' = innerHTML w ->
  catchCalls w' = catchCalls w ->
  Keeps w w'.
Proof.
  intros [tf td rf rk cf ck st jt rp ok qo cc] Hh E1 E3 E4 E5 E2 E6 E7 E8 E9 E10 E11 E12 E13 E14.
  assert (Hsub : forall e, In e (timers w') -> In e (timers w)).
  { intros e He. rewrite E1 in He. destruct h; auto. now in_cases He. }
  assert (Hr : restoreTimers w' = restoreTimers w).
  { unfold restoreTimers. rewrite E1. destruct h as [id|]; auto.
    rewrite restore_remove_other; auto.
    intros [k [due cb]] He Hk. simpl in Hk. subst k. unfold isRestore. simpl.
    destruct Hh as [Hh|Hh]; symmetry in Hh.
    + now rewrite (rk _ _ _ Hh He).
    + now rewrite (ck _ _ _ Hh He). }
  split; [|unfold Quiet; auto].
  constructor; rewrite ?Hr;
    rewrite ?E2, ?E3, ?E6, ?E7, ?E8, ?E9, ?E10, ?E11, ?E12, ?E13;
    try assumption.
  - auto.
  - rewrite E1. destruct h; auto. now apply remove_handle_distinct.
  - intros id Hid. destruct E4 as [E4|E4]; rewrite E4 in Hid; auto. discriminate.
  - intros id due cb Hid Hin. destruct E4 as [E4|E4]; rewrite E4 in Hid; eauto.
    discriminate.
  - intros id Hid. destruct E5 as [E5|E5]; rewrite E5 in Hid; auto. discriminate.
  - intros id due cb Hid Hin. destruct E5 as [E5|E5]; rewrite E5 in Hid; eauto.
    discriminate.
Qed.

(** Cancelling frames: any subset of the pending frames may go. *)
Lemma Keeps_cancel (w w' : World num) :
  Consistent w ->
  (forall e, In e (frames w') -> In e (frames w)) ->
  (animationFrame w' = animationFrame w \/
   forall id, ~ In (id, SpringFrame) (frames w')) ->
  (jumpAnimFrame w' = jumpAnimFrame w \/
   forall id, ~ In (id, JumpFrame) (frames w')) ->
  timers w' = timers w -> nextHandle w' = nextHandle w ->
  returnTimeout w' = returnTimeout w -> tauntTimeout w' = tauntTimeout w ->
  isCaught (state w') = isCaught (state w) ->
  originalContent w' = originalContent w ->
  tauntQueue w' = tauntQueue w -> lastTauntIndex w' = lastTauntIndex w ->
  listening w' = listening w -> innerHTML w' = innerHTML w ->
  catchCalls w' = catchCalls w ->
  Keeps w w'.
Proof.
  intros [tf td rf rk cf ck st jt rp ok qo cc] Hsub Ha Hj E1 E3 E4 E5 E8 E9 E10 E11 E12 E13 E14.
  split; [|unfold Quiet, restoreTimers; rewrite E1; auto].
  constructor; unfold restoreTimers;
    rewrite ?E1, ?E3, ?E4, ?E5, ?E8, ?E9, ?E10, ?E11, ?E12, ?E13;
    try assumption.
  - intros id Hid. destruct Ha as [Ha|Ha].
    + rewrite Ha. auto.
    + now apply Ha in Hid.
  - intros id Hid. destruct Hj as [Hj|Hj].
    + rewrite Hj. auto.
    + now apply Hj in Hid.
Qed.

(** Requesting a frame and storing its handle, when none of its kind is
    pending. *)
Lemma Keeps_request (w w' : World num) cb :
  Consistent w ->
  (forall id, ~ In (id, cb) (frames w)) ->
  frames w' = frames w ++ [(nextHandle w, cb)] ->
  nextHandle w' = S (nextHandle w) ->
  (cb = SpringFrame /\ animationFrame w' = Some (nextHandle w) /\
   jumpAnimFrame w' = jumpAnimFrame w \/
   cb = JumpFrame /\ jumpAnimFrame w' = Some (nextHandle w) /\
   animationFrame w' = animationFrame w) ->
  timers w' = timers w ->
  returnTimeout w' = returnTimeout w -> tauntTimeout w' = tauntTimeout w ->
  isCaught (state w') = isCaught (state w) ->
  originalContent w' = originalContent w ->
  tauntQueue w' = tauntQueue w -> lastTauntIndex w' = lastTauntIndex w ->
  listening w' = listening w -> innerHTML w' = innerHTML w ->
  catchCalls w' = catchCalls w ->
  Keeps w w'.
Proof.
  intros [tf td rf rk cf ck st jt rp ok qo cc] Hnone E2 E3 Hk E1 E4 E5 E8 E9 E10 E11 E12 E13 E14.
  split; [|unfold Quiet, restoreTimers; rewrite E1; auto].
  constructor; unfold restoreTimers;
    rewrite ?E1, ?E2, ?E3, ?E4, ?E5, ?E8, ?E9, ?E10, ?E11, ?E12, ?E13;
    try assumption.
  - intros e He. apply tf in He. lia.
  - intros id Hid. apply rf in Hid. lia.
  - intros id Hid. apply cf in Hid. lia.
  - intros id Hin. in_cases Hin.
    + destruct Hk as [(-> & _ & _)|(_ & _ & ->)]; auto. now apply Hnone in Hin.
    + injection Hin as <- Hcb. destruct Hk as [(_ & -> & _)|(-> & _ & _)]; auto.
      discriminate.
  - intros id Hin. in_cases Hin.
    + destruct Hk as [(_ & _ & ->)|(-> & _ & _)]; auto. now apply Hnone in Hin.
    + injection Hin as <- Hcb. destruct Hk as [(-> & _ & _)|(_ & -> & _)]; auto.
      discriminate.
Qed.

(** A draw from the taunt queue. *)
Lemma Keeps_draw (w w' : World num) picks :
  Consistent w ->
  tauntQueue w' = snd (nextTaunt picks (length (taunts opts)) (tauntQueue w)
                         (lastTauntIndex w)) ->
  lastTauntIndex w' = fst (nextTaunt picks (length (taunts opts)) (tauntQueue w)
                             (lastTauntIndex w)) ->
  timers w' = timers w -> frames w' = frames w ->
  nextHandle w' = nextHandle w ->
  returnTimeout w' = returnTimeout w -> tauntTimeout w' = tauntTimeout w ->
  animationFrame w' = animationFrame w -> jumpAnimFrame w' = jumpAnimFrame w ->
  isCaught (state w') = isCaught (state w) ->
  originalContent w' = originalContent w ->
  listening w' = listening w -> innerHTML w' = innerHTML w ->
  catchCalls w' = catchCalls w ->
  Keeps w w'.
Proof.
  intros [tf td rf rk cf ck st jt rp ok qo cc] Q1 Q2 E1 E2 E3 E4 E5 E6 E7 E8 E9 E12 E13 E14.
  split; [|unfold Quiet, restoreTimers; rewrite E1; auto].
  constructor; unfold restoreTimers;
    rewrite ?E1, ?E2, ?E3, ?E4, ?E5, ?E6, ?E7, ?E8, ?E9, ?E12, ?E13;
    try assumption.
  rewrite Q1, Q2. now apply nextTaunt_ok.
Qed.

(** The click that catches the button. *)
Lemma Consistent_caught (w w' : World num) due :
  Consistent w ->
  isCaught (state w) = false -> isCaught (state w') = true ->
  timers w' = timers w ++ [(nextHandle w, (due, CaughtRestore))] ->
  nextHandle w' = S (nextHandle w) ->
  innerHTML w' = caughtText opts ->
  frames w' = frames w ->
  returnTimeout w' = returnTimeout w -> tauntTimeout w' = tauntTimeout w ->
  animationFrame w' = animationFrame w -> jumpAnimFrame w' = jumpAnimFrame w ->
  originalContent w' = originalContent w ->
  tauntQueue w' = tauntQueue w -> lastTauntIndex w' = lastTauntIndex w ->
  Consistent w'.
Proof.
  intros [tf td rf rk cf ck st jt rp ok qo cc] Hc Hc' E1 E3 Hi E2 E4 E5 E6 E7 E9 E10 E11.
  constructor; unfold restoreTimers;
    rewrite ?E1, ?E2, ?E3, ?E4, ?E5, ?E6, ?E7, ?E9, ?E10, ?E11;
    try assumption.
  - intros e He. in_cases He; subst; simpl; [apply tf in He|]; lia.
  - apply snoc_distinct; auto.
  - intros id Hid. apply rf in Hid. lia.
  - intros id due' cb' Hid Hin. in_cases Hin; eauto.
    injection Hin as <- <- <-. apply rf in Hid. lia.
  - intros id Hid. apply cf in Hid. lia.
  - intros id due' cb' Hid Hin. in_cases Hin; eauto.
    injection Hin as <- <- <-. apply cf in Hid. lia.
  - rewrite restore_snoc, length_app. unfold restoreTimers in rp.
    rewrite rp, Hc, Hc'. reflexivity.
  - auto.
Qed.

(** The timer that ends the caught state fires. *)
Lemma Consistent_restore (w w' : World num) id due :
  Consistent w ->
  In (id, (due, CaughtRestore)) (timers w) ->
  timers w' = remove_handle id (timers w) ->
  isCaught (state w') = false ->
  nextHandle w' = nextHandle w -> frames w' = frames w ->
  returnTimeout w' = returnTimeout w -> tauntTimeout w' = tauntTimeout w ->
  animationFrame w' = animationFrame w -> jumpAnimFrame w' = jumpAnimFrame w ->
  originalContent w' = originalContent w ->
  tauntQueue w' = tauntQueue w -> lastTauntIndex w' = lastTauntIndex w ->
  Consistent w'.
Proof.
  intros [tf td rf rk cf ck st jt rp ok qo cc] Hin E1 Hc' E3 E2 E4 E5 E6 E7 E9 E10 E11.
  constructor; unfold restoreTimers;
    rewrite ?E1, ?E2, ?E3, ?E4, ?E5, ?E6, ?E7, ?E9, ?E10, ?E11;
    try assumption.
  - intros e He. in_cases He. auto.
  - now apply remove_handle_distinct.
  - intros k due' cb' Hid Hk. in_cases Hk. eauto.
  - intros k due' cb' Hid Hk. in_cases Hk. eauto.
  - rewrite Hc'. pose proof (restore_remove_fired _ _ _ td Hin) as Hlen.
    unfold restoreTimers in rp. destruct (isCaught (state w)); lia.
  - rewrite Hc'. discriminate.
Qed.

(** Any other timer fires. *)
Lemma Keeps_fire (w : World num) id due cb :
  Consistent w ->
  lookup_handle id (timers w) = Some (due, cb) -> cb <> CaughtRestore ->
  Keeps w (set_timers (remove_handle id (timers w)) w).
Proof.
  intros [tf td rf rk cf ck st jt rp ok qo cc] Hl Hcb.
  apply lookup_handle_In in Hl.
  assert (Hr : restoreTimers (set_timers (remove_handle id (timers w)) w)
               = restoreTimers w).
  { unfold restoreTimers. wsimpl. rewrite restore_remove_other; auto.
    intros [k [due' cb']] He Hk. simpl in Hk. subst k.
    assert (Heq : (due', cb') = (due, cb)).
    { apply lookup_handle_distinct with (id := id) in He; auto.
      apply lookup_handle_distinct with (id := id) in Hl; auto. congruence. }
    injection Heq as -> ->. unfold isRestore. simpl. destruct cb; congruence. }
  split; [|unfold Quiet; auto].
  constructor; rewrite ?Hr; wsimpl; try assumption.
  - intros e He. in_cases He. auto.
  - now apply remove_handle_distinct.
  - intros k due' cb' Hid Hk. in_cases Hk. eauto.
  - intros k due' cb' Hid Hk. in_cases Hk. eauto.
Qed.

(** Detaching: the listeners go and the content is the original one. *)
Lemma Consistent_detach (w w' : World num) :
  Consistent w ->
  listening w' = false ->
  timers w' = timers w -> frames w' = frames w ->
  nextHandle w' = nextHandle w ->
  returnTimeout w' = returnTimeout w -> tauntTimeout w' = tauntTimeout w ->
  animationFrame w' = animationFrame w -> jumpAnimFrame w' = jumpAnimFrame w ->
  isCaught (state w') = isCaught (state w) ->
  originalContent w' = originalContent w ->
  tauntQueue w' = tauntQueue w -> lastTauntIndex w' = lastTauntIndex w ->
  Consistent w'.
Proof.
  intros [tf td rf rk cf ck st jt rp ok qo cc] Hl E1 E2 E3 E4 E5 E6 E7 E8 E9 E10 E11.
  constructor; unfold restoreTimers;
    rewrite ?E1, ?E2, ?E3, ?E4, ?E5, ?E6, ?E7, ?E8, ?E9, ?E10, ?E11;
    try assumption.
  rewrite Hl. discriminate.
Qed.

(** A frame leaves the queue as it fires: none of its kind stays pending. *)
Lemma frame_fired (w : World num) id cb :
  lookup_handle id (frames w) = Some cb -> Consistent w ->
  Keeps w (set_frames (remove_handle id (frames w)) w) /\
  forall k, ~ In (k, cb) (remove_handle id (frames w)).
Proof.
  intros Hl Hc. apply lookup_handle_In in Hl. split.
  - apply (Keeps_cancel w); try side.
    wsimpl. intros e He. now in_cases He.
  - intros k Hk. in_cases Hk. simpl in Hne.
    destruct Hc as [_ _ _ _ _ _ st jt _ _ _ _].
    destruct cb.
    + pose proof (st _ Hl) as H1. pose proof (st _ Hk) as H2. congruence.
    + pose proof (jt _ Hl) as H1. pose proof (jt _ Hk) as H2. congruence.
Qed.

(** One more step after the steps so far: [Hprev : Keeps w w1], and [tac]
    proves [Keeps w1 w2] given [Consistent w1]. *)
Ltac then_keeps Hprev tac :=
  eapply Keeps_trans; [exact Hprev|]; tac; try exact (proj1 Hprev); try side.

Lemma Keeps_returnToCenter (w : World num) :
  Consistent w -> Keeps w (returnToCenter w).
Proof.
  intros Hc. unfold returnToCenter.
  destruct (animationFrame _) eqn:Ea; wsimpl.
  - apply (Keeps_ext w); try side.
  - apply (Keeps_request w _ SpringFrame); try side.
    intros id Hin. apply (spring_tracked Hc) in Hin. congruence.
Qed.

Lemma Keeps_springAnimate (w : World num) :
  (forall id, ~ In (id, SpringFrame) (frames w)) ->
  Consistent w -> Keeps w (springAnimate w).
Proof.
  intros Hnone Hc. unfold springAnimate.
  destruct (isReturning (springStep (state w)) && _).
  - apply (Keeps_cancel w); try side; wsimpl; auto.
  - destruct (isReturning (springStep (state w))).
    + apply (Keeps_request w _ SpringFrame); try side.
    + apply (Keeps_ext w); try side.
Qed.

Lemma isCaught_jumpEase (s : State num) : isCaught (jumpEase s) = isCaught s.
Proof. unfold jumpEase. destruct (ltb _ _); reflexivity. Qed.

Lemma Keeps_jumpAnimate ts (w : World num) :
  (forall id, ~ In (id, JumpFrame) (frames w)) ->
  Consistent w -> Keeps w (jumpAnimate opts ts w).
Proof.
  intros Hnone Hc. unfold jumpAnimate.
  set (s := jumpEase (jumpFall ts (state w))).
  assert (Hs : isCaught s = isCaught (state w)).
  { unfold s. rewrite isCaught_jumpEase. reflexivity. }
  destruct (landed s).
  - set (w1 := set_state (jumpLand s) w).
    assert (H1 : Keeps w w1) by (apply (Keeps_ext w); try side).
    set (w2 := if showShadow opts then snd (setTimeout ShadowFade 200 w1) else w1).
    assert (H2 : Keeps w w2).
    { unfold w2. destruct (showShadow opts); auto.
      then_keeps H1 ltac:(apply (Keeps_timer w1 _ ShadowFade (clock w1 + Z.max 0 200))). }
    set (w3 := if screenShake opts
               then snd (setTimeout LandingDone 200 (set_landing true w2)) else w2).
    assert (H3 : Keeps w w3).
    { unfold w3. destruct (screenShake opts); auto.
      then_keeps H2 ltac:(apply (Keeps_timer w2 _ LandingDone (clock w2 + Z.max 0 200))). }
    assert (Hn3 : forall id, ~ In (id, JumpFrame) (frames w3)).
    { unfold w3, w2. destruct (screenShake opts), (showShadow opts); exact Hnone. }
    clearbody w3. clear H1 H2 w1 w2.
    set (w4 := set_jumpAnimFrame None
                 (upd (set_lastJumpTime (ofZ 0)) (upd (set_isJumping false) w3))).
    assert (H4 : Keeps w w4).
    { then_keeps H3 ltac:(apply (Keeps_cancel w3)); wsimpl; auto. }
    clearbody w4.
    set (w5 := clearTimeout (returnTimeout w4) w4).
    assert (H5 : Keeps w w5).
    { then_keeps H4 ltac:(apply (Keeps_clear w4 _ (returnTimeout w4))). }
    clearbody w5.
    then_keeps H5 ltac:(apply (Keeps_timer w5 _ ReturnTimer (clock w5 + Z.max 0 450))).
  - apply (Keeps_request w _ JumpFrame); try side.
Qed.

Lemma Keeps_startJump x y (w : World num) :
  Consistent w -> Keeps w (startJump x y w).
Proof.
  intros Hc. unfold startJump.
  set (w1 := upd (set_lastJumpTime (ofZ 0)) _).
  assert (H1 : Keeps w w1) by (apply (Keeps_ext w); try side).
  clearbody w1.
  set (w2 := cancelAnimationFrame (jumpAnimFrame w1) w1).
  assert (Hsub : forall e, In e (frames w2) -> In e (frames w1)).
  { unfold w2. wsimpl. destruct (jumpAnimFrame _); auto.
    intros e He. now in_cases He. }
  assert (H2 : Keeps w w2).
  { then_keeps H1 ltac:(apply (Keeps_cancel w1)). }
  assert (Hn2 : forall id, ~ In (id, JumpFrame) (frames w2)).
  { intros id Hin. pose proof (jump_tracked (proj1 H1) id (Hsub _ Hin)) as Ht.
    unfold w2 in Hin. wsimpl. rewrite Ht in Hin. in_cases Hin. now apply Hne. }
  clearbody w2.
  then_keeps H2 ltac:(apply (Keeps_request w2 _ JumpFrame)).
Qed.

Lemma Keeps_showTaunt picks (w : World num) :
  Consistent w -> Keeps w (showTaunt opts picks w).
Proof.
  intros Hc. unfold showTaunt. destruct (ltb _ _); [|now apply Keeps_refl].
  set (r := nextTaunt picks (length (taunts opts)) (tauntQueue w) (lastTauntIndex w)).
  set (w1 := set_lastTauntIndex (fst r) (set_tauntQueue (snd r) w)).
  assert (H1 : Keeps w w1) by (apply (Keeps_draw w _ picks); try side).
  set (w2 := clearTimeout (tauntTimeout w1) w1).
  assert (H2 : Keeps w w2).
  { then_keeps H1 ltac:(apply (Keeps_clear w1 _ (tauntTimeout w1))). }
  then_keeps H2 ltac:(apply (Keeps_timer w2 _ HideTaunt (clock w2 + Z.max 0 1200))).
Qed.

Lemma Keeps_escapeFrom x y h (w : World num) :
  Consistent w -> Keeps w (escapeFrom opts x y h w).
Proof.
  intros Hc. unfold escapeFrom.
  destruct (isCaught _ || isJumping _); [now apply Keeps_refl|].
  destruct (ltb _ _); [|now apply Keeps_refl].
  cbv zeta.
  set (w1 := set_animationFrame None (cancelAnimationFrame (animationFrame w) w)).
  assert (H1 : Keeps w w1).
  { apply (Keeps_cancel w); try side; unfold w1; wsimpl.
    - destruct (animationFrame _); auto. intros e He. now in_cases He.
    - right. intros id Hin. destruct (animationFrame _) eqn:Ea.
      + in_cases Hin. pose proof (spring_tracked Hc _ Hin) as Ht.
        apply Hne. simpl. congruence.
      + pose proof (spring_tracked Hc _ Hin). congruence. }
  match goal with
  | |- context [startJump ?a ?b ?w0] =>
      assert (H2 : Keeps w w0);
      [ then_keeps H1 ltac:(apply (Keeps_clear w1 _ (returnTimeout w1)))
      | assert (H3 : Keeps w (startJump a b w0));
        [ eapply Keeps_trans; [exact H2|apply Keeps_startJump; exact (proj1 H2)]
        | set (ws := startJump a b w0) in * ] ]
  end.
  clearbody ws.
  assert (H4 : Keeps w (if onEscape opts
                        then set_escapeCalls (S (escapeCalls ws)) ws else ws)).
  { destruct (onEscape opts); auto.
    then_keeps H3 ltac:(apply (Keeps_ext ws)). }
  destruct (ltb _ _); auto.
  eapply Keeps_trans; [exact H4|]. apply Keeps_showTaunt. exact (proj1 H4).
Qed.

Lemma Keeps_handleMouseMove x y h (w : World num) :
  Consistent w -> Keeps w (handleMouseMove opts x y h w).
Proof.
  intros Hc. unfold handleMouseMove.
  pose proof (Keeps_escapeFrom x y h w Hc) as H1.
  cbv zeta.
  set (w1 := escapeFrom opts x y h w) in *. clearbody w1.
  set (w2 := clearTimeout (returnTimeout w1) w1).
  assert (H2 : Keeps w w2).
  { then_keeps H1 ltac:(apply (Keeps_clear w1 _ (returnTimeout w1))). }
  clearbody w2.
  destruct (ltb _ _); auto.
  then_keeps H2 ltac:(apply (Keeps_timer w2 _ ReturnTimer (clock w2 + Z.max 0 400))).
Qed.

Lemma Keeps_handleMouseLeave (w : World num) :
  Consistent w -> Keeps w (handleMouseLeave w).
Proof.
  intros Hc. unfold handleMouseLeave.
  set (w2 := clearTimeout (returnTimeout w) w).
  assert (H2 : Keeps w w2).
  { apply (Keeps_clear w _ (returnTimeout w)); try side. }
  clearbody w2.
  then_keeps H2 ltac:(apply (Keeps_timer w2 _ ReturnTimer (clock w2 + Z.max 0 200))).
Qed.

(** The world of [handleClick] just before the timer that ends the caught
    state is set, with the caught flag still down. *)
Lemma handleClick_parts (w : World num) :
  Consistent w ->
  exists w4, Consistent w4 /\
    frames w4 = [] /\ animationFrame w4 = None /\ jumpAnimFrame w4 = None /\
    restoreTimers w4 = restoreTimers w /\
    nextHandle w4 = S (nextHandle w) /\ clock w4 = clock w /\
    isCaught (state w4) = isCaught (state w) /\
    timers (handleClick opts (upd (set_isCaught false) w))
    = timers w4 ++ [(nextHandle w4,
                     (clock w4 + Z.max 0 (caughtDuration opts), CaughtRestore)%Z)] /\
    frames (handleClick opts (upd (set_isCaught false) w)) = frames w4 /\
    nextHandle (handleClick opts (upd (set_isCaught false) w)) = S (nextHandle w4) /\
    returnTimeout (handleClick opts (upd (set_isCaught false) w)) = returnTimeout w4 /\
    tauntTimeout (handleClick opts (upd (set_isCaught false) w)) = tauntTimeout w4 /\
    animationFrame (handleClick opts (upd (set_isCaught false) w)) = animationFrame w4 /\
    jumpAnimFrame (handleClick opts (upd (set_isCaught false) w)) = jumpAnimFrame w4 /\
    originalContent (handleClick opts (upd (set_isCaught false) w)) = originalContent w4 /\
    tauntQueue (handleClick opts (upd (set_isCaught false) w)) = tauntQueue w4 /\
    lastTauntIndex (handleClick opts (upd (set_isCaught false) w)) = lastTauntIndex w4.
Proof.
  intros Hc.
  set (w1 := set_jumpAnimFrame None (cancelAnimationFrame (jumpAnimFrame w) w)).
  assert (H1 : Keeps w w1).
  { apply (Keeps_cancel w); try side; unfold w1; wsimpl.
    - destruct (jumpAnimFrame _); auto. intros e He. now in_cases He.
    - right. intros id Hin. destruct (jumpAnimFrame _) eqn:Ea.
      + in_cases Hin. pose proof (jump_tracked Hc _ Hin) as Ht.
        apply Hne. simpl. congruence.
      + pose proof (jump_tracked Hc _ Hin). congruence. }
  assert (Hn1 : forall id, ~ In (id, JumpFrame) (frames w1)).
  { unfold w1; wsimpl. intros id Hin. destruct (jumpAnimFrame _) eqn:Ea.
    - in_cases Hin. pose proof (jump_tracked Hc _ Hin) as Ht.
      apply Hne. simpl. congruence.
    - pose proof (jump_tracked Hc _ Hin). congruence. }
  set (w2 := set_animationFrame None (cancelAnimationFrame (animationFrame w1) w1)).
  assert (Hn2 : forall e, ~ In e (frames w2)).
  { unfold w2; wsimpl. intros [id cb] Hin. destruct (animationFrame w1) eqn:Ea.
    - in_cases Hin. destruct cb; [|now apply Hn1 in Hin].
      pose proof (spring_tracked (proj1 H1) _ Hin) as Ht.
      apply Hne. simpl. congruence.
    - destruct cb; [|now apply Hn1 in Hin].
      pose proof (spring_tracked (proj1 H1) _ Hin) as Ht. congruence. }
  assert (H2 : Keeps w w2).
  { then_keeps H1 ltac:(apply (Keeps_cancel w1)); unfold w2; wsimpl.
    - destruct (animationFrame _); auto. intros e He. now in_cases He.
    - right. intros id Hin. now apply Hn2 in Hin. }
  set (w3 := set_returnTimeout None (clearTimeout (returnTimeout w2) w2)).
  assert (H3 : Keeps w w3).
  { then_keeps H2 ltac:(apply (Keeps_clear w2 _ (returnTimeout w2))). }
  set (w4 := snd (setTimeout CaughtReturn 600 w3)).
  assert (H4 : Keeps w w4).
  { then_keeps H3 ltac:(apply (Keeps_timer w3 _ CaughtReturn (clock w3 + Z.max 0 600))). }
  exists w4. split; [exact (proj1 H4)|].
  split.
  { change (frames w4) with (frames w2). destruct (frames w2) as [|e l]; auto.
    exfalso. apply (Hn2 e). now left. }
  destruct H4 as [_ (Q1 & _ & _ & Q4)].
  unfold handleClick. wsimpl.
  repeat split; try exact Q4; try exact Q1; destruct (onCatch opts); reflexivity.
Qed.

Lemma Consistent_handleClick (w : World num) :
  Consistent w -> Consistent (handleClick opts w).
Proof.
  intros Hc. destruct (isCaught (state w)) eqn:Ecaught.
  - unfold handleClick.
    match goal with |- context [if ?b then _ else _] =>
      replace b with true by (symmetry; exact Ecaught) end.
    exact Hc.
  - destruct (handleClick_parts w Hc)
      as (w4 & H4 & _ & _ & _ & _ & _ & _ & Hc4 & E1 & E2 & E3 & E4 & E5 & E6 & E7 & E8 & E9 & E10).
    assert (Hw : handleClick opts (upd (set_isCaught false) w) = handleClick opts w).
    { unfold handleClick. wsimpl.
      match goal with |- context [if ?b then _ else _] =>
        replace b with false by (symmetry; exact Ecaught) end.
      reflexivity. }
    rewrite Hw in *.
    apply (Consistent_caught w4 _ (clock w4 + Z.max 0 (caughtDuration opts))%Z);
      auto; try congruence.
    + unfold handleClick.
      match goal with |- context [if ?b then _ else _] =>
        replace b with false by (symmetry; exact Ecaught) end.
      destruct (onCatch opts); reflexivity.
    + unfold handleClick.
      match goal with |- context [if ?b then _ else _] =>
        replace b with false by (symmetry; exact Ecaught) end.
      destruct (onCatch opts); reflexivity.
Qed.

Lemma Consistent_destroy (w : World num) :
  Consistent w -> Consistent (destroy w).
Proof.
  intros Hc. unfold destroy. cbv zeta.
  set (w1 := cancelAnimationFrame (jumpAnimFrame w)
               (cancelAnimationFrame (animationFrame w) w)).
  assert (H1 : Keeps w w1).
  { apply (Keeps_cancel w); try side. unfold w1; wsimpl.
    intros e He. destruct (jumpAnimFrame _), (animationFrame _);
      in_cases He; auto. }
  set (w2 := clearTimeout (returnTimeout w1) w1).
  assert (H2 : Keeps w w2).
  { then_keeps H1 ltac:(apply (Keeps_clear w1 _ (returnTimeout w1))). }
  set (w3 := clearTimeout (tauntTimeout w2) w2).
  assert (H3 : Keeps w w3).
  { then_keeps H2 ltac:(apply (Keeps_clear w2 _ (tauntTimeout w2))). }
  apply (Consistent_detach w3); try side. exact (proj1 H3).
Qed.

Lemma Consistent_makeEvasive t0 picks : Consistent (makeEvasive opts content t0 picks).
Proof.
  constructor; unfold makeEvasive, restoreTimers; wsimpl; simpl;
    try solve [intros; contradiction | intros; discriminate | constructor | reflexivity].
  split; [|split].
  - eapply Permutation_NoDup; [symmetry; apply shuffleTauntQueue_Permutation|].
    apply keys_NoDup.
  - intros x Hx. eapply Permutation_in; [apply shuffleTauntQueue_Permutation|exact Hx].
  - intros x [= <-] Hin.
    apply (Permutation_in _ (shuffleTauntQueue_Permutation _ _)) in Hin.
    apply keys_range in Hin. lia.
Qed.

Lemma Keeps_dispatch t e (w w' : World num) :
  dispatch opts t e w = Some w' -> Consistent w -> quietEvent e w -> Keeps w w'.
Proof.
  unfold dispatch. destruct (Z.ltb _ _); [discriminate|]. cbv zeta.
  intros Hd Hc Hq.
  assert (Hc0 : Keeps w (set_clock t w)) by (apply (Keeps_ext w); try side).
  set (w0 := set_clock t w) in *.
  assert (Hl : listening w0 = listening w) by reflexivity.
  assert (Ht : timers w0 = timers w) by reflexivity.
  assert (Hs : isCaught (state w0) = isCaught (state w)) by reflexivity.
  clearbody w0.
  destruct e as [x y h| | |id ts|id|].
  - injection Hd as <-. destruct (listening _); auto.
    eapply Keeps_trans; [exact Hc0|]. apply Keeps_handleMouseMove. exact (proj1 Hc0).
  - injection Hd as <-. destruct (listening _); auto.
    eapply Keeps_trans; [exact Hc0|]. apply Keeps_handleMouseLeave. exact (proj1 Hc0).
  - injection Hd as <-. simpl in Hq. rewrite Hl.
    destruct (listening w); auto.
    destruct Hq as [Hq|Hq]; [|discriminate].
    unfold handleClick. rewrite Hs, Hq. exact Hc0.
  - destruct (lookup_handle _ _) as [cb|] eqn:El; [|discriminate].
    injection Hd as <-.
    destruct (frame_fired w0 id cb El (proj1 Hc0)) as [Hc1 Hnone].
    eapply Keeps_trans; [exact Hc0|]. eapply Keeps_trans; [exact Hc1|].
    destruct cb; simpl.
    + apply Keeps_springAnimate; [exact Hnone|exact (proj1 Hc1)].
    + apply Keeps_jumpAnimate; [exact Hnone|exact (proj1 Hc1)].
  - destruct (lookup_handle _ _) as [[due cb]|] eqn:El; [|discriminate].
    destruct (Z.leb _ _); [|discriminate]. injection Hd as <-.
    assert (Hcb : cb <> CaughtRestore).
    { intros ->. simpl in Hq. rewrite <- Ht in Hq. now apply (Hq due). }
    pose proof (Keeps_fire w0 id due cb (proj1 Hc0) El Hcb) as Hc1.
    eapply Keeps_trans; [exact Hc0|]. eapply Keeps_trans; [exact Hc1|].
    destruct cb; simpl; try congruence.
    + apply (Keeps_ext _); try side. exact (proj1 Hc1).
    + apply Keeps_returnToCenter. exact (proj1 Hc1).
    + apply Keeps_refl. exact (proj1 Hc1).
    + apply (Keeps_ext _); try side. exact (proj1 Hc1).
    + apply Keeps_returnToCenter. exact (proj1 Hc1).
  - contradiction.
Qed.

Lemma Consistent_dispatch t e (w w' : World num) :
  dispatch opts t e w = Some w' -> Consistent w -> Consistent w'.
Proof.
  intros Hd Hc.
  destruct e as [x y h| | |id ts|id|];
    try (apply (Keeps_dispatch t _ w w' Hd Hc); exact I).
  - (* Click *)
    revert Hd. unfold dispatch. destruct (Z.ltb _ _); [discriminate|]. cbv zeta.
    intros [= <-].
    assert (Hc0 : Consistent (set_clock t w)) by (apply (Keeps_ext w); try side).
    destruct (listening _); auto. now apply Consistent_handleClick.
  - (* Timeout *)
    destruct (lookup_handle id (timers w)) as [[due cb]|] eqn:El.
    + destruct (TimerCallback_eq_dec cb CaughtRestore) as [->|Hcb].
      * revert Hd. unfold dispatch. destruct (Z.ltb _ _); [discriminate|]. cbv zeta.
        assert (Hc0 : Consistent (set_clock t w)) by (apply (Keeps_ext w); try side).
        change (timers (set_clock t w)) with (timers w). rewrite El.
        destruct (Z.leb _ _); [|discriminate]. intros [= <-]. simpl.
        apply (Consistent_restore (set_clock t w) _ id due); try side.
        now apply lookup_handle_In.
      * apply (Keeps_dispatch t _ w w' Hd Hc). simpl. intros due'. congruence.
    + revert Hd. unfold dispatch. destruct (Z.ltb _ _); [discriminate|]. cbv zeta.
      change (timers (set_clock t w)) with (timers w). rewrite El. discriminate.
  - (* Destroy *)
    revert Hd. unfold dispatch. destruct (Z.ltb _ _); [discriminate|]. cbv zeta.
    intros [= <-].
    assert (Hc0 : Consistent (set_clock t w)) by (apply (Keeps_ext w); try side).
    now apply Consistent_destroy.
Qed.

Lemma Consistent_run trace (w w' : World num) :
  run opts trace w = Some w' -> Consistent w -> Consistent w'.
Proof.
  revert w. induction trace as [|[t e] rest IH]; simpl; intros w Hr Hc.
  - now injection Hr as <-.
  - destruct (dispatch opts t e w) as [w1|] eqn:Ed; [|discriminate].
    apply (IH w1 Hr). eapply Consistent_dispatch; eauto.
Qed.

Lemma Reachable_Consistent (w : World num) :
  Reachable opts content w -> Consistent w.
Proof.
  intros (t0 & picks & trace & Hr).
  eapply Consistent_run; [exact Hr|apply Consistent_makeEvasive].
Qed.

End Preservation.

(** ** Draws from the taunt queue (C8, C9) *)

Section Draws.

Context {num : Type} `{Number num}.
Variable opts : Options num.

Local Abbreviation N := (length (taunts opts)).

Lemma queueOkW_draw p (w : World num) :
  (queueOkW opts) w -> (queueOkW opts) (snd (getNextTaunt opts p w)).
Proof. intros Hq. unfold queueOkW. wsimpl. now apply nextTaunt_ok. Qed.

Lemma drawTaunts_length ps (w : World num) :
  length (drawTaunts opts ps w) = length ps.
Proof. revert w; induction ps as [|p r IH]; intros w; simpl; auto. Qed.

Lemma drawTaunts_app ps1 ps2 (w : World num) :
  drawTaunts opts (ps1 ++ ps2) w
  = drawTaunts opts ps1 w ++ drawTaunts opts ps2 (afterTaunts opts ps1 w).
Proof.
  revert w; induction ps1 as [|p r IH]; intros w; simpl; auto.
  now rewrite IH.
Qed.

Lemma queueOkW_after ps (w : World num) :
  (queueOkW opts) w -> (queueOkW opts) (afterTaunts opts ps w).
Proof.
  revert w; induction ps as [|p r IH]; intros w Hq; simpl; auto.
  apply IH. now apply queueOkW_draw.
Qed.

Lemma draws_no_repeat ps (w : World num) :
  1 < N -> (queueOkW opts) w ->
  noImmediateRepeat (lastTauntIndex w :: drawTaunts opts ps w).
Proof.
  intros HN. revert w. induction ps as [|p r IH]; intros w Hq k a b Ha Hb.
  - destruct k; simpl in Hb; [discriminate|]. destruct k; discriminate.
  - destruct k as [|k].
    + simpl in Ha, Hb. injection Ha as <-. injection Hb as <-.
      wsimpl. intros Heq. symmetry in Heq. revert Heq.
      now apply nextTaunt_ok.
    + apply (IH _ (queueOkW_draw p w Hq) k a b); assumption.
Qed.

Lemma draws_valid ps (w : World num) :
  0 < N -> (queueOkW opts) w ->
  Forall (fun d => exists i, d = Some i /\ (0 <= i < Z.of_nat N)%Z)
         (drawTaunts opts ps w).
Proof.
  intros HN. revert w. induction ps as [|p r IH]; intros w Hq; simpl.
  - constructor.
  - constructor; [|apply IH; now apply queueOkW_draw].
    wsimpl. destruct (nextTaunt_ok p _ _ _ Hq) as (_ & _ & Hi).
    destruct (Hi HN) as (i & -> & Hin). exists i. split; auto.
    now apply keys_range.
Qed.

(** Inside a round the draws are the queue, front to back. *)
Lemma draws_inside ps (w : World num) :
  (queueOkW opts) w -> length ps <= length (tauntQueue w) ->
  drawTaunts opts ps w = map Some (firstn (length ps) (tauntQueue w)) /\
  tauntQueue (afterTaunts opts ps w) = skipn (length ps) (tauntQueue w).
Proof.
  revert w. induction ps as [|p r IH]; intros w Hq Hlen; [simpl; auto|].
  cbn [drawTaunts afterTaunts length]. cbv zeta.
  destruct (tauntQueue w) as [|x q] eqn:Eq; [simpl in Hlen; lia|].
  cbn [firstn skipn map].
  assert (Hne : lastTauntIndex w <> Some x).
  { destruct Hq as (_ & _ & Hl). intros Heq. apply (Hl x Heq).
    rewrite Eq. now left. }
  pose proof (queueOkW_draw p w Hq) as Hq'.
  assert (E1 : lastTauntIndex (snd (getNextTaunt opts p w)) = Some x).
  { wsimpl. rewrite Eq. now rewrite nextTaunt_inside. }
  assert (E2 : tauntQueue (snd (getNextTaunt opts p w)) = q).
  { wsimpl. rewrite Eq. now rewrite nextTaunt_inside. }
  destruct (IH _ Hq') as [D1 D2]; [rewrite E2; simpl in Hlen; lia|].
  rewrite D1, D2, E1, E2. auto.
Qed.

(** From a round boundary, the next [N] draws are a round: every index
    once, and the queue is empty again. *)
Lemma draws_round ps (w : World num) :
  (queueOkW opts) w -> length ps = N ->
  tauntQueue w = [] \/ length (tauntQueue w) = N ->
  Permutation (drawTaunts opts ps w) (map Some (keys N)) /\
  tauntQueue (afterTaunts opts ps w) = [].
Proof.
  intros Hq Hlen [Hempty|Hfull].
  - destruct ps as [|p r].
    + simpl in *. rewrite <- Hlen. simpl. auto.
    + cbn [drawTaunts afterTaunts length] in *. cbv zeta.
      destruct (nextTaunt_regenerate p N (lastTauntIndex w)) as (y & q & Hn & Hp & _);
        [lia|].
      pose proof (queueOkW_draw p w Hq) as Hq'.
      assert (E1 : lastTauntIndex (snd (getNextTaunt opts p w)) = Some y).
      { wsimpl. rewrite Hempty. now rewrite Hn. }
      assert (E2 : tauntQueue (snd (getNextTaunt opts p w)) = q).
      { wsimpl. rewrite Hempty. now rewrite Hn. }
      assert (Hq_len : length q = length r).
      { apply Permutation_length in Hp. rewrite keys_length in Hp. simpl in Hp. lia. }
      destruct (draws_inside r _ Hq') as [D1 D2]; [rewrite E2; lia|].
      rewrite D1, D2, E1, E2, <- Hq_len, firstn_all, skipn_all. split; auto.
      change (Permutation (map Some (y :: q)) (map Some (keys N))).
      now apply Permutation_map.
  - destruct (draws_inside ps w Hq) as [D1 D2]; [lia|].
    rewrite D1, D2, Hlen, firstn_all2, skipn_all2 by lia. split; auto.
    apply Permutation_map. destruct Hq as (Hnd & Hin & _).
    apply NoDup_Permutation_bis; auto.
    rewrite keys_length. lia.
Qed.

Lemma draws_blocks k ps (w : World num) :
  (queueOkW opts) w -> tauntQueue w = [] \/ length (tauntQueue w) = N ->
  (k + 1) * N <= length ps ->
  Permutation (firstn N (skipn (k * N) (drawTaunts opts ps w)))
              (map Some (keys N)).
Proof.
  revert ps w. induction k as [|k IH]; intros ps w Hq Hb Hlen.
  - simpl skipn.
    rewrite <- (firstn_skipn N ps), drawTaunts_app.
    assert (Hl1 : length (firstn N ps) = N) by (rewrite length_firstn; lia).
    rewrite firstn_app, drawTaunts_length, Hl1, Nat.sub_diag. simpl firstn at 2.
    rewrite app_nil_r, firstn_all2 by (rewrite drawTaunts_length; lia).
    now apply draws_round.
  - rewrite <- (firstn_skipn N ps), drawTaunts_app.
    assert (Hl1 : length (firstn N ps) = N) by (rewrite length_firstn; lia).
    destruct (draws_round (firstn N ps) w Hq Hl1 Hb) as [_ Hempty].
    replace (S k * N) with (length (drawTaunts opts (firstn N ps) w) + k * N)
      by (rewrite drawTaunts_length; lia).
    rewrite skipn_app, skipn_all2 by lia.
    replace (_ + k * N - _) with (k * N) by lia. simpl app.
    apply IH.
    + now apply queueOkW_after.
    + now left.
    + rewrite length_skipn. lia.
Qed.

End Draws.

(** C8.  In every world the host can reach, with more than one taunt, a
    sequence of [getNextTaunt] draws never shows the same index twice in a
    row: each index drawn differs from the one drawn before it (the first
    from [lastTauntIndex], the index of the last draw made so far), and
    every index drawn is a valid index of [opts.taunts]. *)
Theorem getNextTaunt_no_immediate_repeat :
  forall (num : Type) (NumOps : Number num) (opts : Options num)
         (content : string) (w : World num) (ps : list (nat -> nat)),
    1 < length (taunts opts) ->
    Reachable opts content w ->
    noImmediateRepeat (lastTauntIndex w :: drawTaunts opts ps w) /\
    Forall (fun d => exists i, d = Some i /\
                     (0 <= i < Z.of_nat (length (taunts opts)))%Z)
           (drawTaunts opts ps w).
Proof.
  intros num NumOps opts content w ps HN Hr.
  pose proof (queue_ok (Reachable_Consistent opts content w Hr)) as Hq.
  split.
  - now apply draws_no_repeat.
  - apply draws_valid; [lia|exact Hq].
Qed.

Lemma getNextTaunt_no_immediate_repeat_witness :
  1 < length (taunts floatReadme) /\
  Reachable floatReadme "Click me"
    (makeEvasive floatReadme "Click me" 0 picksIdentity) /\
  noImmediateRepeat
    (lastTauntIndex (makeEvasive floatReadme "Click me" 0 picksIdentity)
     :: drawTaunts floatReadme
          [picksZero; picksZero; picksZero; picksZero; picksZero]
          (makeEvasive floatReadme "Click me" 0 picksIdentity)).
Proof.
  assert (Hn : 1 < length (taunts floatReadme)) by (simpl; lia).
  assert (Hr : Reachable floatReadme "Click me"
                 (makeEvasive floatReadme "Click me" 0 picksIdentity)).
  { exists 0%Z, picksIdentity, []. reflexivity. }
  split; [exact Hn|]. split; [exact Hr|].
  exact (proj1 (getNextTaunt_no_immediate_repeat float FloatNumber floatReadme
                  "Click me" _ _ Hn Hr)).
Defined.

(** C9, as stated, fails.  With three taunts, the first round drawn in the
    order 0, 1, 2 and the second in the order 1, 2, 0, the draws are
    0, 1, 2, 1, 2, 0: the window of three draws that starts at the second
    draw shows index 1 twice. *)
Lemma taunt_window_repeats :
  drawTaunts floatReadme
    [picksIdentity; picksIdentity; picksIdentity; picksZero; picksZero; picksZero]
    (makeEvasive floatReadme "Click me" 0 picksIdentity)
  = [Some 0; Some 1; Some 2; Some 1; Some 2; Some 0]%Z /\
  ~ windowsDistinct 3
      (drawTaunts floatReadme
         [picksIdentity; picksIdentity; picksIdentity; picksZero; picksZero; picksZero]
         (makeEvasive floatReadme "Click me" 0 picksIdentity)).
Proof.
  assert (E : drawTaunts floatReadme
    [picksIdentity; picksIdentity; picksIdentity; picksZero; picksZero; picksZero]
    (makeEvasive floatReadme "Click me" 0 picksIdentity)
  = [Some 0; Some 1; Some 2; Some 1; Some 2; Some 0]%Z) by reflexivity.
  split; [exact E|]. rewrite E. intros Hw.
  specialize (Hw 1). simpl in Hw.
  assert (Hnd : NoDup [Some 1%Z; Some 2%Z; Some 1%Z]) by (apply Hw; lia).
  inversion Hnd as [|? ? Hin _]. apply Hin. right. left. reflexivity.
Qed.

(** C9, amended.  Counting the draws from the attach, every block of [N]
    consecutive draws that starts at a multiple of [N] (the draws of one
    round of the queue) shows each of the [N] indices exactly once. *)
Theorem taunt_rounds_are_permutations :
  forall (num : Type) (NumOps : Number num) (opts : Options num)
         (content : string) (t0 : Z) (picks : nat -> nat)
         (ps : list (nat -> nat)) (k : nat),
    (k + 1) * length (taunts opts) <= length ps ->
    Permutation
      (firstn (length (taunts opts))
         (skipn (k * length (taunts opts))
            (drawTaunts opts ps (makeEvasive opts content t0 picks))))
      (map Some (keys (length (taunts opts)))).
Proof.
  intros num NumOps opts content t0 picks ps k Hlen.
  apply draws_blocks; auto.
  - exact (queue_ok (Consistent_makeEvasive opts content t0 picks)).
  - right. unfold makeEvasive. wsimpl.
    rewrite (Permutation_length (shuffleTauntQueue_Permutation _ _)).
    apply keys_length.
Qed.

Lemma taunt_rounds_are_permutations_witness :
  (1 + 1) * length (taunts floatReadme) <= 
    length [picksIdentity; picksIdentity; picksIdentity; picksZero; picksZero; picksZero] /\
  Permutation
    (firstn 3 (skipn 3
       (drawTaunts floatReadme
          [picksIdentity; picksIdentity; picksIdentity; picksZero; picksZero; picksZero]
          (makeEvasive floatReadme "Click me" 0 picksIdentity))))
    [Some 0; Some 1; Some 2]%Z.
Proof.
  split; [simpl; lia|].
  apply (taunt_rounds_are_permutations float FloatNumber floatReadme
           "Click me" 0 picksIdentity
           [picksIdentity; picksIdentity; picksIdentity; picksZero; picksZero; picksZero] 1).
  simpl; lia.
Defined.

(** ** The click and the caught window (C5) *)

Section Caught.

Context {num : Type} `{Number num}.
Variable opts : Options num.
Variable content : string.

Local Abbreviation Consistent := (Consistent opts content).

Lemma handleClick_caught (w : World num) :
  isCaught (state w) = true -> handleClick opts w = w.
Proof. intros Hc. unfold handleClick. now rewrite Hc. Qed.

Lemma handleClick_uncaught (w : World num) :
  isCaught (state w) = false ->
  handleClick opts w = handleClick opts (upd (set_isCaught false) w).
Proof.
  intros Hc. unfold handleClick. wsimpl. now rewrite Hc.
Qed.

Lemma length_zero_nil A (l : list A) : length l = 0 -> l = [].
Proof. destruct l; [reflexivity|discriminate]. Qed.

(** What a click does to a button that is not caught. *)
Lemma handleClick_catches (w : World num) :
  Consistent w -> isCaught (state w) = false ->
  isCaught (state (handleClick opts w)) = true /\
  catchCalls (handleClick opts w)
  = (if onCatch opts then S (catchCalls w) else catchCalls w) /\
  innerHTML (handleClick opts w) = caughtText opts /\
  frames (handleClick opts w) = [] /\
  animationFrame (handleClick opts w) = None /\
  jumpAnimFrame (handleClick opts w) = None /\
  isJumping (state (handleClick opts w)) = false /\
  restoreTimers (handleClick opts w)
  = [(S (nextHandle w),
      ((clock w + Z.max 0 (caughtDuration opts))%Z, CaughtRestore))].
Proof.
  intros Hc Hn.
  destruct (handleClick_parts opts content w Hc)
    as (w4 & H4 & F4 & A4 & J4 & R4 & N4 & C4 & _ & E1 & E2 & _ & _ & _ & E6 & E7 & _).
  rewrite <- (handleClick_uncaught w Hn) in *.
  assert (Hr0 : restoreTimers w = []).
  { apply length_zero_nil. rewrite (restore_pending Hc), Hn. reflexivity. }
  repeat split.
  - unfold handleClick. rewrite Hn. destruct (onCatch opts); reflexivity.
  - unfold handleClick. rewrite Hn. destruct (onCatch opts); reflexivity.
  - unfold handleClick. rewrite Hn. destruct (onCatch opts); reflexivity.
  - congruence.
  - congruence.
  - congruence.
  - unfold handleClick. rewrite Hn. destruct (onCatch opts); reflexivity.
  - unfold restoreTimers at 1. rewrite E1, restore_snoc. fold (restoreTimers w4).
    rewrite R4, Hr0, N4, C4. reflexivity.
Qed.

(** While the button is caught, exactly one timer will end the state; no
    other event touches the state, and that timer fires at its due time
    and not before. *)
Lemma caught_window (w : World num) :
  Consistent w -> isCaught (state w) = true ->
  exists id due,
    restoreTimers w = [(id, (due, CaughtRestore))] /\
    (forall t e w', e <> Destroy -> e <> Timeout id ->
       dispatch opts t e w = Some w' -> Quiet w w') /\
    (forall t, (t < due)%Z -> dispatch opts t (Timeout id) w = None) /\
    (forall t, (due <= t)%Z -> (clock w <= t)%Z ->
       exists w', dispatch opts t (Timeout id) w = Some w' /\
                  isCaught (state w') = false /\ innerHTML w' = content).
Proof.
  intros Hc Hcaught.
  pose proof (restore_pending Hc) as Hlen. rewrite Hcaught in Hlen.
  destruct (restoreTimers w) as [|[id [due cb]] [|e2 l]] eqn:Er; try discriminate.
  assert (Hin : In (id, (due, cb)) (timers w) /\ isRestore (id, (due, cb)) = true).
  { apply filter_In. unfold restoreTimers in Er. rewrite Er. now left. }
  destruct Hin as [Hin Hcb]. unfold isRestore in Hcb. simpl in Hcb.
  assert (cb = CaughtRestore) by (destruct cb; congruence). subst cb. clear Hcb.
  pose proof (lookup_handle_distinct _ _ _ _ (timers_distinct Hc) Hin) as Hl.
  exists id, due. split; [reflexivity|]. split; [|split].
  - intros t e w' Hd Ht Hdisp.
    apply (Keeps_dispatch opts content t e w w' Hdisp Hc).
    destruct e as [x y h| | |i ts|i|]; simpl; auto; try congruence.
    intros due' Hl'. apply lookup_handle_In in Hl'.
    assert (Hr : In (i, (due', CaughtRestore)) (restoreTimers w)).
    { apply filter_In. split; auto. }
    rewrite Er in Hr. destruct Hr as [Hr|[]]. injection Hr as -> _.
    now apply Ht.
  - intros t Ht. unfold dispatch. destruct (Z.ltb _ _); auto. cbv zeta.
    change (timers (set_clock t w)) with (timers w). rewrite Hl.
    destruct (Z.leb_spec due t); [lia|reflexivity].
  - intros t Hdue Hclock. unfold dispatch.
    destruct (Z.ltb_spec t (clock w)); [lia|]. cbv zeta.
    change (timers (set_clock t w)) with (timers w). rewrite Hl.
    destruct (Z.leb_spec due t); [|lia].
    eexists. split; [reflexivity|]. split; [reflexivity|].
    simpl. exact (original_kept Hc).
Qed.

End Caught.

(** C5.  In every world the host can reach, while the listeners are
    registered: a click on a button that is not caught sets [isCaught],
    calls [onCatch] (once, when given), leaves no animation frame pending
    (neither handle stays stored, [isJumping] is cleared), puts [caughtText]
    into the element, and leaves exactly one timer that ends the caught
    state, due [caughtDuration] ms after the click.  While the button is
    caught, a click changes nothing but the host's clock; no event other
    than that timer and the teardown changes [isCaught], the content, the
    calls of [onCatch] or the timer; the timer cannot fire before it is due,
    and when it fires the original content is back and [isCaught] is
    cleared. *)
Theorem click_catches_until_caughtDuration :
  forall (num : Type) (NumOps : Number num) (opts : Options num)
         (content : string) (w : World num) (t : Z),
    Reachable opts content w -> listening w = true -> (clock w <= t)%Z ->
    exists w', dispatch opts t Click w = Some w' /\
      (isCaught (state w) = false ->
         isCaught (state w') = true /\
         catchCalls w'
         = (if onCatch opts then S (catchCalls w) else catchCalls w) /\
         innerHTML w' = caughtText opts /\
         frames w' = [] /\ animationFrame w' = None /\
         jumpAnimFrame w' = None /\ isJumping (state w') = false /\
         restoreTimers w'
         = [(S (nextHandle w),
             ((t + Z.max 0 (caughtDuration opts))%Z, CaughtRestore))]) /\
      (isCaught (state w) = true ->
         w' = set_clock t w /\
         exists id due,
           restoreTimers w = [(id, (due, CaughtRestore))] /\
           (forall t1 e w1, e <> Destroy -> e <> Timeout id ->
              dispatch opts t1 e w = Some w1 -> Quiet w w1) /\
           (forall t1, (t1 < due)%Z -> dispatch opts t1 (Timeout id) w = None) /\
           (forall t1, (due <= t1)%Z -> (clock w <= t1)%Z ->
              exists w1, dispatch opts t1 (Timeout id) w = Some w1 /\
                         isCaught (state w1) = false /\ innerHTML w1 = content)).
Proof.
  intros num NumOps opts content w t Hr Hl Ht.
  pose proof (Reachable_Consistent opts content w Hr) as Hc.
  unfold dispatch. destruct (Z.ltb_spec t (clock w)); [lia|]. cbv zeta.
  change (listening (set_clock t w)) with (listening w). rewrite Hl.
  eexists. split; [reflexivity|]. split.
  - intros Hn.
    assert (Hc0 : Consistent opts content (set_clock t w)).
    { apply (Keeps_ext opts content w); try side. }
    exact (handleClick_catches opts content (set_clock t w) Hc0 Hn).
  - intros Hcaught. split.
    + now apply handleClick_caught.
    + now apply caught_window.
Qed.

(** ** Comparisons on binary64 *)

Lemma SFcompare_swap (x y : spec_float) :
  SFcompare y x = match SFcompare x y with
                  | Some c => Some (CompOpp c)
                  | None => None
                  end.
Proof.
  destruct x as [sx|sx| |sx mx ex], y as [sy|sy| |sy my ey]; simpl;
    try destruct sx; try destruct sy; simpl; try reflexivity;
    rewrite (Z.compare_antisym ex ey); destruct (ex ?= ey)%Z; simpl;
    try reflexivity; rewrite ?CompOpp_involutive;
    rewrite Pos.compare_cont_antisym; reflexivity.
Qed.

Lemma float_leb_not_ltb (a b : float) :
  PrimFloat.leb a b = true -> PrimFloat.ltb b a = false.
Proof.
  rewrite leb_spec, ltb_spec. unfold SFleb, SFltb.
  rewrite (SFcompare_swap (Prim2SF a) (Prim2SF b)).
  destruct (SFcompare (Prim2SF a) (Prim2SF b)) as [[| |]|]; simpl; congruence.
Qed.

Lemma Rleb_not_Rltb (a b : R) : Rleb a b = true -> Rltb b a = false.
Proof.
  unfold Rleb, Rltb. destruct (Rle_dec a b), (Rlt_dec b a); try congruence.
  lra.
Qed.

(** ** Escape detection (C1) *)

Section Escape.

Context {num : Type} `{Number num}.
Variable opts : Options num.

Lemma escapeFrom_idle x y h (w : World num) :
  escapes opts x y h w = false -> escapeFrom opts x y h w = w.
Proof.
  unfold escapes, escapeFrom.
  destruct (isCaught _ || isJumping _); [reflexivity|]. simpl.
  intros ->. reflexivity.
Qed.

Lemma escapeFrom_triggers x y h (w : World num) :
  escapes opts x y h w = true ->
  isJumping (state (escapeFrom opts x y h w)) = true /\
  jumpAnimFrame (escapeFrom opts x y h w) = Some (nextHandle w) /\
  In (nextHandle w, JumpFrame) (frames (escapeFrom opts x y h w)) /\
  escapeCalls (escapeFrom opts x y h w)
  = (if onEscape opts then S (escapeCalls w) else escapeCalls w).
Proof.
  unfold escapes, escapeFrom.
  destruct (isCaught _ || isJumping _); [discriminate|]. simpl.
  intros ->. cbv zeta.
  match goal with
  | |- context [bestDestination ?o ?a ?b ?c ?d ?e] =>
      generalize (bestDestination o a b c d e); intros best
  end.
  unfold showTaunt, startJump.
  destruct (ltb (random h) _), (onEscape opts);
    try destruct (ltb (ofZ 600) _); wsimpl;
    (split; [reflexivity|]); (split; [reflexivity|]); (split; [|reflexivity]);
    apply in_or_app; right; left; reflexivity.
Qed.

(** A mousemove that triggers no escape starts nothing. *)
Lemma handleMouseMove_idle x y h (w : World num) :
  escapes opts x y h w = false ->
  state (handleMouseMove opts x y h w) = state w /\
  frames (handleMouseMove opts x y h w) = frames w /\
  jumpAnimFrame (handleMouseMove opts x y h w) = jumpAnimFrame w /\
  escapeCalls (handleMouseMove opts x y h w) = escapeCalls w.
Proof.
  intros He. unfold handleMouseMove. rewrite (escapeFrom_idle x y h w He).
  cbv zeta. destruct (ltb _ _); wsimpl; repeat split.
Qed.

End Escape.

(** C1.  [escapeFrom] triggers an escape exactly when the button is neither
    caught nor jumping and the distance from the pointer to the centre of
    the element is below [detectionRadius]: then the jump starts (the flag
    is set and the first jump frame is requested and stored) and
    [onEscape] is called; otherwise nothing changes, and the whole
    mousemove handler leaves the state, the pending frames and the calls of
    [onEscape] as they were.  On binary64 and on the reals a distance at or
    above the radius never triggers.  With the default radius 140 and the
    centre at (460, 320), the pointer at (490, 360), 50px away, triggers the
    escape, and the pointer at (580, 480), 200px away, does not. *)
Theorem escape_exactly_inside_radius :
  (forall (num : Type) (NumOps : Number num) (opts : Options num)
          (x y : num) (h : Host num) (w : World num),
     if escapes opts x y h w then
       isJumping (state (escapeFrom opts x y h w)) = true /\
       jumpAnimFrame (escapeFrom opts x y h w) = Some (nextHandle w) /\
       In (nextHandle w, JumpFrame) (frames (escapeFrom opts x y h w)) /\
       escapeCalls (escapeFrom opts x y h w)
       = (if onEscape opts then S (escapeCalls w) else escapeCalls w)
     else
       escapeFrom opts x y h w = w /\
       state (handleMouseMove opts x y h w) = state w /\
       frames (handleMouseMove opts x y h w) = frames w /\
       jumpAnimFrame (handleMouseMove opts x y h w) = jumpAnimFrame w /\
       escapeCalls (handleMouseMove opts x y h w) = escapeCalls w) /\
  (forall (opts : Options float) (x y : float) (h : Host float) (w : World float),
     PrimFloat.leb (detectionRadius opts)
       (distance x y (fst (getButtonCenter h)) (snd (getButtonCenter h)))
     && escapes opts x y h w = false) /\
  (forall (opts : Options R) (x y : R) (h : Host R) (w : World R),
     Rleb (detectionRadius opts)
       (distance x y (fst (getButtonCenter h)) (snd (getButtonCenter h)))
     && escapes opts x y h w = false) /\
  (getButtonCenter hostExample = (460, 320)%float /\
   (distance 490 360 460 320 = 50)%float /\
   escapes floatDefaults 490%float 360%float hostExample attached = true /\
   escapeCalls (handleMouseMove floatDefaults 490%float 360%float hostExample attached) = 1) /\
  ((distance 580 480 460 320 = 200)%float /\
   escapes floatDefaults 580%float 480%float hostExample attached = false /\
   escapeFrom floatDefaults 580%float 480%float hostExample attached = attached).
Proof.
  split; [|split; [|split; [|split]]].
  - intros num NumOps opts x y h w.
    destruct (escapes opts x y h w) eqn:He.
    + now apply escapeFrom_triggers.
    + split; [now apply escapeFrom_idle|now apply handleMouseMove_idle].
  - intros opts x y h w.
    destruct (PrimFloat.leb _ _) eqn:E; [|reflexivity]. simpl.
    unfold escapes. apply float_leb_not_ltb in E.
    cbn [ltb FloatNumber FloatNumberWith]. rewrite E. apply andb_false_r.
  - intros opts x y h w.
    destruct (Rleb _ _) eqn:E; [|reflexivity]. simpl.
    unfold escapes. apply Rleb_not_Rltb in E.
    cbn [ltb RealNumber]. rewrite E. apply andb_false_r.
  - split; [|split; [|split]]; vm_compute; reflexivity.
  - split; [|split]; vm_compute; reflexivity.
Qed.

(** ** Both flags at once (C3) *)

(** C3 fails on the code: [returnToCenter] does not look at [isJumping].
    The pointer comes near the button, which jumps; the pointer leaves the
    document 5ms later, and [handleMouseLeave] sets the return timer for
    200ms; the jump lasts more than 500ms, so the timer fires in mid-air and
    sets [isReturning] while [isJumping] is still set, with a jump frame and
    a spring frame both pending. *)
Theorem returnToCenter_fires_during_jump :
  exists w,
    run floatDefaults leaveDuringJump attached = Some w /\
    isJumping (state w) = true /\ isReturning (state w) = true /\
    frames w = [(15, JumpFrame); (16, SpringFrame)].
Proof.
  eexists. split; [vm_compute; reflexivity|].
  split; [|split]; vm_compute; reflexivity.
Qed.

(** ** Teardown (C4) *)

Lemma remove_handle_again A i (l : list (handle * A)) :
  remove_handle i (remove_handle i l) = remove_handle i l.
Proof.
  induction l as [|[k v] l IH]; simpl; auto.
  destruct (Nat.eqb k i) eqn:E; simpl; rewrite ?E; simpl; congruence.
Qed.

Lemma remove_handle_twice A i j (l : list (handle * A)) :
  remove_handle j (remove_handle i (remove_handle j (remove_handle i l)))
  = remove_handle j (remove_handle i l).
Proof.
  induction l as [|[k v] l IH]; simpl; auto.
  destruct (Nat.eqb k i) eqn:Ei; simpl; auto.
  destruct (Nat.eqb k j) eqn:Ej; simpl; auto.
  rewrite Ei. simpl. rewrite Ej. simpl. congruence.
Qed.

Lemma World_ext num (w1 w2 : World num) :
  state w1 = state w2 -> animationFrame w1 = animationFrame w2 ->
  jumpAnimFrame w1 = jumpAnimFrame w2 -> returnTimeout w1 = returnTimeout w2 ->
  tauntTimeout w1 = tauntTimeout w2 -> tauntQueue w1 = tauntQueue w2 ->
  lastTauntIndex w1 = lastTauntIndex w2 -> originalContent w1 = originalContent w2 ->
  clock w1 = clock w2 -> nextHandle w1 = nextHandle w2 ->
  timers w1 = timers w2 -> frames w1 = frames w2 ->
  listening w1 = listening w2 -> innerHTML w1 = innerHTML w2 ->
  evasiveCaught w1 = evasiveCaught w2 -> caughtShake w1 = caughtShake w2 ->
  landing w1 = landing w2 -> tauntText w1 = tauntText w2 ->
  tauntVisible w1 = tauntVisible w2 -> escapeCalls w1 = escapeCalls w2 ->
  catchCalls w1 = catchCalls w2 -> w1 = w2.
Proof.
  intros.
  change w1 with (Build_World (state w1) (animationFrame w1) (jumpAnimFrame w1)
    (returnTimeout w1) (tauntTimeout w1) (tauntQueue w1) (lastTauntIndex w1)
    (originalContent w1) (clock w1) (nextHandle w1) (timers w1) (frames w1)
    (listening w1) (innerHTML w1) (evasiveCaught w1) (caughtShake w1)
    (landing w1) (tauntText w1) (tauntVisible w1) (escapeCalls w1) (catchCalls w1)).
  change w2 with (Build_World (state w2) (animationFrame w2) (jumpAnimFrame w2)
    (returnTimeout w2) (tauntTimeout w2) (tauntQueue w2) (lastTauntIndex w2)
    (originalContent w2) (clock w2) (nextHandle w2) (timers w2) (frames w2)
    (listening w2) (innerHTML w2) (evasiveCaught w2) (caughtShake w2)
    (landing w2) (tauntText w2) (tauntVisible w2) (escapeCalls w2) (catchCalls w2)).
  repeat match goal with H : _ = _ |- _ => rewrite H; clear H end.
  reflexivity.
Qed.

(** Calling the teardown a second time changes nothing. *)
Lemma destroy_idempotent num (w : World num) :
  destroy (destroy w) = destroy w.
Proof.
  apply World_ext; try reflexivity; unfold destroy; wsimpl.
  - destruct (returnTimeout _), (tauntTimeout _);
      auto using remove_handle_again, remove_handle_twice.
  - destruct (animationFrame _), (jumpAnimFrame _);
      auto using remove_handle_again, remove_handle_twice.
Qed.

(** C4 fails on the code: the two timers that [handleClick] sets are not
    stored, so the teardown cannot cancel them.  After a click and a
    teardown 90ms later both timers are still pending; the host then runs
    them: the first calls [returnToCenter], which requests a spring frame
    that runs in turn, and the second restores the content once more.  The
    stored handles are cancelled, and a second teardown changes nothing. *)
Theorem destroy_leaves_click_timers :
  (exists w,
     run floatDefaults clickThenDestroy attached = Some w /\
     listening w = false /\
     timers w = [(1, ((attachTime + 1600)%Z, CaughtReturn));
                 (2, ((attachTime + 2100)%Z, CaughtRestore))] /\
     dispatch floatDefaults (attachTime + 1600)%Z (Timeout 1) w
     = Some (returnToCenter
               (set_timers [(2, ((attachTime + 2100)%Z, CaughtRestore))]
                  (set_clock (attachTime + 1600)%Z w))) /\
     exists w', run floatDefaults afterDestroy w = Some w' /\ timers w' = []) /\
  (forall (num : Type) (w : World num),
     destroy (destroy w) = destroy w /\
     (forall id, animationFrame w = Some id ->
                 lookup_handle id (frames (destroy w)) = None) /\
     (forall id, jumpAnimFrame w = Some id ->
                 lookup_handle id (frames (destroy w)) = None) /\
     (forall id, returnTimeout w = Some id ->
                 lookup_handle id (timers (destroy w)) = None) /\
     (forall id, tauntTimeout w = Some id ->
                 lookup_handle id (timers (destroy w)) = None)).
Proof.
  split.
  - eexists. split; [vm_compute; reflexivity|].
    split; [vm_compute; reflexivity|]. split; [vm_compute; reflexivity|].
    split; [vm_compute; reflexivity|].
    eexists. split; [vm_compute; reflexivity|]. vm_compute; reflexivity.
  - intros num w. split; [apply destroy_idempotent|].
    assert (Hnone : forall A id (l : list (handle * A)),
               lookup_handle id (remove_handle id l) = None).
    { intros A id l. induction l as [|[k v] l IH]; simpl; auto.
      destruct (Nat.eqb k id) eqn:E; simpl; auto. now rewrite E. }
    assert (Hcomm : forall A i j (l : list (handle * A)),
               remove_handle i (remove_handle j l)
               = remove_handle j (remove_handle i l)).
    { intros A i j l. induction l as [|[k v] l IH]; simpl; auto.
      destruct (Nat.eqb k j) eqn:Ej, (Nat.eqb k i) eqn:Ei; simpl;
        rewrite ?Ei, ?Ej; simpl; congruence. }
    split; [|split; [|split]]; intros id Hid; unfold destroy; wsimpl.
    + destruct (animationFrame _); [|discriminate]. injection Hid as ->.
      destruct (jumpAnimFrame _); [rewrite Hcomm|]; apply Hnone.
    + destruct (jumpAnimFrame _); [|discriminate]. injection Hid as ->.
      apply Hnone.
    + destruct (returnTimeout _); [|discriminate]. injection Hid as ->.
      destruct (tauntTimeout _); [rewrite Hcomm|]; apply Hnone.
    + destruct (tauntTimeout _); [|discriminate]. injection Hid as ->.
      apply Hnone.
Qed.

(** ** A witness of C5 *)

Lemma click_catches_until_caughtDuration_witness :
  Reachable floatDefaults "Click me" attached /\
  listening attached = true /\
  (clock attached <= attachTime + 1000)%Z /\
  exists w',
    dispatch floatDefaults (attachTime + 1000)%Z Click attached = Some w' /\
    (isCaught (state attached) = false ->
     isCaught (state w') = true /\
     innerHTML w' = caughtText floatDefaults /\
     restoreTimers w' = [(2, ((attachTime + 2100)%Z, CaughtRestore))]).
Proof.
  assert (Hr : Reachable floatDefaults "Click me" attached).
  { exists attachTime, picksIdentity, []. reflexivity. }
  assert (Hl : listening attached = true) by reflexivity.
  assert (Ht : (clock attached <= attachTime + 1000)%Z) by (vm_compute; discriminate).
  split; [exact Hr|]. split; [exact Hl|]. split; [exact Ht|].
  destruct (click_catches_until_caughtDuration float FloatNumber floatDefaults
              "Click me" attached (attachTime + 1000)%Z Hr Hl Ht)
    as (w' & Hd & Hfresh & _).
  exists w'. split; [exact Hd|]. intros Hn.
  destruct (Hfresh Hn) as (H1 & _ & H3 & _ & _ & _ & _ & H8).
  split; [exact H1|]. split; [exact H3|]. exact H8.
Defined.

(** ** Comparisons on the reals *)

Local Open Scope R_scope.

Lemma Rltb_true (a b : R) : Rltb a b = true <-> a < b.
Proof. unfold Rltb. destruct (Rlt_dec a b); split; intros; try lra; congruence. Qed.

Lemma Rltb_false (a b : R) : Rltb a b = false <-> b <= a.
Proof. unfold Rltb. destruct (Rlt_dec a b); split; intros; try lra; congruence. Qed.

Lemma Rleb_true (a b : R) : Rleb a b = true <-> a <= b.
Proof. unfold Rleb. destruct (Rle_dec a b); split; intros; try lra; congruence. Qed.

Close Scope R_scope.

(** *** The destination of an escape (C2) *)

Section Destination.

Context {num : Type} `{Number num}.
Variable opts : Options num.

(** The jump of a triggered escape goes to the best destination found from
    the current position. *)
Lemma escapeFrom_destination x y h (w : World num) :
  escapes opts x y h w = true ->
  jumpTargetX (state (escapeFrom opts x y h w))
  = fst (fst (bestDestination opts (currentX (state w)) (currentY (state w)) x y h)) /\
  jumpTargetY (state (escapeFrom opts x y h w))
  = snd (fst (bestDestination opts (currentX (state w)) (currentY (state w)) x y h)).
Proof.
  unfold escapes, escapeFrom.
  destruct (isCaught _ || isJumping _); [discriminate|]. simpl.
  intros ->. cbv zeta.
  destruct (animationFrame w) eqn:Ea, (returnTimeout w) eqn:Er; wsimpl;
  unfold showTaunt, startJump;
  destruct (ltb (random h) _), (onEscape opts);
    try destruct (ltb (ofZ 600) _); wsimpl; split; reflexivity.
Qed.

End Destination.

(** C2, as stated, fails: the envelope can be empty.  A 250px wide button
    on a 320px wide viewport has [maxX = -25]; the pointer 10px left of the
    centre triggers an escape whose destination has [x = -25], and
    [|-25| <= -25] is false.  (The base direction is (1, 0): from the
    pointer to the centre, away from the pointer.) *)
Lemma escape_leaves_empty_envelope :
  (escapes floatDefaults 150 320 narrowHost attached = true /\
   fst (fst (envelope floatDefaults narrowHost)) = -25 /\
   escapeDirection 150 320 narrowHost = (1, 0) /\
   jumpTargetX (state (escapeFrom floatDefaults 150 320 narrowHost attached)) = -25 /\
   inEnvelope floatDefaults narrowHost
     (jumpTargetX (state (escapeFrom floatDefaults 150 320 narrowHost attached)),
      jumpTargetY (state (escapeFrom floatDefaults 150 320 narrowHost attached)))
   = false)%float.
Proof. repeat (split; [vm_compute; reflexivity|]). vm_compute; reflexivity. Qed.

(** *** Escaping from a pointer on the centre (C10) *)

Section FiniteFloats.

Local Open Scope float_scope.

Lemma zero_is_finite v : isZeroValue v = true -> Number_isFinite v = true.
Proof. unfold isZeroValue, Number_isFinite. destruct (Prim2SF v); congruence. Qed.

Lemma sub_self v : Number_isFinite v = true -> v - v = 0.
Proof.
  unfold Number_isFinite. intros Hv. apply Prim2SF_inj.
  rewrite sub_spec. unfold SF64sub.
  destruct (Prim2SF v) as [s|s| |s m e]; try discriminate.
  - destruct s; reflexivity.
  - unfold SFsub.
    set (t := cond_Zopp s _).
    change (IntDef.Z.sub t t) with (Z.sub t t).
    rewrite Z.sub_diag. reflexivity.
Qed.

Lemma mul_zero_finite a b :
  isZeroValue a = true -> Number_isFinite b = true -> isZeroValue (a * b) = true.
Proof.
  unfold isZeroValue, Number_isFinite. rewrite mul_spec. unfold SF64mul.
  destruct (Prim2SF a), (Prim2SF b); simpl; congruence.
Qed.

Lemma sub_zero_zero a b :
  isZeroValue a = true -> isZeroValue b = true -> isZeroValue (a - b) = true.
Proof.
  unfold isZeroValue. rewrite sub_spec. unfold SF64sub.
  destruct (Prim2SF a) as [[]|[]| |], (Prim2SF b) as [[]|[]| |]; simpl; congruence.
Qed.

Lemma add_zero_zero a b :
  isZeroValue a = true -> isZeroValue b = true -> isZeroValue (a + b) = true.
Proof.
  unfold isZeroValue. rewrite add_spec. unfold SF64add.
  destruct (Prim2SF a) as [[]|[]| |], (Prim2SF b) as [[]|[]| |]; simpl; congruence.
Qed.

Lemma add_finite_zero a b :
  Number_isFinite a = true -> isZeroValue b = true -> Number_isFinite (a + b) = true.
Proof.
  unfold isZeroValue, Number_isFinite. rewrite add_spec. unfold SF64add.
  destruct (Prim2SF a) as [[]|[]| |], (Prim2SF b) as [[]|[]| |]; simpl; congruence.
Qed.

Lemma opp_finite a : Number_isFinite a = true -> Number_isFinite (- a) = true.
Proof.
  unfold Number_isFinite. rewrite opp_spec.
  destruct (Prim2SF a); simpl; congruence.
Qed.

Lemma finite_not_nan a : Number_isFinite a = true -> PrimFloat.is_nan a = false.
Proof.
  unfold Number_isFinite, PrimFloat.is_nan. rewrite eqb_spec. unfold SFeqb.
  destruct (Prim2SF a) as [s|s| |s m e]; try discriminate; intros _.
  - reflexivity.
  - simpl. destruct s; rewrite Z.compare_refl;
      change (Pos.compare_cont Eq m m) with (Pos.compare m m);
      rewrite Pos.compare_refl; reflexivity.
Qed.

Lemma max_finite a b :
  Number_isFinite a = true -> Number_isFinite b = true ->
  Number_isFinite (F.max a b) = true.
Proof.
  intros Ha Hb. unfold F.max.
  rewrite (finite_not_nan a Ha), (finite_not_nan b Hb). cbn [orb].
  destruct (a <? b); [exact Hb|]. destruct (b <? a); [exact Ha|].
  destruct (PrimFloat.get_sign a); assumption.
Qed.

Lemma min_finite a b :
  Number_isFinite a = true -> Number_isFinite b = true ->
  Number_isFinite (F.min a b) = true.
Proof.
  intros Ha Hb. unfold F.min.
  rewrite (finite_not_nan a Ha), (finite_not_nan b Hb). cbn [orb].
  destruct (a <? b); [exact Ha|]. destruct (b <? a); [exact Hb|].
  destruct (PrimFloat.get_sign a); assumption.
Qed.

End FiniteFloats.

Section FoldKeeps.

Context {num : Type} `{Number num}.
Variable opts : Options num.
Variables x y dx dy maxX minY maxY : num.
Variable P : num -> num -> Prop.

(** What holds of the starting point and of every candidate holds of the
    destination the loop returns. *)
Lemma tryAngle_fold_keeps (l : list num) (best : num * num * num) :
  P (fst (fst best)) (snd (fst best)) ->
  (forall a, In a l ->
     P (fst (candidate opts x y dx dy maxX minY maxY a))
       (snd (candidate opts x y dx dy maxX minY maxY a))) ->
  P (fst (fst (fold_left (tryAngle opts x y dx dy maxX minY maxY) l best)))
    (snd (fst (fold_left (tryAngle opts x y dx dy maxX minY maxY) l best))).
Proof.
  revert best. induction l as [|a l IH]; intros best Hb Hl; [exact Hb|].
  cbn [fold_left]. apply IH.
  - unfold tryAngle. cbv zeta. destruct (ltb _ _); [|exact Hb].
    cbn [fst snd]. apply Hl. left; reflexivity.
  - intros b Hin. apply Hl. right; exact Hin.
Qed.

End FoldKeeps.

Section AtCenter.

Local Open Scope float_scope.

Variables cos sin : float -> float.
Variable opts : Options float.
Variable h : Host float.

Let Engine : Number float := FloatNumberWith cos sin.
Let cx : float := fst (getButtonCenter (H := Engine) h).
Let cy : float := snd (getButtonCenter (H := Engine) h).

Hypothesis cx_finite : Number_isFinite cx = true.
Hypothesis cy_finite : Number_isFinite cy = true.

Lemma distance_at_center : distance (H := Engine) cx cy cx cy = 0.
Proof.
  unfold distance. cbn [sub mul add Math_sqrt Engine FloatNumberWith].
  rewrite (sub_self cx cx_finite), (sub_self cy cy_finite). reflexivity.
Qed.

Lemma escapeDirection_at_center : escapeDirection (H := Engine) cx cy h = (0, 0).
Proof.
  unfold escapeDirection. cbv zeta. fold cx cy.
  cbn [sub mul add div Math_sqrt truthy ofZ Engine FloatNumberWith].
  rewrite (sub_self cx cx_finite), (sub_self cy cy_finite). reflexivity.
Qed.

Hypothesis engine_finite :
  forall a, In a (angles (H := Engine)) ->
    Number_isFinite (cos a) = true /\ Number_isFinite (sin a) = true.
Hypothesis escapeDistance_finite : Number_isFinite (escapeDistance opts) = true.

Lemma candidate_at_center (x y maxX minY maxY a : float) :
  In a (angles (H := Engine)) ->
  Number_isFinite x = true -> Number_isFinite y = true ->
  Number_isFinite maxX = true -> Number_isFinite minY = true ->
  Number_isFinite maxY = true ->
  Number_isFinite (fst (candidate (H := Engine) opts x y 0 0 maxX minY maxY a)) = true /\
  Number_isFinite (snd (candidate (H := Engine) opts x y 0 0 maxX minY maxY a)) = true.
Proof.
  intros Ha Hx Hy HmaxX HminY HmaxY.
  destruct (engine_finite a Ha) as [Hc Hs].
  assert (Hz : isZeroValue 0 = true) by reflexivity.
  unfold candidate, clamp. cbv zeta.
  cbn [sub mul add neg Math_cos Math_sin Math_max Math_min Engine FloatNumberWith fst snd].
  split.
  - apply min_finite; [|exact HmaxX].
    apply max_finite; [|apply opp_finite; exact HmaxX].
    apply add_finite_zero; [exact Hx|].
    apply mul_zero_finite; [|exact escapeDistance_finite].
    apply sub_zero_zero; apply mul_zero_finite; assumption.
  - apply min_finite; [|exact HmaxY].
    apply max_finite; [|exact HminY].
    apply add_finite_zero; [exact Hy|].
    apply mul_zero_finite; [|exact escapeDistance_finite].
    apply add_zero_zero; apply mul_zero_finite; assumption.
Qed.

Lemma bestDestination_at_center (x y : float) :
  Number_isFinite x = true -> Number_isFinite y = true ->
  Number_isFinite (fst (fst (envelope (H := Engine) opts h))) = true ->
  Number_isFinite (snd (fst (envelope (H := Engine) opts h))) = true ->
  Number_isFinite (snd (envelope (H := Engine) opts h)) = true ->
  Number_isFinite (fst (fst (bestDestination (H := Engine) opts x y cx cy h))) = true /\
  Number_isFinite (snd (fst (bestDestination (H := Engine) opts x y cx cy h))) = true.
Proof.
  intros Hx Hy HmaxX HminY HmaxY.
  unfold bestDestination.
  destruct (envelope (H := Engine) opts h) as [[maxX minY] maxY]. cbn [fst snd] in *.
  rewrite escapeDirection_at_center.
  apply (tryAngle_fold_keeps (H := Engine) opts x y 0 0 maxX minY maxY
           (fun u v => Number_isFinite u = true /\ Number_isFinite v = true)).
  - split; assumption.
  - intros a Ha. apply candidate_at_center; assumption.
Qed.

End AtCenter.

(** C10 (binary64, with any [Math.cos] and [Math.sin] that are finite at
    the ten angles).  When the pointer is exactly on the centre of the
    element, the button is neither caught nor jumping, the detection radius
    is positive, and the centre, the current position, [escapeDistance] and
    the bounds of the envelope are finite: the distance is 0 and the escape
    triggers; the length of the direction is 0, which is falsy, so the
    division is by 1 and the direction is (0, 0), not NaN; the destination
    of the jump is finite in both coordinates; and the jump starts. *)
Theorem escape_from_center_is_finite
  (cos sin : float -> float) (opts : Options float) (h : Host float)
  (w : World float) :
  let Engine := FloatNumberWith cos sin in
  let cx := fst (getButtonCenter (H := Engine) h) in
  let cy := snd (getButtonCenter (H := Engine) h) in
  let w' := escapeFrom (H := Engine) opts cx cy h w in
  (forall a, In a (angles (H := Engine)) ->
     Number_isFinite (cos a) = true /\ Number_isFinite (sin a) = true) ->
  isCaught (state w) = false -> isJumping (state w) = false ->
  PrimFloat.ltb 0 (detectionRadius opts) = true ->
  Number_isFinite cx = true -> Number_isFinite cy = true ->
  Number_isFinite (escapeDistance opts) = true ->
  Number_isFinite (currentX (state w)) = true ->
  Number_isFinite (currentY (state w)) = true ->
  Number_isFinite (fst (fst (envelope (H := Engine) opts h))) = true ->
  Number_isFinite (snd (fst (envelope (H := Engine) opts h))) = true ->
  Number_isFinite (snd (envelope (H := Engine) opts h)) = true ->
  distance (H := Engine) cx cy cx cy = 0%float /\
  escapes (H := Engine) opts cx cy h w = true /\
  F.truthy (PrimFloat.sqrt
              (PrimFloat.add (PrimFloat.mul (PrimFloat.sub cx cx) (PrimFloat.sub cx cx))
                             (PrimFloat.mul (PrimFloat.sub cy cy) (PrimFloat.sub cy cy))))
  = false /\
  escapeDirection (H := Engine) cx cy h
  = (PrimFloat.div (PrimFloat.sub cx cx) 1, PrimFloat.div (PrimFloat.sub cy cy) 1) /\
  escapeDirection (H := Engine) cx cy h = (0%float, 0%float) /\
  Number_isFinite (jumpTargetX (state w')) = true /\
  Number_isFinite (jumpTargetY (state w')) = true /\
  isJumping (state w') = true /\
  jumpAnimFrame w' = Some (nextHandle w) /\
  In (nextHandle w, JumpFrame) (frames w').
Proof.
  intros Engine cx cy w' Heng Hc Hj Hr Hcx Hcy Hed Hx Hy HmaxX HminY HmaxY.
  pose proof (distance_at_center cos sin h Hcx Hcy) as Hdist.
  pose proof (escapeDirection_at_center cos sin h Hcx Hcy) as Hdir.
  fold Engine in Hdist, Hdir. fold cx cy in Hdist, Hdir.
  assert (Hesc : escapes (H := Engine) opts cx cy h w = true).
  { unfold escapes. rewrite Hc, Hj. cbn [orb negb andb].
    change (PrimFloat.ltb (distance (H := Engine) cx cy cx cy) (detectionRadius opts)
            = true).
    rewrite Hdist. exact Hr. }
  destruct (escapeFrom_destination (H := Engine) opts cx cy h w Hesc) as [Htx Hty].
  destruct (escapeFrom_triggers (H := Engine) opts cx cy h w Hesc)
    as (Hjump & Hframe & Hin & _).
  destruct (bestDestination_at_center cos sin opts h Hcx Hcy Heng Hed
              (currentX (state w)) (currentY (state w)) Hx Hy HmaxX HminY HmaxY)
    as [Hbx Hby].
  split; [exact Hdist|]. split; [exact Hesc|].
  split; [rewrite (sub_self cx Hcx), (sub_self cy Hcy); reflexivity|].
  split; [rewrite (sub_self cx Hcx), (sub_self cy Hcy); exact Hdir|].
  split; [exact Hdir|].
  split; [unfold w'; rewrite Htx; exact Hbx|].
  split; [unfold w'; rewrite Hty; exact Hby|].
  split; [exact Hjump|]. split; [exact Hframe|exact Hin].
Qed.

(** The pointer on the centre (460, 320) of the freshly attached button. *)
Lemma escape_from_center_is_finite_witness :
  (escapes floatDefaults 460 320 hostExample attached = true /\
   Number_isFinite
     (jumpTargetX (state (escapeFrom floatDefaults 460 320 hostExample attached)))
   = true /\
   Number_isFinite
     (jumpTargetY (state (escapeFrom floatDefaults 460 320 hostExample attached)))
   = true /\
   isJumping (state (escapeFrom floatDefaults 460 320 hostExample attached)) = true)%float.
Proof.
  assert (Heng : forall a, In a (angles (H := FloatNumberWith F.cos_table F.sin_table)) ->
            Number_isFinite (F.cos_table a) = true /\
            Number_isFinite (F.sin_table a) = true).
  { intros a Ha.
    repeat (destruct Ha as [<-|Ha]; [split; vm_compute; reflexivity|]).
    destruct Ha. }
  pose proof (escape_from_center_is_finite F.cos_table F.sin_table floatDefaults
                hostExample attached Heng
                eq_refl eq_refl eq_refl eq_refl eq_refl eq_refl eq_refl eq_refl
                eq_refl eq_refl eq_refl)
    as (_ & He & _ & _ & _ & Hx & Hy & Hj & _).
  split; [exact He|]. split; [exact Hx|]. split; [exact Hy|exact Hj].
Defined.

(** ** One timer and one frame of each kind *)

Section TrackedSteps.

Context {num : Type} `{Number num}.
Variable opts : Options num.

Lemma Tracked_ext (w w' : World num) :
  Tracked w ->
  timers w' = timers w -> frames w' = frames w ->
  nextHandle w <= nextHandle w' ->
  returnTimeout w' = returnTimeout w -> tauntTimeout w' = tauntTimeout w ->
  Tracked w'.
Proof.
  intros [rt tt ff fd] E1 E2 E3 E4 E5.
  constructor; rewrite ?E1, ?E2, ?E4, ?E5; auto.
  intros e He. apply ff in He. lia.
Qed.

(** Adding a timer of another kind. *)
Lemma Tracked_timer (w w' : World num) cb due :
  Tracked w ->
  cb <> ReturnTimer -> cb <> HideTaunt ->
  timers w' = timers w ++ [(nextHandle w, (due, cb))] ->
  frames w' = frames w -> nextHandle w' = S (nextHandle w) ->
  returnTimeout w' = returnTimeout w -> tauntTimeout w' = tauntTimeout w ->
  Tracked w'.
Proof.
  intros [rt tt ff fd] N1 N2 E1 E2 E3 E4 E5.
  constructor; rewrite ?E1, ?E2, ?E3, ?E4, ?E5; auto.
  - intros id d Hin. apply in_app_or in Hin as [Hin|[Heq|[]]]; eauto. congruence.
  - intros id d Hin. apply in_app_or in Hin as [Hin|[Heq|[]]]; eauto. congruence.
  - intros e He. apply ff in He. lia.
Qed.

(** Arming the return timer when none is pending. *)
Lemma Tracked_arm_return (w w' : World num) due :
  Tracked w ->
  (forall id d, ~ In (id, (d, ReturnTimer)) (timers w)) ->
  timers w' = timers w ++ [(nextHandle w, (due, ReturnTimer))] ->
  frames w' = frames w -> nextHandle w' = S (nextHandle w) ->
  returnTimeout w' = Some (nextHandle w) -> tauntTimeout w' = tauntTimeout w ->
  Tracked w'.
Proof.
  intros [rt tt ff fd] Hnone E1 E2 E3 E4 E5.
  constructor; rewrite ?E1, ?E2, ?E3, ?E4, ?E5; auto.
  - intros id d Hin. apply in_app_or in Hin as [Hin|[Heq|[]]].
    + now apply Hnone in Hin.
    + congruence.
  - intros id d Hin. apply in_app_or in Hin as [Hin|[Heq|[]]]; eauto. congruence.
  - intros e He. apply ff in He. lia.
Qed.

Lemma Tracked_arm_taunt (w w' : World num) due :
  Tracked w ->
  (forall id d, ~ In (id, (d, HideTaunt)) (timers w)) ->
  timers w' = timers w ++ [(nextHandle w, (due, HideTaunt))] ->
  frames w' = frames w -> nextHandle w' = S (nextHandle w) ->
  returnTimeout w' = returnTimeout w -> tauntTimeout w' = Some (nextHandle w) ->
  Tracked w'.
Proof.
  intros [rt tt ff fd] Hnone E1 E2 E3 E4 E5.
  constructor; rewrite ?E1, ?E2, ?E3, ?E4, ?E5; auto.
  - intros id d Hin. apply in_app_or in Hin as [Hin|[Heq|[]]]; eauto. congruence.
  - intros id d Hin. apply in_app_or in Hin as [Hin|[Heq|[]]].
    + now apply Hnone in Hin.
    + congruence.
  - intros e He. apply ff in He. lia.
Qed.

(** After [clearTimeout] on the stored handle no timer of the kind is
    pending. *)
Lemma cleared_return (w : World num) :
  Tracked w ->
  forall id d, ~ In (id, (d, ReturnTimer)) (timers (clearTimeout (returnTimeout w) w)).
Proof.
  intros [rt _ _ _] id d Hin. wsimpl.
  destruct (returnTimeout w) as [r|] eqn:Er.
  - apply In_remove_handle in Hin as [Hin Hne]. apply rt in Hin.
    apply Hne. simpl. congruence.
  - apply rt in Hin. discriminate.
Qed.

Lemma cleared_taunt (w : World num) :
  Tracked w ->
  forall id d, ~ In (id, (d, HideTaunt)) (timers (clearTimeout (tauntTimeout w) w)).
Proof.
  intros [_ tt _ _] id d Hin. wsimpl.
  destruct (tauntTimeout w) as [r|] eqn:Er.
  - apply In_remove_handle in Hin as [Hin Hne]. apply tt in Hin.
    apply Hne. simpl. congruence.
  - apply tt in Hin. discriminate.
Qed.

(** Removing timers; a stored handle may change when no timer of its kind
    is left. *)
Lemma Tracked_clear (w w' : World num) :
  Tracked w ->
  (forall e, In e (timers w') -> In e (timers w)) ->
  frames w' = frames w -> nextHandle w' = nextHandle w ->
  (returnTimeout w' = returnTimeout w \/
   forall id d, ~ In (id, (d, ReturnTimer)) (timers w')) ->
  (tauntTimeout w' = tauntTimeout w \/
   forall id d, ~ In (id, (d, HideTaunt)) (timers w')) ->
  Tracked w'.
Proof.
  intros [rt tt ff fd] Hsub E2 E3 Hr Ht.
  constructor; rewrite ?E2, ?E3; auto.
  - intros id d Hin. destruct Hr as [->|Hr]; [eauto|]. now apply Hr in Hin.
  - intros id d Hin. destruct Ht as [->|Ht]; [eauto|]. now apply Ht in Hin.
Qed.

Lemma Tracked_cancel (w w' : World num) (h : option handle) :
  Tracked w ->
  timers w' = timers w ->
  frames w' = match h with
              | Some id => remove_handle id (frames w)
              | None => frames w
              end ->
  nextHandle w' = nextHandle w ->
  returnTimeout w' = returnTimeout w -> tauntTimeout w' = tauntTimeout w ->
  Tracked w'.
Proof.
  intros [rt tt ff fd] E1 E2 E3 E4 E5.
  constructor; rewrite ?E1, ?E2, ?E3, ?E4, ?E5; auto.
  - intros e He. destruct h; [apply In_remove_handle in He as [He _]|]; auto.
  - destruct h; [apply remove_handle_distinct|]; auto.
Qed.

Lemma Tracked_request (w w' : World num) cb :
  Tracked w ->
  timers w' = timers w ->
  frames w' = frames w ++ [(nextHandle w, cb)] ->
  nextHandle w' = S (nextHandle w) ->
  returnTimeout w' = returnTimeout w -> tauntTimeout w' = tauntTimeout w ->
  Tracked w'.
Proof.
  intros [rt tt ff fd] E1 E2 E3 E4 E5.
  constructor; rewrite ?E1, ?E2, ?E3, ?E4, ?E5; auto.
  - intros e He. apply in_app_or in He as [He|[<-|[]]].
    + apply ff in He. lia.
    + simpl. lia.
  - apply snoc_distinct; auto.
Qed.

Lemma Tracked_returnToCenter (w : World num) :
  Tracked w -> Tracked (returnToCenter w).
Proof.
  intros Ht. unfold returnToCenter.
  destruct (animationFrame _) eqn:Ea; wsimpl.
  - apply (Tracked_ext w); try side.
  - apply (Tracked_request w _ SpringFrame); try side.
Qed.

Lemma Tracked_springAnimate (w : World num) :
  Tracked w -> Tracked (springAnimate w).
Proof.
  intros Ht. unfold springAnimate.
  destruct (isReturning (springStep (state w)) && _).
  - apply (Tracked_ext w); try side.
  - destruct (isReturning (springStep (state w))).
    + apply (Tracked_request w _ SpringFrame); try side.
    + apply (Tracked_ext w); try side.
Qed.

Lemma Tracked_jumpAnimate ts (w : World num) :
  Tracked w -> Tracked (jumpAnimate opts ts w).
Proof.
  intros Ht. unfold jumpAnimate.
  set (s := jumpEase (jumpFall ts (state w))). clearbody s.
  destruct (landed s).
  - set (w1 := set_state (jumpLand s) w).
    assert (H1 : Tracked w1) by (apply (Tracked_ext w); try side).
    clearbody w1.
    set (w2 := if showShadow opts then snd (setTimeout ShadowFade 200 w1) else w1).
    assert (H2 : Tracked w2).
    { unfold w2. destruct (showShadow opts); auto.
      apply (Tracked_timer w1 _ ShadowFade (clock w1 + Z.max 0 200));
        try side; discriminate. }
    clearbody w2.
    set (w3 := if screenShake opts
               then snd (setTimeout LandingDone 200 (set_landing true w2)) else w2).
    assert (H3 : Tracked w3).
    { unfold w3. destruct (screenShake opts); auto.
      apply (Tracked_timer w2 _ LandingDone (clock w2 + Z.max 0 200));
        try side; discriminate. }
    clearbody w3.
    set (w4 := set_jumpAnimFrame None
                 (upd (set_lastJumpTime (ofZ 0)) (upd (set_isJumping false) w3))).
    assert (H4 : Tracked w4) by (apply (Tracked_ext w3); try side).
    clearbody w4.
    pose proof (cleared_return w4 H4) as Hnone.
    set (w5 := clearTimeout (returnTimeout w4) w4) in *.
    assert (H5 : Tracked w5).
    { apply (Tracked_clear w4); try side.
      unfold w5. wsimpl. destruct (returnTimeout w4); auto.
      intros e He. now apply In_remove_handle in He. }
    clearbody w5.
    apply (Tracked_arm_return w5 _ (clock w5 + Z.max 0 450)); try side.
  - apply (Tracked_request w _ JumpFrame); try side.
Qed.

Lemma Tracked_startJump x y (w : World num) :
  Tracked w -> Tracked (startJump x y w).
Proof.
  intros Ht. unfold startJump.
  set (w1 := upd (set_lastJumpTime (ofZ 0)) _).
  assert (H1 : Tracked w1) by (apply (Tracked_ext w); try side).
  clearbody w1.
  set (w2 := cancelAnimationFrame (jumpAnimFrame w1) w1).
  assert (H2 : Tracked w2) by (apply (Tracked_cancel w1 _ (jumpAnimFrame w1)); try side).
  clearbody w2.
  apply (Tracked_request w2 _ JumpFrame); try side.
Qed.

Lemma Tracked_showTaunt picks (w : World num) :
  Tracked w -> Tracked (showTaunt opts picks w).
Proof.
  intros Ht. unfold showTaunt. destruct (ltb _ _); [|exact Ht].
  set (r := nextTaunt picks (length (taunts opts)) (tauntQueue w) (lastTauntIndex w)).
  set (w1 := set_tauntVisible true (set_tauntText (taunt_at opts (fst r))
               (set_lastTauntIndex (fst r) (set_tauntQueue (snd r)
                  (upd (set_lastTauntTime (ofZ (clock w))) w))))).
  assert (H1 : Tracked w1) by (apply (Tracked_ext w); try side).
  pose proof (cleared_taunt w1 H1) as Hnone.
  set (w2 := clearTimeout (tauntTimeout w1) w1) in *.
  assert (H2 : Tracked w2).
  { apply (Tracked_clear w1); try side.
    unfold w2. wsimpl. destruct (tauntTimeout w1); auto.
    intros e He. now apply In_remove_handle in He. }
  apply (Tracked_arm_taunt w2 _ (clock w2 + Z.max 0 1200)); try side.
Qed.

(** The world of [escapeFrom] as its jump starts: the return is cancelled. *)
Lemma escapeFrom_cancels_return (w : World num) :
  Tracked w ->
  let w2 := upd (set_isJumping true)
              (set_returnTimeout None (clearTimeout (returnTimeout w)
                 (set_animationFrame None (cancelAnimationFrame (animationFrame w)
                    (upd (set_isReturning false) w))))) in
  Tracked w2 /\ (forall id d, ~ In (id, (d, ReturnTimer)) (timers w2)).
Proof.
  intros Ht. cbv zeta.
  set (w1 := set_animationFrame None (cancelAnimationFrame (animationFrame w)
               (upd (set_isReturning false) w))).
  assert (H1 : Tracked w1) by (apply (Tracked_cancel w _ (animationFrame w)); try side).
  pose proof (cleared_return w1 H1) as Hnone.
  split; [|exact Hnone].
  apply (Tracked_clear w1); try side.
  - wsimpl. destruct (returnTimeout w); auto.
    intros e He. now apply In_remove_handle in He.
  - right. exact Hnone.
Qed.

Lemma Tracked_escapeFrom x y h (w : World num) :
  Tracked w -> Tracked (escapeFrom opts x y h w).
Proof.
  intros Ht. unfold escapeFrom.
  destruct (isCaught _ || isJumping _); [exact Ht|].
  destruct (ltb _ _); [|exact Ht].
  cbv zeta.
  destruct (escapeFrom_cancels_return w Ht) as [H2 _]. cbv zeta in H2.
  match goal with
  | |- context [startJump ?a ?b ?w0] =>
      pose proof (Tracked_startJump a b w0 H2) as H3;
      set (ws := startJump a b w0) in *
  end.
  clearbody ws.
  assert (H4 : Tracked (if onEscape opts
                        then set_escapeCalls (S (escapeCalls ws)) ws else ws)).
  { destruct (onEscape opts); auto.
    apply (Tracked_ext ws); try side. }
  destruct (ltb _ _); auto.
  apply Tracked_showTaunt. exact H4.
Qed.

Lemma Tracked_rearm delay (w : World num) :
  Tracked w ->
  Tracked (set_returnTimeout (Some (fst (setTimeout ReturnTimer delay
                                          (clearTimeout (returnTimeout w) w))))
             (snd (setTimeout ReturnTimer delay (clearTimeout (returnTimeout w) w)))).
Proof.
  intros Ht.
  pose proof (cleared_return w Ht) as Hnone.
  set (w2 := clearTimeout (returnTimeout w) w) in *.
  assert (H2 : Tracked w2).
  { apply (Tracked_clear w); try side.
    unfold w2. wsimpl. destruct (returnTimeout w); auto.
    intros e He. now apply In_remove_handle in He. }
  clearbody w2.
  apply (Tracked_arm_return w2 _ (clock w2 + Z.max 0 delay)); try side.
Qed.

Lemma Tracked_handleMouseMove x y h (w : World num) :
  Tracked w -> Tracked (handleMouseMove opts x y h w).
Proof.
  intros Ht. unfold handleMouseMove.
  pose proof (Tracked_escapeFrom x y h w Ht) as H1.
  cbv zeta.
  set (w1 := escapeFrom opts x y h w) in *. clearbody w1.
  destruct (ltb _ _).
  - exact (Tracked_rearm 400 w1 H1).
  - apply (Tracked_clear w1); try side.
    wsimpl. destruct (returnTimeout w1); auto.
    intros e He. now apply In_remove_handle in He.
Qed.

Lemma Tracked_handleMouseLeave (w : World num) :
  Tracked w -> Tracked (handleMouseLeave w).
Proof. intros Ht. exact (Tracked_rearm 200 w Ht). Qed.

Lemma Tracked_handleClick (w : World num) :
  Tracked w -> Tracked (handleClick opts w).
Proof.
  intros Ht. unfold handleClick.
  destruct (isCaught (state w)); [exact Ht|]. cbv zeta.
  set (w0 := if onCatch opts then _ else _).
  assert (H0 : Tracked w0).
  { unfold w0. destruct (onCatch opts); apply (Tracked_ext w); try side; wsimpl; lia. }
  clearbody w0.
  set (w1 := set_jumpAnimFrame None (cancelAnimationFrame (jumpAnimFrame w0) w0)).
  assert (H1 : Tracked w1) by (apply (Tracked_cancel w0 _ (jumpAnimFrame w0)); try side).
  clearbody w1.
  set (w2 := set_animationFrame None (cancelAnimationFrame (animationFrame w1) w1)).
  assert (H2 : Tracked w2) by (apply (Tracked_cancel w1 _ (animationFrame w1)); try side).
  clearbody w2.
  pose proof (cleared_return w2 H2) as Hnone.
  set (w3 := set_returnTimeout None (clearTimeout (returnTimeout w2) w2)).
  assert (H3 : Tracked w3).
  { apply (Tracked_clear w2); try side.
    - unfold w3. wsimpl. destruct (returnTimeout w2); auto.
      intros e He. now apply In_remove_handle in He.
    - right. exact Hnone. }
  clearbody w3.
  set (w4 := set_caughtShake true _).
  assert (H4 : Tracked w4) by (apply (Tracked_ext w3); try side).
  clearbody w4.
  set (w5 := snd (setTimeout CaughtReturn 600 w4)).
  assert (H5 : Tracked w5).
  { apply (Tracked_timer w4 _ CaughtReturn (clock w4 + Z.max 0 600));
      try side; discriminate. }
  clearbody w5.
  apply (Tracked_timer w5 _ CaughtRestore (clock w5 + Z.max 0 (caughtDuration opts)));
    try side; discriminate.
Qed.

Lemma Tracked_destroy (w : World num) :
  Tracked w -> Tracked (destroy w).
Proof.
  intros Ht. unfold destroy. cbv zeta.
  set (w1 := cancelAnimationFrame (animationFrame (set_listening false w))
               (set_listening false w)).
  assert (H1 : Tracked w1) by (apply (Tracked_cancel w _ (animationFrame w)); try side).
  clearbody w1.
  set (w2 := cancelAnimationFrame (jumpAnimFrame w1) w1).
  assert (H2 : Tracked w2) by (apply (Tracked_cancel w1 _ (jumpAnimFrame w1)); try side).
  clearbody w2.
  set (w3 := clearTimeout (returnTimeout w2) w2).
  assert (H3 : Tracked w3).
  { apply (Tracked_clear w2); try side.
    unfold w3. wsimpl. destruct (returnTimeout w2); auto.
    intros e He. now apply In_remove_handle in He. }
  clearbody w3.
  set (w4 := clearTimeout (tauntTimeout w3) w3).
  assert (H4 : Tracked w4).
  { apply (Tracked_clear w3); try side.
    unfold w4. wsimpl. destruct (tauntTimeout w3); auto.
    intros e He. now apply In_remove_handle in He. }
  clearbody w4.
  apply (Tracked_ext w4); try side.
Qed.

Lemma Tracked_makeEvasive content t0 picks :
  Tracked (makeEvasive opts content t0 picks).
Proof.
  constructor; unfold makeEvasive; wsimpl; simpl;
    solve [intros; contradiction | constructor].
Qed.

Lemma Tracked_dispatch t e (w w' : World num) :
  dispatch opts t e w = Some w' -> Tracked w -> Tracked w'.
Proof.
  unfold dispatch. destruct (Z.ltb _ _); [discriminate|]. cbv zeta.
  intros Hd Ht.
  assert (H0 : Tracked (set_clock t w)) by (apply (Tracked_ext w); try side).
  set (w0 := set_clock t w) in *. clearbody w0.
  destruct e as [x y h| | |id ts|id|].
  - injection Hd as <-. destruct (listening _); auto.
    now apply Tracked_handleMouseMove.
  - injection Hd as <-. destruct (listening _); auto.
    now apply Tracked_handleMouseLeave.
  - injection Hd as <-. destruct (listening _); auto.
    now apply Tracked_handleClick.
  - destruct (lookup_handle _ _) as [cb|]; [|discriminate].
    injection Hd as <-.
    assert (H1 : Tracked (set_frames (remove_handle id (frames w0)) w0))
      by (apply (Tracked_cancel w0 _ (Some id)); try side).
    destruct cb; simpl.
    + now apply Tracked_springAnimate.
    + now apply Tracked_jumpAnimate.
  - destruct (lookup_handle _ _) as [[due cb]|]; [|discriminate].
    destruct (Z.leb _ _); [|discriminate]. injection Hd as <-.
    assert (H1 : Tracked (set_timers (remove_handle id (timers w0)) w0)).
    { apply (Tracked_clear w0); try side.
      wsimpl. intros e He. now apply In_remove_handle in He. }
    destruct cb; simpl; auto.
    + apply (Tracked_ext _ _ H1); try side.
    + now apply Tracked_returnToCenter.
    + apply (Tracked_ext _ _ H1); try side.
    + now apply Tracked_returnToCenter.
    + apply (Tracked_ext _ _ H1); try side.
  - injection Hd as <-. now apply Tracked_destroy.
Qed.

Lemma Tracked_run trace (w w' : World num) :
  run opts trace w = Some w' -> Tracked w -> Tracked w'.
Proof.
  revert w. induction trace as [|[t e] rest IH]; simpl; intros w Hr Ht.
  - now injection Hr as <-.
  - destruct (dispatch opts t e w) as [w1|] eqn:Ed; [|discriminate].
    apply (IH w1 Hr). eapply Tracked_dispatch; eauto.
Qed.

Lemma Reachable_Tracked content (w : World num) :
  Reachable opts content w -> Tracked w.
Proof.
  intros (t0 & picks & trace & Hr).
  eapply Tracked_run; [exact Hr|apply Tracked_makeEvasive].
Qed.

End TrackedSteps.

(** ** What is pending after each event *)

Section PendingFacts.

Context {num : Type} `{Number num}.

Lemma filter_same_handle A (P : handle * A -> bool) (k : handle)
  (l : list (handle * A)) :
  NoDup (map fst l) ->
  (forall e, In e l -> P e = true -> fst e = k) ->
  length (filter P l) <= 1.
Proof.
  induction l as [|e l IH]; simpl; intros Hnd Hk; [lia|].
  inversion Hnd as [|? ? Hnotin Hnd']; subst.
  destruct (P e) eqn:Pe.
  - assert (Hnil : filter P l = []).
    { destruct (filter P l) as [|e' r] eqn:Ef; [reflexivity|exfalso].
      assert (Hin : In e' (filter P l)) by (rewrite Ef; now left).
      apply filter_In in Hin as [Hin Pe'].
      apply Hnotin. apply in_map_iff. exists e'. split; [|exact Hin].
      rewrite (Hk e (or_introl eq_refl) Pe). apply Hk; auto. }
    rewrite Hnil. simpl. lia.
  - apply IH; auto.
Qed.

Lemma sameCallback_true a b : sameCallback a b = true <-> a = b.
Proof. destruct a, b; simpl; split; congruence. Qed.

Lemma sameFrame_true a b : sameFrame a b = true <-> a = b.
Proof. destruct a, b; simpl; split; congruence. Qed.

Lemma pending_In cb (w : World num) id due :
  In (id, due) (pending cb w) <-> In (id, (due, cb)) (timers w).
Proof.
  unfold pending. rewrite in_map_iff. split.
  - intros ([i [d c]] & Heq & Hin). apply filter_In in Hin as [Hin Hc].
    simpl in *. apply sameCallback_true in Hc. congruence.
  - intros Hin. exists (id, (due, cb)). split; [reflexivity|].
    apply filter_In. split; [exact Hin|]. now apply sameCallback_true.
Qed.

Lemma pending_none cb (w : World num) :
  (forall id d, ~ In (id, (d, cb)) (timers w)) -> pending cb w = [].
Proof.
  intros Hnone. destruct (pending cb w) as [|[id d] r] eqn:E; [reflexivity|].
  exfalso. apply (Hnone id d). apply pending_In. rewrite E. now left.
Qed.

Lemma pending_snoc cb (w w' : World num) id due cb' :
  timers w' = timers w ++ [(id, (due, cb'))] ->
  pending cb w' = pending cb w ++ (if sameCallback cb' cb then [(id, due)] else []).
Proof.
  intros E. unfold pending. rewrite E, filter_app, map_app. simpl.
  destruct (sameCallback cb' cb); reflexivity.
Qed.

Lemma pendingFrames_In cb (w : World num) id :
  In id (pendingFrames cb w) <-> In (id, cb) (frames w).
Proof.
  unfold pendingFrames. rewrite in_map_iff. split.
  - intros ([i c] & Heq & Hin). apply filter_In in Hin as [Hin Hc].
    simpl in *. apply sameFrame_true in Hc. congruence.
  - intros Hin. exists (id, cb). split; [reflexivity|].
    apply filter_In. split; [exact Hin|]. now apply sameFrame_true.
Qed.

Lemma pendingFrames_none cb (w : World num) :
  (forall id, ~ In (id, cb) (frames w)) -> pendingFrames cb w = [].
Proof.
  intros Hnone. destruct (pendingFrames cb w) as [|id r] eqn:E; [reflexivity|].
  exfalso. apply (Hnone id). apply pendingFrames_In. rewrite E. now left.
Qed.

Lemma pendingFrames_snoc cb (w w' : World num) id cb' :
  frames w' = frames w ++ [(id, cb')] ->
  pendingFrames cb w' = pendingFrames cb w ++ (if sameFrame cb' cb then [id] else []).
Proof.
  intros E. unfold pendingFrames. rewrite E, filter_app, map_app. simpl.
  destruct (sameFrame cb' cb); reflexivity.
Qed.

Lemma length_le_1 A (l : list A) :
  length l <= 1 -> l = [] \/ exists x, l = [x].
Proof.
  destruct l as [|x [|y r]]; simpl; intros Hl; [now left|right; now exists x|lia].
Qed.

(** At most one pending timer of a stored kind. *)
Lemma pending_stored cb (stored : option handle) (w : World num) :
  NoDup (map fst (timers w)) ->
  (forall id due, In (id, (due, cb)) (timers w) -> stored = Some id) ->
  pending cb w = [] \/
  exists id due, stored = Some id /\ pending cb w = [(id, due)].
Proof.
  intros Hnd Hst.
  destruct stored as [k|].
  - assert (Hlen : length (pending cb w) <= 1).
    { unfold pending. rewrite length_map.
      apply (filter_same_handle _ _ k); [exact Hnd|].
      intros [id [due c]] Hin Hc. simpl in *. apply sameCallback_true in Hc. subst c.
      apply Hst in Hin. congruence. }
    apply length_le_1 in Hlen as [Hnil|[[id due] Hone]]; [now left|right].
    exists id, due. split; [|exact Hone].
    apply (Hst id due). apply pending_In. rewrite Hone. now left.
  - left. apply pending_none. intros id d Hin. apply Hst in Hin. discriminate.
Qed.

Lemma pendingFrames_stored cb (stored : option handle) (w : World num) :
  NoDup (map fst (frames w)) ->
  (forall id, In (id, cb) (frames w) -> stored = Some id) ->
  pendingFrames cb w = [] \/
  exists id, stored = Some id /\ pendingFrames cb w = [id].
Proof.
  intros Hnd Hst.
  destruct stored as [k|].
  - assert (Hlen : length (pendingFrames cb w) <= 1).
    { unfold pendingFrames. rewrite length_map.
      apply (filter_same_handle _ _ k); [exact Hnd|].
      intros [id c] Hin Hc. simpl in *. apply sameFrame_true in Hc. subst c.
      apply Hst in Hin. congruence. }
    apply length_le_1 in Hlen as [Hnil|[id Hone]]; [now left|right].
    exists id. split; [|exact Hone].
    apply (Hst id). apply pendingFrames_In. rewrite Hone. now left.
  - left. apply pendingFrames_none. intros id Hin. apply Hst in Hin. discriminate.
Qed.

Lemma frames_split (w : World num) :
  length (frames w)
  = length (pendingFrames SpringFrame w) + length (pendingFrames JumpFrame w).
Proof.
  unfold pendingFrames. rewrite !length_map.
  induction (frames w) as [|[id cb] l IH]; simpl; [reflexivity|].
  destruct cb; simpl; lia.
Qed.

End PendingFacts.

(** In every world the host can reach at most one return timer and at most
    one timer that hides the taunt are pending, each under its stored
    handle: a timer set by [handleMouseMove], [handleMouseLeave], a landing
    or [showTaunt] replaces the one before it. *)
Theorem stored_timers_are_unique :
  forall (num : Type) (NumOps : Number num) (opts : Options num)
         (content : string) (w : World num),
    Reachable opts content w ->
    (pending ReturnTimer w = [] \/
     exists id due, returnTimeout w = Some id /\ pending ReturnTimer w = [(id, due)]) /\
    (pending HideTaunt w = [] \/
     exists id due, tauntTimeout w = Some id /\ pending HideTaunt w = [(id, due)]).
Proof.
  intros num NumOps opts content w Hr.
  pose proof (Reachable_Consistent opts content w Hr) as Hc.
  pose proof (Reachable_Tracked opts content w Hr) as Ht.
  split; apply pending_stored;
    try exact (timers_distinct Hc); [exact (return_tracked Ht)|exact (taunt_tracked Ht)].
Qed.

(** In every world the host can reach at most one spring frame and at most
    one jump frame are pending, each under its stored handle, so at most two
    frames in all: neither animation loop ever runs twice per display
    frame. *)
Theorem animation_loops_never_double :
  forall (num : Type) (NumOps : Number num) (opts : Options num)
         (content : string) (w : World num),
    Reachable opts content w ->
    (pendingFrames SpringFrame w = [] \/
     exists id, animationFrame w = Some id /\ pendingFrames SpringFrame w = [id]) /\
    (pendingFrames JumpFrame w = [] \/
     exists id, jumpAnimFrame w = Some id /\ pendingFrames JumpFrame w = [id]) /\
    length (frames w) <= 2.
Proof.
  intros num NumOps opts content w Hr.
  pose proof (Reachable_Consistent opts content w Hr) as Hc.
  pose proof (Reachable_Tracked opts content w Hr) as Ht.
  assert (Hs := pendingFrames_stored SpringFrame (animationFrame w) w
                  (frames_distinct Ht) (spring_tracked Hc)).
  assert (Hj := pendingFrames_stored JumpFrame (jumpAnimFrame w) w
                  (frames_distinct Ht) (jump_tracked Hc)).
  split; [exact Hs|]. split; [exact Hj|].
  rewrite frames_split.
  destruct Hs as [->|(? & _ & ->)], Hj as [->|(? & _ & ->)]; simpl; lia.
Qed.

(** ** Flags and loops stay in step *)

Section LiveSteps.

Context {num : Type} `{Number num}.
Variable opts : Options num.
Variable content : string.

Local Abbreviation Consistent := (Consistent opts content).

Lemma JumpLive_ext (w w' : World num) :
  JumpLive w ->
  (forall id, In (id, JumpFrame) (frames w') <-> In (id, JumpFrame) (frames w)) ->
  jumpAnimFrame w' = jumpAnimFrame w ->
  (listening w' = listening w \/ listening w' = false) ->
  isJumping (state w') = isJumping (state w) ->
  JumpLive w'.
Proof.
  intros [Hl Hf] Hin Ej El Es. split.
  - intros Hlis Hjmp. rewrite Es in Hjmp. rewrite Ej.
    destruct El as [El|El]; [|congruence]. rewrite El in Hlis.
    destruct (Hl Hlis Hjmp) as (id & E & Hid). exists id. split; [exact E|].
    now apply Hin.
  - intros id Hid. rewrite Es. apply (Hf id). now apply Hin.
Qed.

Lemma JumpLive_none (w' : World num) :
  (forall id, ~ In (id, JumpFrame) (frames w')) ->
  (isJumping (state w') = false \/ listening w' = false) ->
  JumpLive w'.
Proof.
  intros Hnone Hoff. split.
  - intros Hlis Hjmp. destruct Hoff; congruence.
  - intros id Hid. now apply Hnone in Hid.
Qed.

Lemma JumpLive_started (w' : World num) n :
  In (n, JumpFrame) (frames w') -> jumpAnimFrame w' = Some n ->
  isJumping (state w') = true -> JumpLive w'.
Proof. intros Hin Ej Es. split; [exists n; auto|auto]. Qed.

Lemma SpringLive_ext (w w' : World num) :
  SpringLive w ->
  (forall id, In (id, SpringFrame) (frames w') <-> In (id, SpringFrame) (frames w)) ->
  animationFrame w' = animationFrame w ->
  (listening w' = listening w \/ listening w' = false) ->
  (isReturning (state w') = isReturning (state w) \/ isReturning (state w') = true) ->
  SpringLive w'.
Proof.
  intros [Hl Hf] Hin Ea El Es. split.
  - intros Hlis id Hid. rewrite Ea in Hid.
    destruct El as [El|El]; [|congruence]. rewrite El in Hlis.
    apply Hin. now apply Hl.
  - intros id Hid. destruct Es as [->|Es]; [|exact Es].
    apply (Hf id). now apply Hin.
Qed.

Lemma SpringLive_none (w' : World num) :
  (forall id, ~ In (id, SpringFrame) (frames w')) ->
  (animationFrame w' = None \/ listening w' = false) ->
  SpringLive w'.
Proof.
  intros Hnone Hoff. split.
  - intros Hlis id Hid. destruct Hoff; congruence.
  - intros id Hid. now apply Hnone in Hid.
Qed.

Lemma SpringLive_running (w' : World num) n :
  In (n, SpringFrame) (frames w') -> animationFrame w' = Some n ->
  isReturning (state w') = true -> SpringLive w'.
Proof.
  intros Hin Ea Es. split; [|auto].
  intros _ id Hid. congruence.
Qed.

(** A step that touches neither the frames nor the flags. *)
Lemma Live_ext (w w' : World num) :
  Live w ->
  frames w' = frames w ->
  animationFrame w' = animationFrame w -> jumpAnimFrame w' = jumpAnimFrame w ->
  listening w' = listening w ->
  isJumping (state w') = isJumping (state w) ->
  isReturning (state w') = isReturning (state w) ->
  Live w'.
Proof.
  intros [Hj Hs] Ef Ea Ej El E1 E2. split.
  - apply (JumpLive_ext w); auto. intros id. now rewrite Ef.
  - apply (SpringLive_ext w); auto. intros id. now rewrite Ef.
Qed.

Lemma In_snoc_other (l : list (handle * FrameCallback)) n cb cb' id :
  cb' <> cb -> (In (id, cb) (l ++ [(n, cb')]) <-> In (id, cb) l).
Proof.
  intros Hne. rewrite in_app_iff. simpl. split; [|tauto].
  intros [Hin|[Heq|[]]]; [exact Hin|congruence].
Qed.

Lemma Live_returnToCenter (w : World num) :
  Live w -> Live (returnToCenter w).
Proof.
  intros [Hj Hs]. unfold returnToCenter.
  destruct (animationFrame _) eqn:Ea; wsimpl.
  - split.
    + apply (JumpLive_ext w); try side.
    + apply (SpringLive_ext w); try side; wsimpl; auto.
  - split.
    + apply (JumpLive_ext w); try side.
      intros id. wsimpl. apply In_snoc_other. discriminate.
    + apply (SpringLive_running _ (nextHandle w)); try side.
      wsimpl. apply in_or_app. right. now left.
Qed.

(** The spring frame has fired; none is pending. *)
Lemma Live_springAnimate (w : World num) :
  JumpLive w -> isReturning (state w) = true ->
  (forall id, ~ In (id, SpringFrame) (frames w)) ->
  Live (springAnimate w).
Proof.
  intros Hj Hret Hnone. unfold springAnimate.
  assert (Hr' : isReturning (springStep (state w)) = true) by exact Hret.
  repeat match goal with
  | |- context [isReturning (springStep ?s)] =>
      progress replace (isReturning (springStep s)) with true by (symmetry; exact Hr')
  end.
  cbn [andb].
  destruct (springSettled _ _); split.
  - apply (JumpLive_ext w); try side.
  - apply SpringLive_none; [exact Hnone|left; reflexivity].
  - apply (JumpLive_ext w); try side.
    intros id. wsimpl. apply In_snoc_other. discriminate.
  - apply (SpringLive_running _ (nextHandle w)); try side.
    wsimpl. apply in_or_app. right. now left.
Qed.

Lemma isJumping_jumpEase (s : State num) : isJumping (jumpEase s) = isJumping s.
Proof. unfold jumpEase. destruct (ltb _ _); reflexivity. Qed.

Lemma isReturning_jumpEase (s : State num) : isReturning (jumpEase s) = isReturning s.
Proof. unfold jumpEase. destruct (ltb _ _); reflexivity. Qed.

(** The jump frame has fired; none is pending. *)
Lemma Live_jumpAnimate ts (w : World num) :
  SpringLive w -> isJumping (state w) = true ->
  (forall id, ~ In (id, JumpFrame) (frames w)) ->
  Live (jumpAnimate opts ts w).
Proof.
  intros Hs Hjmp Hnone. unfold jumpAnimate.
  set (s := jumpEase (jumpFall ts (state w))).
  assert (E1 : isJumping s = true).
  { unfold s. rewrite isJumping_jumpEase. exact Hjmp. }
  assert (E2 : isReturning s = isReturning (state w)).
  { unfold s. rewrite isReturning_jumpEase. reflexivity. }
  clearbody s.
  destruct (landed s).
  - destruct (showShadow opts), (screenShake opts), (returnTimeout w) eqn:Er;
      wsimpl; rewrite ?Er; wsimpl; (split;
      [ apply JumpLive_none; [exact Hnone|left; reflexivity]
      | apply (SpringLive_ext w); try side; left; exact E2 ]).
  - split.
    + apply (JumpLive_started _ (nextHandle w)); try side.
      wsimpl. apply in_or_app. right. now left.
    + apply (SpringLive_ext w); try side.
      * intros id. wsimpl. apply In_snoc_other. discriminate.
      * left. exact E2.
Qed.

Lemma Live_showTaunt picks (w : World num) :
  Live w -> Live (showTaunt opts picks w).
Proof.
  intros Hl. unfold showTaunt. destruct (ltb _ _); [|exact Hl].
  destruct (tauntTimeout w) eqn:Et; wsimpl; rewrite ?Et;
    apply (Live_ext w); try side.
Qed.

(** No frame is pending when neither loop's frame is. *)
Lemma frames_nil (l : list (handle * FrameCallback)) :
  (forall id, ~ In (id, SpringFrame) l) -> (forall id, ~ In (id, JumpFrame) l) ->
  l = [].
Proof.
  intros Hs Hj. destruct l as [|[id cb] r]; [reflexivity|exfalso].
  destruct cb; [apply (Hs id)|apply (Hj id)]; now left.
Qed.

(** What a triggered escape leaves: the return cancelled, the jump started. *)
Lemma escapeFrom_effects x y h (w : World num) (a j : option handle) :
  escapes opts x y h w = true ->
  animationFrame w = a -> jumpAnimFrame w = j ->
  isReturning (state (escapeFrom opts x y h w)) = false /\
  isJumping (state (escapeFrom opts x y h w)) = true /\
  animationFrame (escapeFrom opts x y h w) = None /\
  jumpAnimFrame (escapeFrom opts x y h w) = Some (nextHandle w) /\
  listening (escapeFrom opts x y h w) = listening w /\
  clock (escapeFrom opts x y h w) = clock w /\
  frames (escapeFrom opts x y h w)
  = match j with
    | Some j => remove_handle j
                  match a with
                  | Some a => remove_handle a (frames w)
                  | None => frames w
                  end
    | None => match a with
              | Some a => remove_handle a (frames w)
              | None => frames w
              end
    end ++ [(nextHandle w, JumpFrame)].
Proof.
  intros He Ea Ej.
  destruct w as [s wa wj wr wt q li oc ck nh tm fr ls ih ec cs ld tx tv es cc].
  cbn [animationFrame jumpAnimFrame] in Ea, Ej. subst a j.
  revert He. unfold escapes, escapeFrom. cbn [state].
  destruct (isCaught s || isJumping s); [discriminate|]. simpl.
  intros ->. cbv zeta.
  unfold showTaunt, startJump.
  destruct (ltb (random h) _), (onEscape opts);
    try destruct (ltb (ofZ 600) _); wsimpl;
    destruct wa, wj; wsimpl; repeat split; reflexivity.
Qed.

Lemma Live_escapeFrom x y h (w : World num) :
  Consistent w -> Live w ->
  Live (escapeFrom opts x y h w) /\
  (escapes opts x y h w = true ->
   frames (escapeFrom opts x y h w) = [(nextHandle w, JumpFrame)]).
Proof.
  intros Hc Hl.
  destruct (escapes opts x y h w) eqn:He.
  - destruct (escapeFrom_effects x y h w _ _ He eq_refl eq_refl)
      as (E1 & E2 & E3 & E4 & E5 & E6 & E7).
    assert (Hnj : isJumping (state w) = false).
    { unfold escapes in He. destruct (isCaught _), (isJumping _); simpl in He;
        congruence. }
    assert (Hnil : match jumpAnimFrame w with
                   | Some j => remove_handle j
                                 match animationFrame w with
                                 | Some a => remove_handle a (frames w)
                                 | None => frames w
                                 end
                   | None => match animationFrame w with
                             | Some a => remove_handle a (frames w)
                             | None => frames w
                             end
                   end = []).
    { assert (Hsub : forall e,
                In e match animationFrame w with
                     | Some a => remove_handle a (frames w)
                     | None => frames w
                     end -> In e (frames w) /\ snd e <> SpringFrame).
      { intros [id cb] He'. destruct (animationFrame w) as [a|] eqn:Ea.
        - apply In_remove_handle in He' as [Hin Hne]. split; [exact Hin|].
          simpl in *. intros ->. apply (spring_tracked Hc) in Hin. congruence.
        - split; [exact He'|]. simpl. intros ->.
          apply (spring_tracked Hc) in He'. congruence. }
      apply frames_nil; intros id Hin.
      - destruct (jumpAnimFrame w); [apply In_remove_handle in Hin as [Hin _]|];
          apply Hsub in Hin as [_ Hne]; now apply Hne.
      - destruct (jumpAnimFrame w); [apply In_remove_handle in Hin as [Hin _]|];
          apply Hsub in Hin as [Hin _];
          apply (proj2 (proj1 Hl)) in Hin; congruence. }
    rewrite Hnil in E7. simpl in E7.
    split; [|intros _; exact E7]. split.
    + apply (JumpLive_started _ (nextHandle w)); auto. rewrite E7. now left.
    + apply SpringLive_none; [|left; exact E3].
      intros id Hin. rewrite E7 in Hin. destruct Hin as [Heq|[]]. discriminate.
  - rewrite (escapeFrom_idle opts x y h w He). split; [exact Hl|discriminate].
Qed.

Lemma Live_handleMouseMove x y h (w : World num) :
  Consistent w -> Live w -> Live (handleMouseMove opts x y h w).
Proof.
  intros Hc Hl. unfold handleMouseMove.
  destruct (Live_escapeFrom x y h w Hc Hl) as [H1 _].
  cbv zeta.
  set (w1 := escapeFrom opts x y h w) in *. clearbody w1.
  destruct (ltb _ _), (returnTimeout w1) eqn:Er; wsimpl; rewrite ?Er;
    apply (Live_ext w1); try side.
Qed.

Lemma Live_handleMouseLeave (w : World num) :
  Live w -> Live (handleMouseLeave w).
Proof.
  intros Hl. unfold handleMouseLeave.
  destruct (returnTimeout w) eqn:Er; wsimpl; rewrite ?Er;
    apply (Live_ext w); try side.
Qed.

Lemma listening_handleClick (w : World num) :
  listening (handleClick opts w) = listening w.
Proof.
  unfold handleClick. destruct (isCaught (state w)); [reflexivity|].
  destruct (onCatch opts); reflexivity.
Qed.

Lemma Live_handleClick (w : World num) :
  Consistent w -> Live w -> Live (handleClick opts w).
Proof.
  intros Hc Hl.
  destruct (isCaught (state w)) eqn:Ecaught.
  - now rewrite (handleClick_caught opts w Ecaught).
  - destruct (handleClick_catches opts content w Hc Ecaught)
      as (_ & _ & _ & Hf & Ha & Hj & Hjmp & _).
    split.
    + apply JumpLive_none; [|left; exact Hjmp].
      intros id. rewrite Hf. intros [].
    + apply SpringLive_none; [|left; exact Ha].
      intros id. rewrite Hf. intros [].
Qed.

Lemma cancelled_nil (l : list (handle * FrameCallback)) (a j : option handle) :
  (forall id, In (id, SpringFrame) l -> a = Some id) ->
  (forall id, In (id, JumpFrame) l -> j = Some id) ->
  match j with
  | Some j => remove_handle j match a with
                              | Some a => remove_handle a l
                              | None => l
                              end
  | None => match a with
            | Some a => remove_handle a l
            | None => l
            end
  end = [].
Proof.
  intros Hs Hj.
  assert (Hsub : forall id cb,
            In (id, cb) match a with
                        | Some a => remove_handle a l
                        | None => l
                        end -> In (id, cb) l /\ a <> Some id).
  { intros id cb Hin. destruct a as [a|].
    - apply In_remove_handle in Hin as [Hin Hne]. split; [exact Hin|].
      simpl in Hne. congruence.
    - split; [exact Hin|discriminate]. }
  apply frames_nil; intros id Hin.
  - destruct j; [apply In_remove_handle in Hin as [Hin _]|];
      apply Hsub in Hin as [Hin Hne]; apply Hne; now apply Hs.
  - destruct j as [j|].
    + apply In_remove_handle in Hin as [Hin Hne]. apply Hsub in Hin as [Hin _].
      apply Hj in Hin. simpl in Hne. congruence.
    + apply Hsub in Hin as [Hin _]. apply Hj in Hin. discriminate.
Qed.

(** The teardown leaves no frame pending. *)
Lemma frames_destroy (w : World num) :
  Consistent w -> frames (destroy w) = [].
Proof.
  intros Hc.
  exact (cancelled_nil (frames w) (animationFrame w) (jumpAnimFrame w)
           (spring_tracked Hc) (jump_tracked Hc)).
Qed.

Lemma Live_destroy (w : World num) :
  Consistent w -> Live (destroy w).
Proof.
  intros Hc. pose proof (frames_destroy w Hc) as Hf.
  split.
  - apply JumpLive_none; [|right; reflexivity]. intros id. rewrite Hf. intros [].
  - apply SpringLive_none; [|right; reflexivity]. intros id. rewrite Hf. intros [].
Qed.

Lemma Live_makeEvasive t0 picks : Live (makeEvasive opts content t0 picks).
Proof.
  split.
  - apply JumpLive_none; [intros id []|left; reflexivity].
  - apply SpringLive_none; [intros id []|left; reflexivity].
Qed.

Lemma In_remove_other (l : list (handle * FrameCallback)) id cb cb' k :
  NoDup (map fst l) -> In (id, cb) l -> cb' <> cb ->
  (In (k, cb') (remove_handle id l) <-> In (k, cb') l).
Proof.
  intros Hnd Hin Hne. rewrite In_remove_handle. simpl. split; [tauto|].
  intros Hk. split; [exact Hk|]. intros ->.
  apply Hne. 
  pose proof (lookup_handle_distinct _ id l cb Hnd Hin) as L1.
  pose proof (lookup_handle_distinct _ id l cb' Hnd Hk) as L2.
  congruence.
Qed.

Lemma Live_dispatch t e (w w' : World num) :
  dispatch opts t e w = Some w' ->
  Consistent w -> Tracked w -> Live w -> Live w'.
Proof.
  unfold dispatch. destruct (Z.ltb _ _); [discriminate|]. cbv zeta.
  intros Hd Hc Ht Hl.
  assert (Hc0 : Consistent (set_clock t w)) by (apply (Keeps_ext opts content w); try side).
  assert (Ht0 : Tracked (set_clock t w)) by (apply (Tracked_ext w); try side).
  assert (Hl0 : Live (set_clock t w)) by (apply (Live_ext w); try side).
  set (w0 := set_clock t w) in *. clearbody w0.
  destruct e as [x y h| | |id ts|id|].
  - injection Hd as <-. destruct (listening _); auto; now apply Live_handleMouseMove.
  - injection Hd as <-. destruct (listening _); auto; now apply Live_handleMouseLeave.
  - injection Hd as <-. destruct (listening _); auto; now apply Live_handleClick.
  - destruct (lookup_handle _ _) as [cb|] eqn:El; [|discriminate].
    injection Hd as <-.
    destruct (frame_fired opts content w0 id cb El Hc0) as [_ Hnone].
    apply lookup_handle_In in El.
    destruct Hl0 as [Hj Hs].
    destruct cb; simpl.
    + apply Live_springAnimate.
      * apply (JumpLive_ext w0); try side. intros k. wsimpl.
        apply (In_remove_other _ id SpringFrame); auto.
        exact (frames_distinct Ht0). discriminate.
      * wsimpl. exact (proj2 Hs id El).
      * exact Hnone.
    + apply Live_jumpAnimate.
      * apply (SpringLive_ext w0); try side. intros k. wsimpl.
        apply (In_remove_other _ id JumpFrame); auto.
        exact (frames_distinct Ht0). discriminate.
      * wsimpl. exact (proj2 Hj id El).
      * exact Hnone.
  - destruct (lookup_handle _ _) as [[due cb]|]; [|discriminate].
    destruct (Z.leb _ _); [|discriminate]. injection Hd as <-.
    assert (H1 : Live (set_timers (remove_handle id (timers w0)) w0))
      by (apply (Live_ext w0); try side).
    destruct cb; simpl; auto;
      solve [ apply (Live_ext _ _ H1); try side
            | now apply Live_returnToCenter ].
  - injection Hd as <-. now apply Live_destroy.
Qed.

Lemma Live_run trace (w w' : World num) :
  run opts trace w = Some w' ->
  Consistent w -> Tracked w -> Live w -> Live w'.
Proof.
  revert w. induction trace as [|[t e] rest IH]; simpl; intros w Hr Hc Ht Hl.
  - now injection Hr as <-.
  - destruct (dispatch opts t e w) as [w1|] eqn:Ed; [|discriminate].
    apply (IH w1 Hr).
    + eapply Consistent_dispatch; eauto.
    + eapply Tracked_dispatch; eauto.
    + eapply Live_dispatch; eauto.
Qed.

Lemma Reachable_Live (w : World num) :
  Reachable opts content w -> Live w.
Proof.
  intros (t0 & picks & trace & Hr).
  eapply Live_run; [exact Hr|apply Consistent_makeEvasive|apply Tracked_makeEvasive
                   |apply Live_makeEvasive].
Qed.

End LiveSteps.

(** ** Events on reachable worlds *)

Section ReachableSteps.

Context {num : Type} `{Number num}.
Variable opts : Options num.
Variable content : string.

Lemma run_snoc trace t e (w : World num) :
  run opts (trace ++ [(t, e)]) w
  = match run opts trace w with
    | Some w1 => dispatch opts t e w1
    | None => None
    end.
Proof.
  revert w. induction trace as [|[t1 e1] rest IH]; intros w; simpl.
  - destruct (dispatch opts t e w); reflexivity.
  - destruct (dispatch opts t1 e1 w); [apply IH|reflexivity].
Qed.

Lemma Reachable_step t e (w w' : World num) :
  Reachable opts content w -> dispatch opts t e w = Some w' ->
  Reachable opts content w'.
Proof.
  intros (t0 & picks & trace & Hr) Hd.
  exists t0, picks, (trace ++ [(t, e)]). rewrite run_snoc, Hr. exact Hd.
Qed.

Lemma Reachable_worldAfter t0 picks trace (w : World num) :
  run opts trace (makeEvasive opts content t0 picks) = Some w ->
  Reachable opts content (worldAfter opts trace (makeEvasive opts content t0 picks)).
Proof.
  intros Hr. exists t0, picks, trace. unfold worldAfter. now rewrite Hr.
Qed.

(** The pending timer of a stored kind is the stored one. *)
Lemma pending_return_is (w : World num) k due :
  Consistent opts content w -> Tracked w ->
  In (k, (due, ReturnTimer)) (timers w) ->
  returnTimeout w = Some k /\ pending ReturnTimer w = [(k, due)].
Proof.
  intros Hc Ht Hin.
  pose proof (return_tracked Ht _ _ Hin) as Hk. split; [exact Hk|].
  destruct (pending_stored ReturnTimer (returnTimeout w) w
              (timers_distinct Hc) (return_tracked Ht))
    as [Hnil|(id & d & Hid & Hone)].
  - apply pending_In in Hin. rewrite Hnil in Hin. destruct Hin.
  - apply pending_In in Hin. rewrite Hone in Hin.
    destruct Hin as [Heq|[]]. now rewrite Hone, Heq.
Qed.

Lemma pending_spring_is (w : World num) k :
  Consistent opts content w -> Tracked w ->
  In (k, SpringFrame) (frames w) ->
  animationFrame w = Some k /\ pendingFrames SpringFrame w = [k].
Proof.
  intros Hc Ht Hin.
  pose proof (spring_tracked Hc _ Hin) as Hk. split; [exact Hk|].
  destruct (pendingFrames_stored SpringFrame (animationFrame w) w
              (frames_distinct Ht) (spring_tracked Hc))
    as [Hnil|(id & Hid & Hone)].
  - apply pendingFrames_In in Hin. rewrite Hnil in Hin. destruct Hin.
  - apply pendingFrames_In in Hin. rewrite Hone in Hin.
    destruct Hin as [Heq|[]]. now rewrite Hone, Heq.
Qed.

Lemma pending_jump_is (w : World num) k :
  Consistent opts content w -> Tracked w ->
  In (k, JumpFrame) (frames w) ->
  jumpAnimFrame w = Some k /\ pendingFrames JumpFrame w = [k].
Proof.
  intros Hc Ht Hin.
  pose proof (jump_tracked Hc _ Hin) as Hk. split; [exact Hk|].
  destruct (pendingFrames_stored JumpFrame (jumpAnimFrame w) w
              (frames_distinct Ht) (jump_tracked Hc))
    as [Hnil|(id & Hid & Hone)].
  - apply pendingFrames_In in Hin. rewrite Hnil in Hin. destruct Hin.
  - apply pendingFrames_In in Hin. rewrite Hone in Hin.
    destruct Hin as [Heq|[]]. now rewrite Hone, Heq.
Qed.

Lemma dispatch_listening t e (w : World num) :
  (clock w <= t)%Z ->
  dispatch opts t e w
  = match e with
    | MouseMove x y h =>
        Some (if listening w then handleMouseMove opts x y h (set_clock t w)
              else set_clock t w)
    | MouseLeave =>
        Some (if listening w then handleMouseLeave (set_clock t w) else set_clock t w)
    | Click =>
        Some (if listening w then handleClick opts (set_clock t w) else set_clock t w)
    | AnimationFrame id ts =>
        match lookup_handle id (frames w) with
        | Some cb => Some (runFrame opts cb ts
                             (set_frames (remove_handle id (frames w)) (set_clock t w)))
        | None => None
        end
    | Timeout id =>
        match lookup_handle id (timers w) with
        | Some (due, cb) =>
            if (due <=? t)%Z
            then Some (runTimer cb (set_timers (remove_handle id (timers w))
                                      (set_clock t w)))
            else None
        | None => None
        end
    | Destroy => Some (destroy (set_clock t w))
    end.
Proof.
  intros Ht. unfold dispatch. destruct (Z.ltb_spec t (clock w)); [lia|].
  destruct e; reflexivity.
Qed.

End ReachableSteps.

Section EventFacts.

Context {num : Type} `{Number num}.
Variable opts : Options num.
Variable content : string.

Lemma clock_escapeFrom x y h (w : World num) :
  clock (escapeFrom opts x y h w) = clock w.
Proof.
  destruct (escapes opts x y h w) eqn:He.
  - now destruct (escapeFrom_effects opts x y h w _ _ He eq_refl eq_refl)
      as (_ & _ & _ & _ & _ & E & _).
  - now rewrite (escapeFrom_idle opts x y h w He).
Qed.

(** After [escapeFrom] the handler touches the return timer only. *)
Lemma handleMouseMove_rest x y h (w : World num) :
  state (handleMouseMove opts x y h w) = state (escapeFrom opts x y h w) /\
  frames (handleMouseMove opts x y h w) = frames (escapeFrom opts x y h w) /\
  animationFrame (handleMouseMove opts x y h w)
  = animationFrame (escapeFrom opts x y h w) /\
  jumpAnimFrame (handleMouseMove opts x y h w)
  = jumpAnimFrame (escapeFrom opts x y h w) /\
  escapeCalls (handleMouseMove opts x y h w) = escapeCalls (escapeFrom opts x y h w).
Proof.
  unfold handleMouseMove. cbv zeta.
  set (w1 := escapeFrom opts x y h w). clearbody w1.
  destruct (ltb _ _); wsimpl; repeat split.
Qed.

Lemma handleMouseMove_return x y h (w : World num) :
  Tracked w ->
  if farAway opts x y h
  then exists k,
         returnTimeout (handleMouseMove opts x y h w) = Some k /\
         In (k, ((clock w + 400)%Z, ReturnTimer))
            (timers (handleMouseMove opts x y h w))
  else forall id d,
         ~ In (id, (d, ReturnTimer)) (timers (handleMouseMove opts x y h w)).
Proof.
  intros Ht. unfold handleMouseMove, farAway. cbv zeta.
  pose proof (Tracked_escapeFrom opts x y h w Ht) as H1.
  pose proof (clock_escapeFrom x y h w) as Hclk.
  set (w1 := escapeFrom opts x y h w) in *. clearbody w1.
  destruct (ltb _ _).
  - exists (nextHandle w1). wsimpl. split; [reflexivity|].
    apply in_or_app. right. left.
    exact (f_equal (fun c => (nextHandle w1, ((c + 400)%Z, ReturnTimer))) Hclk).
  - exact (cleared_return w1 H1).
Qed.

Lemma jumpTarget_jumpEase (s : State num) :
  jumpTargetX (jumpEase s) = jumpTargetX s /\ jumpTargetY (jumpEase s) = jumpTargetY s.
Proof. unfold jumpEase. destruct (ltb _ _); split; reflexivity. Qed.

(** What the frame of a jump leaves, apart from the timers of a landing. *)
Lemma jumpAnimate_effects ts (w : World num) :
  let s := jumpEase (jumpFall ts (state w)) in
  if landed s then
    isJumping (state (jumpAnimate opts ts w)) = false /\
    jumpAnimFrame (jumpAnimate opts ts w) = None /\
    frames (jumpAnimate opts ts w) = frames w /\
    currentX (state (jumpAnimate opts ts w)) = jumpTargetX (state w) /\
    currentY (state (jumpAnimate opts ts w)) = jumpTargetY (state w) /\
    targetX (state (jumpAnimate opts ts w)) = jumpTargetX (state w) /\
    targetY (state (jumpAnimate opts ts w)) = jumpTargetY (state w) /\
    z (state (jumpAnimate opts ts w)) = ofZ 0 /\
    zVelocity (state (jumpAnimate opts ts w)) = ofZ 0 /\
    exists k, returnTimeout (jumpAnimate opts ts w) = Some k /\
              In (k, ((clock w + 450)%Z, ReturnTimer)) (timers (jumpAnimate opts ts w))
  else
    state (jumpAnimate opts ts w) = s /\
    jumpAnimFrame (jumpAnimate opts ts w) = Some (nextHandle w) /\
    frames (jumpAnimate opts ts w) = frames w ++ [(nextHandle w, JumpFrame)] /\
    timers (jumpAnimate opts ts w) = timers w.
Proof.
  cbv zeta. unfold jumpAnimate.
  destruct (jumpTarget_jumpEase (jumpFall ts (state w))) as [Hx Hy].
  change (jumpTargetX (jumpFall ts (state w))) with (jumpTargetX (state w)) in Hx.
  change (jumpTargetY (jumpFall ts (state w))) with (jumpTargetY (state w)) in Hy.
  set (s := jumpEase (jumpFall ts (state w))) in *. clearbody s.
  destruct (landed s).
  - destruct (showShadow opts), (screenShake opts); wsimpl;
      (repeat (split; [first [reflexivity | exact Hx | exact Hy]|]));
      eexists; (split; [reflexivity|]);
      apply in_or_app; right; left; reflexivity.
  - wsimpl. repeat split.
Qed.

(** The state a triggered escape leaves: the jump set up from the current
    position, the spring's velocity untouched. *)
Lemma escapeFrom_state x y h (w : World num) :
  escapes opts x y h w = true ->
  z (state (escapeFrom opts x y h w)) = ofZ 0 /\
  zVelocity (state (escapeFrom opts x y h w)) = JUMP_VELOCITY /\
  lastJumpTime (state (escapeFrom opts x y h w)) = ofZ 0 /\
  currentX (state (escapeFrom opts x y h w)) = currentX (state w) /\
  currentY (state (escapeFrom opts x y h w)) = currentY (state w) /\
  jumpStartX (state (escapeFrom opts x y h w)) = currentX (state w) /\
  jumpStartY (state (escapeFrom opts x y h w)) = currentY (state w) /\
  velocityX (state (escapeFrom opts x y h w)) = velocityX (state w) /\
  velocityY (state (escapeFrom opts x y h w)) = velocityY (state w) /\
  isCaught (state (escapeFrom opts x y h w)) = false.
Proof.
  intros He.
  destruct w as [s wa wj wr wt q li oc ck nh tm fr ls ih ec cs ld tx tv es cc].
  revert He. unfold escapes, escapeFrom. cbn [state].
  destruct (isCaught s) eqn:Ec; [discriminate|].
  destruct (isJumping s); [discriminate|]. simpl.
  intros ->. cbv zeta.
  unfold showTaunt, startJump.
  destruct (ltb (random h) _), (onEscape opts);
    try destruct (ltb (ofZ 600) _); wsimpl;
    repeat (split; [reflexivity|]); exact Ec.
Qed.

Lemma returnToCenter_effects (w : World num) :
  listening (returnToCenter w) = listening w /\
  isReturning (state (returnToCenter w)) = true /\
  targetX (state (returnToCenter w)) = ofZ 0 /\
  targetY (state (returnToCenter w)) = ofZ 0 /\
  currentX (state (returnToCenter w)) = currentX (state w) /\
  currentY (state (returnToCenter w)) = currentY (state w) /\
  exists k, animationFrame (returnToCenter w) = Some k.
Proof.
  unfold returnToCenter. destruct (animationFrame _) as [a|] eqn:Ea; wsimpl.
  - repeat (split; [reflexivity|]). exists a. exact Ea.
  - repeat (split; [reflexivity|]). eexists; reflexivity.
Qed.

Lemma destroy_effects (w : World num) :
  Consistent opts content w -> Tracked w ->
  listening (destroy w) = false /\
  frames (destroy w) = [] /\
  pending ReturnTimer (destroy w) = [] /\
  pending HideTaunt (destroy w) = [] /\
  innerHTML (destroy w) = content /\
  evasiveCaught (destroy w) = false /\
  state (destroy w) = state w /\
  (forall e, In e (timers (destroy w)) -> In e (timers w)).
Proof.
  intros Hc Ht.
  split; [reflexivity|]. split; [exact (frames_destroy opts content w Hc)|].
  assert (Hsub : forall e, In e (timers (destroy w)) ->
            In e (timers w) /\ returnTimeout w <> Some (fst e) /\
            tauntTimeout w <> Some (fst e)).
  { intros e He.
    change (In e match tauntTimeout w with
                 | Some id => remove_handle id
                                match returnTimeout w with
                                | Some r => remove_handle r (timers w)
                                | None => timers w
                                end
                 | None => match returnTimeout w with
                           | Some r => remove_handle r (timers w)
                           | None => timers w
                           end
                 end) in He.
    destruct (tauntTimeout w) as [c|], (returnTimeout w) as [r|];
      in_cases He; repeat split; auto; try discriminate; congruence. }
  split; [|split; [|split; [|split; [|split]]]].
  - apply pending_none. intros id d Hin. apply Hsub in Hin as (Hin & Hr & _).
    apply Hr. exact (return_tracked Ht _ _ Hin).
  - apply pending_none. intros id d Hin. apply Hsub in Hin as (Hin & _ & Hc').
    apply Hc'. exact (taunt_tracked Ht _ _ Hin).
  - exact (original_kept Hc).
  - reflexivity.
  - reflexivity.
  - intros e He. now apply Hsub in He.
Qed.

End EventFacts.


(** ** Extra properties of the event handlers *)

Lemma midAir_reachable : Reachable floatDefaults "Click me" midAir.
Proof.
  apply (Reachable_worldAfter floatDefaults "Click me" attachTime picksIdentity
           leaveDuringJump midAir).
  vm_compute. reflexivity.
Qed.

Lemma afterLeave_reachable : Reachable floatDefaults "Click me" afterLeave.
Proof.
  apply (Reachable_worldAfter floatDefaults "Click me" attachTime picksIdentity
           [((attachTime + 10)%Z, MouseLeave)] afterLeave).
  vm_compute. reflexivity.
Qed.

Lemma attached_reachable : Reachable floatDefaults "Click me" attached.
Proof. exists attachTime, picksIdentity, []. reflexivity. Qed.

Lemma stored_timers_are_unique_witness :
  Reachable floatDefaults "Click me" afterLeave /\
  exists id due, returnTimeout afterLeave = Some id /\
                 pending ReturnTimer afterLeave = [(id, due)].
Proof.
  split; [exact afterLeave_reachable|].
  destruct (proj1 (stored_timers_are_unique float FloatNumber floatDefaults
                     "Click me" afterLeave afterLeave_reachable))
    as [Hnil|Hone]; [|exact Hone].
  vm_compute in Hnil. discriminate Hnil.
Defined.

Lemma animation_loops_never_double_witness :
  Reachable floatDefaults "Click me" midAir /\ length (frames midAir) <= 2.
Proof.
  split; [exact midAir_reachable|].
  exact (proj2 (proj2 (animation_loops_never_double float FloatNumber floatDefaults
                         "Click me" midAir midAir_reachable))).
Defined.

(** In every world the host can reach, a pending jump frame belongs to a
    jump in progress and a pending spring frame to a return in progress;
    and while the listeners are registered, a jump in progress has its one
    frame pending under the stored handle, and a stored spring handle names
    the one pending spring frame.  So the button is never left with
    [isJumping] set and no frame to end the jump. *)
Theorem flags_follow_frames :
  forall (num : Type) (NumOps : Number num) (opts : Options num)
         (content : string) (w : World num),
    Reachable opts content w ->
    (forall id, In id (pendingFrames JumpFrame w) -> isJumping (state w) = true) /\
    (forall id, In id (pendingFrames SpringFrame w) -> isReturning (state w) = true) /\
    (listening w = true -> isJumping (state w) = true ->
     exists id, jumpAnimFrame w = Some id /\ pendingFrames JumpFrame w = [id]) /\
    (listening w = true -> forall id, animationFrame w = Some id ->
     pendingFrames SpringFrame w = [id]).
Proof.
  intros num NumOps opts content w Hr.
  pose proof (Reachable_Consistent opts content w Hr) as Hc.
  pose proof (Reachable_Tracked opts content w Hr) as Ht.
  destruct (Reachable_Live opts content w Hr) as [[Hjl Hjf] [Hsl Hsf]].
  split; [|split; [|split]].
  - intros id Hin. apply pendingFrames_In in Hin. exact (Hjf id Hin).
  - intros id Hin. apply pendingFrames_In in Hin. exact (Hsf id Hin).
  - intros Hlis Hjmp. destruct (Hjl Hlis Hjmp) as (id & Ej & Hin).
    exists id. split; [exact Ej|].
    exact (proj2 (pending_jump_is opts content w id Hc Ht Hin)).
  - intros Hlis id Ea.
    exact (proj2 (pending_spring_is opts content w id Hc Ht (Hsl Hlis id Ea))).
Qed.

Lemma flags_follow_frames_witness :
  Reachable floatDefaults "Click me" midAir /\
  listening midAir = true /\ isJumping (state midAir) = true /\
  exists id, jumpAnimFrame midAir = Some id /\ pendingFrames JumpFrame midAir = [id].
Proof.
  split; [exact midAir_reachable|].
  split; [vm_compute; reflexivity|]. split; [vm_compute; reflexivity|].
  apply (proj1 (proj2 (proj2 (flags_follow_frames float FloatNumber floatDefaults
                                "Click me" midAir midAir_reachable))));
    vm_compute; reflexivity.
Defined.

(** When a return timer (armed by a mousemove, a mouseleave or a landing) or
    the 600ms timer of a click fires while the listeners are registered,
    [returnToCenter] leaves the target at (0, 0), [isReturning] set, and
    exactly one spring frame pending under the stored handle: the return is
    never lost and the spring loop never doubled. *)
Theorem return_timer_starts_one_spring :
  forall (num : Type) (NumOps : Number num) (opts : Options num)
         (content : string) (w : World num) (t : Z) (id : handle) (due : Z)
         (cb : TimerCallback),
    Reachable opts content w -> listening w = true ->
    In (id, (due, cb)) (timers w) -> cb = ReturnTimer \/ cb = CaughtReturn ->
    (clock w <= t)%Z -> (due <= t)%Z ->
    exists w', dispatch opts t (Timeout id) w = Some w' /\
      isReturning (state w') = true /\
      targetX (state w') = ofZ 0 /\ targetY (state w') = ofZ 0 /\
      currentX (state w') = currentX (state w) /\
      currentY (state w') = currentY (state w) /\
      exists k, animationFrame w' = Some k /\ pendingFrames SpringFrame w' = [k].
Proof.
  intros num NumOps opts content w t id due cb Hr Hlis Hin Hcb Hclk Hdue.
  pose proof (Reachable_Consistent opts content w Hr) as Hc.
  pose proof (lookup_handle_distinct _ id (timers w) (due, cb)
                (timers_distinct Hc) Hin) as Hl.
  assert (Hd : dispatch opts t (Timeout id) w
               = Some (returnToCenter (set_timers (remove_handle id (timers w))
                                         (set_clock t w)))).
  { rewrite (dispatch_listening opts t (Timeout id) w Hclk), Hl.
    destruct (Z.leb_spec due t); [|lia].
    destruct Hcb as [->| ->]; reflexivity. }
  eexists. split; [exact Hd|].
  pose proof (Reachable_step opts content t _ w _ Hr Hd) as Hr'.
  pose proof (Reachable_Consistent opts content _ Hr') as Hc'.
  pose proof (Reachable_Tracked opts content _ Hr') as Ht'.
  destruct (Reachable_Live opts content _ Hr') as [_ [Hsl _]].
  set (w1 := set_timers (remove_handle id (timers w)) (set_clock t w)) in *.
  destruct (returnToCenter_effects w1) as (Hl1 & S1 & S2 & S3 & S4 & S5 & [k Hk]).
  assert (Hl1' : listening (returnToCenter w1) = true) by (rewrite Hl1; exact Hlis).
  repeat (split; [assumption|]).
  exists k. split; [exact Hk|].
  exact (proj2 (pending_spring_is opts content _ k Hc' Ht' (Hsl Hl1' k Hk))).
Qed.

Lemma return_timer_starts_one_spring_witness :
  exists w', dispatch floatDefaults (attachTime + 300)%Z (Timeout 1) afterLeave
             = Some w' /\
             isReturning (state w') = true /\
             exists k, animationFrame w' = Some k /\
                       pendingFrames SpringFrame w' = [k].
Proof.
  destruct (return_timer_starts_one_spring float FloatNumber floatDefaults
              "Click me" afterLeave (attachTime + 300)%Z 1 (attachTime + 210)%Z
              ReturnTimer afterLeave_reachable)
    as (w' & Hd & Hret & _ & _ & _ & _ & Hk).
  - vm_compute; reflexivity.
  - vm_compute. left. reflexivity.
  - left; reflexivity.
  - vm_compute. discriminate.
  - vm_compute. discriminate.
  - exists w'. split; [exact Hd|]. split; [exact Hret|exact Hk].
Defined.

(** A mouseleave in a reachable world with the listeners registered leaves
    exactly one return timer pending, due 200ms later and stored in
    [returnTimeout]; the state and the pending frames are untouched. *)
Theorem mouseleave_arms_one_return :
  forall (num : Type) (NumOps : Number num) (opts : Options num)
         (content : string) (w : World num) (t : Z),
    Reachable opts content w -> listening w = true -> (clock w <= t)%Z ->
    exists w', dispatch opts t MouseLeave w = Some w' /\
      returnTimeout w' = Some (nextHandle w) /\
      pending ReturnTimer w' = [(nextHandle w, (t + 200)%Z)] /\
      state w' = state w /\ frames w' = frames w.
Proof.
  intros num NumOps opts content w t Hr Hlis Hclk.
  assert (Hd : dispatch opts t MouseLeave w = Some (handleMouseLeave (set_clock t w))).
  { rewrite (dispatch_listening opts t MouseLeave w Hclk), Hlis. reflexivity. }
  eexists. split; [exact Hd|].
  pose proof (Reachable_step opts content t _ w _ Hr Hd) as Hr'.
  pose proof (Reachable_Consistent opts content _ Hr') as Hc'.
  pose proof (Reachable_Tracked opts content _ Hr') as Ht'.
  assert (Hin : In (nextHandle w, ((t + 200)%Z, ReturnTimer))
                   (timers (handleMouseLeave (set_clock t w)))).
  { unfold handleMouseLeave. wsimpl. apply in_or_app. right. left. reflexivity. }
  destruct (pending_return_is opts content _ _ _ Hc' Ht' Hin) as [E1 E2].
  split; [exact E1|]. split; [exact E2|].
  unfold handleMouseLeave. wsimpl. split; reflexivity.
Qed.

Lemma mouseleave_arms_one_return_witness :
  exists w', dispatch floatDefaults (attachTime + 10)%Z MouseLeave attached = Some w' /\
             pending ReturnTimer w' = [(1, (attachTime + 210)%Z)].
Proof.
  destruct (mouseleave_arms_one_return float FloatNumber floatDefaults "Click me"
              attached (attachTime + 10)%Z attached_reachable)
    as (w' & Hd & _ & Hp & _).
  - reflexivity.
  - vm_compute. discriminate.
  - exists w'. split; [exact Hd|exact Hp].
Defined.

(** After a mousemove in a reachable world with the listeners registered:
    when the pointer is farther than 2.5 times [detectionRadius] from the
    centre, exactly one return timer is pending, due 400ms later and stored;
    otherwise no return timer is pending at all, so the button does not
    start back while the pointer keeps moving nearby. *)
Theorem mousemove_rearms_or_cancels_return :
  forall (num : Type) (NumOps : Number num) (opts : Options num)
         (content : string) (w : World num) (t : Z) (x y : num) (h : Host num),
    Reachable opts content w -> listening w = true -> (clock w <= t)%Z ->
    exists w', dispatch opts t (MouseMove x y h) w = Some w' /\
      if farAway opts x y h
      then exists k, returnTimeout w' = Some k /\
                     pending ReturnTimer w' = [(k, (t + 400)%Z)]
      else pending ReturnTimer w' = [].
Proof.
  intros num NumOps opts content w t x y h Hr Hlis Hclk.
  assert (Hd : dispatch opts t (MouseMove x y h) w
               = Some (handleMouseMove opts x y h (set_clock t w))).
  { rewrite (dispatch_listening opts t (MouseMove x y h) w Hclk), Hlis. reflexivity. }
  eexists. split; [exact Hd|].
  pose proof (Reachable_step opts content t _ w _ Hr Hd) as Hr'.
  pose proof (Reachable_Consistent opts content _ Hr') as Hc'.
  pose proof (Reachable_Tracked opts content _ Hr') as Ht'.
  assert (Ht0 : Tracked (set_clock t w)).
  { apply (Tracked_ext w); try side. exact (Reachable_Tracked opts content w Hr). }
  pose proof (handleMouseMove_return opts x y h (set_clock t w) Ht0) as Hm.
  destruct (farAway opts x y h).
  - destruct Hm as (k & Ek & Hin). exists k.
    exact (pending_return_is opts content _ _ _ Hc' Ht' Hin).
  - apply pending_none. exact Hm.
Qed.

Lemma mousemove_rearms_or_cancels_return_witness :
  exists w' k, dispatch floatDefaults (attachTime + 20)%Z
                 (MouseMove 1000%float 600%float hostExample) afterLeave = Some w' /\
               pending ReturnTimer w' = [(k, (attachTime + 420)%Z)].
Proof.
  destruct (mousemove_rearms_or_cancels_return float FloatNumber floatDefaults
              "Click me" afterLeave (attachTime + 20)%Z 1000%float 600%float
              hostExample afterLeave_reachable)
    as (w' & Hd & Hp).
  - vm_compute; reflexivity.
  - vm_compute. discriminate.
  - assert (Hfar : farAway floatDefaults 1000%float 600%float hostExample = true)
      by (vm_compute; reflexivity).
    rewrite Hfar in Hp. destruct Hp as (k & Ek & Hp).
    exists w', k. split; [exact Hd|exact Hp].
Defined.

(** A mousemove that triggers an escape, in a reachable world with the
    listeners registered, cancels the return and starts the jump:
    [isReturning] is cleared, no spring frame is left, the one pending
    frame is the jump's; the jump starts from the current position with
    [z = 0] and the upward velocity [JUMP_VELOCITY].  The velocity of the
    spring is left as it was. *)
Theorem escape_cancels_return_and_starts_jump :
  forall (num : Type) (NumOps : Number num) (opts : Options num)
         (content : string) (w : World num) (t : Z) (x y : num) (h : Host num),
    Reachable opts content w -> listening w = true -> (clock w <= t)%Z ->
    escapes opts x y h w = true ->
    exists w', dispatch opts t (MouseMove x y h) w = Some w' /\
      isJumping (state w') = true /\ isReturning (state w') = false /\
      animationFrame w' = None /\ jumpAnimFrame w' = Some (nextHandle w) /\
      frames w' = [(nextHandle w, JumpFrame)] /\
      z (state w') = ofZ 0 /\ zVelocity (state w') = JUMP_VELOCITY /\
      currentX (state w') = currentX (state w) /\
      currentY (state w') = currentY (state w) /\
      jumpStartX (state w') = currentX (state w) /\
      jumpStartY (state w') = currentY (state w) /\
      velocityX (state w') = velocityX (state w) /\
      velocityY (state w') = velocityY (state w).
Proof.
  intros num NumOps opts content w t x y h Hr Hlis Hclk He.
  assert (Hd : dispatch opts t (MouseMove x y h) w
               = Some (handleMouseMove opts x y h (set_clock t w))).
  { rewrite (dispatch_listening opts t (MouseMove x y h) w Hclk), Hlis. reflexivity. }
  eexists. split; [exact Hd|].
  pose proof (Reachable_Consistent opts content w Hr) as Hc.
  pose proof (Reachable_Live opts content w Hr) as Hl.
  assert (Hc0 : Consistent opts content (set_clock t w))
    by (apply (Keeps_ext opts content w); try side).
  assert (Hl0 : Live (set_clock t w)) by (apply (Live_ext w); try side).
  assert (He0 : escapes opts x y h (set_clock t w) = true) by exact He.
  destruct (handleMouseMove_rest opts x y h (set_clock t w))
    as (R1 & R2 & R3 & R4 & _).
  destruct (escapeFrom_effects opts x y h (set_clock t w) _ _ He0 eq_refl eq_refl)
    as (E1 & E2 & E3 & E4 & _).
  destruct (escapeFrom_state opts x y h (set_clock t w) He0)
    as (S1 & S2 & _ & S4 & S5 & S6 & S7 & S8 & S9 & _).
  pose proof (proj2 (Live_escapeFrom opts content x y h (set_clock t w) Hc0 Hl0) He0)
    as Hf.
  rewrite R1, R2, R3, R4.
  repeat (split; [assumption|]). assumption.
Qed.

Lemma escape_cancels_return_and_starts_jump_witness :
  exists w', dispatch floatDefaults (attachTime + 300)%Z
               (MouseMove 470%float 320%float hostExample) afterLeave = Some w' /\
             isJumping (state w') = true /\ isReturning (state w') = false /\
             frames w' = [(nextHandle afterLeave, JumpFrame)].
Proof.
  destruct (escape_cancels_return_and_starts_jump float FloatNumber floatDefaults
              "Click me" afterLeave (attachTime + 300)%Z 470%float 320%float
              hostExample afterLeave_reachable)
    as (w' & Hd & Hj & Hret & _ & _ & Hf & _).
  - vm_compute; reflexivity.
  - vm_compute. discriminate.
  - vm_compute; reflexivity.
  - exists w'. split; [exact Hd|]. split; [exact Hj|]. split; [exact Hret|exact Hf].
Defined.

(** The frame of a jump, delivered in a reachable world.  If it lands
    ([z <= 0] with the velocity downward after the update): [isJumping] is
    cleared, no jump frame is left, the position and the spring's target
    are the jump target, [z] and its velocity are 0, and exactly one return
    timer is pending, due 450ms later and stored.  Otherwise the state is
    the updated one, the timers are untouched, and exactly one jump frame
    is pending under the stored handle. *)
Theorem jump_frame_lands_or_continues :
  forall (num : Type) (NumOps : Number num) (opts : Options num)
         (content : string) (w : World num) (t : Z) (id : handle) (ts : num),
    Reachable opts content w -> In (id, JumpFrame) (frames w) -> (clock w <= t)%Z ->
    exists w', dispatch opts t (AnimationFrame id ts) w = Some w' /\
      if landed (jumpEase (jumpFall ts (state w))) then
        isJumping (state w') = false /\ jumpAnimFrame w' = None /\
        pendingFrames JumpFrame w' = [] /\
        currentX (state w') = jumpTargetX (state w) /\
        currentY (state w') = jumpTargetY (state w) /\
        targetX (state w') = jumpTargetX (state w) /\
        targetY (state w') = jumpTargetY (state w) /\
        z (state w') = ofZ 0 /\ zVelocity (state w') = ofZ 0 /\
        exists k, returnTimeout w' = Some k /\
                  pending ReturnTimer w' = [(k, (t + 450)%Z)]
      else
        state w' = jumpEase (jumpFall ts (state w)) /\
        jumpAnimFrame w' = Some (nextHandle w) /\
        pendingFrames JumpFrame w' = [nextHandle w] /\
        timers w' = timers w.
Proof.
  intros num NumOps opts content w t id ts Hr Hin Hclk.
  pose proof (Reachable_Consistent opts content w Hr) as Hc.
  pose proof (Reachable_Tracked opts content w Hr) as Ht.
  pose proof (lookup_handle_distinct _ id (frames w) JumpFrame
                (frames_distinct Ht) Hin) as Hl.
  set (w1 := set_frames (remove_handle id (frames w)) (set_clock t w)).
  assert (Hd : dispatch opts t (AnimationFrame id ts) w
               = Some (jumpAnimate opts ts w1)).
  { rewrite (dispatch_listening opts t (AnimationFrame id ts) w Hclk), Hl.
    reflexivity. }
  eexists. split; [exact Hd|].
  pose proof (Reachable_step opts content t _ w _ Hr Hd) as Hr'.
  pose proof (Reachable_Consistent opts content _ Hr') as Hc'.
  pose proof (Reachable_Tracked opts content _ Hr') as Ht'.
  destruct (frame_fired opts content w id JumpFrame Hl Hc) as [_ Hnone].
  pose proof (jumpAnimate_effects opts ts w1) as He. cbv zeta in He.
  change (state w1) with (state w) in He.
  destruct (landed (jumpEase (jumpFall ts (state w)))).
  - destruct He as (E1 & E2 & E3 & E4 & E5 & E6 & E7 & E8 & E9 & k & Ek & Hk).
    split; [exact E1|]. split; [exact E2|]. split.
    { apply pendingFrames_none. intros j. rewrite E3. apply Hnone. }
    repeat (split; [assumption|]).
    exists k. exact (pending_return_is opts content _ _ _ Hc' Ht' Hk).
  - destruct He as (E1 & E2 & E3 & E4).
    split; [exact E1|]. split; [exact E2|]. split; [|exact E4].
    apply (pending_jump_is opts content _ _ Hc' Ht').
    rewrite E3. apply in_or_app. right. left. reflexivity.
Qed.

Lemma jump_frame_lands_or_continues_witness :
  exists w', dispatch floatDefaults (attachTime + 1216)%Z
               (AnimationFrame 15 1216%float) midAir = Some w' /\
             pendingFrames JumpFrame w' = [nextHandle midAir].
Proof.
  destruct (jump_frame_lands_or_continues float FloatNumber floatDefaults
              "Click me" midAir (attachTime + 1216)%Z 15 1216%float midAir_reachable)
    as (w' & Hd & Hp).
  - vm_compute. left. reflexivity.
  - vm_compute. discriminate.
  - exists w'. split; [exact Hd|].
    assert (Hl : landed (jumpEase (jumpFall 1216%float (state midAir))) = false)
      by (vm_compute; reflexivity).
    rewrite Hl in Hp. exact (proj1 (proj2 (proj2 Hp))).
Defined.

(** The teardown, in a reachable world: the listeners are gone, no frame is
    pending, no return timer and no timer that hides the taunt is pending,
    the element has its original content and the state is untouched; the
    timers left were pending before.  From then on mouse and click events
    change nothing but the host's clock. *)
Theorem teardown_stops_the_loops :
  forall (num : Type) (NumOps : Number num) (opts : Options num)
         (content : string) (w : World num) (t : Z),
    Reachable opts content w -> (clock w <= t)%Z ->
    exists w', dispatch opts t Destroy w = Some w' /\
      listening w' = false /\ frames w' = [] /\
      pending ReturnTimer w' = [] /\ pending HideTaunt w' = [] /\
      innerHTML w' = content /\ evasiveCaught w' = false /\
      state w' = state w /\
      (forall e, In e (timers w') -> In e (timers w)) /\
      (forall t' x y h, (t <= t')%Z ->
         dispatch opts t' (MouseMove x y h) w' = Some (set_clock t' w') /\
         dispatch opts t' MouseLeave w' = Some (set_clock t' w') /\
         dispatch opts t' Click w' = Some (set_clock t' w')).
Proof.
  intros num NumOps opts content w t Hr Hclk.
  assert (Hd : dispatch opts t Destroy w = Some (destroy (set_clock t w))).
  { now rewrite (dispatch_listening opts t Destroy w Hclk). }
  eexists. split; [exact Hd|].
  assert (Hc0 : Consistent opts content (set_clock t w))
    by (apply (Keeps_ext opts content w); try side;
        exact (Reachable_Consistent opts content w Hr)).
  assert (Ht0 : Tracked (set_clock t w)).
  { apply (Tracked_ext w); try side. exact (Reachable_Tracked opts content w Hr). }
  destruct (destroy_effects opts content (set_clock t w) Hc0 Ht0)
    as (E1 & E2 & E3 & E4 & E5 & E6 & E7 & E8).
  split; [exact E1|]. split; [exact E2|]. split; [exact E3|]. split; [exact E4|].
  split; [exact E5|]. split; [exact E6|]. split; [exact E7|]. split; [exact E8|].
  intros t' x y h Ht'.
  assert (Hclk' : (clock (destroy (set_clock t w)) <= t')%Z) by exact Ht'.
  rewrite !(dispatch_listening opts t' _ _ Hclk'), E1. repeat split.
Qed.

Lemma teardown_stops_the_loops_witness :
  exists w', dispatch floatDefaults (attachTime + 1210)%Z Destroy midAir = Some w' /\
             frames w' = [] /\ pending ReturnTimer w' = [].
Proof.
  destruct (teardown_stops_the_loops float FloatNumber floatDefaults
              "Click me" midAir (attachTime + 1210)%Z midAir_reachable)
    as (w' & Hd & _ & Hf & Hp & _).
  - vm_compute. discriminate.
  - exists w'. split; [exact Hd|]. split; [exact Hf|exact Hp].
Defined.

(** ** A radius that is not positive *)

Section FloatSigns.

Lemma binary_round_aux_sign sx m e l :
  match binary_round_aux prec emax sx m e l with
  | S754_zero s | S754_infinity s | S754_finite s _ _ => s = sx
  | S754_nan => True
  end.
Proof.
  unfold binary_round_aux.
  destruct (shr_fexp prec emax m e l) as [mrs' e'].
  destruct (shr_fexp prec emax _ e' loc_Exact) as [mrs'' e''].
  destruct (shr_m mrs''); [reflexivity| |exact I].
  destruct (Z.leb _ _); reflexivity.
Qed.

(** [Math.sqrt] never returns a negative number. *)
Lemma sqrt_notNegative (v : float) : notNegative (PrimFloat.sqrt v) = true.
Proof.
  unfold notNegative. rewrite sqrt_spec. unfold SF64sqrt, SFsqrt.
  destruct (Prim2SF v) as [[]|[]| |[] m e]; try reflexivity.
  destruct (SFsqrt_core_binary prec emax (Zpos m) e) as [[mz ez] lz].
  pose proof (binary_round_aux_sign false mz ez lz) as Hs.
  destruct (binary_round_aux prec emax false mz ez lz) as [s|s| |s m' e'];
    try reflexivity; rewrite Hs; reflexivity.
Qed.

Lemma notNegative_not_below (v r : float) :
  notNegative v = true -> PrimFloat.leb r 0 = true -> PrimFloat.ltb v r = false.
Proof.
  unfold notNegative. rewrite leb_spec, ltb_spec. unfold SFleb, SFltb.
  change (Prim2SF 0) with (S754_zero false).
  destruct (Prim2SF v) as [[]|[]| |[] m e], (Prim2SF r) as [[]|[]| |[] m' e'];
    simpl; congruence.
Qed.

End FloatSigns.

(** With a [detectionRadius] that is zero or negative no pointer position
    ever triggers an escape: [escapeFrom] changes nothing.  On binary64
    (whatever [Math.cos] and [Math.sin] are) the distance is NaN or not
    negative, and the comparison [dist < detectionRadius] fails; in exact
    arithmetic the distance is not negative. *)
Theorem nonpositive_radius_never_escapes :
  (forall (cos sin : float -> float) (opts : Options float) (x y : float)
          (h : Host float) (w : World float),
     PrimFloat.leb (detectionRadius opts) 0 = true ->
     escapes (H := FloatNumberWith cos sin) opts x y h w = false /\
     escapeFrom (H := FloatNumberWith cos sin) opts x y h w = w) /\
  (forall (opts : Options R) (x y : R) (h : Host R) (w : World R),
     (detectionRadius opts <= 0)%R ->
     escapes opts x y h w = false /\ escapeFrom opts x y h w = w).
Proof.
  split.
  - intros cos sin opts x y h w Hr.
    assert (He : escapes (H := FloatNumberWith cos sin) opts x y h w = false).
    { unfold escapes. apply andb_false_iff. right.
      apply notNegative_not_below; [|exact Hr].
      unfold distance. apply sqrt_notNegative. }
    split; [exact He|]. now apply escapeFrom_idle.
  - intros opts x y h w Hr.
    assert (He : escapes opts x y h w = false).
    { unfold escapes. apply andb_false_iff. right.
      apply Rltb_false. unfold distance. on_reals.
      eapply Rle_trans; [exact Hr|]. apply R_sqrt.sqrt_pos. }
    split; [exact He|]. now apply escapeFrom_idle.
Qed.

Lemma nonpositive_radius_never_escapes_witness :
  escapeFrom zeroRadius 460%float 320%float hostExample
    (makeEvasive zeroRadius "Click me" attachTime picksIdentity)
  = makeEvasive zeroRadius "Click me" attachTime picksIdentity.
Proof.
  apply (proj1 nonpositive_radius_never_escapes F.cos_table F.sin_table zeroRadius).
  reflexivity.
Defined.

(** ** Short lists of taunts *)

Section ShortLists.

Context {num : Type} `{Number num}.
Variable opts : Options num.

Lemma nextTaunt_none p last : nextTaunt p 0 [] last = (None, []).
Proof.
  unfold nextTaunt, shuffleTauntQueue, keys. simpl.
  destruct last; reflexivity.
Qed.

Lemma queueOk_empty (q : list Z) last : queueOk 0 q last -> q = [].
Proof.
  intros (_ & Hin & _). destruct q as [|x q]; [reflexivity|].
  exfalso. exact (Hin x (or_introl eq_refl)).
Qed.

Lemma draws_no_taunts ps (w : World num) :
  length (taunts opts) = 0 -> queueOkW opts w ->
  Forall (fun d => d = None) (drawTaunts opts ps w).
Proof.
  intros HN. revert w. induction ps as [|p r IH]; intros w Hq; simpl.
  - constructor.
  - pose proof (queueOkW_draw opts p w Hq) as Hq'.
    constructor; [|apply IH; exact Hq'].
    wsimpl. unfold queueOkW in Hq. rewrite HN in *.
    rewrite (queueOk_empty _ _ Hq), nextTaunt_none. reflexivity.
Qed.

Lemma draws_one_taunt ps (w : World num) :
  length (taunts opts) = 1 -> queueOkW opts w ->
  Forall (fun d => d = Some 0%Z) (drawTaunts opts ps w).
Proof.
  intros HN Hq.
  assert (Hv := draws_valid opts ps w ltac:(lia) Hq).
  eapply Forall_impl; [|exact Hv]. cbv beta.
  intros d (i & -> & Hi). rewrite HN in Hi. f_equal. lia.
Qed.

End ShortLists.

(** [shuffleTauntQueue] only reorders the queue, whatever [Math.random]
    returns: the result is a permutation of the queue, of the same length,
    and the shuffled indices [0 .. n-1] are distinct. *)
Theorem shuffleTauntQueue_permutes :
  forall (picks : nat -> nat) (q : list Z) (n : nat),
    Permutation (shuffleTauntQueue picks q) q /\
    length (shuffleTauntQueue picks q) = length q /\
    NoDup (shuffleTauntQueue picks (keys n)) /\
    (forall i, In i (shuffleTauntQueue picks (keys n)) <-> (0 <= i < Z.of_nat n)%Z).
Proof.
  intros picks q n.
  pose proof (shuffleTauntQueue_Permutation picks q) as Hp.
  pose proof (shuffleTauntQueue_Permutation picks (keys n)) as Hk.
  split; [exact Hp|]. split; [exact (Permutation_length Hp)|]. split.
  - eapply Permutation_NoDup; [symmetry; exact Hk|apply keys_NoDup].
  - intros i. rewrite <- keys_range. split; intros Hi.
    + eapply Permutation_in; [exact Hk|exact Hi].
    + eapply Permutation_in; [symmetry; exact Hk|exact Hi].
Qed.

(** With an empty list of taunts every call of [getNextTaunt], in a
    reachable world, returns [undefined] and draws no index; with a single
    taunt every call draws index 0 (the one case in which the same taunt is
    shown twice in a row). *)
Theorem getNextTaunt_on_short_lists :
  forall (num : Type) (NumOps : Number num) (opts : Options num)
         (content : string) (w : World num) (ps : list (nat -> nat)),
    Reachable opts content w ->
    (length (taunts opts) = 0 ->
     Forall (fun d => d = None) (drawTaunts opts ps w) /\
     forall p, fst (getNextTaunt opts p w) = None) /\
    (length (taunts opts) = 1 ->
     Forall (fun d => d = Some 0%Z) (drawTaunts opts ps w) /\
     forall p, fst (getNextTaunt opts p w) = nth_error (taunts opts) 0).
Proof.
  intros num NumOps opts content w ps Hr.
  pose proof (queue_ok (Reachable_Consistent opts content w Hr)) as Hq.
  split; intros HN.
  - split; [now apply draws_no_taunts|].
    intros p. pose proof (draws_no_taunts opts [p] w HN Hq) as Hd.
    inversion Hd as [|? ? Hd1 _]; subst. simpl in Hd1.
    unfold getNextTaunt. cbn [fst]. wsimpl. rewrite Hd1. reflexivity.
  - split; [now apply draws_one_taunt|].
    intros p. pose proof (draws_one_taunt opts [p] w HN Hq) as Hd.
    inversion Hd as [|? ? Hd1 _]; subst. simpl in Hd1.
    unfold getNextTaunt. cbn [fst]. wsimpl. rewrite Hd1. reflexivity.
Qed.

Lemma getNextTaunt_on_short_lists_witness :
  Reachable noTaunts "Click me" (makeEvasive noTaunts "Click me" attachTime picksIdentity) /\
  Forall (fun d => d = None)
    (drawTaunts noTaunts [picksZero; picksZero; picksZero]
       (makeEvasive noTaunts "Click me" attachTime picksIdentity)).
Proof.
  assert (Hr : Reachable noTaunts "Click me"
                 (makeEvasive noTaunts "Click me" attachTime picksIdentity))
    by (exists attachTime, picksIdentity, []; reflexivity).
  split; [exact Hr|].
  apply (proj1 (getNextTaunt_on_short_lists float FloatNumber noTaunts "Click me" _
                  [picksZero; picksZero; picksZero] Hr)).
  reflexivity.
Defined.

(** ** Showing a taunt *)

Section ShowTaunt.

Context {num : Type} `{Number num}.
Variable opts : Options num.
Variable content : string.

Lemma filter_remove_other A (P : handle * A -> bool) id (l : list (handle * A)) :
  (forall e, In e l -> fst e = id -> P e = false) ->
  filter P (remove_handle id l) = filter P l.
Proof.
  unfold remove_handle. induction l as [|e l IH]; intros Hp; [reflexivity|].
  simpl. destruct (Nat.eqb (fst e) id) eqn:E; simpl.
  - apply Nat.eqb_eq in E. rewrite (Hp e (or_introl eq_refl) E).
    apply IH. intros e' He'. apply Hp. now right.
  - rewrite IH; [reflexivity|]. intros e' He'. apply Hp. now right.
Qed.

(** Clearing the stored taunt timer leaves the timers of another kind. *)
Lemma pending_clear_taunt cb (w : World num) :
  Consistent opts content w -> cb <> HideTaunt ->
  pending cb (clearTimeout (tauntTimeout w) w) = pending cb w.
Proof.
  intros Hc Hcb. unfold pending, clearTimeout. wsimpl.
  destruct (tauntTimeout w) as [k|] eqn:Ek; [|reflexivity].
  rewrite filter_remove_other; [reflexivity|].
  intros [id [due c]] Hin Hid. simpl in *. subst id.
  rewrite (taunt_kind Hc _ _ Ek Hin).
  destruct (sameCallback HideTaunt cb) eqn:E; [|reflexivity].
  apply sameCallback_true in E. congruence.
Qed.

Lemma pending_taunt_is (w : World num) k due :
  Consistent opts content w -> Tracked w ->
  In (k, (due, HideTaunt)) (timers w) ->
  tauntTimeout w = Some k /\ pending HideTaunt w = [(k, due)].
Proof.
  intros Hc Ht Hin.
  pose proof (taunt_tracked Ht _ _ Hin) as Hk. split; [exact Hk|].
  destruct (pending_stored HideTaunt (tauntTimeout w) w
              (timers_distinct Hc) (taunt_tracked Ht))
    as [Hnil|(id & d & Hid & Hone)].
  - apply pending_In in Hin. rewrite Hnil in Hin. destruct Hin.
  - apply pending_In in Hin. rewrite Hone in Hin.
    destruct Hin as [Heq|[]]. now rewrite Hone, Heq.
Qed.

Lemma showTaunt_shown picks (w : World num) :
  ltb (ofZ 600) (sub (ofZ (clock w)) (lastTauntTime (state w))) = true ->
  let r := nextTaunt picks (length (taunts opts)) (tauntQueue w) (lastTauntIndex w) in
  let w' := showTaunt opts picks w in
  tauntVisible w' = true /\ tauntText w' = taunt_at opts (fst r) /\
  lastTauntIndex w' = fst r /\ tauntQueue w' = snd r /\
  lastTauntTime (state w') = ofZ (clock w) /\
  tauntTimeout w' = Some (nextHandle w) /\
  timers w' = timers (clearTimeout (tauntTimeout w) w)
              ++ [(nextHandle w, ((clock w + 1200)%Z, HideTaunt))] /\
  frames w' = frames w /\ returnTimeout w' = returnTimeout w /\
  clock w' = clock w.
Proof.
  intros Hgo r w'. subst w'. unfold showTaunt. rewrite Hgo.
  destruct w as [s wa wj wr wt q li oc ck nh tm fr ls ih ec cs ld tx tv es cc].
  wsimpl. repeat (split; [reflexivity|]). reflexivity.
Qed.

End ShowTaunt.

(** [showTaunt] in a consistent world (every reachable world is one).  Less
    than 600ms after the last taunt, or exactly 600ms, it does nothing.
    Otherwise the bubble is made visible with the text of the index drawn
    by [getNextTaunt], which is one of [opts.taunts] when there is any and
    differs from the index shown before when there are two or more; the
    time of the taunt is recorded; the hide timer of the taunt before is
    replaced, so that exactly one is pending, due 1200ms later; the return
    timers and the animation frames are left alone. *)
Theorem showTaunt_shows_one_taunt :
  forall (num : Type) (NumOps : Number num) (opts : Options num)
         (content : string) (w : World num) (picks : nat -> nat),
    Consistent opts content w -> Tracked w ->
    let recent := ltb (ofZ 600) (sub (ofZ (clock w)) (lastTauntTime (state w))) in
    let w' := showTaunt opts picks w in
    (recent = false -> w' = w) /\
    (recent = true ->
       tauntVisible w' = true /\
       tauntText w' = taunt_at opts (lastTauntIndex w') /\
       (0 < length (taunts opts) ->
        exists s, tauntText w' = Some s /\ In s (taunts opts)) /\
       (1 < length (taunts opts) -> lastTauntIndex w' <> lastTauntIndex w) /\
       lastTauntTime (state w') = ofZ (clock w) /\
       tauntTimeout w' = Some (nextHandle w) /\
       pending HideTaunt w' = [(nextHandle w, (clock w + 1200)%Z)] /\
       pending ReturnTimer w' = pending ReturnTimer w /\
       frames w' = frames w).
Proof.
  intros num NumOps opts content w picks Hc Ht recent w'. split.
  - intros Hno. subst w' recent. unfold showTaunt. rewrite Hno. reflexivity.
  - intros Hgo.
    destruct (showTaunt_shown opts picks w Hgo)
      as (S1 & S2 & S3 & S4 & S5 & S6 & S7 & S8 & S9 & S10).
    fold w' in S1, S2, S3, S4, S5, S6, S7, S8, S9, S10.
    pose proof (proj1 (Keeps_showTaunt opts content picks w Hc)) as Hc'.
    pose proof (Tracked_showTaunt opts picks w Ht) as Ht'.
    fold w' in Hc', Ht'.
    destruct (nextTaunt_ok picks (length (taunts opts)) (tauntQueue w)
                (lastTauntIndex w) (queue_ok Hc)) as (_ & Hne & Hval).
    split; [exact S1|]. split; [now rewrite S3|]. split.
    { intros Hpos. destruct (Hval Hpos) as (i & Hi & Hin).
      apply keys_range in Hin.
      destruct (nth_error (taunts opts) (Z.to_nat i)) as [s|] eqn:Es.
      - exists s. split.
        + rewrite S2, Hi. unfold taunt_at.
          destruct (Z.ltb_spec i 0); [lia|exact Es].
        + eapply nth_error_In. exact Es.
      - apply nth_error_None in Es. lia. }
    split; [intros Hmany; rewrite S3; now apply Hne|].
    split; [exact S5|]. split; [exact S6|]. split.
    { apply (pending_taunt_is opts content w' _ _ Hc' Ht').
      rewrite S7. apply in_or_app. right. now left. }
    split; [|exact S8].
    rewrite (pending_snoc ReturnTimer (clearTimeout (tauntTimeout w) w) w' _ _ _ S7).
    simpl. rewrite app_nil_r.
    apply (pending_clear_taunt opts content); [exact Hc|discriminate].
Qed.

Lemma showTaunt_shows_one_taunt_witness :
  exists s, tauntText (showTaunt floatDefaults picksZero attached) = Some s /\
            In s DEFAULT_TAUNTS.
Proof.
  pose proof (Reachable_Consistent floatDefaults "Click me" attached attached_reachable)
    as Hc.
  pose proof (Reachable_Tracked floatDefaults "Click me" attached attached_reachable)
    as Ht.
  destruct (showTaunt_shows_one_taunt float FloatNumber floatDefaults "Click me"
              attached picksZero Hc Ht) as [_ Hgo].
  destruct Hgo as (_ & _ & Hs & _).
  - vm_compute; reflexivity.
  - apply Hs. vm_compute. lia.
Defined.

(** ** A visible taunt is hidden again *)

Section TauntHide.

Context {num : Type} `{Number num}.
Variable opts : Options num.
Variable content : string.

Lemma TauntShown_hidden (w : World num) : tauntVisible w = false -> TauntShown w.
Proof. intros Hv Hvis. congruence. Qed.

Lemma TauntShown_detached (w : World num) : listening w = false -> TauntShown w.
Proof. intros Hl _ Hlis. congruence. Qed.

(** A step that keeps the stored hide timer. *)
Lemma TauntShown_sub (w w' : World num) :
  TauntShown w ->
  (tauntVisible w' = true -> tauntVisible w = true) ->
  (listening w' = true -> listening w = true) ->
  tauntTimeout w' = tauntTimeout w -> (clock w <= clock w')%Z ->
  (forall id due, tauntTimeout w = Some id -> In (id, (due, HideTaunt)) (timers w) ->
                  In (id, (due, HideTaunt)) (timers w')) ->
  TauntShown w'.
Proof.
  intros Hs Hv Hl Et Hc Hin Hvis Hlis.
  destruct (Hs (Hv Hvis) (Hl Hlis)) as (id & due & Hid & Hd & Hdue).
  exists id, due. split; [congruence|]. split; [now apply Hin|lia].
Qed.

(** A step that removes at most the stored return timer. *)
Lemma TauntShown_stays (w w' : World num) :
  TauntShown w ->
  (forall k due cb, returnTimeout w = Some k -> In (k, (due, cb)) (timers w) ->
                    cb = ReturnTimer) ->
  (tauntVisible w' = true -> tauntVisible w = true) ->
  (listening w' = true -> listening w = true) ->
  tauntTimeout w' = tauntTimeout w -> (clock w <= clock w')%Z ->
  (forall e, In e (timers w) -> (forall k, returnTimeout w = Some k -> fst e <> k) ->
             In e (timers w')) ->
  TauntShown w'.
Proof.
  intros Hs Hk Hv Hl Et Hc Hin.
  apply (TauntShown_sub w); auto.
  intros id due Hid Hd. apply Hin; [exact Hd|].
  intros k Ek Heq. simpl in Heq. subst k.
  pose proof (Hk _ _ _ Ek Hd). discriminate.
Qed.

Ltac keep_timer :=
  repeat first
    [ assumption
    | match goal with
      | |- In _ (_ ++ _) => apply in_or_app; left
      | |- In _ (match ?h with Some _ => _ | None => _ end) => destruct h eqn:?
      | |- In _ (remove_handle _ _) => apply In_remove_handle; split
      | Hk : forall k, _ = Some k -> fst ?e <> k |- fst ?e <> _ =>
          apply Hk; reflexivity
      end ].

Lemma TauntShown_returnToCenter (w : World num) :
  TauntShown w -> TauntShown (returnToCenter w).
Proof.
  intros Hs.
  destruct w as [s wa wj wr wt q li oc ck nh tm fr ls ih ec cs ld tx tv es cc].
  apply (TauntShown_sub _ _ Hs); unfold returnToCenter; wsimpl;
    destruct wa; wsimpl; auto; lia.
Qed.

Lemma TauntShown_springAnimate (w : World num) :
  TauntShown w -> TauntShown (springAnimate w).
Proof.
  intros Hs.
  destruct w as [s wa wj wr wt q li oc ck nh tm fr ls ih ec cs ld tx tv es cc].
  apply (TauntShown_sub _ _ Hs); unfold springAnimate; wsimpl;
    destruct (isReturning (springStep s) && _);
    try destruct (isReturning (springStep s)); wsimpl; auto; lia.
Qed.

Lemma TauntShown_jumpAnimate ts (w : World num) :
  (forall k due cb, returnTimeout w = Some k -> In (k, (due, cb)) (timers w) ->
                    cb = ReturnTimer) ->
  TauntShown w -> TauntShown (jumpAnimate opts ts w).
Proof.
  intros Hk Hs.
  destruct w as [s wa wj wr wt q li oc ck nh tm fr ls ih ec cs ld tx tv es cc].
  unfold jumpAnimate. cbn [state].
  set (s1 := jumpEase (jumpFall ts s)). clearbody s1.
  destruct (landed s1).
  - destruct (showShadow opts), (screenShake opts);
      apply (TauntShown_stays _ _ Hs Hk); wsimpl; auto; try lia;
      intros e He Hne; keep_timer.
  - apply (TauntShown_stays _ _ Hs Hk); wsimpl; auto; lia.
Qed.

Lemma TauntShown_showTaunt picks (w : World num) :
  TauntShown w -> TauntShown (showTaunt opts picks w).
Proof.
  intros Hs. unfold showTaunt. destruct (ltb _ _); [|exact Hs].
  destruct w as [s wa wj wr wt q li oc ck nh tm fr ls ih ec cs ld tx tv es cc].
  intros _ _. wsimpl.
  eexists _, _. split; [reflexivity|]. split.
  - apply in_or_app. right. left. reflexivity.
  - lia.
Qed.

Lemma TauntShown_escapeFrom x y h (w : World num) :
  Consistent opts content w -> TauntShown w -> TauntShown (escapeFrom opts x y h w).
Proof.
  intros Hc Hs. pose proof (return_kind Hc) as Hk.
  destruct w as [s wa wj wr wt q li oc ck nh tm fr ls ih ec cs ld tx tv es cc].
  unfold escapeFrom. cbn [state].
  destruct (isCaught s || isJumping s); [exact Hs|].
  destruct (ltb _ _); [|exact Hs].
  cbv zeta. unfold startJump. wsimpl.
  match goal with
  | |- TauntShown (if _ then showTaunt _ _ ?w0 else _) =>
      assert (H0 : TauntShown w0)
  end.
  { destruct (onEscape opts);
      apply (TauntShown_stays _ _ Hs Hk); wsimpl; auto; try lia;
      intros e He Hne; keep_timer. }
  destruct (ltb _ _); [|exact H0].
  apply TauntShown_showTaunt. exact H0.
Qed.

Lemma TauntShown_rearm delay (w : World num) (far : bool) :
  (forall k due cb, returnTimeout w = Some k -> In (k, (due, cb)) (timers w) ->
                    cb = ReturnTimer) ->
  TauntShown w ->
  TauntShown (if far
              then set_returnTimeout
                     (Some (fst (setTimeout ReturnTimer delay
                                   (clearTimeout (returnTimeout w) w))))
                     (snd (setTimeout ReturnTimer delay
                             (clearTimeout (returnTimeout w) w)))
              else clearTimeout (returnTimeout w) w).
Proof.
  intros Hk Hs.
  destruct w as [s wa wj wr wt q li oc ck nh tm fr ls ih ec cs ld tx tv es cc].
  destruct far; apply (TauntShown_stays _ _ Hs Hk); wsimpl; auto; try lia;
    intros e He Hne; keep_timer.
Qed.

Lemma TauntShown_handleMouseMove x y h (w : World num) :
  Consistent opts content w -> TauntShown w ->
  TauntShown (handleMouseMove opts x y h w).
Proof.
  intros Hc Hs. unfold handleMouseMove. cbv zeta.
  pose proof (proj1 (Keeps_escapeFrom opts content x y h w Hc)) as Hc1.
  pose proof (TauntShown_escapeFrom x y h w Hc Hs) as Hs1.
  set (w1 := escapeFrom opts x y h w) in *. clearbody w1.
  exact (TauntShown_rearm 400 w1 (ltb _ _) (return_kind Hc1) Hs1).
Qed.

Lemma TauntShown_handleMouseLeave (w : World num) :
  Consistent opts content w -> TauntShown w -> TauntShown (handleMouseLeave w).
Proof.
  intros Hc Hs. exact (TauntShown_rearm 200 w true (return_kind Hc) Hs).
Qed.

Lemma TauntShown_handleClick (w : World num) :
  TauntShown w -> TauntShown (handleClick opts w).
Proof.
  intros Hs. unfold handleClick.
  destruct (isCaught (state w)); [exact Hs|].
  apply TauntShown_hidden. destruct (onCatch opts); reflexivity.
Qed.

Lemma TauntShown_dispatch t e (w w' : World num) :
  dispatch opts t e w = Some w' -> Consistent opts content w ->
  TauntShown w -> TauntShown w'.
Proof.
  unfold dispatch. destruct (Z.ltb_spec t (clock w)) as [|Hclk]; [discriminate|].
  cbv zeta. intros Hd Hc Hs.
  assert (Hc0 : Consistent opts content (set_clock t w))
    by (apply (Keeps_ext opts content w); try side).
  assert (Hs0 : TauntShown (set_clock t w))
    by (apply (TauntShown_sub w _ Hs); auto).
  set (w0 := set_clock t w) in *.
  assert (Hclk0 : clock w0 = t) by reflexivity.
  clearbody w0.
  destruct e as [x y h| | |id ts|id|].
  - injection Hd as <-. destruct (listening w0); auto.
    now apply TauntShown_handleMouseMove.
  - injection Hd as <-. destruct (listening w0); auto.
    now apply TauntShown_handleMouseLeave.
  - injection Hd as <-. destruct (listening w0); auto.
    now apply TauntShown_handleClick.
  - destruct (lookup_handle _ _) as [cb|]; [|discriminate].
    injection Hd as <-.
    assert (H1 : TauntShown (set_frames (remove_handle id (frames w0)) w0))
      by (apply (TauntShown_sub w0 _ Hs0); auto; reflexivity).
    destruct cb; simpl.
    + now apply TauntShown_springAnimate.
    + apply TauntShown_jumpAnimate; [exact (return_kind Hc0)|exact H1].
  - destruct (lookup_handle _ _) as [[due cb]|] eqn:El; [|discriminate].
    destruct (Z.leb _ _); [|discriminate]. injection Hd as <-.
    apply lookup_handle_In in El.
    destruct (TimerCallback_eq_dec cb HideTaunt) as [->|Hcb];
      [now apply TauntShown_hidden|].
    assert (H1 : TauntShown (set_timers (remove_handle id (timers w0)) w0)).
    { apply (TauntShown_sub w0 _ Hs0); auto; try reflexivity.
      intros k d Hk Hin. wsimpl. apply In_remove_handle. split; [exact Hin|].
      simpl. intros ->. apply Hcb. exact (taunt_kind Hc0 _ _ Hk El). }
    destruct cb; simpl; try congruence.
    + now apply TauntShown_returnToCenter.
    + exact H1.
    + apply (TauntShown_sub _ _ H1); auto; reflexivity.
    + now apply TauntShown_returnToCenter.
    + apply (TauntShown_sub _ _ H1); auto; reflexivity.
  - injection Hd as <-. apply TauntShown_detached.
    unfold destroy. reflexivity.
Qed.

Lemma Reachable_TauntShown (w : World num) :
  Reachable opts content w -> TauntShown w.
Proof.
  intros (t0 & picks & trace & Hr).
  assert (Hgen : forall tr w0, Consistent opts content w0 -> TauntShown w0 ->
                   run opts tr w0 = Some w -> TauntShown w).
  { induction tr as [|[t e] rest IH]; simpl; intros w0 Hc0 Hs0 Hrun.
    - now injection Hrun as <-.
    - destruct (dispatch opts t e w0) as [w1|] eqn:Ed; [|discriminate].
      apply (IH w1); [eapply Consistent_dispatch; eauto| |exact Hrun].
      eapply TauntShown_dispatch; eauto. }
  apply (Hgen trace _ (Consistent_makeEvasive opts content t0 picks)); [|exact Hr].
  apply TauntShown_hidden. reflexivity.
Qed.

End TauntHide.

(** A taunt never stays on screen for good.  In every reachable world with
    the listeners registered, a visible taunt has exactly one hide timer
    pending, the stored one, due at most 1200ms from now; and when the host
    fires that timer the taunt is hidden. *)
Theorem visible_taunt_has_its_hide_timer :
  forall (num : Type) (NumOps : Number num) (opts : Options num)
         (content : string) (w : World num),
    Reachable opts content w -> listening w = true -> tauntVisible w = true ->
    exists id due,
      tauntTimeout w = Some id /\ pending HideTaunt w = [(id, due)] /\
      (due <= clock w + 1200)%Z /\
      forall t, (clock w <= t)%Z -> (due <= t)%Z ->
        exists w', dispatch opts t (Timeout id) w = Some w' /\
                   tauntVisible w' = false.
Proof.
  intros num NumOps opts content w Hr Hlis Hvis.
  pose proof (Reachable_Consistent opts content w Hr) as Hc.
  pose proof (Reachable_Tracked opts content w Hr) as Ht.
  destruct (Reachable_TauntShown opts content w Hr Hvis Hlis)
    as (id & due & Hid & Hin & Hdue).
  exists id, due. split; [exact Hid|].
  split; [exact (proj2 (pending_taunt_is opts content w id due Hc Ht Hin))|].
  split; [exact Hdue|].
  intros t Hclk Ht'.
  pose proof (lookup_handle_distinct _ id (timers w) (due, HideTaunt)
                (timers_distinct Hc) Hin) as Hl.
  eexists. split.
  - rewrite (dispatch_listening opts t (Timeout id) w Hclk), Hl.
    destruct (Z.leb_spec due t); [reflexivity|lia].
  - reflexivity.
Qed.

(** The taunt shown by the escape of [leaveDuringJump], 205ms later. *)
Lemma visible_taunt_has_its_hide_timer_witness :
  exists id due, tauntTimeout midAir = Some id /\
                 pending HideTaunt midAir = [(id, due)] /\
                 (due <= clock midAir + 1200)%Z.
Proof.
  destruct (visible_taunt_has_its_hide_timer float FloatNumber floatDefaults
              "Click me" midAir midAir_reachable)
    as (id & due & Hid & Hp & Hdue & _).
  - vm_compute; reflexivity.
  - vm_compute; reflexivity.
  - exists id, due. split; [exact Hid|]. split; [exact Hp|exact Hdue].
Defined.

(** ** The order of binary64 *)

Section FloatOrder.

Local Open Scope float_scope.

Lemma SFcompare_refl (x : spec_float) : x <> S754_nan -> SFcompare x x = Some Eq.
Proof.
  destruct x as [s|s| |s m e]; intros Hx; try congruence.
  - reflexivity.
  - destruct s; reflexivity.
  - simpl. rewrite Z.compare_refl.
    change (Pos.compare_cont Eq m m) with (Pos.compare m m).
    rewrite Pos.compare_refl. destruct s; reflexivity.
Qed.

(** Below-or-equal composes, strictly when one of the two steps is strict. *)
Lemma SFcompare_trans (x y z : spec_float) (c1 c2 : comparison) :
  SFcompare x y = Some c1 -> SFcompare y z = Some c2 ->
  c1 <> Gt -> c2 <> Gt ->
  SFcompare x z = Some (match c1, c2 with Eq, Eq => Eq | _, _ => Lt end).
Proof.
  intros H1 H2 N1 N2.
  destruct x as [sx|sx| |sx mx ex], y as [sy|sy| |sy my ey],
           z as [sz|sz| |sz mz ez];
    try destruct sx; try destruct sy; try destruct sz;
    simpl in *; try discriminate;
    try (injection H1 as <-); try (injection H2 as <-);
    try congruence; try reflexivity.
  all: change (Pos.compare_cont Eq) with Pos.compare in *.
  all: repeat match goal with
       | H : context [Z.compare ?a ?b] |- _ => destruct (Z.compare_spec a b)
       | |- context [Z.compare ?a ?b] => destruct (Z.compare_spec a b)
       end; subst; try lia; try congruence; try reflexivity.
  all: repeat match goal with
       | H : context [Pos.compare ?a ?b] |- _ => destruct (Pos.compare_spec a b)
       | |- context [Pos.compare ?a ?b] => destruct (Pos.compare_spec a b)
       end; subst; simpl in *; try lia; try congruence; try reflexivity.
Qed.

Lemma is_nan_spec (v : float) : PrimFloat.is_nan v = true <-> Prim2SF v = S754_nan.
Proof.
  unfold PrimFloat.is_nan. rewrite eqb_spec. unfold SFeqb. split.
  - destruct (Prim2SF v) as [s|s| |s m e] eqn:E; try reflexivity;
      rewrite SFcompare_refl by discriminate; discriminate.
  - intros ->. reflexivity.
Qed.

Lemma not_nan_spec (v : float) : PrimFloat.is_nan v = false <-> Prim2SF v <> S754_nan.
Proof.
  rewrite <- is_nan_spec. destruct (PrimFloat.is_nan v); split; congruence.
Qed.

Lemma compare_not_nan (a b : float) :
  PrimFloat.is_nan a = false -> PrimFloat.is_nan b = false ->
  exists c, SFcompare (Prim2SF a) (Prim2SF b) = Some c.
Proof.
  rewrite !not_nan_spec. intros Ha Hb.
  destruct (Prim2SF a) as [sa|sa| |sa ma ea], (Prim2SF b) as [sb|sb| |sb mb eb];
    try congruence; simpl; eexists; reflexivity.
Qed.

Lemma ltb_not_nan (a b : float) :
  (a <? b) = true -> PrimFloat.is_nan a = false /\ PrimFloat.is_nan b = false.
Proof.
  rewrite ltb_spec, !not_nan_spec. unfold SFltb.
  destruct (Prim2SF a), (Prim2SF b); simpl; try discriminate; split; discriminate.
Qed.

Lemma leb_not_nan (a b : float) :
  (a <=? b) = true -> PrimFloat.is_nan a = false /\ PrimFloat.is_nan b = false.
Proof.
  rewrite leb_spec, !not_nan_spec. unfold SFleb.
  destruct (Prim2SF a), (Prim2SF b); simpl; try discriminate; split; discriminate.
Qed.

Lemma leb_refl (a : float) : PrimFloat.is_nan a = false -> (a <=? a) = true.
Proof.
  rewrite not_nan_spec, leb_spec. unfold SFleb. intros Ha.
  now rewrite SFcompare_refl.
Qed.

Lemma ltb_leb (a b : float) : (a <? b) = true -> (a <=? b) = true.
Proof.
  rewrite ltb_spec, leb_spec. unfold SFltb, SFleb.
  destruct (SFcompare _ _) as [[| |]|]; congruence.
Qed.

Lemma ltb_trans (a b c : float) : (a <? b) = true -> (b <? c) = true -> (a <? c) = true.
Proof.
  rewrite !ltb_spec. unfold SFltb.
  destruct (SFcompare (Prim2SF a) (Prim2SF b)) as [[| |]|] eqn:E1; try discriminate.
  destruct (SFcompare (Prim2SF b) (Prim2SF c)) as [[| |]|] eqn:E2; try discriminate.
  intros _ _. rewrite (SFcompare_trans _ _ _ _ _ E1 E2); [reflexivity|discriminate..].
Qed.

(** [a] does not beat [b], and [c] beats [b]: then [c] beats [a], unless [a]
    is NaN. *)
Lemma nlt_ltb_trans (a b c : float) :
  (b <? a) = false -> PrimFloat.is_nan a = false -> (b <? c) = true -> (a <? c) = true.
Proof.
  intros Hba Ha Hbc. destruct (ltb_not_nan _ _ Hbc) as [Hb _].
  destruct (compare_not_nan a b Ha Hb) as [c1 E1].
  revert Hba Hbc. rewrite !ltb_spec. unfold SFltb.
  rewrite (SFcompare_swap (Prim2SF a) (Prim2SF b)), E1.
  destruct (SFcompare (Prim2SF b) (Prim2SF c)) as [[| |]|] eqn:E2; try discriminate.
  destruct c1; simpl; try discriminate; intros _ _;
    rewrite (SFcompare_trans _ _ _ _ _ E1 E2); try reflexivity; discriminate.
Qed.

Lemma leb_trans (a b c : float) : (a <=? b) = true -> (b <=? c) = true -> (a <=? c) = true.
Proof.
  rewrite !leb_spec. unfold SFleb.
  destruct (SFcompare (Prim2SF a) (Prim2SF b)) as [[| |]|] eqn:E1; try discriminate;
  destruct (SFcompare (Prim2SF b) (Prim2SF c)) as [[| |]|] eqn:E2; try discriminate;
  intros _ _; rewrite (SFcompare_trans _ _ _ _ _ E1 E2); try reflexivity; discriminate.
Qed.

(** Of two numbers neither of which is below the other, each is at most
    the other. *)
Lemma nlt_leb (a b : float) :
  PrimFloat.is_nan a = false -> PrimFloat.is_nan b = false ->
  (b <? a) = false -> (a <=? b) = true.
Proof.
  intros Ha Hb. destruct (compare_not_nan a b Ha Hb) as [c1 E1].
  rewrite ltb_spec, leb_spec. unfold SFltb, SFleb.
  rewrite (SFcompare_swap (Prim2SF a) (Prim2SF b)), E1.
  destruct c1; simpl; congruence.
Qed.

(** NaN goes through the arithmetic. *)
Lemma sub_nan_l (a b : float) : PrimFloat.is_nan a = true -> PrimFloat.is_nan (a - b) = true.
Proof.
  rewrite !is_nan_spec, sub_spec. intros ->. reflexivity.
Qed.

Lemma mul_nan_l (a b : float) : PrimFloat.is_nan a = true -> PrimFloat.is_nan (a * b) = true.
Proof.
  rewrite !is_nan_spec, mul_spec. intros ->. reflexivity.
Qed.

Lemma mul_nan_r (a b : float) : PrimFloat.is_nan b = true -> PrimFloat.is_nan (a * b) = true.
Proof.
  rewrite !is_nan_spec, mul_spec. intros ->. destruct (Prim2SF a); reflexivity.
Qed.

Lemma add_nan_l (a b : float) : PrimFloat.is_nan a = true -> PrimFloat.is_nan (a + b) = true.
Proof.
  rewrite !is_nan_spec, add_spec. intros ->. reflexivity.
Qed.

Lemma add_nan_r (a b : float) : PrimFloat.is_nan b = true -> PrimFloat.is_nan (a + b) = true.
Proof.
  rewrite !is_nan_spec, add_spec. intros ->. destruct (Prim2SF a); reflexivity.
Qed.

Lemma div_nan_l (a b : float) : PrimFloat.is_nan a = true -> PrimFloat.is_nan (a / b) = true.
Proof.
  rewrite !is_nan_spec, div_spec. intros ->. reflexivity.
Qed.

Lemma sqrt_nan (a : float) : PrimFloat.is_nan a = true -> PrimFloat.is_nan (PrimFloat.sqrt a) = true.
Proof.
  rewrite !is_nan_spec, sqrt_spec. intros ->. reflexivity.
Qed.

Lemma nan_is_nan : PrimFloat.is_nan PrimFloat.nan = true.
Proof. reflexivity. Qed.

Lemma ltb_nan_r (a b : float) : PrimFloat.is_nan b = true -> (a <? b) = false.
Proof.
  intros Hb. destruct (a <? b) eqn:E; [|reflexivity].
  apply ltb_not_nan in E. destruct E. congruence.
Qed.

Lemma ltb_nan_l (a b : float) : PrimFloat.is_nan a = true -> (a <? b) = false.
Proof.
  intros Ha. destruct (a <? b) eqn:E; [|reflexivity].
  apply ltb_not_nan in E. destruct E. congruence.
Qed.

(** [Math.max] and [Math.min] on numbers that are not NaN. *)
Lemma max_bounds (a b : float) :
  PrimFloat.is_nan a = false -> PrimFloat.is_nan b = false ->
  PrimFloat.is_nan (F.max a b) = false /\
  (a <=? F.max a b) = true /\ (b <=? F.max a b) = true /\
  (F.max a b = a \/ F.max a b = b).
Proof.
  intros Ha Hb. unfold F.max. rewrite Ha, Hb. cbn [orb].
  destruct (a <? b) eqn:E1.
  { split; [exact Hb|]. split; [now apply ltb_leb|]. split; [now apply leb_refl|now right]. }
  destruct (b <? a) eqn:E2.
  { split; [exact Ha|]. split; [now apply leb_refl|]. split; [now apply ltb_leb|now left]. }
  pose proof (nlt_leb a b Ha Hb E2) as Hab.
  pose proof (nlt_leb b a Hb Ha E1) as Hba.
  destruct (PrimFloat.get_sign a).
  - split; [exact Hb|]. split; [exact Hab|]. split; [now apply leb_refl|now right].
  - split; [exact Ha|]. split; [now apply leb_refl|]. split; [exact Hba|now left].
Qed.

Lemma min_bounds (a b : float) :
  PrimFloat.is_nan a = false -> PrimFloat.is_nan b = false ->
  PrimFloat.is_nan (F.min a b) = false /\
  (F.min a b <=? a) = true /\ (F.min a b <=? b) = true /\
  (F.min a b = a \/ F.min a b = b).
Proof.
  intros Ha Hb. unfold F.min. rewrite Ha, Hb. cbn [orb].
  destruct (a <? b) eqn:E1.
  { split; [exact Ha|]. split; [now apply leb_refl|]. split; [now apply ltb_leb|now left]. }
  destruct (b <? a) eqn:E2.
  { split; [exact Hb|]. split; [now apply ltb_leb|]. split; [now apply leb_refl|now right]. }
  pose proof (nlt_leb a b Ha Hb E2) as Hab.
  pose proof (nlt_leb b a Hb Ha E1) as Hba.
  destruct (PrimFloat.get_sign a).
  - split; [exact Ha|]. split; [now apply leb_refl|]. split; [exact Hab|now left].
  - split; [exact Hb|]. split; [exact Hba|]. split; [now apply leb_refl|now right].
Qed.

Lemma max_nan (a b : float) :
  PrimFloat.is_nan a = true \/ PrimFloat.is_nan b = true ->
  PrimFloat.is_nan (F.max a b) = true.
Proof.
  intros Hn. unfold F.max.
  destruct (PrimFloat.is_nan a), (PrimFloat.is_nan b); try reflexivity.
  destruct Hn; discriminate.
Qed.

Lemma min_nan (a b : float) :
  PrimFloat.is_nan a = true \/ PrimFloat.is_nan b = true ->
  PrimFloat.is_nan (F.min a b) = true.
Proof.
  intros Hn. unfold F.min.
  destruct (PrimFloat.is_nan a), (PrimFloat.is_nan b); try reflexivity.
  destruct Hn; discriminate.
Qed.

End FloatOrder.

(** *** The destination of an escape (C2) *)

Section FloatDestination.

Local Open Scope float_scope.

Variables cos sin : float -> float.
Variable opts : Options float.
Variables x y dx dy maxX minY maxY : float.

Let Engine : Number float := FloatNumberWith cos sin.

Let cand (a : float) : float * float :=
  candidate (H := Engine) opts x y dx dy maxX minY maxY a.
Let disp (a : float) : float :=
  distance (H := Engine) x y (fst (cand a)) (snd (cand a)).

Lemma float_tryAngle_step (p0 : float * float) (d0 : float) (a : float) :
  tryAngle (H := Engine) opts x y dx dy maxX minY maxY (p0, d0) a
  = if d0 <? disp a then (cand a, disp a) else (p0, d0).
Proof.
  unfold tryAngle, disp, cand. cbv zeta. cbn [fst snd ltb Engine FloatNumberWith].
  destruct (candidate opts x y dx dy maxX minY maxY a). reflexivity.
Qed.

(** The loop keeps the first candidate whose computed displacement is the
    greatest among those that beat the starting one; a candidate whose
    displacement is NaN never wins. *)
Lemma float_tryAngle_fold (l : list float) (p0 : float * float) (d0 : float) :
  let r := fold_left (tryAngle (H := Engine) opts x y dx dy maxX minY maxY) l (p0, d0) in
  (r = (p0, d0) /\ forall b, In b l -> (d0 <? disp b) = false) \/
  (exists l1 a l2, l = l1 ++ a :: l2 /\ r = (cand a, disp a) /\
     (d0 <? disp a) = true /\
     (forall b, In b l1 ->
        PrimFloat.is_nan (disp b) = true \/ (disp b <? disp a) = true) /\
     (forall b, In b l2 -> (disp a <? disp b) = false)).
Proof.
  revert p0 d0. induction l as [|a l IH]; intros p0 d0; cbv zeta.
  - left. split; [reflexivity|]. intros b [].
  - cbn [fold_left]. rewrite (float_tryAngle_step p0 d0 a).
    destruct (d0 <? disp a) eqn:Hlt.
    + destruct (IH (cand a) (disp a))
        as [[Hr Hall]|(l1 & a' & l2 & Hl & Hr & Hd & H1 & H2)].
      * right. exists [], a, l.
        split; [reflexivity|]. split; [exact Hr|]. split; [exact Hlt|].
        split; [intros b []|exact Hall].
      * right. exists (a :: l1), a', l2. subst l.
        split; [reflexivity|]. split; [exact Hr|].
        split; [exact (ltb_trans _ _ _ Hlt Hd)|].
        split; [|exact H2].
        intros b [<-|Hb]; [right; exact Hd|]. apply H1, Hb.
    + destruct (IH p0 d0) as [[Hr Hall]|(l1 & a' & l2 & Hl & Hr & Hd & H1 & H2)].
      * left. split; [exact Hr|]. intros b [<-|Hb]; [exact Hlt|]. apply Hall, Hb.
      * right. exists (a :: l1), a', l2. subst l.
        split; [reflexivity|]. split; [exact Hr|]. split; [exact Hd|].
        split; [|exact H2].
        intros b [<-|Hb]; [|apply H1, Hb].
        destruct (PrimFloat.is_nan (disp a)) eqn:Hn; [now left|right].
        exact (nlt_ltb_trans _ _ _ Hlt Hn Hd).
Qed.

(** A clamped value that is a number lies between the bounds. *)
Lemma float_clamp_inside (v lo hi : float) :
  (lo <=? hi) = true -> PrimFloat.is_nan (clamp (H := Engine) v lo hi) = false ->
  (lo <=? clamp (H := Engine) v lo hi) = true /\
  (clamp (H := Engine) v lo hi <=? hi) = true.
Proof.
  intros Hb. destruct (leb_not_nan _ _ Hb) as [Hlo Hhi].
  unfold clamp. cbn [Math_min Math_max Engine FloatNumberWith]. intros Hc.
  assert (Hm : PrimFloat.is_nan (F.max v lo) = false).
  { destruct (PrimFloat.is_nan (F.max v lo)) eqn:E; [|reflexivity].
    rewrite min_nan in Hc; [discriminate|now left]. }
  assert (Hv : PrimFloat.is_nan v = false).
  { destruct (PrimFloat.is_nan v) eqn:E; [|reflexivity].
    rewrite max_nan in Hm; [discriminate|now left]. }
  destruct (max_bounds v lo Hv Hlo) as (_ & _ & M2 & _).
  destruct (min_bounds (F.max v lo) hi Hm Hhi) as (_ & _ & N2 & [E|E]).
  - split; [rewrite E; exact M2|exact N2].
  - split; [rewrite E; exact Hb|exact N2].
Qed.

(** A candidate whose displacement is a number has coordinates that are
    numbers. *)
Lemma float_candidate_not_nan (a : float) :
  PrimFloat.is_nan (disp a) = false ->
  PrimFloat.is_nan (fst (cand a)) = false /\
  PrimFloat.is_nan (snd (cand a)) = false.
Proof.
  intros Hd. unfold disp, distance in Hd.
  cbn [Math_sqrt add sub mul Engine FloatNumberWith] in Hd.
  split.
  - destruct (PrimFloat.is_nan (fst (cand a))) eqn:E; [|reflexivity].
    rewrite sqrt_nan in Hd; [discriminate|].
    apply add_nan_l, mul_nan_l, sub_nan_l, E.
  - destruct (PrimFloat.is_nan (snd (cand a))) eqn:E; [|reflexivity].
    rewrite sqrt_nan in Hd; [discriminate|].
    apply add_nan_r, mul_nan_l, sub_nan_l, E.
Qed.

(** Such a candidate has both coordinates within the bounds, when the
    bounds are in order. *)
Lemma float_candidate_inside (a : float) :
  (- maxX <=? maxX) = true -> (minY <=? maxY) = true ->
  PrimFloat.is_nan (disp a) = false ->
  ((- maxX <=? fst (cand a)) && (fst (cand a) <=? maxX)
   && (minY <=? snd (cand a)) && (snd (cand a) <=? maxY))%bool = true.
Proof.
  intros Hx Hy Hd.
  destruct (float_candidate_not_nan a Hd) as [Hc1 Hc2].
  unfold cand, candidate in *. cbv zeta in *. cbn [fst snd] in *.
  destruct (float_clamp_inside _ _ _ Hx Hc1) as [X1 X2].
  destruct (float_clamp_inside _ _ _ Hy Hc2) as [Y1 Y2].
  apply andb_true_iff; split; [|exact Y2].
  apply andb_true_iff; split; [|exact Y1].
  apply andb_true_iff; split; [exact X1|exact X2].
Qed.

(** The loop either keeps the starting position or ends on a candidate
    whose displacement beats the starting one. *)
Lemma float_best_is_candidate (l : list float) :
  let r := fold_left (tryAngle (H := Engine) opts x y dx dy maxX minY maxY) l
             (x, y, 0) in
  fst r = (x, y) \/
  exists a, fst r = cand a /\ (0 <? disp a) = true.
Proof.
  cbv zeta.
  destruct (float_tryAngle_fold l (x, y) 0)
    as [[Hr _]|(l1 & a & l2 & _ & Hr & Hd & _)].
  - left. rewrite Hr. reflexivity.
  - right. exists a. rewrite Hr. split; [reflexivity|exact Hd].
Qed.

End FloatDestination.
(** C2, amended, on binary64 with any [Math.cos] and [Math.sin].  For a
    triggered escape the base direction is the vector from the pointer to
    the centre of the element divided by its length, the length replaced by
    1 when it is 0 or NaN (it points away from the pointer).  The ten
    candidates are the current position plus [escapeDistance] times the base
    direction turned by 0, 0.3, -0.3, 0.6, -0.6, 0.9, -0.9, 1.2, -1.2 and
    pi, each coordinate clamped: x by [min (max x (-maxX)) maxX] with
    [maxX = innerWidth / 2 - width / 2 - edgePadding], y by
    [min (max y minY) maxY] with [minY = -innerHeight * 0.55] and
    [maxY = innerHeight * 0.25].  The displacement of a candidate is its
    distance from the current position as the code computes it.  Either the
    jump goes to a candidate whose displacement is above 0, is above that of
    every earlier candidate (those whose displacement is NaN set aside) and
    is not beaten by any later one; then, when the envelope is not empty
    ([-maxX <= maxX] and [minY <= maxY]), the destination lies within it.
    Or no candidate has a displacement above 0, and the jump goes to the
    current position. *)
Theorem escape_destination_first_maximal
  (cos sin : float -> float) (opts : Options float) (mouseX mouseY : float)
  (h : Host float) (w : World float) :
  escapes (H := FloatNumberWith cos sin) opts mouseX mouseY h w = true ->
  (let x := currentX (state w) in
   let y := currentY (state w) in
   let r := boundingClientRect h in
   let cx := rect_left r + rect_width r / 2 in
   let cy := rect_top r + rect_height r / 2 in
   let len0 := PrimFloat.sqrt ((cx - mouseX) * (cx - mouseX)
                               + (cy - mouseY) * (cy - mouseY)) in
   let len := if F.truthy len0 then len0 else 1 in
   let dx := (cx - mouseX) / len in
   let dy := (cy - mouseY) / len in
   let maxX := innerWidth h / 2 - rect_width r / 2 - edgePadding opts in
   let minY := - innerHeight h * 0x1.199999999999ap-1 (* 0.55 *) in
   let maxY := innerHeight h * 0.25 in
   let cand a :=
     (F.min (F.max (x + (dx * cos a - dy * sin a) * escapeDistance opts) (- maxX)) maxX,
      F.min (F.max (y + (dx * sin a + dy * cos a) * escapeDistance opts) minY) maxY) in
   let disp a :=
     PrimFloat.sqrt ((fst (cand a) - x) * (fst (cand a) - x)
                     + (snd (cand a) - y) * (snd (cand a) - y)) in
   let dest :=
     (jumpTargetX (state (escapeFrom (H := FloatNumberWith cos sin)
                            opts mouseX mouseY h w)),
      jumpTargetY (state (escapeFrom (H := FloatNumberWith cos sin)
                            opts mouseX mouseY h w))) in
   escapeDirection (H := FloatNumberWith cos sin) mouseX mouseY h = (dx, dy) /\
   angles (H := FloatNumberWith cos sin)
   = [0; 0x1.3333333333333p-2 (* 0.3 *); - 0x1.3333333333333p-2;
      0x1.3333333333333p-1 (* 0.6 *); - 0x1.3333333333333p-1;
      0x1.ccccccccccccdp-1 (* 0.9 *); - 0x1.ccccccccccccdp-1;
      0x1.3333333333333p+0 (* 1.2 *); - 0x1.3333333333333p+0;
      0x1.921fb54442d18p+1 (* Math.PI *)] /\
   envelope (H := FloatNumberWith cos sin) opts h = (maxX, minY, maxY) /\
   ((exists l1 a l2,
       angles (H := FloatNumberWith cos sin) = l1 ++ a :: l2 /\
       dest = cand a /\ (0 <? disp a) = true /\
       (forall b, In b l1 ->
          PrimFloat.is_nan (disp b) = true \/ (disp b <? disp a) = true) /\
       (forall b, In b l2 -> (disp a <? disp b) = false) /\
       ((- maxX <=? maxX) = true -> (minY <=? maxY) = true ->
        inEnvelope (H := FloatNumberWith cos sin) opts h dest = true)) \/
    (dest = (x, y) /\
     forall b, In b (angles (H := FloatNumberWith cos sin)) ->
               (0 <? disp b) = false)))%float.
Proof.
  intros He x y r cx cy len0 len dx dy maxX minY maxY cand disp dest.
  destruct (escapeFrom_destination (H := FloatNumberWith cos sin)
              opts mouseX mouseY h w He) as [Hx Hy].
  assert (Edir : escapeDirection (H := FloatNumberWith cos sin) mouseX mouseY h
                 = (dx, dy)) by reflexivity.
  assert (Eenv : envelope (H := FloatNumberWith cos sin) opts h = (maxX, minY, maxY))
    by reflexivity.
  assert (Hdest : dest
    = fst (fold_left (tryAngle (H := FloatNumberWith cos sin)
                        opts x y dx dy maxX minY maxY)
             (angles (H := FloatNumberWith cos sin)) (x, y, 0%float))).
  { unfold dest. rewrite Hx, Hy. unfold bestDestination. rewrite Eenv, Edir.
    symmetry. apply surjective_pairing. }
  split; [exact Edir|]. split; [reflexivity|]. split; [exact Eenv|].
  destruct (float_tryAngle_fold cos sin opts x y dx dy maxX minY maxY
              (angles (H := FloatNumberWith cos sin)) (x, y) 0%float)
    as [[Hr Hall]|(l1 & a & l2 & Hl & Hr & Hd & H1 & H2)].
  - right. split; [rewrite Hdest, Hr; reflexivity|exact Hall].
  - left. exists l1, a, l2.
    split; [exact Hl|]. split; [rewrite Hdest, Hr; reflexivity|].
    split; [exact Hd|]. split; [exact H1|]. split; [exact H2|].
    intros Ex Ey.
    assert (Hc : dest = cand a) by (rewrite Hdest, Hr; reflexivity).
    rewrite Hc. unfold inEnvelope.
    rewrite Eenv. cbv iota beta.
    apply (float_candidate_inside cos sin opts x y dx dy maxX minY maxY a Ex Ey).
    exact (proj2 (ltb_not_nan _ _ Hd)).
Qed.

(** The pointer 10px right of the centre of the freshly attached button on
    a 1280 x 720 viewport: the button jumps 280px to the left. *)
Lemma escape_destination_first_maximal_witness :
  (escapes floatDefaults 470 320 hostExample attached = true /\
   inEnvelope floatDefaults hostExample
     (jumpTargetX (state (escapeFrom floatDefaults 470 320 hostExample attached)),
      jumpTargetY (state (escapeFrom floatDefaults 470 320 hostExample attached)))
   = true)%float.
Proof.
  assert (He : (escapes floatDefaults 470 320 hostExample attached = true)%float)
    by (vm_compute; reflexivity).
  split; [exact He|].
  destruct (escape_destination_first_maximal F.cos_table F.sin_table floatDefaults
              470%float 320%float hostExample attached He)
    as (_ & _ & _ & [(l1 & a & l2 & _ & _ & _ & _ & _ & Hin)|[Hd _]]).
  - apply Hin; vm_compute; reflexivity.
  - etransitivity; [exact (f_equal (inEnvelope floatDefaults hostExample) Hd)|].
    vm_compute; reflexivity.
Defined.

(** Rounding decides between candidates whose exact displacements are
    equal.  With the pointer at (453, 322), 7px left of and 2px below the
    centre, the candidates at angle 0 and at pi both move the button by
    [escapeDistance] = 280 in exact arithmetic; the code computes 280 for
    the first and 280.00000000000006 for the last, and jumps to the last,
    across the pointer. *)
Lemma rounding_breaks_the_tie :
  (escapes floatDefaults 453 322 hostExample attached = true /\
   let dest :=
     (jumpTargetX (state (escapeFrom floatDefaults 453 322 hostExample attached)),
      jumpTargetY (state (escapeFrom floatDefaults 453 322 hostExample attached))) in
   let dir := escapeDirection 453 322 hostExample in
   let first := candidate floatDefaults 0 0 (fst dir) (snd dir) 520 (-0x1.8c00000000001p+8) 180 0 in
   let last := candidate floatDefaults 0 0 (fst dir) (snd dir) 520 (-0x1.8c00000000001p+8) 180 F.PI in
   envelope floatDefaults hostExample = (520, -0x1.8c00000000001p+8, 180) /\
   dest = last /\
   distance 0 0 (fst first) (snd first) = 280 /\
   (280 <? distance 0 0 (fst last) (snd last)) = true /\
   (0 <? fst first) = true /\ (fst last <? 0) = true)%float.
Proof.
  split; [vm_compute; reflexivity|]. cbv zeta.
  repeat (split; [vm_compute; reflexivity|]). vm_compute; reflexivity.
Qed.

(** A triggered escape never produces a destination that is not a number:
    on binary64, with any [Math.cos] and [Math.sin] and any options, host
    values and pointer position (infinite or NaN ones included), if the
    current position is not NaN then neither coordinate of the jump target
    is.  A candidate with a NaN coordinate has a NaN displacement, and no
    comparison selects it. *)
Theorem escape_destination_is_a_number :
  forall (cos sin : float -> float) (opts : Options float)
         (mouseX mouseY : float) (h : Host float) (w : World float),
    escapes (H := FloatNumberWith cos sin) opts mouseX mouseY h w = true ->
    PrimFloat.is_nan (currentX (state w)) = false ->
    PrimFloat.is_nan (currentY (state w)) = false ->
    PrimFloat.is_nan
      (jumpTargetX (state (escapeFrom (H := FloatNumberWith cos sin)
                             opts mouseX mouseY h w))) = false /\
    PrimFloat.is_nan
      (jumpTargetY (state (escapeFrom (H := FloatNumberWith cos sin)
                             opts mouseX mouseY h w))) = false.
Proof.
  intros cos sin opts mouseX mouseY h w He Hx Hy.
  destruct (escapeFrom_destination (H := FloatNumberWith cos sin)
              opts mouseX mouseY h w He) as [Ex Ey].
  rewrite Ex, Ey. unfold bestDestination.
  destruct (envelope (H := FloatNumberWith cos sin) opts h) as [[maxX minY] maxY].
  destruct (escapeDirection (H := FloatNumberWith cos sin) mouseX mouseY h)
    as [dx dy].
  destruct (float_best_is_candidate cos sin opts (currentX (state w))
              (currentY (state w)) dx dy maxX minY maxY
              (angles (H := FloatNumberWith cos sin)))
    as [Hr|(a & Hr & Hd)]; cbv zeta in Hr.
  - split.
    + exact (eq_trans (f_equal (fun p => PrimFloat.is_nan (fst p)) Hr) Hx).
    + exact (eq_trans (f_equal (fun p => PrimFloat.is_nan (snd p)) Hr) Hy).
  - destruct (float_candidate_not_nan cos sin opts _ _ _ _ _ _ _ a
                (proj2 (ltb_not_nan _ _ Hd))) as [Cx Cy].
    split.
    + exact (eq_trans (f_equal (fun p => PrimFloat.is_nan (fst p)) Hr) Cx).
    + exact (eq_trans (f_equal (fun p => PrimFloat.is_nan (snd p)) Hr) Cy).
Qed.

(** The button of [narrowHost], whose envelope is empty, still gets a
    destination that is a number. *)
Lemma escape_destination_is_a_number_witness :
  PrimFloat.is_nan
    (jumpTargetX (state (escapeFrom floatDefaults 150%float 320%float
                           narrowHost attached))) = false /\
  PrimFloat.is_nan
    (jumpTargetY (state (escapeFrom floatDefaults 150%float 320%float
                           narrowHost attached))) = false.
Proof.
  apply (escape_destination_is_a_number F.cos_table F.sin_table floatDefaults
           150%float 320%float narrowHost attached); vm_compute; reflexivity.
Defined.

(** *** The easing of a jump frame (C6) *)

Section JumpStep.

Context {num : Type} `{Number num}.
Variable opts : Options num.

(** The easing leaves the height of the jump alone. *)
Lemma landed_jumpEase (s : State num) : landed (jumpEase s) = landed s.
Proof. unfold jumpEase. destruct (ltb _ _); reflexivity. Qed.

(** The position after the easing step. *)
Lemma jumpEase_position (s : State num) :
  let dx := sub (jumpTargetX s) (currentX s) in
  let dy := sub (jumpTargetY s) (currentY s) in
  let dist := Math_sqrt (add (mul dx dx) (mul dy dy)) in
  let moveAmount := Math_max (mul dist HORIZONTAL_LERP) (Math_min (ofZ 15) dist) in
  (currentX (jumpEase s), currentY (jumpEase s))
  = if ltb (ofZ 1) dist
    then (add (currentX s) (mul dx (div moveAmount dist)),
          add (currentY s) (mul dy (div moveAmount dist)))
    else (jumpTargetX s, jumpTargetY s).
Proof.
  cbv zeta. unfold jumpEase. destruct (ltb _ _); reflexivity.
Qed.

(** The state a jump frame leaves: the eased state in flight, the landed
    one on landing. *)
Lemma jumpAnimate_state ts (w : World num) :
  state (jumpAnimate opts ts w)
  = if landed (jumpFall ts (state w))
    then set_lastJumpTime (ofZ 0)
           (set_isJumping false (jumpLand (jumpEase (jumpFall ts (state w)))))
    else jumpEase (jumpFall ts (state w)).
Proof.
  unfold jumpAnimate. rewrite landed_jumpEase.
  destruct w as [s wa wj wr wt q li oc ck nh tm fr ls ih ec cs ld tx tv es cc].
  cbn [state].
  destruct (landed (jumpFall ts s)); [|reflexivity].
  destruct (showShadow opts), (screenShake opts); reflexivity.
Qed.

End JumpStep.

(** C6, as stated, fails.  On binary64, 5 units from the jump target the
    distance exceeds 1, yet the step is 5 units long and ends on the target;
    max(15, 5 x 0.18) is 15. *)
Lemma jump_step_shorter_than_15 :
 (PrimFloat.ltb 1 (distance 0 0 5 0) = true /\
  currentX (jumpEase (midJump 0 0 5 0)) = 5%float /\
  currentY (jumpEase (midJump 0 0 5 0)) = 0%float /\
  distance 0 0 (currentX (jumpEase (midJump 0 0 5 0)))
               (currentY (jumpEase (midJump 0 0 5 0))) = 5%float /\
  Math_max 15 (PrimFloat.mul (distance 0 0 5 0) HORIZONTAL_LERP) = 15%float /\
  PrimFloat.eqb
    (distance 0 0 (currentX (jumpEase (midJump 0 0 5 0)))
                  (currentY (jumpEase (midJump 0 0 5 0))))
    (Math_max 15 (PrimFloat.mul (distance 0 0 5 0) HORIZONTAL_LERP)) = false)%float.
Proof. repeat (split; [vm_compute; reflexivity|]). vm_compute; reflexivity. Qed.

(** Where the step is not capped its length is the formula's only up to
    rounding: from (0, 0) towards (100, -50) the distance is
    111.80339887498948 and [moveAmount] is 20.124611797498105; the button
    moves to (18, -9) and the distance from the start to that position, as
    the code would compute it, is 20.124611797498108. *)
Lemma jump_step_is_rounded :
 (let s := jumpEase (midJump 0 0 100 (-50)) in
  let d := distance 0 0 100 (-50) in
  (1 <? d) = true /\
  Math_max (d * HORIZONTAL_LERP) (Math_min 15 d) = 0x1.41fe68f0af33cp+4 /\
  currentX s = 18 /\ currentY s = -9 /\
  distance 0 0 (currentX s) (currentY s) = 0x1.41fe68f0af33dp+4 /\
  (Math_max (d * HORIZONTAL_LERP) (Math_min 15 d)
   <? distance 0 0 (currentX s) (currentY s)) = true)%float.
Proof.
  cbv zeta. repeat (split; [vm_compute; reflexivity|]). vm_compute; reflexivity.
Qed.

(** C6, amended, for every number instance; on binary64 every operation
    below is the rounded one.  Let [d] be the distance from the position to
    the jump target as the frame computes it, and
    [moveAmount = max (d * 0.18) (min 15 d)]: the minimum step of 15 is
    capped by the remaining distance.  A frame lands when, after its
    gravity update, [z <= 0] and [zVelocity < 0].  On a frame that does
    not land: when [d > 1] each coordinate moves by its difference to the
    target times [moveAmount / d]; otherwise (also when [d] is NaN) the
    position is set to the jump target.  On the frame that lands the
    position is set to the jump target whatever the distance. *)
Theorem jump_step_is_capped_by_distance :
  forall (num : Type) (NumOps : Number num) (opts : Options num)
         (timestamp : num) (w : World num),
    let s := state w in
    let dx := sub (jumpTargetX s) (currentX s) in
    let dy := sub (jumpTargetY s) (currentY s) in
    let d := Math_sqrt (add (mul dx dx) (mul dy dy)) in
    let moveAmount := Math_max (mul d (dec 18 100)) (Math_min (ofZ 15) d) in
    let fall := jumpFall timestamp s in
    let lands := leb (z fall) (ofZ 0) && ltb (zVelocity fall) (ofZ 0) in
    let after := state (jumpAnimate opts timestamp w) in
    (lands = false -> ltb (ofZ 1) d = true ->
       currentX after = add (currentX s) (mul dx (div moveAmount d)) /\
       currentY after = add (currentY s) (mul dy (div moveAmount d)) /\
       isJumping after = isJumping s) /\
    (lands = false -> ltb (ofZ 1) d = false ->
       currentX after = jumpTargetX s /\ currentY after = jumpTargetY s /\
       isJumping after = isJumping s) /\
    (lands = true ->
       currentX after = jumpTargetX s /\ currentY after = jumpTargetY s /\
       isJumping after = false).
Proof.
  intros num NumOps opts ts w s dx dy d moveAmount fall lands after.
  assert (Hs : after = if lands
                       then set_lastJumpTime (ofZ 0)
                              (set_isJumping false (jumpLand (jumpEase fall)))
                       else jumpEase fall)
    by apply jumpAnimate_state.
  pose proof (jumpEase_position fall) as Hp. cbv zeta in Hp.
  change (jumpTargetX fall) with (jumpTargetX s) in Hp.
  change (jumpTargetY fall) with (jumpTargetY s) in Hp.
  change (currentX fall) with (currentX s) in Hp.
  change (currentY fall) with (currentY s) in Hp.
  fold dx dy in Hp. fold d in Hp.
  change (Math_max (mul d HORIZONTAL_LERP) (Math_min (ofZ 15) d)) with moveAmount in Hp.
  assert (Hj : isJumping (jumpEase fall) = isJumping s)
    by exact (isJumping_jumpEase fall).
  assert (Ht : jumpTargetX (jumpEase fall) = jumpTargetX s /\
               jumpTargetY (jumpEase fall) = jumpTargetY s)
    by exact (jumpTarget_jumpEase fall).
  split; [|split].
  - intros Hl Hd. rewrite Hs, Hl. rewrite Hd in Hp.
    injection Hp as Hx Hy. split; [exact Hx|]. split; [exact Hy|exact Hj].
  - intros Hl Hd. rewrite Hs, Hl. rewrite Hd in Hp.
    injection Hp as Hx Hy. split; [exact Hx|]. split; [exact Hy|exact Hj].
  - intros Hl. rewrite Hs, Hl. destruct Ht as [Tx Ty].
    split; [exact Tx|]. split; [exact Ty|reflexivity].
Qed.

(** The first frame of a jump from (0, 0) to (100, -50) on binary64: the
    button moves to (18, -9). *)
Lemma jump_step_is_capped_by_distance_witness :
  (currentX (state (jumpAnimate floatDefaults 1016
                      (upd (fun _ => midJump 0 0 100 (-50)) attached))) = 18 /\
   currentY (state (jumpAnimate floatDefaults 1016
                      (upd (fun _ => midJump 0 0 100 (-50)) attached))) = -9)%float.
Proof.
  destruct (proj1 (jump_step_is_capped_by_distance float FloatNumber floatDefaults
                     1016%float (upd (fun _ => midJump 0 0 100 (-50))%float attached)))
    as (Hx & Hy & _).
  - vm_compute; reflexivity.
  - vm_compute; reflexivity.
  - split.
    + etransitivity; [exact Hx|vm_compute; reflexivity].
    + etransitivity; [exact Hy|vm_compute; reflexivity].
Defined.

(** *** The spring of a return (C7) *)

Section SpringFrames.

Context {num : Type} `{Number num}.
Variable opts : Options num.
Variable content : string.

Lemma deliverSpringFrames_add n m (w : World num) :
  deliverSpringFrames opts (n + m) w
  = match deliverSpringFrames opts n w with
    | Some w' => deliverSpringFrames opts m w'
    | None => None
    end.
Proof.
  revert w. induction n as [|n IH]; intros w; [reflexivity|].
  cbn [Nat.add deliverSpringFrames].
  destruct (deliverSpringFrame opts w); [apply IH|reflexivity].
Qed.

(** What one spring frame computes. *)
Lemma springStep_fields (s : State num) :
  let dx := sub (targetX s) (currentX s) in
  let dy := sub (targetY s) (currentY s) in
  let vx := mul (add (velocityX s) (div (mul dx (ofZ 120)) (ofZ 1000)))
                (sub (ofZ 1) (div (ofZ 28) (ofZ 100))) in
  let vy := mul (add (velocityY s) (div (mul dy (ofZ 120)) (ofZ 1000)))
                (sub (ofZ 1) (div (ofZ 28) (ofZ 100))) in
  velocityX (springStep s) = vx /\ velocityY (springStep s) = vy /\
  currentX (springStep s) = add (currentX s) vx /\
  currentY (springStep s) = add (currentY s) vy /\
  targetX (springStep s) = targetX s /\ targetY (springStep s) = targetY s /\
  isReturning (springStep s) = isReturning s /\
  springSettled s (springStep s)
  = ltb (Math_sqrt (add (mul vx vx) (mul vy vy))) (dec 1 10)
    && ltb (Math_sqrt (add (mul dx dx) (mul dy dy))) (dec 5 10).
Proof. cbv zeta. repeat split. Qed.

(** A spring frame of a return, whatever else the world holds. *)
Lemma springAnimate_returning (w : World num) :
  isReturning (state w) = true ->
  if springSettled (state w) (springStep (state w))
  then state (springAnimate w) = springSnap (springStep (state w)) /\
       animationFrame (springAnimate w) = None /\
       frames (springAnimate w) = frames w
  else state (springAnimate w) = springStep (state w) /\
       animationFrame (springAnimate w) = Some (nextHandle w) /\
       frames (springAnimate w) = frames w ++ [(nextHandle w, SpringFrame)].
Proof.
  intros Hr.
  destruct w as [s wa wj wr wt q li oc ck nh tm fr ls ih ec cs ld tx tv es cc].
  cbn [state] in *. unfold springAnimate. cbn [state].
  assert (Hr' : isReturning (springStep s) = true) by exact Hr.
  rewrite Hr'. cbn [andb].
  destruct (springSettled s (springStep s)); wsimpl; repeat split.
Qed.

(** A spring frame that the host delivers in a reachable world: the frame
    of a return in progress, which either settles and leaves no spring frame
    pending, or requests exactly one more. *)
Lemma spring_frame_effects (w : World num) (t : Z) (id : handle) (ts : num) :
  Reachable opts content w -> In (id, SpringFrame) (frames w) ->
  (clock w <= t)%Z ->
  isReturning (state w) = true /\
  exists w', dispatch opts t (AnimationFrame id ts) w = Some w' /\
    (springSettled (state w) (springStep (state w)) = true ->
       state w' = springSnap (springStep (state w)) /\
       animationFrame w' = None /\ pendingFrames SpringFrame w' = []) /\
    (springSettled (state w) (springStep (state w)) = false ->
       state w' = springStep (state w) /\
       exists k, animationFrame w' = Some k /\ pendingFrames SpringFrame w' = [k]).
Proof.
  intros Hreach Hin Hclk.
  pose proof (Reachable_Consistent opts content w Hreach) as Hc.
  pose proof (Reachable_Tracked opts content w Hreach) as Ht.
  destruct (Reachable_Live opts content w Hreach) as [_ [_ Hsf]].
  pose proof (Hsf id Hin) as Hr.
  split; [exact Hr|].
  pose proof (lookup_handle_distinct _ id (frames w) SpringFrame
                (frames_distinct Ht) Hin) as Hl.
  assert (Hd : dispatch opts t (AnimationFrame id ts) w
               = Some (springAnimate (set_frames (remove_handle id (frames w))
                                        (set_clock t w)))).
  { rewrite (dispatch_listening opts t (AnimationFrame id ts) w Hclk), Hl.
    reflexivity. }
  eexists. split; [exact Hd|].
  pose proof (Reachable_step opts content t _ w _ Hreach Hd) as Hreach'.
  pose proof (Reachable_Consistent opts content _ Hreach') as Hc'.
  pose proof (Reachable_Tracked opts content _ Hreach') as Ht'.
  set (w1 := set_frames (remove_handle id (frames w)) (set_clock t w)) in *.
  assert (Hr1 : isReturning (state w1) = true) by exact Hr.
  pose proof (springAnimate_returning w1 Hr1) as Hs.
  change (springSettled (state w1) (springStep (state w1)))
    with (springSettled (state w) (springStep (state w))) in Hs.
  change (springStep (state w1)) with (springStep (state w)) in Hs.
  destruct (springSettled (state w) (springStep (state w))).
  - destruct Hs as (S1 & S2 & S3).
    split; [|discriminate]. intros _.
    split; [exact S1|]. split; [exact S2|].
    apply pendingFrames_none. intros k Hk.
    pose proof (spring_tracked Hc' _ Hk) as Hsome.
    rewrite S2 in Hsome. discriminate Hsome.
  - destruct Hs as (S1 & S2 & S3).
    split; [discriminate|]. intros _.
    split; [exact S1|].
    exists (nextHandle w1).
    apply (pending_spring_is opts content _ _ Hc' Ht').
    rewrite S3. apply in_or_app. right. now left.
Qed.

End SpringFrames.

Section NaNSpring.

Local Open Scope float_scope.

Variables cos sin : float -> float.
Variable opts : Options float.

(** A velocity that is NaN stays NaN, and the spring is not settled. *)
Lemma springStep_nan (s : State float) :
  PrimFloat.is_nan (velocityX s) = true ->
  PrimFloat.is_nan (velocityX (springStep (H := FloatNumberWith cos sin) s)) = true /\
  springSettled (H := FloatNumberWith cos sin) s
    (springStep (H := FloatNumberWith cos sin) s) = false.
Proof.
  intros Hv.
  assert (Hx : PrimFloat.is_nan
                 (velocityX (springStep (H := FloatNumberWith cos sin) s)) = true).
  { destruct (springStep_fields (H := FloatNumberWith cos sin) s) as [E _].
    cbv zeta in E. rewrite E. cbn [mul add FloatNumberWith].
    apply mul_nan_l, add_nan_l, Hv. }
  split; [exact Hx|].
  unfold springSettled. cbn [ltb Math_sqrt mul add FloatNumberWith].
  rewrite (ltb_nan_l _ _ (sqrt_nan _ (add_nan_l _ _ (mul_nan_l _ _ Hx)))).
  reflexivity.
Qed.

(** With a NaN velocity and its one spring frame pending, the return goes on
    for ever. *)
Lemma nan_spring_never_stops (n : nat) :
  forall w : World float,
    isReturning (state w) = true ->
    PrimFloat.is_nan (velocityX (state w)) = true ->
    (exists id, frames w = [(id, SpringFrame)]) ->
    exists w',
      deliverSpringFrames (H := FloatNumberWith cos sin) opts n w = Some w' /\
      isReturning (state w') = true /\
      PrimFloat.is_nan (velocityX (state w')) = true /\
      exists id, frames w' = [(id, SpringFrame)].
Proof.
  induction n as [|n IH]; intros w Hr Hv (id & Hf).
  - exists w. split; [reflexivity|]. split; [exact Hr|]. split; [exact Hv|].
    now exists id.
  - destruct w as [s wa wj wr wt q li oc ck nh tm fr ls ih ec cs ld tx tv es cc].
    cbn [state frames] in Hr, Hv, Hf. subst fr.
    cbn [deliverSpringFrames]. unfold deliverSpringFrame, pendingFrames.
    cbn [frames filter snd sameFrame map fst clock].
    unfold dispatch. cbn [clock].
    destruct (Z.ltb_spec (ck + 16) ck) as [Hlt|_]; [lia|].
    cbv zeta. cbn [frames set_clock lookup_handle fst]. rewrite Nat.eqb_refl.
    unfold remove_handle. cbn [filter fst]. rewrite Nat.eqb_refl. cbn [negb runFrame].
    match goal with
    | |- context [springAnimate ?w0] => set (w1 := w0)
    end.
    assert (Hr1 : isReturning (state w1) = true) by exact Hr.
    pose proof (springAnimate_returning (H := FloatNumberWith cos sin) w1 Hr1) as Hs.
    destruct (springStep_nan (state w1) Hv) as [Hx Hns].
    rewrite Hns in Hs. destruct Hs as (S1 & _ & S3).
    apply IH.
    + rewrite S1. exact Hr.
    + rewrite S1. exact Hx.
    + exists (nextHandle w1). rewrite S3. reflexivity.
Qed.

End NaNSpring.

Lemma overflowStart_reachable : Reachable hugeOptions "Click me" overflowStart.
Proof.
  apply (Reachable_worldAfter hugeOptions "Click me" attachTime picksIdentity
           jumpThenReturn overflowStart).
  vm_compute. reflexivity.
Qed.

Lemma returnStart_reachable : Reachable floatDefaults "Click me" returnStart.
Proof.
  apply (Reachable_worldAfter floatDefaults "Click me" attachTime picksIdentity
           jumpThenReturn returnStart).
  vm_compute. reflexivity.
Qed.

(** ** The rounding of binary64, on integers *)

Section RoundingZ.

Local Open Scope Z_scope.

Local Abbreviation fexp := (SpecFloat.fexp prec emax).
Local Abbreviation emin := (SpecFloat.emin prec emax).

Lemma fexp_spec (z : Z) : fexp z = Z.max (z - 53) (-1074).
Proof. reflexivity. Qed.

Lemma digits2_pos_bounds (p : positive) :
  2 ^ (Zpos (digits2_pos p) - 1) <= Zpos p < 2 ^ Zpos (digits2_pos p).
Proof.
  induction p as [p IH|p IH|]; cbn [digits2_pos].
  - rewrite Pos2Z.inj_succ.
    replace (Z.succ (Zpos (digits2_pos p)) - 1) with (Z.succ (Zpos (digits2_pos p) - 1))
      by lia.
    rewrite !Z.pow_succ_r by lia. lia.
  - rewrite Pos2Z.inj_succ.
    replace (Z.succ (Zpos (digits2_pos p)) - 1) with (Z.succ (Zpos (digits2_pos p) - 1))
      by lia.
    rewrite !Z.pow_succ_r by lia. lia.
  - simpl. lia.
Qed.

(** The number of binary digits of a natural number. *)
Lemma Zdigits2_bounds (a : Z) :
  0 <= a ->
  0 <= Zdigits2 a /\ a < 2 ^ Zdigits2 a /\ (0 < a -> 2 ^ (Zdigits2 a - 1) <= a).
Proof.
  intros Ha. destruct a as [|p|p]; [simpl; lia| |lia].
  cbn [Zdigits2]. pose proof (digits2_pos_bounds p). lia.
Qed.

Lemma Zdigits2_le_of_lt (a n : Z) : 0 <= a -> 0 <= n -> a < 2 ^ n -> Zdigits2 a <= n.
Proof.
  intros Ha Hn Hlt. destruct (Zdigits2_bounds a Ha) as (H0 & _ & Hlow).
  destruct (Z.eq_dec a 0) as [->|Hne]; [simpl; lia|].
  specialize (Hlow ltac:(lia)).
  destruct (Z_le_gt_dec (Zdigits2 a) n) as [|Hgt]; [assumption|].
  assert (2 ^ n <= 2 ^ (Zdigits2 a - 1)) by (apply Z.pow_le_mono_r; lia).
  lia.
Qed.

Lemma Zdigits2_succ (a : Z) : 0 <= a -> Zdigits2 (a + 1) <= Zdigits2 a + 1.
Proof.
  intros Ha. destruct (Zdigits2_bounds a Ha) as (H0 & Hup & _).
  apply Zdigits2_le_of_lt; [lia|lia|].
  rewrite Z.pow_add_r by lia. lia.
Qed.

Lemma Zdigits2_div (a n : Z) :
  0 <= a -> 0 <= n -> Zdigits2 (a / 2 ^ n) <= Z.max 0 (Zdigits2 a - n).
Proof.
  intros Ha Hn. destruct (Zdigits2_bounds a Ha) as (H0 & Hup & _).
  assert (Hp : 0 < 2 ^ n) by (apply Z.pow_pos_nonneg; lia).
  apply Zdigits2_le_of_lt; [apply Z.div_pos; lia|lia|].
  apply Z.div_lt_upper_bound; [lia|].
  destruct (Z_le_gt_dec n (Zdigits2 a)) as [Hle|Hgt].
  - rewrite Z.max_r by lia. rewrite <- Z.pow_add_r by lia.
    replace (n + (Zdigits2 a - n)) with (Zdigits2 a) by lia. exact Hup.
  - rewrite Z.max_l by lia. rewrite Z.pow_0_r, Z.mul_1_r.
    assert (2 ^ Zdigits2 a <= 2 ^ n) by (apply Z.pow_le_mono_r; lia). lia.
Qed.

(** One shift to the right halves the mantissa. *)
Lemma shr_1_m (mrs : shr_record) :
  0 <= shr_m mrs -> shr_m (shr_1 mrs) = shr_m mrs / 2.
Proof.
  destruct mrs as [m r s]. cbn [shr_m]. intros Hm.
  rewrite <- Z.div2_div.
  destruct m as [|[p|p|]|p]; try reflexivity; lia.
Qed.

Lemma iter_pos_shr_m (p : positive) :
  forall mrs, 0 <= shr_m mrs ->
    shr_m (iter_pos shr_1 p mrs) = shr_m mrs / 2 ^ Zpos p.
Proof.
  induction p as [p IH|p IH|]; intros mrs Hm; cbn [iter_pos].
  - assert (H1 : 0 <= shr_m (shr_1 mrs))
      by (rewrite shr_1_m by exact Hm; apply Z.div_pos; lia).
    assert (Hp : 0 < 2 ^ Zpos p) by (apply Z.pow_pos_nonneg; lia).
    assert (H2 : 0 <= shr_m (iter_pos shr_1 p (shr_1 mrs)))
      by (rewrite IH by exact H1; apply Z.div_pos; lia).
    rewrite IH by exact H2. rewrite IH by exact H1. rewrite shr_1_m by exact Hm.
    rewrite !Z.div_div by lia.
    assert (Hpow : 2 ^ Zpos p~1 = 2 * 2 ^ Zpos p * 2 ^ Zpos p).
    { assert (Zpos p~1 = 1 + Zpos p + Zpos p) as -> by lia.
      rewrite !Z.pow_add_r by lia. rewrite Z.pow_1_r. ring. }
    rewrite Hpow. f_equal; ring.
  - assert (Hp : 0 < 2 ^ Zpos p) by (apply Z.pow_pos_nonneg; lia).
    assert (H2 : 0 <= shr_m (iter_pos shr_1 p mrs))
      by (rewrite IH by exact Hm; apply Z.div_pos; lia).
    rewrite IH by exact H2. rewrite IH by exact Hm.
    rewrite !Z.div_div by lia.
    assert (Hpow : 2 ^ Zpos p~0 = 2 ^ Zpos p * 2 ^ Zpos p).
    { assert (Zpos p~0 = Zpos p + Zpos p) as -> by lia.
      rewrite !Z.pow_add_r by lia. ring. }
    rewrite Hpow. f_equal; ring.
  - rewrite shr_1_m by exact Hm. reflexivity.
Qed.

Lemma shr_record_of_loc_m (m : Z) (l : location) : shr_m (shr_record_of_loc m l) = m.
Proof. destruct l as [|[| |]]; reflexivity. Qed.

(** The shift that brings a mantissa to the exponent of its format. *)
Lemma shr_fexp_spec (m e : Z) (l : location) :
  0 <= m ->
  let E := Z.max e (fexp (Zdigits2 m + e)) in
  snd (shr_fexp prec emax m e l) = E /\
  shr_m (fst (shr_fexp prec emax m e l)) = m / 2 ^ (E - e) /\
  (E = e -> fst (shr_fexp prec emax m e l) = shr_record_of_loc m l).
Proof.
  intros Hm E. unfold shr_fexp, shr.
  change (IntDef.Z.sub ?a ?b) with (Z.sub a b).
  change (IntDef.Z.add ?a ?b) with (Z.add a b).
  fold E.
  destruct (fexp (Zdigits2 m + e) - e) as [|p|p] eqn:En; cbn [fst snd].
  - assert (HE : E = e) by (unfold E; lia).
    rewrite HE, Z.sub_diag, Z.pow_0_r, Z.div_1_r, shr_record_of_loc_m. auto.
  - assert (HE : E = e + Zpos p) by (unfold E; lia).
    change (IntDef.Z.add e (Zpos p)) with (e + Zpos p).
    split; [lia|]. split; [|lia].
    rewrite iter_pos_shr_m by (rewrite shr_record_of_loc_m; exact Hm).
    rewrite shr_record_of_loc_m. f_equal. f_equal. lia.
  - assert (HE : E = e) by (unfold E; lia).
    rewrite HE, Z.sub_diag, Z.pow_0_r, Z.div_1_r, shr_record_of_loc_m. auto.
Qed.

Lemma round_nearest_even_range (m : Z) (l : location) :
  m <= round_nearest_even m l <= m + 1.
Proof.
  unfold round_nearest_even.
  change (IntDef.Z.add ?a ?b) with (Z.add a b).
  destruct l as [|[| |]]; try lia. destruct (Z.even m); lia.
Qed.

Lemma fexp_le (a b : Z) : a <= b -> fexp a <= fexp b.
Proof. rewrite !fexp_spec. lia. Qed.

(** Rounding a located mantissa: the result is the mantissa shifted to the
    exponent [E] of its format, at most one unit away, and once more shifted
    by one digit when the rounding carried. *)
Lemma binary_round_aux_spec (sx : bool) (mx ex : Z) (lx : location) :
  0 <= mx ->
  let E := Z.max ex (fexp (Zdigits2 mx + ex)) in
  E + 1 <= 971 ->
  exists m k,
    0 <= m /\ (k = 0 \/ k = 1) /\
    binary_round_aux prec emax sx mx ex lx =
      match m with
      | Z0 => S754_zero sx
      | Zpos p => S754_finite sx p (E + k)
      | Zneg _ => S754_nan
      end /\
    mx / 2 ^ (E - ex) - 1 <= m * 2 ^ k <= mx / 2 ^ (E - ex) + 1 /\
    (lx = loc_Exact -> E = ex -> m = mx /\ k = 0).
Proof.
  intros Hm E HE.
  destruct (shr_fexp_spec mx ex lx Hm) as (S1 & S2 & S3). fold E in S1, S2, S3.
  unfold binary_round_aux.
  destruct (shr_fexp prec emax mx ex lx) as [mrs' e'] eqn:E1. cbn [fst snd] in S1, S2, S3.
  subst e'.
  set (m' := mx / 2 ^ (E - ex)) in *.
  assert (Hm' : 0 <= m').
  { apply Z.div_pos; [exact Hm|]. apply Z.pow_pos_nonneg; unfold E; lia. }
  set (mr := round_nearest_even (shr_m mrs') (loc_of_shr_record mrs')).
  assert (Hmr : m' <= mr <= m' + 1).
  { unfold mr. rewrite <- S2. apply round_nearest_even_range. }
  assert (Hmr0 : 0 <= mr) by lia.
  destruct (shr_fexp_spec mr E loc_Exact Hmr0) as (T1 & T2 & T3).
  destruct (shr_fexp prec emax mr E loc_Exact) as [mrs'' e''] eqn:E2.
  cbn [fst snd] in T1, T2, T3.
  set (E' := Z.max E (fexp (Zdigits2 mr + E))) in *.
  assert (Hd' : Zdigits2 m' <= Z.max 0 (Zdigits2 mx - (E - ex))).
  { apply Zdigits2_div; [exact Hm|unfold E; lia]. }
  assert (Hdr : Zdigits2 mr <= Zdigits2 m' + 1).
  { destruct (Z.eq_dec mr m') as [->|Hne]; [lia|].
    replace mr with (m' + 1) by lia. apply Zdigits2_succ. exact Hm'. }
  assert (HE' : E <= E' <= E + 1).
  { unfold E'. split; [lia|]. apply Z.max_lub; [lia|].
    assert (Hlt : Zdigits2 mr + E <= Z.max E (Zdigits2 mx + ex) + 1) by lia.
    apply fexp_le in Hlt. rewrite !fexp_spec in Hlt.
    assert (HEl : Z.max (Zdigits2 mx + ex - 53) (-1074) <= E)
      by (unfold E; rewrite fexp_spec; lia).
    rewrite fexp_spec. lia. }
  set (k := E' - E).
  assert (Hk : k = 0 \/ k = 1) by (unfold k; lia).
  set (m := mr / 2 ^ k).
  assert (Hmk : m * 2 ^ k <= mr <= m * 2 ^ k + 1 /\ 0 <= m).
  { unfold m. destruct Hk as [-> | ->].
    - rewrite Z.pow_0_r, Z.div_1_r. lia.
    - rewrite Z.pow_1_r. pose proof (Z.div_mod mr 2 ltac:(lia)).
      pose proof (Z.mod_pos_bound mr 2 ltac:(lia)).
      assert (0 <= mr / 2) by (apply Z.div_pos; lia). lia. }
  exists m, k. split; [lia|]. split; [exact Hk|]. split; [|split].
  - rewrite T2. fold k. fold m. subst e''.
    replace (E + k) with E' by (unfold k; lia).
    destruct m as [|p|p]; [reflexivity| |lia].
    change (IntDef.Z.sub emax prec) with 971.
    assert (Hle : (E' <=? 971) = true) by (apply Z.leb_le; lia).
    change (IntDef.Z.leb E' 971) with (E' <=? 971). rewrite Hle. reflexivity.
  - lia.
  - intros -> HEx.
    specialize (S3 HEx). subst mrs'. cbn in mr.
    assert (Hmr' : mr = mx) by reflexivity.
    assert (Hm1 : m' = mx) by (unfold m'; rewrite HEx, Z.sub_diag, Z.pow_0_r, Z.div_1_r; reflexivity).
    assert (HE0 : E' = E).
    { assert (Hfe : fexp (Zdigits2 mx + ex) <= ex)
        by (rewrite <- HEx at 2; unfold E; lia).
      unfold E'. rewrite Hmr', HEx. lia. }
    assert (k = 0) by (unfold k; lia).
    split; [|assumption]. unfold m. rewrite H, Z.pow_0_r, Z.div_1_r. exact Hmr'.
Qed.

End RoundingZ.

(** ** The rounding of binary64, on real numbers *)

Section RoundingR.

Local Open Scope R_scope.

Lemma pow2_pos (e : Z) : 0 < pow2 e.
Proof. apply powerRZ_lt. lra. Qed.

Lemma pow2_add (a b : Z) : pow2 (a + b) = pow2 a * pow2 b.
Proof. apply powerRZ_add. lra. Qed.

Lemma pow2_IZR (n : Z) : (0 <= n)%Z -> pow2 n = IZR (2 ^ n).
Proof.
  intros Hn. unfold pow2. rewrite <- (Z2Nat.id n Hn) at 1.
  rewrite <- pow_powerRZ, pow_IZR, Z2Nat.id by exact Hn. reflexivity.
Qed.

Lemma pow2_ge_1 (n : Z) : (0 <= n)%Z -> 1 <= pow2 n.
Proof.
  intros Hn. rewrite pow2_IZR by exact Hn. apply IZR_le.
  pose proof (Z.pow_pos_nonneg 2 n ltac:(lia) Hn). lia.
Qed.

Lemma pow2_le (a b : Z) : (a <= b)%Z -> pow2 a <= pow2 b.
Proof.
  intros Hab. replace b with (a + (b - a))%Z by lia. rewrite pow2_add.
  pose proof (pow2_pos a). pose proof (pow2_ge_1 (b - a) ltac:(lia)). nra.
Qed.

Lemma pow2_lt (a b : Z) : (a < b)%Z -> pow2 a < pow2 b.
Proof.
  intros Hab. replace b with (a + 1 + (b - a - 1))%Z by lia. rewrite !pow2_add.
  pose proof (pow2_pos a). pose proof (pow2_ge_1 (b - a - 1) ltac:(lia)).
  change (pow2 1) with (2 * 1). nra.
Qed.

Lemma pow2_lt_inv (a b : Z) : pow2 a < pow2 b -> (a < b)%Z.
Proof.
  intros Hlt. destruct (Z_lt_le_dec a b) as [|Hle]; [assumption|].
  pose proof (pow2_le b a Hle). lra.
Qed.

Lemma pow2_0 : pow2 0 = 1.
Proof. reflexivity. Qed.

Lemma pow2_succ (a : Z) : pow2 (a + 1) = 2 * pow2 a.
Proof. rewrite pow2_add. change (pow2 1) with (2 * 1). ring. Qed.

(** A mantissa with [d] binary digits. *)
Lemma Zdigits2_real (m e : Z) :
  (0 < m)%Z -> pow2 (Zdigits2 m + e - 1) <= IZR m * pow2 e < pow2 (Zdigits2 m + e).
Proof.
  intros Hm. destruct (Zdigits2_bounds m ltac:(lia)) as (H0 & Hup & Hlow).
  specialize (Hlow Hm).
  assert (Hd : (1 <= Zdigits2 m)%Z).
  { destruct (Z_le_gt_dec 1 (Zdigits2 m)) as [|Hgt]; [assumption|].
    assert (Zdigits2 m = 0)%Z as Hz by lia. rewrite Hz in Hup. simpl in Hup. lia. }
  replace (Zdigits2 m + e - 1)%Z with ((Zdigits2 m - 1) + e)%Z by lia.
  rewrite !pow2_add.
  rewrite (pow2_IZR (Zdigits2 m - 1)), (pow2_IZR (Zdigits2 m)) by lia.
  pose proof (pow2_pos e). apply IZR_le in Hlow. apply IZR_lt in Hup.
  split; nra.
Qed.

(** The exponent of the format, against the value. *)
Lemma fexp_real (m e : Z) :
  (0 < m)%Z ->
  pow2 (SpecFloat.fexp prec emax (Zdigits2 m + e))
  <= pow2 (-52) * (IZR m * pow2 e) + pow2 (-1074).
Proof.
  intros Hm. rewrite fexp_spec.
  destruct (Zdigits2_real m e Hm) as [Hlow _].
  pose proof (pow2_pos (-1074)). pose proof (pow2_pos (-52)).
  pose proof (pow2_pos (Zdigits2 m + e - 1)).
  destruct (Z.max_spec (Zdigits2 m + e - 53) (-1074)) as [[_ ->]|[_ ->]].
  - nra.
  - replace (Zdigits2 m + e - 53)%Z with (-52 + (Zdigits2 m + e - 1))%Z by lia.
    rewrite pow2_add. nra.
Qed.

(** Rounding a located value: the result is finite, has the sign asked for,
    and its magnitude is within two units of the exponent [E]. *)
Lemma round_aux_real (sx : bool) (mx ex : Z) (lx : location) (v : R) :
  (0 <= mx)%Z ->
  IZR mx * pow2 ex <= v < (IZR mx + 1) * pow2 ex ->
  let E := Z.max ex (SpecFloat.fexp prec emax (Zdigits2 mx + ex)) in
  (E + 1 <= 971)%Z ->
  exists V,
    SF2R (binary_round_aux prec emax sx mx ex lx) = (if sx then - V else V) /\
    SFsigned sx (binary_round_aux prec emax sx mx ex lx) /\
    0 <= V /\ Rabs (V - v) <= 2 * pow2 E /\
    (lx = loc_Exact -> E = ex -> V = IZR mx * pow2 ex).
Proof.
  intros Hm Hv E HE.
  destruct (binary_round_aux_spec sx mx ex lx Hm HE)
    as (m & k & Hm0 & Hk & Hres & Hb & Hex).
  fold E in Hres, Hb, Hex.
  exists (IZR m * pow2 (E + k)).
  assert (HP : 0 < pow2 E) by apply pow2_pos.
  assert (Hn : (0 <= E - ex)%Z) by (unfold E; lia).
  assert (H2n : (0 < 2 ^ (E - ex))%Z) by (apply Z.pow_pos_nonneg; lia).
  assert (HEe : pow2 E = pow2 ex * IZR (2 ^ (E - ex))).
  { rewrite <- pow2_IZR, <- pow2_add by lia. f_equal. lia. }
  assert (Hk2 : pow2 (E + k) = pow2 E * IZR (2 ^ k)).
  { rewrite pow2_add, (pow2_IZR k) by lia. reflexivity. }
  rewrite Hres. split; [|split; [|split; [|split]]].
  - destruct m as [|p|p]; [|reflexivity|lia].
    cbn [SF2R]. destruct sx; ring.
  - destruct m as [|p|p]; [reflexivity|reflexivity|lia].
  - apply Rmult_le_pos; [apply IZR_le; lia|]. apply Rlt_le, pow2_pos.
  - rewrite Hk2.
    pose proof (Z.div_mod mx (2 ^ (E - ex)) ltac:(lia)) as Hdm.
    pose proof (Z.mod_pos_bound mx (2 ^ (E - ex)) H2n) as Hmod.
    set (m' := (mx / 2 ^ (E - ex))%Z) in *.
    assert (L1 : IZR m' * pow2 E <= IZR mx * pow2 ex).
    { rewrite HEe.
      assert (IZR (m' * 2 ^ (E - ex)) <= IZR mx) by (apply IZR_le; lia).
      rewrite mult_IZR in H. pose proof (pow2_pos ex). nra. }
    assert (L2 : (IZR mx + 1) * pow2 ex <= (IZR m' + 1) * pow2 E).
    { rewrite HEe.
      assert (IZR (mx + 1) <= IZR ((m' + 1) * 2 ^ (E - ex))) by (apply IZR_le; lia).
      rewrite mult_IZR, !plus_IZR in H. pose proof (pow2_pos ex). nra. }
    assert (L3 : IZR m' - 1 <= IZR m * IZR (2 ^ k) <= IZR m' + 1).
    { rewrite <- mult_IZR. destruct Hb as [Hb1 Hb2].
      apply IZR_le in Hb1, Hb2. rewrite minus_IZR in Hb1. rewrite plus_IZR in Hb2.
      lra. }
    apply Rabs_le. split; nra.
  - intros Hl HEx. destruct (Hex Hl HEx) as [-> ->].
    rewrite Z.add_0_r, HEx. reflexivity.
Qed.

Lemma pow2_le_inv (a b : Z) : pow2 a <= pow2 b -> (a <= b)%Z.
Proof.
  intros Hle. destruct (Z_le_gt_dec a b) as [|Hgt]; [assumption|].
  pose proof (pow2_lt b a ltac:(lia)). lra.
Qed.

Lemma pow2_double (a : Z) : 2 * pow2 (a - 1) = pow2 a.
Proof. rewrite <- pow2_succ. f_equal. lia. Qed.

(** Rounding to nearest, as every operation of binary64 ends: below 2^900
    the result is finite, has the sign asked for, and is within the relative
    error 2^-51 and the absolute error 2^-1073 of the value. *)
Lemma round_real (sx : bool) (mx ex : Z) (lx : location) (v : R) :
  (0 <= mx)%Z ->
  IZR mx * pow2 ex <= v < (IZR mx + 1) * pow2 ex ->
  v < pow2 900 ->
  ((0 < mx)%Z /\ lx = loc_Exact /\ v = IZR mx * pow2 ex) \/
  pow2 ex <= pow2 (-52) * v + pow2 (-1074) ->
  exists V,
    SF2R (binary_round_aux prec emax sx mx ex lx) = (if sx then - V else V) /\
    SFsigned sx (binary_round_aux prec emax sx mx ex lx) /\
    0 <= V /\ Rabs (V - v) <= pow2 (-51) * v + pow2 (-1073).
Proof.
  intros Hm Hv Hlt Hcase.
  set (E := Z.max ex (SpecFloat.fexp prec emax (Zdigits2 mx + ex))).
  assert (Hv0 : 0 <= v).
  { destruct Hv as [Hv _]. pose proof (pow2_pos ex).
    assert (0 <= IZR mx) by (apply IZR_le; lia). nra. }
  assert (Hd : (0 < mx)%Z -> (Zdigits2 mx + ex <= 900)%Z).
  { intros Hpos. destruct (Zdigits2_real mx ex Hpos) as [Hlow _].
    assert (Hl : pow2 (Zdigits2 mx + ex - 1) < pow2 900) by lra.
    apply pow2_lt_inv in Hl. lia. }
  assert (Hd1 : (0 < mx)%Z -> (1 <= Zdigits2 mx)%Z).
  { intros Hpos. destruct mx as [|p|p]; try lia. cbn [Zdigits2]. lia. }
  assert (Hb : pow2 (-52) * v + pow2 (-1074) < pow2 849).
  { pose proof (pow2_pos (-52)).
    assert (pow2 (-52) * v <= pow2 (-52) * pow2 900) by nra.
    rewrite <- pow2_add in H0. change (-52 + 900)%Z with 848%Z in H0.
    pose proof (pow2_lt (-1074) 848 ltac:(lia)).
    rewrite <- (pow2_double 849). change (849 - 1)%Z with 848%Z. lra. }
  assert (HE : (E + 1 <= 971)%Z).
  { unfold E. rewrite fexp_spec.
    destruct Hcase as [(Hpos & _ & _)|Hex].
    - specialize (Hd Hpos). specialize (Hd1 Hpos). lia.
    - assert (Hl : pow2 ex < pow2 849) by lra. apply pow2_lt_inv in Hl.
      destruct (Z.eq_dec mx 0) as [->|Hne].
      + cbn [Zdigits2]. lia.
      + specialize (Hd ltac:(lia)). lia. }
  destruct (round_aux_real sx mx ex lx v Hm Hv HE) as (V & HV & Hs & HV0 & Herr & Hexact).
  fold E in Herr, Hexact.
  exists V. split; [exact HV|]. split; [exact Hs|]. split; [exact HV0|].
  rewrite <- (pow2_double (-51)), <- (pow2_double (-1073)).
  change (-51 - 1)%Z with (-52)%Z. change (-1073 - 1)%Z with (-1074)%Z.
  assert (Hfe : (0 < mx)%Z ->
                pow2 (SpecFloat.fexp prec emax (Zdigits2 mx + ex))
                <= pow2 (-52) * v + pow2 (-1074)).
  { intros Hpos. pose proof (fexp_real mx ex Hpos). pose proof (pow2_pos (-52)).
    destruct Hv as [Hv _]. nra. }
  assert (Hmax : E = ex \/ E = SpecFloat.fexp prec emax (Zdigits2 mx + ex))
    by (unfold E; lia).
  destruct Hcase as [(Hpos & Hl & Hval)|Hex].
  - destruct Hmax as [HEx|HEf].
    + rewrite (Hexact Hl HEx), <- Hval.
      replace (v - v) with 0 by ring. rewrite Rabs_R0.
      pose proof (pow2_pos (-52)). pose proof (pow2_pos (-1074)). nra.
    + rewrite HEf in Herr. specialize (Hfe Hpos). lra.
  - destruct Hmax as [HEx|HEf].
    + rewrite HEx in Herr. lra.
    + rewrite HEf in Herr.
      destruct (Z.eq_dec mx 0) as [->|Hne].
      * cbn [Zdigits2] in Herr. rewrite Z.add_0_l, fexp_spec in Herr.
        destruct (Z.max_spec (ex - 53) (-1074)) as [[_ Hmx]|[_ Hmx]];
          rewrite Hmx in Herr.
        -- pose proof (pow2_pos (-52)). nra.
        -- pose proof (pow2_le (ex - 53) ex ltac:(lia)). lra.
      * specialize (Hfe ltac:(lia)). lra.
Qed.

End RoundingR.

(** ** The operations of binary64, on real numbers *)

Section OperationsR.

Local Open Scope R_scope.

Lemma SFsigned_finite (s : bool) (x : spec_float) :
  SFsigned s x -> is_finite_SF x = true.
Proof. destruct x; cbn; intros Hs; try reflexivity; contradiction. Qed.

Lemma nonneg_finite (x : float) : nonneg x -> finite x = true.
Proof. apply SFsigned_finite. Qed.

Lemma nonneg_B2R (x : float) : nonneg x -> 0 <= B2R x.
Proof.
  unfold nonneg, B2R. destruct (Prim2SF x) as [s|s| |s m e]; cbn; try contradiction.
  - lra.
  - intros ->. pose proof (pow2_pos e). assert (0 < IZR (Zpos m)) by (apply IZR_lt; lia).
    nra.
Qed.

Lemma rounding_error_nonneg (v : R) : 0 <= pow2 (-51) * Rabs v + pow2 (-1073).
Proof.
  pose proof (pow2_pos (-51)). pose proof (pow2_pos (-1073)).
  pose proof (Rabs_pos v). nra.
Qed.

Lemma error_self (a v : R) :
  a = v -> Rabs (a - v) <= pow2 (-51) * Rabs v + pow2 (-1073).
Proof.
  intros ->. replace (v - v) with 0 by ring. rewrite Rabs_R0.
  apply rounding_error_nonneg.
Qed.

(** An exact result is a rounded one. *)
Lemma rounds_to_exact (x : float) : finite x = true -> rounds_to (B2R x) x.
Proof.
  intros Hf. split; [exact Hf|].
  replace (B2R x - B2R x) with 0 by ring. rewrite Rabs_R0.
  apply rounding_error_nonneg.
Qed.

Lemma signed_round (s : bool) (r : spec_float) (V v X : R) :
  SF2R r = (if s then - V else V) -> X = (if s then - v else v) -> 0 <= v ->
  Rabs (V - v) <= pow2 (-51) * v + pow2 (-1073) ->
  Rabs (SF2R r - X) <= pow2 (-51) * Rabs X + pow2 (-1073).
Proof.
  intros -> -> Hv Herr.
  assert (Ha : Rabs (if s then - v else v) = v).
  { destruct s; [rewrite Rabs_Ropp|]; apply Rabs_pos_eq; exact Hv. }
  rewrite Ha.
  assert (Hd : Rabs ((if s then - V else V) - (if s then - v else v)) = Rabs (V - v)).
  { destruct s; [|reflexivity].
    replace (- V - - v) with (- (V - v)) by ring. apply Rabs_Ropp. }
  rewrite Hd. exact Herr.
Qed.

Lemma finite_value (s : bool) (m : positive) (e : Z) :
  SF2R (S754_finite s m e)
  = (if s then - (IZR (Zpos m) * pow2 e) else IZR (Zpos m) * pow2 e) /\
  0 < IZR (Zpos m) * pow2 e.
Proof.
  split; [reflexivity|].
  pose proof (pow2_pos e). assert (0 < IZR (Zpos m)) by (apply IZR_lt; lia). nra.
Qed.

(** *** Multiplication *)
Lemma mul_real (x y : float) :
  finite x = true -> finite y = true ->
  Rabs (B2R x * B2R y) < pow2 900 ->
  rounds_to (B2R x * B2R y) (x * y) /\ (x = y -> nonneg (x * y)).
Proof.
  unfold rounds_to, finite, nonneg, B2R. rewrite mul_spec.
  intros Hx Hy Hlt.
  assert (Hsame : x = y -> Prim2SF x = Prim2SF y) by (intros ->; reflexivity).
  destruct (Prim2SF x) as [sx|sx| |sx mx ex]; try discriminate;
    destruct (Prim2SF y) as [sy|sy| |sy my ey]; try discriminate.
  - cbn [SF64mul SFmul is_finite_SF SF2R SFsigned]. repeat split.
    + apply error_self. ring.
    + intros E. specialize (Hsame E). injection Hsame as ->. now destruct sy.
  - cbn [SF64mul SFmul is_finite_SF SF2R]. repeat split.
    + apply error_self. ring.
    + intros E. specialize (Hsame E). discriminate.
  - cbn [SF64mul SFmul is_finite_SF SF2R]. repeat split.
    + apply error_self. ring.
    + intros E. specialize (Hsame E). discriminate.
  - cbn [SF64mul SFmul].
    change (IntDef.Z.add ex ey) with (ex + ey)%Z.
    change (PosDef.Pos.mul mx my) with (mx * my)%positive.
    set (v := IZR (Zpos (mx * my)) * pow2 (ex + ey)).
    destruct (finite_value sx mx ex) as [Ex Px].
    destruct (finite_value sy my ey) as [Ey Py].
    assert (Hv : IZR (Zpos mx) * pow2 ex * (IZR (Zpos my) * pow2 ey) = v).
    { unfold v. rewrite Pos2Z.inj_mul, mult_IZR, pow2_add. ring. }
    assert (Hprod : SF2R (S754_finite sx mx ex) * SF2R (S754_finite sy my ey)
                    = (if xorb sx sy then - v else v)).
    { rewrite Ex, Ey, <- Hv. destruct sx, sy; cbn [xorb]; ring. }
    assert (Hv0 : 0 < v) by (rewrite <- Hv; nra).
    rewrite Hprod in Hlt |- *.
    assert (Hvlt : v < pow2 900).
    { destruct (xorb sx sy); [rewrite Rabs_Ropp in Hlt|];
        rewrite Rabs_pos_eq in Hlt; lra. }
    destruct (round_real (xorb sx sy) (Zpos (mx * my)) (ex + ey) loc_Exact v)
      as (V & HV & Hs & HV0 & Herr).
    + lia.
    + unfold v. pose proof (pow2_pos (ex + ey)). split; [lra|nra].
    + exact Hvlt.
    + left. split; [lia|]. split; reflexivity.
    + split; [split|].
      * exact (SFsigned_finite _ _ Hs).
      * apply (signed_round (xorb sx sy) _ V v); [exact HV|reflexivity|lra|exact Herr].
      * intros E. specialize (Hsame E). injection Hsame as -> -> ->.
        rewrite xorb_nilpotent in Hs |- *. exact Hs.
Qed.

Lemma iter_xO (m d : positive) :
  Zpos (Pos.iter xO m d) = (Zpos m * 2 ^ Zpos d)%Z.
Proof.
  induction d as [|d IH] using Pos.peano_ind.
  - cbn. lia.
  - rewrite Pos.iter_succ, Pos2Z.inj_succ, Z.pow_succ_r by lia.
    rewrite Pos2Z.inj_xO, IH. ring.
Qed.

(** Aligning a mantissa on a smaller exponent keeps the value. *)
Lemma shl_align_real (m : positive) (e e' : Z) :
  IZR (Zpos (fst (shl_align m e e'))) * pow2 (snd (shl_align m e e'))
  = IZR (Zpos m) * pow2 e /\
  ((e' <= e)%Z -> snd (shl_align m e e') = e').
Proof.
  unfold shl_align. change (IntDef.Z.sub e' e) with (e' - e)%Z.
  destruct (e' - e)%Z as [|p|p] eqn:Ed; cbn [fst snd].
  - split; [reflexivity|]. intros _. lia.
  - split; [reflexivity|]. intros Hle. lia.
  - split; [|reflexivity].
    change (PosDef.Pos.iter xO m p) with (Pos.iter xO m p).
    rewrite iter_xO, mult_IZR, <- pow2_IZR by lia.
    replace e with (Zpos p + e')%Z by lia. rewrite pow2_add. ring.
Qed.

(** Rounding a mantissa and an exponent. *)
Lemma binary_round_real (s : bool) (m : positive) (e : Z) :
  IZR (Zpos m) * pow2 e < pow2 900 ->
  exists V,
    SF2R (binary_round prec emax s m e) = (if s then - V else V) /\
    SFsigned s (binary_round prec emax s m e) /\
    0 <= V /\
    Rabs (V - IZR (Zpos m) * pow2 e)
    <= pow2 (-51) * (IZR (Zpos m) * pow2 e) + pow2 (-1073).
Proof.
  intros Hlt. unfold binary_round.
  change (IntDef.Z.add (Zpos (digits2_pos m)) e) with (Zpos (digits2_pos m) + e)%Z.
  destruct (shl_align_real m e (SpecFloat.fexp prec emax (Zpos (digits2_pos m) + e)))
    as [Hval _].
  destruct (shl_align m e (SpecFloat.fexp prec emax (Zpos (digits2_pos m) + e)))
    as [mz ez].
  cbn [fst snd] in Hval.
  apply round_real.
  - lia.
  - rewrite Hval. pose proof (pow2_pos ez). split; [lra|].
    rewrite <- Hval. nra.
  - exact Hlt.
  - left. split; [lia|]. split; [reflexivity|]. symmetry. exact Hval.
Qed.

Lemma aligned_value (s : bool) (m : positive) (e ez : Z) :
  (ez <= e)%Z ->
  IZR (cond_Zopp s (Zpos (fst (shl_align m e ez)))) * pow2 ez
  = SF2R (S754_finite s m e).
Proof.
  intros Hle. destruct (shl_align_real m e ez) as [Hval Hsnd].
  rewrite (Hsnd Hle) in Hval. cbn [SF2R].
  destruct s; cbn [cond_Zopp].
  - change (IntDef.Z.opp (Zpos ?p)) with (- Zpos p)%Z.
    rewrite opp_IZR, <- Hval. ring.
  - exact Hval.
Qed.

(** *** Addition *)
Lemma add_real (x y : float) :
  finite x = true -> finite y = true ->
  Rabs (B2R x + B2R y) < pow2 900 ->
  rounds_to (B2R x + B2R y) (x + y) /\ (nonneg x -> nonneg y -> nonneg (x + y)).
Proof.
  unfold rounds_to, finite, nonneg, B2R. rewrite add_spec.
  intros Hx Hy Hlt.
  destruct (Prim2SF x) as [sx|sx| |sx mx ex]; try discriminate;
    destruct (Prim2SF y) as [sy|sy| |sy my ey]; try discriminate.
  - split; [|cbn [SFsigned]; intros -> ->; exact eq_refl].
    assert (Hz : SF2R (SF64add (S754_zero sx) (S754_zero sy)) = 0)
      by (destruct sx, sy; reflexivity).
    rewrite Hz. cbn [SF2R]. split; [destruct sx, sy; reflexivity|].
    apply error_self. ring.
  - cbn [SF64add SFadd]. split; [|intros _ Hs; exact Hs]. split; [reflexivity|].
    apply error_self. cbn [SF2R]. ring.
  - cbn [SF64add SFadd]. split; [|intros Hs _; exact Hs]. split; [reflexivity|].
    apply error_self. cbn [SF2R]. ring.
  - unfold SF64add, SFadd.
    change (IntDef.Z.min ex ey) with (Z.min ex ey).
    set (ez := Z.min ex ey).
    set (ax := cond_Zopp sx (Zpos (fst (shl_align mx ex ez)))).
    set (ay := cond_Zopp sy (Zpos (fst (shl_align my ey ez)))).
    change (IntDef.Z.add ax ay) with (ax + ay)%Z.
    pose proof (aligned_value sx mx ex ez ltac:(unfold ez; lia)) as Hax. fold ax in Hax.
    pose proof (aligned_value sy my ey ez ltac:(unfold ez; lia)) as Hay. fold ay in Hay.
    assert (Hsum : SF2R (S754_finite sx mx ex) + SF2R (S754_finite sy my ey)
                   = IZR (ax + ay) * pow2 ez).
    { rewrite plus_IZR, <- Hax, <- Hay. ring. }
    assert (Hpos : sx = false -> sy = false -> (0 < ax + ay)%Z).
    { intros -> ->. unfold ax, ay. cbn [cond_Zopp]. lia. }
    rewrite Hsum in Hlt |- *.
    pose proof (pow2_pos ez) as Hez.
    destruct (ax + ay)%Z as [|p|p] eqn:Es; unfold binary_normalize.
    + split; [|intros _ _; exact eq_refl]. split; [reflexivity|].
      apply error_self. cbn [SF2R]. ring.
    + assert (Hv0 : 0 < IZR (Zpos p) * pow2 ez).
      { assert (0 < IZR (Zpos p)) by (apply IZR_lt; lia). nra. }
      rewrite Rabs_pos_eq in Hlt by lra.
      destruct (binary_round_real false p ez Hlt) as (V & HV & Hs & HV0 & Herr).
      split; [split|].
      * exact (SFsigned_finite _ _ Hs).
      * apply (signed_round false _ V (IZR (Zpos p) * pow2 ez));
          [exact HV|reflexivity|lra|exact Herr].
      * intros _ _. exact Hs.
    + assert (Hv0 : 0 < IZR (Zpos p) * pow2 ez).
      { assert (0 < IZR (Zpos p)) by (apply IZR_lt; lia). nra. }
      assert (Hneg : IZR (Zneg p) * pow2 ez = - (IZR (Zpos p) * pow2 ez)).
      { change (Zneg p) with (- Zpos p)%Z. rewrite opp_IZR. ring. }
      rewrite Hneg in Hlt |- *. rewrite Rabs_Ropp, Rabs_pos_eq in Hlt by lra.
      destruct (binary_round_real true p ez Hlt) as (V & HV & Hs & HV0 & Herr).
      split; [split|].
      * exact (SFsigned_finite _ _ Hs).
      * apply (signed_round true _ V (IZR (Zpos p) * pow2 ez));
          [exact HV|reflexivity|lra|exact Herr].
      * intros Hsx Hsy. specialize (Hpos Hsx Hsy). lia.
Qed.

(** *** The displacement from the anchor, [0 - x], is exact *)
Lemma sub_zero_real (x : float) :
  finite x = true -> finite (0 - x) = true /\ B2R (0 - x) = - B2R x.
Proof.
  unfold finite, B2R. rewrite sub_spec.
  change (Prim2SF 0) with (S754_zero false).
  destruct (Prim2SF x) as [s|s| |s m e]; try discriminate; intros _.
  - destruct s; cbn [SF64sub SFsub is_finite_SF SF2R]; split; try reflexivity; ring.
  - cbn [SF64sub SFsub is_finite_SF SF2R]. split; [reflexivity|].
    destruct s; cbn [negb]; ring.
Qed.

End OperationsR.

Section DivisionR.

Local Open Scope R_scope.

(** The quotient of two mantissas, before rounding. *)
Lemma div_core_real (m1 : positive) (e1 : Z) (m2 : positive) (e2 : Z) :
  let v := (IZR (Zpos m1) * pow2 e1) / (IZR (Zpos m2) * pow2 e2) in
  let q := fst (fst (SFdiv_core_binary prec emax (Zpos m1) e1 (Zpos m2) e2)) in
  let e' := snd (fst (SFdiv_core_binary prec emax (Zpos m1) e1 (Zpos m2) e2)) in
  (0 <= q)%Z /\ IZR q * pow2 e' <= v < (IZR q + 1) * pow2 e' /\
  pow2 e' <= pow2 (-52) * v + pow2 (-1074).
Proof.
  unfold SFdiv_core_binary.
  change (IntDef.Z.sub ?a ?b) with (Z.sub a b).
  change (IntDef.Z.add ?a ?b) with (Z.add a b).
  change (IntDef.Z.min ?a ?b) with (Z.min a b).
  change (IntDef.Z.shiftl ?a ?b) with (Z.shiftl a b).
  change (IntDef.Z.div_eucl ?a ?b) with (Z.div_eucl a b).
  set (d1 := Zdigits2 (Zpos m1)). set (d2 := Zdigits2 (Zpos m2)).
  set (D := (d1 + e1 - (d2 + e2))%Z).
  set (e' := Z.min (SpecFloat.fexp prec emax D) (e1 - e2)).
  set (s := (e1 - e2 - e')%Z).
  assert (Hs : (0 <= s)%Z) by (unfold s, e'; lia).
  set (m' := match s with
             | Z0 => Zpos m1
             | Zpos _ => Z.shiftl (Zpos m1) s
             | Zneg _ => 0%Z
             end).
  assert (Hm' : m' = (Zpos m1 * 2 ^ s)%Z).
  { unfold m'. destruct s as [|p|p]; [rewrite Z.pow_0_r; lia| |lia].
    apply Z.shiftl_mul_pow2. lia. }
  pose proof (Z_div_mod m' (Zpos m2) ltac:(lia)) as Hdiv.
  destruct (Z.div_eucl m' (Zpos m2)) as [q r]. cbn [fst snd]. cbv zeta.
  destruct Hdiv as [Hqr Hr].
  assert (H2s : (0 < 2 ^ s)%Z) by (apply Z.pow_pos_nonneg; lia).
  assert (Hq : (0 <= q)%Z) by nia.
  set (A := IZR (Zpos m1) * pow2 e1). set (B := IZR (Zpos m2) * pow2 e2).
  assert (HA : 0 < A) by (apply finite_value; exact true).
  assert (HB : 0 < B) by (apply finite_value; exact true).
  assert (Hm2 : 0 < IZR (Zpos m2)) by (apply IZR_lt; lia).
  pose proof (pow2_pos e') as He'. pose proof (pow2_pos e2) as He2.
  assert (HvB : A / B * B = A) by (field; lra).
  assert (Hv0 : 0 < A / B) by (apply Rdiv_lt_0_compat; assumption).
  assert (HAm : A = IZR m' * pow2 e' * pow2 e2).
  { unfold A. rewrite Hm', mult_IZR, <- (pow2_IZR s Hs).
    replace e1 with (s + e' + e2)%Z at 1 by (unfold s; lia).
    rewrite !pow2_add. ring. }
  assert (Hm'R : IZR m' = IZR (Zpos m2) * IZR q + IZR r).
  { rewrite Hqr, plus_IZR, mult_IZR. reflexivity. }
  assert (HrR : 0 <= IZR r < IZR (Zpos m2)).
  { split; [apply IZR_le|apply IZR_lt]; lia. }
  assert (Hv : A / B * IZR (Zpos m2) = IZR m' * pow2 e').
  { apply Rmult_eq_reg_r with (pow2 e2); [|lra].
    replace (A / B * IZR (Zpos m2) * pow2 e2) with (A / B * B) by (unfold B; ring).
    rewrite HvB. exact HAm. }
  split; [exact Hq|]. split; [split|].
  - apply Rmult_le_reg_r with (IZR (Zpos m2)); [exact Hm2|]. rewrite Hv, Hm'R. nra.
  - apply Rmult_lt_reg_r with (IZR (Zpos m2)); [exact Hm2|]. rewrite Hv, Hm'R. nra.
  - assert (Hlow : pow2 (D - 1) <= A / B).
    { destruct (Zdigits2_real (Zpos m1) e1 ltac:(lia)) as [L1 _].
      destruct (Zdigits2_real (Zpos m2) e2 ltac:(lia)) as [_ U2].
      fold d1 in L1. fold d2 in U2. fold A in L1. fold B in U2.
      assert (Hp : pow2 (d1 + e1 - 1) = pow2 (D - 1) * pow2 (d2 + e2)).
      { rewrite <- pow2_add. f_equal. unfold D. lia. }
      pose proof (pow2_pos (D - 1)).
      apply Rmult_le_reg_r with B; [exact HB|]. rewrite HvB. nra. }
    assert (Hle : pow2 e' <= pow2 (SpecFloat.fexp prec emax D))
      by (apply pow2_le; unfold e'; lia).
    rewrite fexp_spec in Hle.
    pose proof (pow2_pos (-52)). pose proof (pow2_pos (-1074)).
    destruct (Z.max_spec (D - 53) (-1074)) as [[_ Hmx]|[_ Hmx]]; rewrite Hmx in Hle.
    + nra.
    + replace (D - 53)%Z with (-52 + (D - 1))%Z in Hle by lia.
      rewrite pow2_add in Hle. nra.
Qed.

(** *** Division *)
Lemma div_real (x y : float) :
  finite x = true -> finite y = true -> B2R y <> 0 ->
  Rabs (B2R x / B2R y) < pow2 900 ->
  rounds_to (B2R x / B2R y) (x / y).
Proof.
  unfold rounds_to, finite, B2R. rewrite div_spec.
  intros Hx Hy Hy0 Hlt.
  destruct (Prim2SF y) as [sy|sy| |sy my ey]; try discriminate;
    [exfalso; apply Hy0; reflexivity|].
  destruct (Prim2SF x) as [sx|sx| |sx mx ex]; try discriminate.
  - cbn [SF64div SFdiv is_finite_SF]. split; [reflexivity|].
    apply error_self. cbn [SF2R]. unfold Rdiv. ring.
  - unfold SF64div, SFdiv.
    pose proof (div_core_real mx ex my ey) as Hcore. cbv zeta in Hcore.
    destruct (SFdiv_core_binary prec emax (Zpos mx) ex (Zpos my) ey) as [[mz ez] lz].
    cbn [fst snd] in Hcore. destruct Hcore as (Hq & Hloc & Hez).
    destruct (finite_value sx mx ex) as [Ex Px].
    destruct (finite_value sy my ey) as [Ey Py].
    set (v := IZR (Zpos mx) * pow2 ex / (IZR (Zpos my) * pow2 ey)) in *.
    assert (Hquot : SF2R (S754_finite sx mx ex) / SF2R (S754_finite sy my ey)
                    = (if xorb sx sy then - v else v)).
    { rewrite Ex, Ey. unfold v.
      set (a := IZR (Zpos mx) * pow2 ex) in *.
      set (b := IZR (Zpos my) * pow2 ey) in *.
      destruct sx, sy; cbn [xorb]; field; lra. }
    assert (Hv0 : 0 < v) by (apply Rdiv_lt_0_compat; assumption).
    rewrite Hquot in Hlt |- *.
    assert (Hvlt : v < pow2 900).
    { destruct (xorb sx sy); [rewrite Rabs_Ropp in Hlt|];
        rewrite Rabs_pos_eq in Hlt; lra. }
    destruct (round_real (xorb sx sy) mz ez lz v Hq Hloc Hvlt (or_intror Hez))
      as (V & HV & Hs & HV0 & Herr).
    split; [exact (SFsigned_finite _ _ Hs)|].
    apply (signed_round (xorb sx sy) _ V v); [exact HV|reflexivity|lra|exact Herr].
Qed.

End DivisionR.

Section SquareRootR.

Local Open Scope R_scope.

(** The square root of a mantissa, before rounding. *)
Lemma sqrt_core_real (m : positive) (e : Z) :
  let v := R_sqrt.sqrt (IZR (Zpos m) * pow2 e) in
  let q := fst (fst (SFsqrt_core_binary prec emax (Zpos m) e)) in
  let e' := snd (fst (SFsqrt_core_binary prec emax (Zpos m) e)) in
  (0 <= q)%Z /\ IZR q * pow2 e' <= v < (IZR q + 1) * pow2 e' /\
  pow2 e' <= pow2 (-52) * v + pow2 (-1074).
Proof.
  unfold SFsqrt_core_binary.
  change (IntDef.Z.sub ?a ?b) with (Z.sub a b).
  change (IntDef.Z.add ?a ?b) with (Z.add a b).
  change (IntDef.Z.mul ?a ?b) with (Z.mul a b).
  change (IntDef.Z.min ?a ?b) with (Z.min a b).
  change (IntDef.Z.div2 ?a) with (Z.div2 a).
  change (IntDef.Z.shiftl ?a ?b) with (Z.shiftl a b).
  change (IntDef.Z.sqrtrem ?a) with (Z.sqrtrem a).
  set (d := Zdigits2 (Zpos m)).
  set (h := Z.div2 (d + e + 1)).
  set (e' := Z.min (SpecFloat.fexp prec emax h) (Z.div2 e)).
  set (s := (e - 2 * e')%Z).
  assert (Hde : (2 * Z.div2 e <= e)%Z).
  { rewrite Z.div2_div. pose proof (Z.div_mod e 2 ltac:(lia)).
    pose proof (Z.mod_pos_bound e 2 ltac:(lia)). lia. }
  assert (Hs : (0 <= s)%Z) by (unfold s, e'; lia).
  set (m' := match s with
             | Z0 => Zpos m
             | Zpos _ => Z.shiftl (Zpos m) s
             | Zneg _ => 0%Z
             end).
  assert (Hm' : m' = (Zpos m * 2 ^ s)%Z).
  { unfold m'. destruct s as [|p|p]; [rewrite Z.pow_0_r; lia| |lia].
    apply Z.shiftl_mul_pow2. lia. }
  assert (H2s : (0 < 2 ^ s)%Z) by (apply Z.pow_pos_nonneg; lia).
  assert (Hm'0 : (0 <= m')%Z) by nia.
  pose proof (Z.sqrtrem_spec m' Hm'0) as Hsq.
  destruct (Z.sqrtrem m') as [q r]. cbn [fst snd]. cbv zeta.
  destruct Hsq as [Hqr Hr].
  assert (Hq : (0 <= q)%Z) by lia.
  set (A := IZR (Zpos m) * pow2 e).
  assert (HA : 0 < A) by (apply finite_value; exact true).
  pose proof (pow2_pos e') as He'.
  assert (HAm : A = IZR m' * (pow2 e' * pow2 e')).
  { unfold A. rewrite Hm', mult_IZR, <- (pow2_IZR s Hs), <- pow2_add.
    replace e with (s + (e' + e'))%Z at 1 by (unfold s; lia).
    rewrite pow2_add. ring. }
  assert (Hm'R : IZR m' = IZR q * IZR q + IZR r).
  { rewrite Hqr, plus_IZR, mult_IZR. reflexivity. }
  assert (HrR : 0 <= IZR r <= 2 * IZR q).
  { split; [apply IZR_le; lia|].
    change 2 with (IZR 2). rewrite <- mult_IZR. apply IZR_le. lia. }
  assert (HqR : 0 <= IZR q) by (apply IZR_le; exact Hq).
  pose proof (sqrt_pos A) as Hv0.
  pose proof (sqrt_sqrt A (Rlt_le _ _ HA)) as Hvv.
  split; [exact Hq|]. split; [split|].
  - apply Rsqr_incr_0_var; [|exact Hv0]. unfold Rsqr. rewrite Hvv, HAm, Hm'R. nra.
  - apply Rsqr_incrst_0; [|exact Hv0|nra]. unfold Rsqr. rewrite Hvv, HAm, Hm'R. nra.
  - assert (Hh : pow2 h <= 2 * R_sqrt.sqrt A).
    { apply Rsqr_incr_0_var; [|lra]. unfold Rsqr.
      replace (2 * R_sqrt.sqrt A * (2 * R_sqrt.sqrt A)) with (4 * (R_sqrt.sqrt A * R_sqrt.sqrt A)) by ring.
      rewrite Hvv, <- pow2_add.
      destruct (Zdigits2_real (Zpos m) e ltac:(lia)) as [L1 _].
      fold d in L1. fold A in L1.
      assert (H2h : (h + h <= d + e - 1 + 2)%Z).
      { unfold h. rewrite Z.div2_div. pose proof (Z.div_mod (d + e + 1) 2 ltac:(lia)).
        pose proof (Z.mod_pos_bound (d + e + 1) 2 ltac:(lia)). lia. }
      apply pow2_le in H2h. rewrite (pow2_add (d + e - 1) 2) in H2h.
      change (pow2 2) with (2 * (2 * 1)) in H2h. lra. }
    assert (Hle : pow2 e' <= pow2 (SpecFloat.fexp prec emax h))
      by (apply pow2_le; unfold e'; lia).
    rewrite fexp_spec in Hle.
    pose proof (pow2_pos (-52)). pose proof (pow2_pos (-1074)).
    destruct (Z.max_spec (h - 53) (-1074)) as [[_ Hmx]|[_ Hmx]]; rewrite Hmx in Hle.
    + nra.
    + replace (h - 53)%Z with (-52 - 1 + h)%Z in Hle by lia.
      rewrite pow2_add in Hle. rewrite <- (pow2_double (-52)).
      pose proof (pow2_pos (-52 - 1)). nra.
Qed.

(** *** Square root *)
Lemma sqrt_real (x : float) :
  nonneg x -> R_sqrt.sqrt (B2R x) < pow2 900 ->
  rounds_to (R_sqrt.sqrt (B2R x)) (PrimFloat.sqrt x) /\ nonneg (PrimFloat.sqrt x).
Proof.
  unfold rounds_to, finite, nonneg, B2R. rewrite sqrt_spec.
  intros Hx Hlt.
  destruct (Prim2SF x) as [sx|sx| |sx mx ex]; cbn [SFsigned] in Hx;
    try contradiction; subst sx.
  - cbn [SF64sqrt SFsqrt is_finite_SF SFsigned]. split; [|reflexivity].
    split; [reflexivity|]. apply error_self. cbn [SF2R]. symmetry. apply sqrt_0.
  - unfold SF64sqrt, SFsqrt.
    pose proof (sqrt_core_real mx ex) as Hcore. cbv zeta in Hcore.
    destruct (SFsqrt_core_binary prec emax (Zpos mx) ex) as [[mz ez] lz].
    cbn [fst snd] in Hcore. destruct Hcore as (Hq & Hloc & Hez).
    cbn [SF2R] in Hlt |- *.
    destruct (round_real false mz ez lz _ Hq Hloc Hlt (or_intror Hez))
      as (V & HV & Hs & HV0 & Herr).
    split; [|exact Hs].
    split; [exact (SFsigned_finite _ _ Hs)|].
    apply (signed_round false _ V (R_sqrt.sqrt (IZR (Zpos mx) * pow2 ex)));
      [exact HV|reflexivity|apply sqrt_pos|exact Herr].
Qed.

End SquareRootR.

Section ComparisonR.

Local Open Scope R_scope.

Lemma canonical_digits (m : positive) (e : Z) :
  canonical_mantissa prec emax m e = true ->
  (Zdigits2 (Zpos m) <= 53)%Z /\ (-1074 <= e)%Z /\
  ((-1074 < e)%Z -> Zdigits2 (Zpos m) = 53%Z).
Proof.
  unfold canonical_mantissa.
  change (IntDef.Z.add ?a ?b) with (Z.add a b).
  change (IntDef.Z.eqb ?a ?b) with (Z.eqb a b).
  intros Hc. apply Z.eqb_eq in Hc. rewrite fexp_spec in Hc.
  cbn [Zdigits2]. lia.
Qed.

Lemma valid_canonical (s : bool) (m : positive) (e : Z) :
  valid_binary (S754_finite s m e) = true -> canonical_mantissa prec emax m e = true.
Proof.
  cbn [valid_binary]. unfold bounded. intros Hb.
  apply andb_true_iff in Hb. exact (proj1 Hb).
Qed.

(** Of two canonical mantissas the one with the smaller exponent is smaller. *)
Lemma canonical_lt (m1 : positive) (e1 : Z) (m2 : positive) (e2 : Z) :
  canonical_mantissa prec emax m1 e1 = true ->
  canonical_mantissa prec emax m2 e2 = true ->
  (e1 < e2)%Z ->
  IZR (Zpos m1) * pow2 e1 < IZR (Zpos m2) * pow2 e2.
Proof.
  intros H1 H2 Hlt.
  destruct (canonical_digits m1 e1 H1) as (D1 & L1 & _).
  destruct (canonical_digits m2 e2 H2) as (_ & _ & D2).
  specialize (D2 ltac:(lia)).
  destruct (Zdigits2_real (Zpos m1) e1 ltac:(lia)) as [_ U1].
  destruct (Zdigits2_real (Zpos m2) e2 ltac:(lia)) as [L2 _].
  rewrite D2 in L2.
  pose proof (pow2_le (Zdigits2 (Zpos m1) + e1) (53 + e2 - 1) ltac:(lia)).
  lra.
Qed.

(** The comparison of two values that are zero or positive is the
    comparison of the reals they stand for. *)
Lemma SFcompare_real (a b : spec_float) :
  valid_binary a = true -> valid_binary b = true ->
  SFsigned false a -> SFsigned false b ->
  exists c, SFcompare a b = Some c /\
    match c with
    | Lt => SF2R a < SF2R b
    | Eq => SF2R a = SF2R b
    | Gt => SF2R b < SF2R a
    end.
Proof.
  intros Va Vb Sa Sb.
  destruct a as [sa|sa| |sa ma ea]; cbn [SFsigned] in Sa; try contradiction;
    destruct b as [sb|sb| |sb mb eb]; cbn [SFsigned] in Sb; try contradiction;
    subst sa sb.
  - exists Eq. split; reflexivity.
  - exists Lt. split; [reflexivity|]. cbn [SF2R]. apply finite_value. exact true.
  - exists Gt. split; [reflexivity|]. cbn [SF2R]. apply finite_value. exact true.
  - apply valid_canonical in Va, Vb. cbn [SFcompare SF2R].
    change (IntDef.Z.compare ea eb) with (Z.compare ea eb).
    change (PosDef.Pos.compare_cont Eq ma mb) with (Pos.compare ma mb).
    destruct (Z.compare_spec ea eb) as [He|He|He].
    + subst eb. pose proof (pow2_pos ea).
      destruct (Pos.compare_spec ma mb) as [Hm|Hm|Hm].
      * exists Eq. split; [reflexivity|]. subst mb. reflexivity.
      * exists Lt. split; [reflexivity|].
        assert (IZR (Zpos ma) < IZR (Zpos mb)) by (apply IZR_lt; lia). nra.
      * exists Gt. split; [reflexivity|].
        assert (IZR (Zpos mb) < IZR (Zpos ma)) by (apply IZR_lt; lia). nra.
    + exists Lt. split; [reflexivity|]. apply canonical_lt; assumption.
    + exists Gt. split; [reflexivity|]. apply canonical_lt; assumption.
Qed.

Lemma ltb_real (x y : float) :
  nonneg x -> nonneg y -> ((x <? y)%float = true <-> B2R x < B2R y).
Proof.
  intros Hx Hy. rewrite ltb_spec. unfold SFltb, B2R.
  destruct (SFcompare_real _ _ (Prim2SF_valid x) (Prim2SF_valid y) Hx Hy)
    as (c & -> & Hc).
  destruct c; split; intros H; try discriminate; try reflexivity; lra.
Qed.

Lemma leb_real (x y : float) :
  nonneg x -> nonneg y -> ((x <=? y)%float = true <-> B2R x <= B2R y).
Proof.
  intros Hx Hy. rewrite leb_spec. unfold SFleb, B2R.
  destruct (SFcompare_real _ _ (Prim2SF_valid x) (Prim2SF_valid y) Hx Hy)
    as (c & -> & Hc).
  destruct c; split; intros H; try discriminate; try reflexivity; lra.
Qed.

(** A magnitude below a finite bound: the value is finite, and the real
    number it stands for is below the bound. *)
Lemma abs_leb_real (x c : float) :
  nonneg c -> (abs x <=? c)%float = true ->
  finite x = true /\ Rabs (B2R x) <= B2R c.
Proof.
  intros Hc Hle.
  assert (Hfin : finite x = true).
  { rewrite leb_spec, abs_spec in Hle. unfold finite, nonneg in *.
    destruct (Prim2SF x) as [s|s| |s m e]; try reflexivity.
    - destruct (Prim2SF c) as [sc|sc| |sc mc ec]; cbn in Hc; try contradiction;
        discriminate Hle.
    - discriminate Hle. }
  split; [exact Hfin|].
  assert (Habs : nonneg (abs x) /\ B2R (abs x) = Rabs (B2R x)).
  { unfold nonneg, B2R, finite in *. rewrite abs_spec.
    destruct (Prim2SF x) as [s|s| |s m e]; try discriminate.
    - split; [reflexivity|]. cbn [SFabs SF2R]. symmetry. apply Rabs_R0.
    - split; [reflexivity|]. cbn [SFabs SF2R].
      destruct (finite_value false m e) as [_ Hp].
      destruct s; [rewrite Rabs_Ropp|]; symmetry; apply Rabs_pos_eq; lra. }
  destruct Habs as [Hn He]. rewrite <- He.
  apply (leb_real _ _ Hn Hc). exact Hle.
Qed.

End ComparisonR.

(** ** One spring frame on binary64, against the exact frame *)

Section SpringReals.

Local Open Scope R_scope.

Lemma Rabs_le_inv (x a : R) : Rabs x <= a -> - a <= x <= a.
Proof. unfold Rabs. destruct (Rcase_abs x); lra. Qed.

Lemma pow2_neg (n : Z) : (0 <= n)%Z -> pow2 (- n) = / IZR (2 ^ n).
Proof.
  intros Hn. unfold pow2. rewrite powerRZ_neg'. f_equal. apply (pow2_IZR n Hn).
Qed.

Lemma pow2_m51 : pow2 (-51) = / 2251799813685248.
Proof. exact (pow2_neg 51 ltac:(lia)). Qed.

Lemma axisEnergy_nonneg (x v : R) : 0 <= axisEnergy x v.
Proof.
  unfold axisEnergy.
  pose proof (Rle_0_sqr (x + v)). pose proof (Rle_0_sqr v). unfold Rsqr in *. lra.
Qed.

Lemma axisEnergy_bounds (x v : R) :
  3 / 4 * (x * x + v * v) <= axisEnergy x v <= 6 * (x * x + v * v).
Proof.
  unfold axisEnergy.
  pose proof (Rle_0_sqr (x / 2 + 2 * v)). pose proof (Rle_0_sqr (x - v)).
  pose proof (Rle_0_sqr x). pose proof (Rle_0_sqr v).
  unfold Rsqr in *. split; lra.
Qed.

(** The exact frame contracts the energy. *)
Lemma axisEnergy_contracts (x v : R) :
  axisEnergy (axisPosition x v) (axisVelocity x v) <= 9 / 10 * axisEnergy x v.
Proof.
  unfold axisEnergy, axisPosition, axisVelocity.
  pose proof (Rle_0_sqr (x - 33075 / 145219 * v)) as Ha.
  pose proof (Rle_0_sqr v) as Hb. unfold Rsqr in Ha, Hb.
  assert (Hd : 9 / 10 * (x * x + 2 * x * v + 5 * v * v)
    - ((x + (v + (0 - x) * 120 / 1000) * (72 / 100))
         * (x + (v + (0 - x) * 120 / 1000) * (72 / 100))
       + 2 * (x + (v + (0 - x) * 120 / 1000) * (72 / 100))
         * ((v + (0 - x) * 120 / 1000) * (72 / 100))
       + 5 * ((v + (0 - x) * 120 / 1000) * (72 / 100))
         * ((v + (0 - x) * 120 / 1000) * (72 / 100)))
    = 145219 / 781250
        * ((x - 33075 / 145219 * v) * (x - 33075 / 145219 * v))
      + 49833 / 145219 * (v * v)) by field.
  nra.
Qed.

(** The energy of a perturbed point. *)
Lemma axisEnergy_perturbed (x v ex ev : R) :
  axisEnergy (x + ex) (v + ev)
  <= 21 / 20 * axisEnergy x v + 21 * axisEnergy ex ev.
Proof.
  pose proof (axisEnergy_nonneg (x - 20 * ex) (v - 20 * ev)) as Hn.
  unfold axisEnergy in *. lra.
Qed.

(** The five rounded operations of a frame on one axis, chained: the new
    velocity and position are within [5 * 2^-51] of the size of the state,
    and 29 absolute errors, of the exact ones. *)
Lemma axis_step_error (X V A Bq C V' X' K eta : R) :
  0 < eta <= 1 ->
  Rabs (K - 72 / 100) <= / 2251799813685248 ->
  Rabs (A - (- X) * 120) <= / 2251799813685248 * Rabs ((- X) * 120) + eta ->
  Rabs (Bq - A / 1000) <= / 2251799813685248 * Rabs (A / 1000) + eta ->
  Rabs (C - (V + Bq)) <= / 2251799813685248 * Rabs (V + Bq) + eta ->
  Rabs (V' - C * K) <= / 2251799813685248 * Rabs (C * K) + eta ->
  Rabs (X' - (X + V')) <= / 2251799813685248 * Rabs (X + V') + eta ->
  Rabs (V' - axisVelocity X V)
  <= 5 / 2251799813685248 * (Rabs X + Rabs V) + 29 * eta /\
  Rabs (X' - axisPosition X V)
  <= 5 / 2251799813685248 * (Rabs X + Rabs V) + 29 * eta.
Proof.
  intros Heta HK H1 H2 H3 H4 H5.
  unfold axisPosition, axisVelocity.
  pose proof (Rabs_pos X) as Hax. pose proof (Rabs_pos V) as Hav.
  pose proof (Rabs_le_inv X (Rabs X) (Rle_refl _)) as HX.
  pose proof (Rabs_le_inv V (Rabs V) (Rle_refl _)) as HV.
  set (ax := Rabs X) in *. set (av := Rabs V) in *.
  apply Rabs_le_inv in HK.
  assert (B1 : Rabs ((- X) * 120) <= 120 * ax) by (apply Rabs_le; lra).
  apply Rabs_le_inv in H1.
  assert (B2 : Rabs (A / 1000) <= 121 / 1000 * ax + eta) by (apply Rabs_le; lra).
  apply Rabs_le_inv in H2.
  assert (B3 : Rabs (V + Bq) <= av + 13 / 100 * ax + 3 * eta) by (apply Rabs_le; lra).
  apply Rabs_le_inv in H3.
  assert (BC : Rabs C <= 101 / 100 * (ax + av) + 5 * eta) by (apply Rabs_le; lra).
  assert (BK : Rabs K <= 73 / 100) by (apply Rabs_le; lra).
  assert (B4 : Rabs (C * K) <= 74 / 100 * (ax + av) + 4 * eta).
  { rewrite Rabs_mult. pose proof (Rabs_pos C). pose proof (Rabs_pos K). nra. }
  assert (BD : Rabs (C * K - C * (72 / 100))
               <= / 2251799813685248 * (101 / 100 * (ax + av) + 5 * eta)).
  { replace (C * K - C * (72 / 100)) with (C * (K - 72 / 100)) by ring.
    rewrite Rabs_mult. pose proof (Rabs_pos C).
    assert (Rabs (K - 72 / 100) <= / 2251799813685248) by (apply Rabs_le; lra).
    pose proof (Rabs_pos (K - 72 / 100)). nra. }
  apply Rabs_le_inv in H4. apply Rabs_le_inv in BD.
  assert (R1 : Rabs (V' - (V + (0 - X) * 120 / 1000) * (72 / 100))
               <= 5 / 2251799813685248 * (ax + av) + 14 * eta)
    by (apply Rabs_le; lra).
  split; [eapply Rle_trans; [exact R1|lra]|].
  apply Rabs_le_inv in R1.
  assert (B5 : Rabs (X + V') <= 2 * (ax + av) + 15 * eta) by (apply Rabs_le; lra).
  apply Rabs_le_inv in H5.
  apply Rabs_le; lra.
Qed.

End SpringReals.

Section SpringEnergy.

Local Open Scope R_scope.

Lemma sq_abs_le (a b : R) : Rabs a <= b -> a * a <= b * b.
Proof. intros H. apply Rabs_le_inv in H. nra. Qed.

(** A rounded frame still brings the energy down, by a twentieth. *)
Lemma axisEnergy_rounded (X V X' V' eta : R) :
  0 < eta <= 1 ->
  Rabs (V' - axisVelocity X V)
  <= 5 / 2251799813685248 * (Rabs X + Rabs V) + 29 * eta ->
  Rabs (X' - axisPosition X V)
  <= 5 / 2251799813685248 * (Rabs X + Rabs V) + 29 * eta ->
  axisEnergy X' V' <= 95 / 100 * axisEnergy X V + 500000 * (eta * eta).
Proof.
  intros Heta HV HX.
  set (X1 := axisPosition X V) in *. set (V1 := axisVelocity X V) in *.
  set (S := Rabs X + Rabs V) in *.
  pose proof (axisEnergy_contracts X V) as Hc. fold X1 V1 in Hc.
  pose proof (axisEnergy_perturbed X1 V1 (X' - X1) (V' - V1)) as Hp.
  replace (X1 + (X' - X1)) with X' in Hp by ring.
  replace (V1 + (V' - V1)) with V' in Hp by ring.
  pose proof (axisEnergy_bounds (X' - X1) (V' - V1)) as [_ Hu].
  pose proof (axisEnergy_bounds X V) as [Hl _].
  apply sq_abs_le in HV, HX.
  assert (HS : S * S <= 2 * (X * X + V * V)).
  { unfold S. pose proof (Rabs_pos X). pose proof (Rabs_pos V).
    assert (Rabs X * Rabs X = X * X) by (rewrite <- Rabs_mult; apply Rabs_pos_eq; nra).
    assert (Rabs V * Rabs V = V * V) by (rewrite <- Rabs_mult; apply Rabs_pos_eq; nra).
    pose proof (Rle_0_sqr (Rabs X - Rabs V)) as Hq. unfold Rsqr in Hq. lra. }
  assert (HS0 : 0 <= S) by (unfold S; pose proof (Rabs_pos X); pose proof (Rabs_pos V); lra).
  assert (Hsq : (5 / 2251799813685248 * S + 29 * eta)
                * (5 / 2251799813685248 * S + 29 * eta)
                <= 2 * (5 / 2251799813685248 * (5 / 2251799813685248)) * (S * S)
                   + 1682 * (eta * eta)).
  { pose proof (Rle_0_sqr (5 / 2251799813685248 * S - 29 * eta)) as Hq.
    unfold Rsqr in Hq. lra. }
  assert (He2 : 0 <= eta * eta) by nra.
  assert (HSS : 0 <= S * S) by nra.
  lra.
Qed.

End SpringEnergy.

Section SpringFloat.

Local Open Scope R_scope.

Lemma const_value (c : float) (m : positive) (n : Z) :
  Prim2SF c = S754_finite false m (- n) -> (0 <= n)%Z ->
  nonneg c /\ B2R c = IZR (Zpos m) / IZR (2 ^ n).
Proof.
  intros Hc Hn. unfold nonneg, B2R. rewrite Hc. split; [reflexivity|].
  cbn [SF2R]. rewrite (pow2_neg n Hn). reflexivity.
Qed.

Lemma value_120 : nonneg (F.ofZ 120) /\ B2R (F.ofZ 120) = 120.
Proof.
  destruct (const_value (F.ofZ 120) 8444249301319680 46) as [Hn Hv];
    [vm_compute; reflexivity|lia|].
  split; [exact Hn|]. rewrite Hv.
  change (2 ^ 46)%Z with 70368744177664%Z. lra.
Qed.

Lemma value_1000 : nonneg (F.ofZ 1000) /\ B2R (F.ofZ 1000) = 1000.
Proof.
  destruct (const_value (F.ofZ 1000) 8796093022208000 43) as [Hn Hv];
    [vm_compute; reflexivity|lia|].
  split; [exact Hn|]. rewrite Hv.
  change (2 ^ 43)%Z with 8796093022208%Z. lra.
Qed.

(** [1 - 28 / 100] on binary64: 0.72, less 2.7e-17. *)
Lemma value_friction :
  nonneg (F.ofZ 1 - F.ofZ 28 / F.ofZ 100) /\
  Rabs (B2R (F.ofZ 1 - F.ofZ 28 / F.ofZ 100) - 72 / 100) <= / 2251799813685248.
Proof.
  destruct (const_value (F.ofZ 1 - F.ofZ 28 / F.ofZ 100) 6485183463413514 53)
    as [Hn Hv]; [vm_compute; reflexivity|lia|].
  split; [exact Hn|]. rewrite Hv.
  change (2 ^ 53)%Z with 9007199254740992%Z. apply Rabs_le. lra.
Qed.

Lemma value_tenth : nonneg (F.ofZ 1 / F.ofZ 10) /\ 99 / 1000 <= B2R (F.ofZ 1 / F.ofZ 10).
Proof.
  destruct (const_value (F.ofZ 1 / F.ofZ 10) 7205759403792794 56) as [Hn Hv];
    [vm_compute; reflexivity|lia|].
  split; [exact Hn|]. rewrite Hv.
  change (2 ^ 56)%Z with 72057594037927936%Z. lra.
Qed.

Lemma value_half : nonneg (F.ofZ 5 / F.ofZ 10) /\ 99 / 1000 <= B2R (F.ofZ 5 / F.ofZ 10).
Proof.
  destruct (const_value (F.ofZ 5 / F.ofZ 10) 4503599627370496 53) as [Hn Hv];
    [vm_compute; reflexivity|lia|].
  split; [exact Hn|]. rewrite Hv.
  change (2 ^ 53)%Z with 9007199254740992%Z. lra.
Qed.

Lemma eta_small : 0 < pow2 (-1073) <= / 1048576.
Proof.
  split; [apply pow2_pos|].
  pose proof (pow2_le (-1073) (-20) ltac:(lia)) as H.
  pose proof (pow2_neg 20 ltac:(lia)) as H20.
  change (- (20))%Z with (-20)%Z in H20. rewrite H20 in H. exact H.
Qed.

Lemma pow2_411 : 1 <= pow2 411 /\ 1048576 * pow2 411 <= pow2 900.
Proof.
  split; [apply pow2_ge_1; lia|].
  pose proof (pow2_le (20 + 411) 900 ltac:(lia)) as H.
  rewrite pow2_add, (pow2_IZR 20) in H by lia. exact H.
Qed.

(** A rounded value is at most as large as twice the exact one, and one. *)
Lemma rounds_to_bound (v t : R) (x : float) :
  rounds_to v x -> Rabs v <= t -> Rabs (B2R x) <= 2 * t + 1.
Proof.
  intros [_ Hr] Ht. rewrite pow2_m51 in Hr.
  pose proof eta_small as He. pose proof (Rabs_pos v).
  pose proof (Rabs_le_inv _ _ Ht) as Ht'.
  apply Rabs_le_inv in Hr. apply Rabs_le. lra.
Qed.

(** One frame on one axis: velocity and position stay finite and follow the
    exact frame. *)
Lemma float_axis_step (x v : float) :
  finite x = true -> finite v = true ->
  Rabs (B2R x) <= pow2 411 -> Rabs (B2R v) <= pow2 411 ->
  let v' := ((v + (0 - x) * F.ofZ 120 / F.ofZ 1000)
             * (F.ofZ 1 - F.ofZ 28 / F.ofZ 100))%float in
  let x' := (x + v')%float in
  finite v' = true /\ finite x' = true /\
  Rabs (B2R v' - axisVelocity (B2R x) (B2R v))
  <= 5 / 2251799813685248 * (Rabs (B2R x) + Rabs (B2R v)) + 29 * pow2 (-1073) /\
  Rabs (B2R x' - axisPosition (B2R x) (B2R v))
  <= 5 / 2251799813685248 * (Rabs (B2R x) + Rabs (B2R v)) + 29 * pow2 (-1073).
Proof.
  intros Fx Fv Bx Bv. cbv zeta.
  destruct pow2_411 as [M1 MP]. set (M := pow2 411) in *. set (P := pow2 900) in *.
  destruct value_120 as [N120 V120]. destruct value_1000 as [N1000 V1000].
  destruct value_friction as [Nk Vk].
  set (k := (F.ofZ 1 - F.ofZ 28 / F.ofZ 100)%float) in *.
  destruct (sub_zero_real x Fx) as [Fdx Vdx].
  set (dx := (0 - x)%float) in *.
  assert (Bdx : Rabs (B2R dx) <= M) by (rewrite Vdx, Rabs_Ropp; exact Bx).
  (* dx * 120 *)
  assert (E1 : Rabs (B2R dx * B2R (F.ofZ 120)) <= 120 * M).
  { rewrite V120, Rabs_mult, (Rabs_pos_eq 120) by lra. lra. }
  destruct (mul_real dx (F.ofZ 120) Fdx (nonneg_finite _ N120)) as [R1 _];
    [fold P; lra|].
  pose proof (rounds_to_bound _ _ _ R1 E1) as B1.
  set (a := (dx * F.ofZ 120)%float) in *.
  (* / 1000 *)
  assert (E2 : Rabs (B2R a / B2R (F.ofZ 1000)) <= M).
  { rewrite V1000. unfold Rdiv. rewrite Rabs_mult, (Rabs_pos_eq (/ 1000)) by lra. lra. }
  destruct R1 as [Fa R1].
  assert (R2 : rounds_to (B2R a / B2R (F.ofZ 1000)) (a / F.ofZ 1000)).
  { apply div_real; [exact Fa|exact (nonneg_finite _ N1000)|rewrite V1000; lra|].
    fold P. lra. }
  pose proof (rounds_to_bound _ _ _ R2 E2) as B2.
  set (b := (a / F.ofZ 1000)%float) in *.
  destruct R2 as [Fb R2].
  (* v + *)
  assert (E3 : Rabs (B2R v + B2R b) <= 4 * M).
  { eapply Rle_trans; [apply Rabs_triang|]. lra. }
  destruct (add_real v b Fv Fb) as [R3 _]; [fold P; lra|].
  pose proof (rounds_to_bound _ _ _ R3 E3) as B3.
  set (c := (v + b)%float) in *.
  destruct R3 as [Fc R3].
  (* * friction *)
  assert (Bk : Rabs (B2R k) <= 1).
  { apply Rabs_le_inv in Vk. apply Rabs_le. lra. }
  assert (E4 : Rabs (B2R c * B2R k) <= 9 * M).
  { rewrite Rabs_mult. pose proof (Rabs_pos (B2R c)). pose proof (Rabs_pos (B2R k)). nra. }
  destruct (mul_real c k Fc (nonneg_finite _ Nk)) as [R4 _]; [fold P; lra|].
  pose proof (rounds_to_bound _ _ _ R4 E4) as B4.
  set (v' := (c * k)%float) in *.
  destruct R4 as [Fv' R4].
  (* x + *)
  assert (E5 : Rabs (B2R x + B2R v') <= 20 * M).
  { eapply Rle_trans; [apply Rabs_triang|]. lra. }
  destruct (add_real x v' Fx Fv') as [R5 _]; [fold P; lra|].
  destruct R5 as [Fx' R5].
  split; [exact Fv'|]. split; [exact Fx'|].
  rewrite pow2_m51 in R1, R2, R3, R4, R5.
  rewrite V120, Vdx in R1. rewrite V1000 in R2.
  pose proof eta_small as He.
  apply (axis_step_error (B2R x) (B2R v) (B2R a) (B2R b) (B2R c) (B2R v')
           (B2R (x + v')) (B2R k) (pow2 (-1073))); try assumption.
  lra.
Qed.

Lemma abs_le_of_sq (a m : R) : 0 <= m -> a * a <= m * m -> Rabs a <= m.
Proof. intros Hm Hsq. apply Rabs_le. split; nra. Qed.

(** The test [sqrt (a * a + b * b) < c] holds on binary64 when the exact
    norm is at most 1/12 and [c] is 0.1 or 0.5. *)
Lemma float_norm_lt (a b c : float) :
  finite a = true -> finite b = true -> nonneg c -> 99 / 1000 <= B2R c ->
  B2R a * B2R a + B2R b * B2R b <= 1 / 144 ->
  (PrimFloat.sqrt (a * a + b * b) <? c)%float = true.
Proof.
  intros Fa Fb Nc Hc Hsum.
  destruct pow2_411 as [M1 MP]. set (M := pow2 411) in *. set (P := pow2 900) in *.
  pose proof eta_small as He.
  assert (HA : 0 <= B2R a * B2R a) by nra.
  assert (HB : 0 <= B2R b * B2R b) by nra.
  destruct (mul_real a a Fa Fa) as [[F1 R1] N1];
    [rewrite Rabs_pos_eq by exact HA; fold P; lra|].
  destruct (mul_real b b Fb Fb) as [[F2 R2] N2];
    [rewrite Rabs_pos_eq by exact HB; fold P; lra|].
  specialize (N1 eq_refl). specialize (N2 eq_refl).
  rewrite pow2_m51, (Rabs_pos_eq _ HA) in R1.
  rewrite pow2_m51, (Rabs_pos_eq _ HB) in R2.
  apply Rabs_le_inv in R1, R2.
  pose proof (nonneg_B2R _ N1) as P1. pose proof (nonneg_B2R _ N2) as P2.
  destruct (add_real (a * a) (b * b) F1 F2) as [[F3 R3] N3];
    [rewrite Rabs_pos_eq by lra; fold P; lra|].
  specialize (N3 N1 N2).
  rewrite pow2_m51, (Rabs_pos_eq (B2R (a * a) + B2R (b * b))) in R3 by lra.
  apply Rabs_le_inv in R3.
  pose proof (nonneg_B2R _ N3) as P3.
  set (s := (a * a + b * b)%float) in *.
  assert (Hs : B2R s <= 81 / 10000) by lra.
  assert (Hsq : R_sqrt.sqrt (B2R s) <= 9 / 100).
  { replace (9 / 100) with (R_sqrt.sqrt (9 / 100 * (9 / 100)))
      by (apply sqrt_square; lra).
    apply sqrt_le_1; lra. }
  pose proof (sqrt_pos (B2R s)) as Hsq0.
  destruct (sqrt_real s N3) as [[F4 R4] N4]; [fold P; lra|].
  rewrite pow2_m51, (Rabs_pos_eq (R_sqrt.sqrt (B2R s))) in R4 by exact Hsq0.
  apply Rabs_le_inv in R4.
  apply (ltb_real _ _ N4 Nc). lra.
Qed.

End SpringFloat.

Section SpringRun.

Local Open Scope R_scope.

Variables cos sin : float -> float.
Variable opts : Options float.
Variable content : string.

Let Engine : Number float := FloatNumberWith cos sin.

(** The absolute error a frame adds to the energy, at most. *)
Let tau : R := 1000000 * (pow2 (-1073) * pow2 (-1073)).

Lemma tau_small : 0 < tau <= / 1000000.
Proof.
  unfold tau. destruct eta_small as [H0 H1].
  split; [nra|].
  assert (pow2 (-1073) * pow2 (-1073) <= / 1048576 * / 1048576) by nra.
  lra.
Qed.

Lemma pow2_820 : pow2 820 * 4 = pow2 411 * pow2 411 /\ 1 <= pow2 820.
Proof.
  split; [|apply pow2_ge_1; lia].
  rewrite <- pow2_add. change (411 + 411)%Z with (820 + 2)%Z.
  rewrite pow2_add. change (pow2 2) with (2 * (2 * 1)). ring.
Qed.

(** One spring frame towards the anchor, on a state that is finite and not
    too large: the state stays finite, the energy falls by a twentieth up to
    the absolute error, and the frame settles once the energy is small. *)
Lemma float_springStep (s : State float) :
  targetX s = 0%float -> targetY s = 0%float ->
  finiteState s -> floatEnergy s <= pow2 820 ->
  finiteState (springStep (H := Engine) s) /\
  floatEnergy (springStep (H := Engine) s) <= 95 / 100 * floatEnergy s + tau /\
  (floatEnergy s <= 1 / 200 ->
   springSettled (H := Engine) s (springStep (H := Engine) s) = true).
Proof.
  intros Tx Ty (Fx & Fy & Fvx & Fvy) HE.
  destruct (springStep_fields (H := Engine) s) as (F1 & F2 & F3 & F4 & _ & _ & _ & F8).
  cbv zeta in F1, F2, F3, F4, F8.
  rewrite Tx in F1, F3, F8. rewrite Ty in F2, F4, F8.
  unfold floatEnergy in *.
  set (x := currentX s) in *. set (y := currentY s) in *.
  set (vx := velocityX s) in *. set (vy := velocityY s) in *.
  pose proof (axisEnergy_bounds (B2R x) (B2R vx)) as [Lx _].
  pose proof (axisEnergy_bounds (B2R y) (B2R vy)) as [Ly _].
  pose proof (axisEnergy_nonneg (B2R x) (B2R vx)) as Nx.
  pose proof (axisEnergy_nonneg (B2R y) (B2R vy)) as Ny.
  destruct pow2_820 as [H820 H820'].
  assert (HM : 0 <= pow2 411) by (apply Rlt_le, pow2_pos).
  assert (Bx : Rabs (B2R x) <= pow2 411) by (apply abs_le_of_sq; nra).
  assert (By : Rabs (B2R y) <= pow2 411) by (apply abs_le_of_sq; nra).
  assert (Bvx : Rabs (B2R vx) <= pow2 411) by (apply abs_le_of_sq; nra).
  assert (Bvy : Rabs (B2R vy) <= pow2 411) by (apply abs_le_of_sq; nra).
  pose proof (float_axis_step x vx Fx Fvx Bx Bvx) as Ax.
  pose proof (float_axis_step y vy Fy Fvy By Bvy) as Ay.
  cbv zeta in Ax, Ay.
  change (F.ofZ 0) with 0%float in *.
  set (vx' := velocityX (springStep (H := Engine) s)) in *.
  set (vy' := velocityY (springStep (H := Engine) s)) in *.
  set (x' := currentX (springStep (H := Engine) s)) in *.
  set (y' := currentY (springStep (H := Engine) s)) in *.
  change (@mul float Engine) with PrimFloat.mul in *.
  change (@add float Engine) with PrimFloat.add in *.
  change (@sub float Engine) with PrimFloat.sub in *.
  change (@div float Engine) with PrimFloat.div in *.
  change (@ofZ float Engine) with F.ofZ in *.
  change (F.ofZ 0) with 0%float in *.
  rewrite <- F3 in Ax. rewrite <- F1 in Ax. rewrite <- F4 in Ay. rewrite <- F2 in Ay.
  rewrite <- F1, <- F2 in F8.
  destruct Ax as (Fvx' & Fx' & Evx & Ex). destruct Ay as (Fvy' & Fy' & Evy & Ey).
  pose proof eta_small as He.
  assert (He1 : 0 < pow2 (-1073) <= 1) by lra.
  pose proof (axisEnergy_rounded _ _ _ _ _ He1 Evx Ex) as Cx.
  pose proof (axisEnergy_rounded _ _ _ _ _ He1 Evy Ey) as Cy.
  assert (Htau : tau = 500000 * (pow2 (-1073) * pow2 (-1073))
                       + 500000 * (pow2 (-1073) * pow2 (-1073)))
    by (unfold tau; ring).
  split; [repeat split; assumption|].
  split; [lra|].
  intros Hsmall.
  pose proof tau_small as Ht.
  pose proof (axisEnergy_bounds (B2R x') (B2R vx')) as [Lx' _].
  pose proof (axisEnergy_bounds (B2R y') (B2R vy')) as [Ly' _].
  rewrite F8.
  change (@ltb float Engine) with PrimFloat.ltb.
  change (@Math_sqrt float Engine) with PrimFloat.sqrt.
  change (dec (H := Engine) 1 10) with (F.ofZ 1 / F.ofZ 10)%float.
  change (dec (H := Engine) 5 10) with (F.ofZ 5 / F.ofZ 10)%float.
  destruct value_tenth as [Nt Vt]. destruct value_half as [Nh Vh].
  destruct (sub_zero_real x Fx) as [Fdx Vdx].
  destruct (sub_zero_real y Fy) as [Fdy Vdy].
  apply andb_true_iff. split.
  - apply float_norm_lt; try assumption. nra.
  - apply float_norm_lt; try assumption. rewrite Vdx, Vdy. nra.
Qed.

(** The spring frame the host delivers next, in a reachable world where a
    return towards the anchor is running. *)
Lemma float_spring_frame (w : World float) (id : handle) :
  Reachable (H := Engine) opts content w -> In (id, SpringFrame) (frames w) ->
  targetX (state w) = 0%float -> targetY (state w) = 0%float ->
  finiteState (state w) -> floatEnergy (state w) <= pow2 820 ->
  exists w',
    deliverSpringFrame (H := Engine) opts w = Some w' /\
    Reachable (H := Engine) opts content w' /\
    (atAnchor w' \/
     (1 / 200 < floatEnergy (state w) /\
      (exists k, In (k, SpringFrame) (frames w')) /\
      targetX (state w') = 0%float /\ targetY (state w') = 0%float /\
      finiteState (state w') /\
      floatEnergy (state w') <= 95 / 100 * floatEnergy (state w) + tau)).
Proof.
  intros Hreach Hin Tx Ty Hfin HE.
  assert (Hp : In id (pendingFrames SpringFrame w)) by (apply pendingFrames_In; exact Hin).
  unfold deliverSpringFrame.
  destruct (pendingFrames SpringFrame w) as [|k rest] eqn:Ep; [contradiction|].
  assert (Hk : In (k, SpringFrame) (frames w)).
  { apply pendingFrames_In. rewrite Ep. now left. }
  destruct (spring_frame_effects (H := Engine) opts content w (clock w + 16) k
              (ofZ (clock w + 16)) Hreach Hk ltac:(lia))
    as (Hr & w' & Hd & Hstop & Hgo).
  exists w'. split; [exact Hd|].
  split; [exact (Reachable_step (H := Engine) opts content _ _ w w' Hreach Hd)|].
  destruct (float_springStep (state w) Tx Ty Hfin HE) as (Hfin' & Hdown & Hsettle).
  destruct (springStep_fields (H := Engine) (state w))
    as (_ & _ & _ & _ & F5 & F6 & F7 & _).
  destruct (springSettled (H := Engine) (state w) (springStep (H := Engine) (state w)))
    eqn:Es.
  - left. destruct (Hstop eq_refl) as (S1 & S2 & S3).
    unfold atAnchor. rewrite S1.
    split; [reflexivity|]. split; [exact (eq_trans F5 Tx)|].
    split; [exact (eq_trans F6 Ty)|]. split; [reflexivity|]. split; [reflexivity|].
    split; [exact S2|exact S3].
  - right. destruct (Hgo eq_refl) as (S1 & j & S2 & S3).
    split.
    { destruct (Rle_lt_dec (floatEnergy (state w)) (1 / 200)) as [Hle|Hlt];
        [|exact Hlt].
      specialize (Hsettle Hle). discriminate Hsettle. }
    split.
    { exists j. apply pendingFrames_In. rewrite S3. now left. }
    rewrite S1. split; [exact (eq_trans F5 Tx)|]. split; [exact (eq_trans F6 Ty)|].
    split; [exact Hfin'|exact Hdown].
Qed.

(** Frames are delivered until the return is over, which it is once the
    energy bound has come down to 1/200. *)
Lemma float_spring_run (n : nat) :
  forall (w : World float) (id : handle) (e : R),
    Reachable (H := Engine) opts content w -> In (id, SpringFrame) (frames w) ->
    targetX (state w) = 0%float -> targetY (state w) = 0%float ->
    finiteState (state w) -> floatEnergy (state w) <= e -> e <= pow2 820 ->
    (95 / 100) ^ n * (e - 20 * tau) + 20 * tau <= 1 / 200 ->
    exists (m : nat) (w' : World float),
      (m <= S n)%nat /\
      deliverSpringFrames (H := Engine) opts m w = Some w' /\ atAnchor w'.
Proof.
  pose proof tau_small as Ht. destruct pow2_820 as [_ H820].
  induction n as [|n IH]; intros w id e Hreach Hin Tx Ty Hfin He He820 Hn.
  - destruct (float_spring_frame w id Hreach Hin Tx Ty Hfin ltac:(lra))
      as (w' & Hd & _ & [Hrest|(Hbig & _)]).
    + exists 1%nat, w'. split; [lia|]. split; [|exact Hrest].
      cbn [deliverSpringFrames]. rewrite Hd. reflexivity.
    + exfalso. cbn [pow] in Hn. lra.
  - destruct (float_spring_frame w id Hreach Hin Tx Ty Hfin ltac:(lra))
      as (w' & Hd & Hreach' & [Hrest|(Hbig & (k & Hk) & Tx' & Ty' & Hfin' & Hdown)]).
    + exists 1%nat, w'. split; [lia|]. split; [|exact Hrest].
      cbn [deliverSpringFrames]. rewrite Hd. reflexivity.
    + destruct (IH w' k (95 / 100 * e + tau) Hreach' Hk Tx' Ty' Hfin')
        as (m & w'' & Hm & Hrun & Hrest).
      * lra.
      * lra.
      * cbn [pow] in Hn.
        replace (95 / 100 * e + tau - 20 * tau) with (95 / 100 * (e - 20 * tau))
          by lra.
        lra.
      * exists (S m), w''. split; [lia|]. split; [|exact Hrest].
        cbn [deliverSpringFrames]. rewrite Hd. exact Hrun.
Qed.

Lemma pow_095_14 : (95 / 100) ^ 14 <= 1 / 2.
Proof. cbn [pow]. lra. Qed.

Lemma pow_half (j : nat) : (1 / 2) ^ j = pow2 (- Z.of_nat j).
Proof.
  rewrite pow2_neg by lia. rewrite <- pow_IZR.
  replace (1 / 2) with (/ 2) by lra. rewrite pow_inv. reflexivity.
Qed.

Lemma value_2pow400 :
  nonneg 0x1p+400%float /\ B2R 0x1p+400%float = pow2 400.
Proof.
  unfold nonneg, B2R.
  assert (E : Prim2SF 0x1p+400%float = S754_finite false 4503599627370496 348)
    by (vm_compute; reflexivity).
  rewrite E. split; [reflexivity|]. cbn [SF2R].
  change 400%Z with (52 + 348)%Z. rewrite pow2_add, (pow2_IZR 52) by lia.
  reflexivity.
Qed.

(** From any state below 2^400 in every component the return is over within
    11383 frames. *)
Lemma float_spring_terminates (w : World float) (id : handle) :
  Reachable (H := Engine) opts content w -> In (id, SpringFrame) (frames w) ->
  targetX (state w) = 0%float -> targetY (state w) = 0%float ->
  (abs (currentX (state w)) <=? 0x1p+400)%float = true ->
  (abs (currentY (state w)) <=? 0x1p+400)%float = true ->
  (abs (velocityX (state w)) <=? 0x1p+400)%float = true ->
  (abs (velocityY (state w)) <=? 0x1p+400)%float = true ->
  exists (n : nat) (w' : World float),
    (Z.of_nat n <= 11383)%Z /\
    deliverSpringFrames (H := Engine) opts n w = Some w' /\ atAnchor w'.
Proof.
  intros Hreach Hin Tx Ty Bx By Bvx Bvy.
  destruct value_2pow400 as [Nb Vb].
  destruct (abs_leb_real _ _ Nb Bx) as [Fx Lx].
  destruct (abs_leb_real _ _ Nb By) as [Fy Ly].
  destruct (abs_leb_real _ _ Nb Bvx) as [Fvx Lvx].
  destruct (abs_leb_real _ _ Nb Bvy) as [Fvy Lvy].
  rewrite Vb in Lx, Ly, Lvx, Lvy.
  pose proof (pow2_pos 400) as H400.
  assert (H800 : pow2 400 * pow2 400 = pow2 800).
  { rewrite <- pow2_add. reflexivity. }
  apply sq_abs_le in Lx, Ly, Lvx, Lvy. rewrite H800 in Lx, Ly, Lvx, Lvy.
  assert (HE : floatEnergy (state w) <= 24 * pow2 800).
  { unfold floatEnergy.
    pose proof (axisEnergy_bounds (B2R (currentX (state w))) (B2R (velocityX (state w))))
      as [_ Ux].
    pose proof (axisEnergy_bounds (B2R (currentY (state w))) (B2R (velocityY (state w))))
      as [_ Uy].
    lra. }
  assert (H805 : 24 * pow2 800 <= pow2 820).
  { pose proof (pow2_le (5 + 800) 820 ltac:(lia)) as H.
    rewrite pow2_add, (pow2_IZR 5) in H by lia.
    change (IZR (2 ^ 5)) with 32 in H. pose proof (pow2_pos 800). lra. }
  pose proof tau_small as Ht.
  assert (Hpow : (95 / 100) ^ (14 * 813) * pow2 800 <= pow2 (-13)).
  { rewrite pow_mult.
    assert (Hle : ((95 / 100) ^ 14) ^ 813 <= (1 / 2) ^ 813).
    { apply pow_incr. split; [apply pow_le; lra|exact pow_095_14]. }
    rewrite pow_half in Hle.
    assert (Hm : pow2 (- Z.of_nat 813) * pow2 800 = pow2 (-13)).
    { rewrite <- pow2_add. f_equal. }
    rewrite <- Hm. apply Rmult_le_compat_r; [|exact Hle].
    apply Rlt_le, pow2_pos. }
  assert (H13 : pow2 (-13) = / 8192) by exact (pow2_neg 13 ltac:(lia)).
  assert (Hp0 : 0 <= (95 / 100) ^ (14 * 813)) by (apply pow_le; lra).
  destruct (float_spring_run (14 * 813) w id (24 * pow2 800) Hreach Hin Tx Ty
              (conj Fx (conj Fy (conj Fvx Fvy))) HE H805)
    as (m & w' & Hm & Hrun & Hrest).
  - rewrite H13 in Hpow.
    set (q := (95 / 100) ^ (14 * 813)) in *.
    assert (0 <= q * (20 * tau)) by nra.
    replace (q * (24 * pow2 800 - 20 * tau))
      with (24 * (q * pow2 800) - q * (20 * tau)) by ring.
    lra.
  - exists m, w'. split; [|split; [exact Hrun|exact Hrest]].
    assert (Hc : Z.of_nat (S (14 * 813)) = 11383%Z) by reflexivity.
    lia.
Qed.

End SpringRun.

(** *** The return, from start to rest (C7) *)

(** C7, as stated, fails on binary64.  With [escapeDistance: 1e307] and
    [edgePadding: -1e308] an escape lands the button 1e307 to the left, and
    the return timer starts the spring from there, at rest, towards (0, 0).
    The first frame multiplies the offset by 120: the velocity becomes
    infinite, and on the second frame NaN.  From then on the speed is NaN,
    the termination test [speed < 0.1] is false on every frame, and every
    frame requests the next: after any number of frames the return is still
    running. *)
Lemma spring_overflow_never_stops :
  (Reachable hugeOptions "Click me" overflowStart /\
   currentX (state overflowStart) = -0x1.c7b1f3cac7433p+1019 /\
   currentY (state overflowStart) = 0 /\
   velocityX (state overflowStart) = 0 /\ velocityY (state overflowStart) = 0 /\
   targetX (state overflowStart) = 0 /\ targetY (state overflowStart) = 0 /\
   isReturning (state overflowStart) = true /\
   forall n : nat, exists w',
     deliverSpringFrames hugeOptions n overflowStart = Some w' /\
     isReturning (state w') = true /\
     pendingFrames SpringFrame w' <> [])%float.
Proof.
  split; [exact overflowStart_reachable|].
  repeat (split; [vm_compute; reflexivity|]).
  assert (E2 : deliverSpringFrames hugeOptions 2 overflowStart = Some overflowNaN)
    by (vm_compute; reflexivity).
  intros [|[|n]].
  - eexists. split; [reflexivity|]. split; vm_compute; [reflexivity|discriminate].
  - eexists. split; [vm_compute; reflexivity|].
    split; vm_compute; [reflexivity|discriminate].
  - change (S (S n)) with (2 + n).
    rewrite deliverSpringFrames_add, E2.
    destruct (nan_spring_never_stops F.cos_table F.sin_table hugeOptions n overflowNaN)
      as (w' & Hd & Hr & _ & id & Hf).
    + vm_compute; reflexivity.
    + vm_compute; reflexivity.
    + eexists. vm_compute. reflexivity.
    + exists w'. split; [exact Hd|]. split; [exact Hr|].
      unfold pendingFrames. rewrite Hf. discriminate.
Qed.

(** C7, amended.  First, for every number instance (on binary64 every
    operation is the rounded one): a spring frame that the host delivers in a
    reachable world belongs to a return in progress.  It computes
    [velocity += displacement * 120 / 1000; velocity *= 1 - 28 / 100;
    position += velocity] on each axis, and tests the termination
    condition: the speed after the update below 0.1 and the distance to
    the target before it below 0.5.  On the frame that meets the
    condition the position is set exactly to the target with zero velocity,
    [isReturning] is cleared and no spring frame is left pending; on every
    other frame exactly one further spring frame is requested.  The target
    is what [returnToCenter] set, the anchor offset (0, 0), and the spring
    does not change it.

    Second, on binary64, whatever [Math.cos] and [Math.sin] are: when a
    return towards the anchor offset (0, 0) is running in a reachable world
    and the offset and the velocity are at most 2^400 in magnitude on each
    axis, the host delivers at most 11383 spring frames before the return
    is over, with the button exactly on the anchor offset, at rest,
    [isReturning] cleared and no spring frame pending. *)
Theorem spring_return_stops_on_anchor :
  (forall (num : Type) (NumOps : Number num) (opts : Options num)
          (content : string) (w : World num) (t : Z) (id : handle) (ts : num),
     Reachable opts content w -> In (id, SpringFrame) (frames w) ->
     (clock w <= t)%Z ->
     let s := state w in
     let dx := sub (targetX s) (currentX s) in
     let dy := sub (targetY s) (currentY s) in
     let vx := mul (add (velocityX s) (div (mul dx (ofZ 120)) (ofZ 1000)))
                   (sub (ofZ 1) (div (ofZ 28) (ofZ 100))) in
     let vy := mul (add (velocityY s) (div (mul dy (ofZ 120)) (ofZ 1000)))
                   (sub (ofZ 1) (div (ofZ 28) (ofZ 100))) in
     let settled :=
       ltb (Math_sqrt (add (mul vx vx) (mul vy vy))) (dec 1 10)
       && ltb (Math_sqrt (add (mul dx dx) (mul dy dy))) (dec 5 10) in
     isReturning s = true /\
     (targetX (state (returnToCenter w)) = ofZ 0 /\
      targetY (state (returnToCenter w)) = ofZ 0) /\
     exists w', dispatch opts t (AnimationFrame id ts) w = Some w' /\
       targetX (state w') = targetX s /\ targetY (state w') = targetY s /\
       (settled = true ->
          currentX (state w') = targetX s /\ currentY (state w') = targetY s /\
          velocityX (state w') = ofZ 0 /\ velocityY (state w') = ofZ 0 /\
          isReturning (state w') = false /\ animationFrame w' = None /\
          pendingFrames SpringFrame w' = []) /\
       (settled = false ->
          velocityX (state w') = vx /\ velocityY (state w') = vy /\
          currentX (state w') = add (currentX s) vx /\
          currentY (state w') = add (currentY s) vy /\
          isReturning (state w') = true /\
          exists k, animationFrame w' = Some k /\ pendingFrames SpringFrame w' = [k]))
  /\
  (forall (cos sin : float -> float) (opts : Options float) (content : string)
          (w : World float) (id : handle),
     Reachable (H := FloatNumberWith cos sin) opts content w ->
     In (id, SpringFrame) (frames w) ->
     targetX (state w) = 0%float -> targetY (state w) = 0%float ->
     (abs (currentX (state w)) <=? 0x1p+400)%float = true ->
     (abs (currentY (state w)) <=? 0x1p+400)%float = true ->
     (abs (velocityX (state w)) <=? 0x1p+400)%float = true ->
     (abs (velocityY (state w)) <=? 0x1p+400)%float = true ->
     exists (n : nat) (w' : World float),
       (Z.of_nat n <= 11383)%Z /\
       deliverSpringFrames (H := FloatNumberWith cos sin) opts n w = Some w' /\
       isReturning (state w') = false /\
       currentX (state w') = 0%float /\ currentY (state w') = 0%float /\
       velocityX (state w') = 0%float /\ velocityY (state w') = 0%float /\
       animationFrame w' = None /\ pendingFrames SpringFrame w' = []).
Proof.
  split.
  - intros num NumOps opts content w t id ts Hreach Hin Hclk s dx dy vx vy settled.
    destruct (spring_frame_effects opts content w t id ts Hreach Hin Hclk)
      as (Hr & w' & Hd & Hstop & Hgo).
    split; [exact Hr|].
    split.
    { destruct (returnToCenter_effects w) as (_ & _ & T1 & T2 & _).
      split; assumption. }
    exists w'. split; [exact Hd|].
    destruct (springStep_fields s)
      as (F1 & F2 & F3 & F4 & F5 & F6 & F7 & F8).
    cbv zeta in F1, F2, F3, F4, F8.
    fold dx dy in F1, F2, F3, F4, F8. fold vx vy in F1, F2, F3, F4, F8.
    fold s in Hstop, Hgo. rewrite F8 in Hstop, Hgo. fold settled in Hstop, Hgo.
    destruct settled.
    + destruct (Hstop eq_refl) as (S1 & S2 & S3).
      split; [rewrite S1; exact F5|]. split; [rewrite S1; exact F6|].
      split; [|discriminate]. intros _.
      split; [rewrite S1; exact F5|]. split; [rewrite S1; exact F6|].
      split; [rewrite S1; reflexivity|]. split; [rewrite S1; reflexivity|].
      split; [rewrite S1; reflexivity|]. split; [exact S2|exact S3].
    + destruct (Hgo eq_refl) as (S1 & k & S2 & S3).
      split; [rewrite S1; exact F5|]. split; [rewrite S1; exact F6|].
      split; [discriminate|]. intros _.
      split; [rewrite S1; exact F1|]. split; [rewrite S1; exact F2|].
      split; [rewrite S1; exact F3|]. split; [rewrite S1; exact F4|].
      split; [rewrite S1, F7; exact Hr|].
      exists k. split; [exact S2|exact S3].
  - intros cos sin opts content w id Hreach Hin Tx Ty Bx By Bvx Bvy.
    destruct (float_spring_terminates cos sin opts content w id Hreach Hin Tx Ty
                Bx By Bvx Bvy) as (n & w' & Hn & Hrun & Hrest).
    exists n, w'. split; [exact Hn|]. split; [exact Hrun|exact Hrest].
Qed.

(** The return from the default jump: the button is 280px left of the anchor
    and at rest.  The first frame gives it the velocity 24.192 and requests
    the next one, and within 11383 frames the return is over. *)
Lemma spring_return_stops_on_anchor_witness :
  (exists w',
     dispatch floatDefaults (clock returnStart + 16) (AnimationFrame 16 0%float)
       returnStart = Some w' /\
     isReturning (state w') = true /\
     exists k, animationFrame w' = Some k /\ pendingFrames SpringFrame w' = [k]) /\
  (exists (n : nat) (w' : World float),
     (Z.of_nat n <= 11383)%Z /\
     deliverSpringFrames floatDefaults n returnStart = Some w' /\
     isReturning (state w') = false /\
     currentX (state w') = 0%float /\ currentY (state w') = 0%float /\
     velocityX (state w') = 0%float /\ velocityY (state w') = 0%float /\
     animationFrame w' = None /\ pendingFrames SpringFrame w' = []).
Proof.
  destruct spring_return_stops_on_anchor as [Hframe Hrun].
  split.
  - destruct (Hframe float FloatNumber floatDefaults
                "Click me"%string returnStart (clock returnStart + 16)%Z 16%nat 0%float
                returnStart_reachable)
      as (_ & _ & w' & Hd & _ & _ & _ & Hgo).
    + vm_compute. left. reflexivity.
    + lia.
    + destruct Hgo as (_ & _ & _ & _ & Hr & Hk); [vm_compute; reflexivity|].
      exists w'. split; [exact Hd|]. split; [exact Hr|exact Hk].
  - apply (Hrun F.cos_table F.sin_table floatDefaults "Click me"%string returnStart
             16%nat
             returnStart_reachable).
    + vm_compute. left. reflexivity.
    + vm_compute. reflexivity.
    + vm_compute. reflexivity.
    + vm_compute. reflexivity.
    + vm_compute. reflexivity.
    + vm_compute. reflexivity.
    + vm_compute. reflexivity.
Defined.

(** On binary64 the return from the default jump of 280px stops: 41 frames
    are each followed by another, and the 42nd sets the button exactly on
    the anchor, at rest, with no frame pending. *)
Lemma default_return_stops_after_42_frames :
  (forall n, n < 42 ->
     exists w', deliverSpringFrames floatDefaults n returnStart = Some w' /\
                isReturning (state w') = true /\
                pendingFrames SpringFrame w' <> []) /\
  exists w', deliverSpringFrames floatDefaults 42 returnStart = Some w' /\
    currentX (state w') = 0%float /\ currentY (state w') = 0%float /\
    velocityX (state w') = 0%float /\ velocityY (state w') = 0%float /\
    isReturning (state w') = false /\ animationFrame w' = None /\
    frames w' = [].
Proof.
  split.
  - intros n Hn.
    assert (Hall : forallb (fun k =>
              match deliverSpringFrames floatDefaults k returnStart with
              | Some w' => isReturning (state w')
                           && negb (Nat.eqb (length (pendingFrames SpringFrame w')) 0)
              | None => false
              end) (seq 0 42) = true) by (vm_compute; reflexivity).
    rewrite forallb_forall in Hall.
    specialize (Hall n). rewrite in_seq in Hall. specialize (Hall ltac:(lia)).
    destruct (deliverSpringFrames floatDefaults n returnStart) as [w'|];
      [|discriminate].
    apply andb_true_iff in Hall. destruct Hall as [Hr Hp].
    exists w'. split; [reflexivity|]. split; [exact Hr|].
    intros E. rewrite E in Hp. discriminate.
  - eexists. split; [vm_compute; reflexivity|].
    repeat (split; [vm_compute; reflexivity|]). vm_compute; reflexivity.
Qed.

